(* ===== verification/_CoqProject ===== *)
-Q . S2P
Prelude.v
MessageKeys.v
Config.v
Logger.v
SafeQueue.v
Wire.v
Generated.v
Beacon.v
Discovery.v
Registry.v
Dedup.v
Uuid.v
AnyFrame.v
Worker.v
Interest.v
Broker.v
BrokerInv.v
Delivery.v
BrokerSpec.v
Mesh.v
MeshSpec.v
BrokerMain.v
ZmqWorker.v
ZmqWorkerInv.v
ZmqWorkerSpec.v
SyncWait.v
ConnectionManager.v
ConnectionManagerInv.v
ConnectionManagerSpec.v
EndToEnd.v
Recording.v
Poller.v
ConnectionApi.v
TypedApi.v
Examples.v
PayloadFormat.v
HexDump.v
Options.v
BrokerSession.v
CliWorld.v
Commands.v
CommandsSpec.v
CommandsCapture.v
QtCore.v
QtBinding.v
Inspector.v
InspectorSpec.v
