(* ===== verification/Prelude.v ===== *)
(** * Wisp: a verification development

    Wisp is a message broker over ZeroMQ with a client library, written in C++.  Clients
    subscribe to topics and publish to them; a broker delivers to its own clients and
    floods to the brokers it is linked with (the mesh), which a duplicate filter keeps
    from looping; brokers of a cluster find each other by UDP beacons.  This library is a
    shallow embedding of that program: one file per component, its state as a record,
    its operations as functions with the names of the code, and the theorems that make
    it correct.

    ** Files

    Shared by everything:
    - [Prelude]: bytes, [std::string], machine integers, decimal numbers, the lemmas on
      them, the [wisp] hint database, the tactics.
    - [MessageKeys] ([common/messagekeys.h]): the reserved keys, subscription scopes
      ([Origin]) and their wire form.
    - [Config] ([common/config.h]): [parsePort] through [std::stoi], [parsePeerList] with
      its index loops, the limits.
    - [Logger] ([common/logger.h]): levels, handler, mutex and output line; the throttle.
    - [SafeQueue] ([common/safequeue.h]): the bounded queue between threads, as atomic
      steps under its mutex, and the wake-up protocol of its users.
    - [Wire] ([common/wireframe.h], [common/zmqframes.h], [broker.proto]): envelopes, the
      format byte, sending and receiving multipart groups.
    - [Generated] ([common/generated-c/], [common/generated/]): the C binding protoc
      generated, with its descriptor tables, and the C++ routing header: from the wire
      format its runtime documents it derives the laws [Wire] assumes of a header.
    - [Uuid] ([common/uuidhelper.h]), [AnyFrame] ([common/anyframe.h] and the payload
      encoding of [connectionmanager.h]): message ids; protobuf [Any] frames.
    - [Worker] ([common/workerinterface.h]): what a connection worker promises, as the
      class [WorkerInterface] with the laws [WorkerLaws].

    The broker ([server/]):
    - [Registry] ([subscriptionregistry.h]), [Dedup] (the duplicate filter of
      [broker.h]), [Beacon] and [Discovery] ([beacon.cpp], [discovery.cpp]).
    - [Interest] and [Broker] ([broker.cpp], [broker.h]): what a broker wants from the
      mesh; sessions, delivery, flooding, peer links, the sweep, stats and the loop.
      [Broker] is parametric in the worker of a peer link.
    - [BrokerInv], [Delivery], [BrokerSpec]: the invariant of the whole broker, delivery
      over the sockets, and the properties.
    - [Mesh], [MeshSpec]: brokers joined by their links into a network of any shape, with
      the packets between them in flight.
    - [BrokerMain] ([server/main.cpp], the opening of the sockets in [broker.cpp]): the
      program around it.

    The client ([common/], [cli/], [bindings/]):
    - [ZmqWorker], [ZmqWorkerInv], [ZmqWorkerSpec] ([zmqworker.cpp]): the connection
      worker.  Its run loop is cut at every lock of a queue or of the sync state, so that
      callers interleave between the sections; [wrun] is a run of loop and callers.  It is
      an instance of the worker interface.
    - [SyncWait] (the same file): [sync], [stop] and the loop's reports, lock by lock.
    - [ConnectionManager], [ConnectionManagerInv], [ConnectionManagerSpec]
      ([connectionmanager.cpp]): registrations, dispatch, request and reply, the
      singleton, over any worker.  A callback is what it does through the library: the
      list of actions it takes for a payload.
    - [EndToEnd]: clients and a broker composed over the wire.
    - [TypedApi] (the templates of [connectionmanager.h]): the choice of an encoding, the
      typed sends, callbacks and requests, waiting and flushing.
    - [ConnectionApi] ([connectionapi.cpp]): the C interface over it.
    - [Poller] ([bindings/polling/wisppoller.h]): the mailbox for frame loops.
    - [QtCore], [QtBinding] ([bindings/qt/qtconnectionadapter.h]): what is used of Qt;
      callbacks posted to the thread of an object that may be destroyed.
    - [Examples] ([examples/]): the two example programs.

    The command-line client ([cli/]):
    - [Options], [PayloadFormat], [Recording], [BrokerSession]: arguments, rendering,
      capture files, the session.
    - [CliWorld], [Commands] ([commands.cpp], [main.cpp]): every command from its arguments
      to its exit status, in a small monad [Cmd].  A world holds the session, the tap, the
      disk, the output and a script of what the outside does: each look at the clock, the
      interrupt flag or the network takes a [Tick] from it.  A run that needs more than the
      script has is [Waiting]; an exception is [Thrown].
    - [CommandsSpec], [CommandsCapture]: the properties, the latter of recording and replay.

    The inspector ([inspector/]):
    - [HexDump] ([hexutils.h], a part of [protoutils.h]), [Inspector] (the rest): the
      capture and its views, the broker list, attaching, the reading thread whose packets
      are posted to the window, replaying a message.
    - [InspectorSpec]: its properties.

    ** How the code is modelled

    A [std::string] is a [string] of bytes; a [w]-bit integer is a [Z] with [wrap w] or
    its range written out; a [std::map] or [std::unordered_map] is a [gmap], the latter
    with the order a loop meets it in as an argument ([HashOrder]); a failing call
    returns an option, a sum or a code.  Clocks, random draws, what the network delivers
    and what a system call takes are arguments.  Threads are interleavings: each critical
    section is one step, and a run is a list of steps.  Code outside the repository is a
    type class with its documented behaviour as laws: the protobuf runtimes
    ([ProtobufRuntime], [ProtobufLaws], [ProtobufMessage], [WireRuntime], [ProtobufC],
    [Reflection]), the ZMQ sockets ([ZmqSender], [ZmqReceiver] and their laws) and Qt
    ([Qt], [QtLaws]).  A header is parsed back only when its text fields are UTF-8 and it
    is within the two gigabytes of protobuf.  Each class with laws has a small instance
    ([demo_runtime], [demo_wire], [demo_sender], [demo_receiver], [demo_worker]) with which
    the witnesses evaluate.

    ** What the theorems show

    - Broker: every handler returns and keeps the invariant over all runs
      ([broker_run_invariant]); links mirror the interest ([mesh_interest_mirrored],
      [reset_resends_interest]); a message is delivered exactly once to whoever should
      get it and routed at most once ([delivery_exactly_once],
      [message_routed_at_most_once]); sessions, limits, reserved keys, the sweep, cluster
      swaps and the loop itself behave as documented, and every malformed message is in
      one report ([malformed_accounted]).
    - Mesh: however the links run in circles, the traffic of a message is bounded and comes
      to rest, and no client gets it twice ([mesh_no_storm]); with nothing lost and no drop
      counted, it reaches everyone who wants it, however far ([mesh_delivers]).
    - Composition: a callback registered in one client is called once with what another
      publishes through the broker ([publish_end_to_end]); the example programs understand
      each other ([examples_converse]).
    - Registry and duplicate filter refine a map and a set ([registry_refines],
      [MessageIdSet_refines]); the filter remembers the last 10000 ids.
    - Queues and wire: nothing lost, duplicated or misaligned ([SafeQueue_fifo_bounded],
      [no_lost_wakeup], [recv_aligned_roundtrip]).
    - Discovery: links are the tracked peers, exactly one side dials, and a thread that
      runs announces itself once an interval ([discovery_announces]); its sockets do not
      leak ([udp_no_leak]).
    - Generated code: the C++ header discharges the protobuf laws
      ([generated_header_laws]), the C tables are the ones the schema demands
      ([c_tables_match_proto]).
    - Worker: it accounts for every message it accepted ([worker_accounts]), sends data
      only behind the control messages before it ([control_before_data]), and [sync] means
      what the loop can know ([sync_flushed]) and never sleeps through its answer or a
      [stop] ([sync_not_stranded]).
    - Client: the broker's registry follows the registrations
      ([client_subscriptions_mirrored]), a message calls exactly the callbacks that want
      it ([dispatch_exactly_once]), a request gets its first reply and leaves nothing
      behind ([sendRequest_first_reply], [request_reply_roundtrip]), typed values survive
      the trip ([typed_roundtrip], [typed_request_answered]).
    - Commands: an interrupt always ends them ([commands_interruptible]); what an exit
      status means and what is printed ([publish_confirmed], [subscribe_prints],
      [request_answered]); a recording is replayed as it was tapped ([record_replay]).
    - C interface, logger, poller, Qt, captures, rendering, options, CLI session, program:
      [api_contract], [log_api_contract], [logger_contract], [throttle_rate],
      [poller_newest], [qt_lifecycle], [capture_readable], [render_safe],
      [hexdump_roundtrip], [options_sound], [session_recovers], [broker_main_contract],
      [unreachable_reported].
    - Inspector: it shows exactly what was asked for and holds the newest packets
      ([inspector_shows_matching], [capture_keeps_newest]); a message is replayed to the
      broker it is attached to ([replay_selected]).
    - Races and gaps the model shows, as theorems about the steps that produce them:
      [addPeer_lost_subscription], [setCluster_strands_link], [sync_overtakes_write],
      [sync_stale_target], [sync_lost_ack], [reply_topic_hijacks_control], [poller_race],
      [setCluster_offline], [attach_mixes_capture], [interrupt_releases_held],
      [non_utf8_dropped].

    ** Fuel

    Loops that are not structural run on fuel, with a theorem that it is enough: the
    probe loop of the id set gets one step per slot ([MessageIdSet_refines] shows it
    always finds one); [drainMultipart] one per frame; the varint and [Any] readers one
    per byte ([anyframe_read_safe]); [parsePeerList], [parse_loop] and [readRecords] one
    more than the length of the input, of which every turn takes some; a hex dump one per
    byte ([hexdump_roundtrip] reads every byte back); the retries of the worker's shutdown
    are the 100 of the code.  The loops of the commands run on the script of the world, a
    tick a turn, and [commands_interruptible] bounds the ticks from the interrupt on.  A
    mesh runs on a list of events; its messages are at most the 10000 of one window of the
    duplicate filter, so that none is forgotten, and [potential] bounds its steps.

    ** Not modelled

    Socket options, thread creation and joining beyond the flags that guard them, the UDP
    broadcast itself (one [sendto] whose result the code ignores); other log lines inside
    the broker and worker loops; the two floating-point rates of the stats, which are values of
    the report; the layout of the inspector's window ([setupUi], [setupSysStatsView]) and
    its [main], which build widgets; of the generated C++ code the two statistics classes
    and what the program does not call (copying, merging, swapping, reflection); the
    runtimes behind the type classes above.  Allocation failure is not modelled
    anywhere. *)

From Stdlib Require Import ZArith Lia.
From stdpp Require Export base tactics numbers strings fin_maps gmap list.

(** ** Scopes, notations and hint databases *)

Declare Scope wisp_scope.
Delimit Scope wisp_scope with wisp.

(** The hint database of the development: lemmas that close the routine side
    goals of the components are added to it as they are proved. *)
Create HintDb wisp.
Create Rewrite HintDb wisp.

(** ** Bytes

    A [char] of a C++ [std::string] is a [Ascii.ascii]; [byte_of] reads it as the
    [unsigned char] / [std::uint8_t] the code casts it to, and [chr] is the cast
    back, which keeps the low eight bits. *)

Definition byte_of (c : Ascii.ascii) : Z := Z.of_N (Ascii.N_of_ascii c).

Definition chr (z : Z) : Ascii.ascii := Ascii.ascii_of_N (Z.to_N (z mod 256)).

(** Unsigned machine arithmetic: the value kept in [w] bits. *)
Definition wrap (w z : Z) : Z := z mod 2 ^ w.

(** ** std::string

    [std::string] is [string]; its [substr], [find] and prefix test
    ([rfind(p, 0) == 0]) are the functions below. *)

Fixpoint str_take (n : nat) (s : string) : string :=
  match n, s with
  | S n, String c s => String c (str_take n s)
  | _, _ => EmptyString
  end.

Fixpoint str_drop (n : nat) (s : string) : string :=
  match n, s with
  | S n, String _ s => str_drop n s
  | _, _ => s
  end.

(** [s.substr(pos, len)]. *)
Definition substr (s : string) (pos len : nat) : string :=
  str_take len (str_drop pos s).

(** [s.find(c, pos)]; [None] is [npos]. *)
Fixpoint find_char_from0 (c : Ascii.ascii) (s : string) : option nat :=
  match s with
  | EmptyString => None
  | String a s => if decide (a = c) then Some 0 else S <$> find_char_from0 c s
  end.

Definition find_char (c : Ascii.ascii) (s : string) (pos : nat) : option nat :=
  (λ k, pos + k) <$> find_char_from0 c (str_drop pos s).

(** [s.rfind(c)]: the last occurrence. *)
Fixpoint rfind_char (c : Ascii.ascii) (s : string) : option nat :=
  match s with
  | EmptyString => None
  | String a s =>
      match rfind_char c s with
      | Some k => Some (S k)
      | None => if decide (a = c) then Some 0 else None
      end
  end.

(** [s.rfind(p, 0) == 0]. *)
Fixpoint starts_with (p s : string) : bool :=
  match p, s with
  | EmptyString, _ => true
  | String a p, String b s => bool_decide (a = b) && starts_with p s
  | _, _ => false
  end.

(** [s.find(p) != npos]. *)
Fixpoint str_contains (p s : string) : bool :=
  starts_with p s || match s with EmptyString => false | String _ s => str_contains p s end.

Fixpoint str_all (f : Ascii.ascii → bool) (s : string) : bool :=
  match s with
  | EmptyString => true
  | String c s => f c && str_all f s
  end.

(** [s[i]]; [None] past the end. *)
Fixpoint char_at (s : string) (i : nat) : option Ascii.ascii :=
  match s, i with
  | EmptyString, _ => None
  | String c _, O => Some c
  | String _ s, S i => char_at s i
  end.

(** The fields of [s] between the separators [c]. *)
Fixpoint split_char (c : Ascii.ascii) (s : string) : list string :=
  match s with
  | EmptyString => [EmptyString]
  | String a s =>
      if decide (a = c) then EmptyString :: split_char c s
      else match split_char c s with
           | f :: fs => String a f :: fs
           | [] => [String a EmptyString]
           end
  end.

(** [std::isspace] in the "C" locale. *)
Definition isspace (c : Ascii.ascii) : bool :=
  bool_decide (byte_of c = 32%Z) || bool_decide (9 ≤ byte_of c ≤ 13)%Z.

(** [s] without its leading, its trailing and its surrounding white space. *)
Fixpoint ltrim (s : string) : string :=
  match s with
  | EmptyString => EmptyString
  | String c s' => if isspace c then ltrim s' else s
  end.

Fixpoint rtrim (s : string) : string :=
  match s with
  | EmptyString => EmptyString
  | String c s' =>
      match rtrim s' with
      | EmptyString => if isspace c then EmptyString else String c EmptyString
      | r => String c r
      end
  end.

Definition trim (s : string) : string := rtrim (ltrim s).

(** [std::string::operator<]: lexicographic on the bytes. *)
Definition str_lt (a b : string) : bool :=
  match String.compare a b with Lt => true | _ => false end.

(** [std::to_string] of an unsigned value: decimal, no leading zero. *)
Definition digit_char (d : Z) : Ascii.ascii := chr (48 + d).

Fixpoint dec_go (fuel : nat) (n : Z) (acc : string) : string :=
  match fuel with
  | O => acc
  | S fuel =>
      let acc := String (digit_char (n mod 10)) acc in
      if decide (n < 10)%Z then acc else dec_go fuel (n / 10)%Z acc
  end.

Definition to_string (n : Z) : string := dec_go (S (Z.to_nat (Z.log2 n))) n EmptyString.

(** ** Formatted output *)

Fixpoint fill (c : Ascii.ascii) (n : nat) : string :=
  match n with O => EmptyString | S n => String c (fill c n) end.

(** [std::setfill(c) << std::setw(n)], [%5s], [%02d]: filled up on the left. *)
Definition setw (c : Ascii.ascii) (n : nat) (s : string) : string := fill c (n - String.length s) +:+ s.

Definition zero_char : Ascii.ascii := digit_char 0.
Definition space : Ascii.ascii := chr 32.

(** [%-24s]: filled up on the right. *)
Definition pad_right (n : nat) (s : string) : string := s +:+ fill space (n - String.length s).

(** A signed number. *)
Definition put_int (n : Z) : string := if decide (n < 0)%Z then "-" +:+ to_string (- n) else to_string n.

(** What [%s] prints of [s.c_str()]: the bytes before the first NUL. *)
Fixpoint c_str (s : string) : string :=
  match s with
  | EmptyString => EmptyString
  | String c s => if decide (byte_of c = 0%Z) then EmptyString else String c (c_str s)
  end.

(** A line break. *)
Definition newline : string := String (chr 10) EmptyString.

(** ** std::unordered_map

    A hash map is a [gmap]; the order in which a loop meets its entries is
    unspecified, so it is a parameter: any function that lists each entry once. *)

Record HashOrder := mkHashOrder {
  entries : ∀ A, gmap string A → list (string * A);
  entries_perm : ∀ A (m : gmap string A), entries A m ≡ₚ map_to_list m
}.
Arguments entries _ {A} _.
Arguments entries_perm _ {A} _.

(** One such order. *)
Definition some_order : HashOrder :=
  {| entries := λ A m, map_to_list m; entries_perm := λ A m, Permutation_refl _ |}.

(** ** Tactics *)

(** A decidable fact about closed terms, by evaluation. *)
Ltac by_evaluation := apply (bool_decide_unpack _); vm_compute; exact I.

(** Splits every [if decide] / [match] of the goal and closes what is absurd. *)
Ltac case_all := repeat (case_decide || case_match); simplify_eq/=; try done.

(** Splits a [decide] of the goal, leaving the hypotheses alone. *)
Tactic Notation "case_dec" "as" ident(H) :=
  match goal with
  | |- context [ @decide ?P ?i ] => destruct (@decide P i) as [H|H]
  end.

Tactic Notation "case_dec" := let H := fresh in case_dec as H.

(** ** Lemmas on bytes *)

Lemma byte_of_range c : (0 ≤ byte_of c < 256)%Z.
Proof. unfold byte_of. pose proof (Ascii.N_ascii_bounded c). lia. Qed.

Lemma byte_of_chr z : byte_of (chr z) = (z mod 256)%Z.
Proof.
  unfold byte_of, chr. pose proof (Z.mod_pos_bound z 256 ltac:(lia)).
  rewrite Ascii.N_ascii_embedding by lia. lia.
Qed.

Lemma byte_of_chr_small z : (0 ≤ z < 256)%Z → byte_of (chr z) = z.
Proof. intros. rewrite byte_of_chr. by apply Z.mod_small. Qed.

Lemma chr_byte_of c : chr (byte_of c) = c.
Proof.
  unfold chr. rewrite Z.mod_small by apply byte_of_range.
  unfold byte_of. rewrite N2Z.id. apply Ascii.ascii_N_embedding.
Qed.

Lemma byte_of_inj c d : byte_of c = byte_of d → c = d.
Proof. intros H. by rewrite <-(chr_byte_of c), H, chr_byte_of. Qed.

#[export] Hint Resolve byte_of_range : wisp.

(** ** Lemmas on hash maps *)

Lemma elem_of_entries ho {A} (m : gmap string A) k v : (k, v) ∈ entries ho m ↔ m !! k = Some v.
Proof. by rewrite entries_perm, elem_of_map_to_list. Qed.

Lemma NoDup_entries ho {A} (m : gmap string A) : NoDup (entries ho m).*1.
Proof. rewrite (fmap_Permutation fst _ _ (entries_perm ho m)). apply NoDup_fst_map_to_list. Qed.

Lemma elem_of_entries_keys ho {A} (m : gmap string A) k : k ∈ (entries ho m).*1 ↔ is_Some (m !! k).
Proof.
  rewrite list_elem_of_fmap. split.
  - intros ([k' v] & -> & H%elem_of_entries). eauto.
  - intros [v H%(elem_of_entries ho)]. by exists (k, v).
Qed.

(** ** Lemmas on strings *)

Lemma str_app_nil_r s : s +:+ EmptyString = s.
Proof. induction s; [done|]. unfold String.append in *; simpl; congruence. Qed.

Lemma str_app_assoc s1 s2 s3 : (s1 +:+ s2) +:+ s3 = s1 +:+ (s2 +:+ s3).
Proof. induction s1; [done|]. unfold String.append in *; simpl; congruence. Qed.

Lemma str_app_cons c s t : String c s +:+ t = String c (s +:+ t).
Proof. done. Qed.

Lemma str_app_empty t : EmptyString +:+ t = t.
Proof. done. Qed.

Lemma str_length_app s t : String.length (s +:+ t) = String.length s + String.length t.
Proof. induction s; [done|]. rewrite str_app_cons. simpl. lia. Qed.

Lemma str_drop_app_length s t : str_drop (String.length s) (s +:+ t) = t.
Proof. induction s; [done|]. rewrite str_app_cons. done. Qed.

Lemma str_take_app_length s t : str_take (String.length s) (s +:+ t) = s.
Proof. induction s; [done|]. rewrite str_app_cons. simpl. congruence. Qed.

Lemma str_take_all n s : String.length s ≤ n → str_take n s = s.
Proof.
  revert n; induction s; intros [|n] H; simpl in *; try done; try lia.
  f_equal. apply IHs. lia.
Qed.

Lemma str_drop_all n s : String.length s ≤ n → str_drop n s = EmptyString.
Proof. revert n; induction s; intros [|n] H; simpl in *; try done; try lia. apply IHs. lia. Qed.

Lemma str_take_drop n s : str_take n s +:+ str_drop n s = s.
Proof.
  revert n; induction s; intros [|n]; try done.
  simpl. rewrite str_app_cons, IHs. done.
Qed.

Lemma str_length_take n s : String.length (str_take n s) = n `min` String.length s.
Proof. revert n; induction s; intros [|n]; simpl; auto. Qed.

Lemma str_length_drop n s : String.length (str_drop n s) = String.length s - n.
Proof. revert n; induction s; intros [|n]; simpl; auto. Qed.

Lemma str_drop_drop n m s : str_drop n (str_drop m s) = str_drop (m + n) s.
Proof. revert m; induction s; intros [|m]; simpl; try done. by destruct n. Qed.

Lemma str_length_zero s : String.length s = 0 ↔ s = EmptyString.
Proof. by destruct s. Qed.

Lemma str_all_app f s t : str_all f (s +:+ t) = str_all f s && str_all f t.
Proof.
  induction s; [done|]. rewrite str_app_cons. simpl. by rewrite IHs, andb_assoc.
Qed.

Lemma str_all_take f n s : str_all f s = true → str_all f (str_take n s) = true.
Proof.
  revert n; induction s; intros [|n]; simpl; try done.
  intros [-> H]%andb_true_iff. simpl. auto.
Qed.

Lemma str_app_inj_l s t u : s +:+ t = s +:+ u → t = u.
Proof. induction s; [done|]. rewrite !str_app_cons. intros [= H]. auto. Qed.

Lemma starts_with_app p s : starts_with p (p +:+ s) = true.
Proof. induction p; [done|]. rewrite str_app_cons. simpl. by rewrite bool_decide_true, IHp. Qed.

Lemma starts_with_spec p s : starts_with p s = true ↔ ∃ t, s = p +:+ t.
Proof.
  split; [|intros [t ->]; apply starts_with_app].
  revert s; induction p; intros s; [eauto|]. destruct s; [done|]. simpl.
  intros [->%bool_decide_eq_true [t ->]%IHp]%andb_true_iff. by exists t.
Qed.

#[export] Hint Rewrite str_app_nil_r str_app_assoc str_app_cons str_app_empty
  str_length_app str_drop_app_length str_take_app_length : wisp.

(** *** Searching a character *)

Definition lacks (c : Ascii.ascii) (s : string) : bool :=
  str_all (λ a, bool_decide (a ≠ c)) s.

Lemma lacks_app c s t : lacks c (s +:+ t) = lacks c s && lacks c t.
Proof. apply str_all_app. Qed.

Lemma lacks_cons c a s : lacks c (String a s) = true ↔ a ≠ c ∧ lacks c s = true.
Proof. unfold lacks. simpl. by rewrite andb_true_iff, bool_decide_eq_true. Qed.

Lemma find_char_from0_None c s : find_char_from0 c s = None ↔ lacks c s = true.
Proof.
  induction s; [done|]. rewrite lacks_cons, <-IHs. simpl.
  case_decide; [naive_solver|].
  destruct (find_char_from0 c s); simpl; naive_solver.
Qed.

Lemma find_char_from0_app c s t :
  lacks c s = true → find_char_from0 c (s +:+ String c t) = Some (String.length s).
Proof.
  induction s; intros H.
  - rewrite str_app_empty. simpl. by rewrite decide_True.
  - apply lacks_cons in H as [? H]. rewrite str_app_cons. simpl.
    by rewrite decide_False, IHs.
Qed.

Lemma find_char_from0_Some c s k :
  find_char_from0 c s = Some k →
  s = str_take k s +:+ String c (str_drop (S k) s) ∧ lacks c (str_take k s) = true ∧
  k < String.length s.
Proof.
  revert k; induction s as [|a s IH]; intros k; [done|]. simpl. case_decide.
  - intros [= <-]. subst. simpl. split; [done|]. split; [done|]. simpl. lia.
  - destruct (find_char_from0 c s) as [k'|]; simpl; [|done]. intros [= <-].
    destruct (IH k' eq_refl) as (E & L & N).
    split; [|split; [by apply lacks_cons|lia]]. simpl. rewrite str_app_cons.
    f_equal. exact E.
Qed.

Lemma split_char_find c s :
  split_char c s =
  match find_char_from0 c s with
  | None => [s]
  | Some k => str_take k s :: split_char c (str_drop (S k) s)
  end.
Proof.
  induction s as [|a s IH]; [done|]. simpl. case_dec; [done|]. rewrite IH.
  destruct (find_char_from0 c s); simpl; [|done]. by destruct s.
Qed.

(** *** Indexing and trimming *)

Lemma char_at_drop s i c : char_at s i = Some c → str_drop i s = String c (str_drop (S i) s).
Proof. revert i; induction s as [|a s IH]; intros [|i]; simpl; naive_solver. Qed.

Lemma char_at_lt s i : i < String.length s → is_Some (char_at s i).
Proof.
  revert i; induction s as [|a s IH]; intros [|i]; simpl; try lia; [eauto|].
  intros. apply IH. lia.
Qed.

Lemma substr_head s i n c : char_at s i = Some c → substr s i (S n) = String c (substr s (S i) n).
Proof. intros H. unfold substr. by rewrite (char_at_drop _ _ _ H). Qed.

Lemma substr_last s i n c :
  char_at s (i + n) = Some c → substr s i (S n) = substr s i n +:+ String c EmptyString.
Proof.
  unfold substr. revert i; induction n as [|n IH]; intros i H.
  - rewrite Nat.add_0_r in H. by rewrite (char_at_drop _ _ _ H).
  - destruct (char_at s i) as [a|] eqn:Ea.
    + rewrite (char_at_drop _ _ _ Ea).
      change (str_take (S (S n)) (String a (str_drop (S i) s)))
        with (String a (str_take (S n) (str_drop (S i) s))).
      rewrite IH by (by rewrite Nat.add_succ_comm). reflexivity.
    + destruct (decide (i < String.length s)) as [Hi%char_at_lt|Hi];
        [rewrite Ea in Hi; by destruct Hi|].
      destruct (decide (i + S n < String.length s)); [lia|].
      exfalso. clear -H Hi. revert i n H Hi; induction s as [|b s IH]; intros [|i] n H Hi;
        simpl in *; try done; try lia. apply (IH i n H). lia.
Qed.

Lemma rtrim_snoc s c :
  rtrim (s +:+ String c EmptyString) = if isspace c then rtrim s else s +:+ String c EmptyString.
Proof.
  induction s as [|a s IH]; [by simpl; destruct (isspace c)|].
  rewrite str_app_cons. simpl. rewrite IH. destruct (isspace c); [done|]. by destruct s.
Qed.

(** *** Decimal numerals *)

(** A decimal numeral read digit by digit, as [strtol] accumulates it. *)
Definition is_digit (c : Ascii.ascii) : bool := bool_decide (48 ≤ byte_of c ≤ 57)%Z.

Fixpoint dec_value (s : string) (acc : Z) : Z :=
  match s with
  | EmptyString => acc
  | String c s => dec_value s (10 * acc + (byte_of c - 48))
  end.

Lemma digit_char_is_digit d : (0 ≤ d < 10)%Z → is_digit (digit_char d) = true.
Proof.
  intros. unfold is_digit, digit_char. rewrite byte_of_chr_small by lia.
  apply bool_decide_true. lia.
Qed.

Lemma byte_of_digit_char d : (0 ≤ d < 10)%Z → byte_of (digit_char d) = (48 + d)%Z.
Proof. intros. unfold digit_char. by rewrite byte_of_chr_small by lia. Qed.

Lemma dec_go_digits fuel n acc :
  (0 ≤ n)%Z → str_all is_digit acc = true → str_all is_digit (dec_go fuel n acc) = true.
Proof.
  revert n acc; induction fuel; intros n acc Hn Hacc; [done|]. simpl.
  pose proof (Z.mod_pos_bound n 10 ltac:(lia)).
  case_decide; [|apply IHfuel; [apply Z.div_pos; lia|]];
    simpl; rewrite Hacc, digit_char_is_digit; auto.
Qed.

Lemma to_string_digits n : (0 ≤ n)%Z → str_all is_digit (to_string n) = true.
Proof. intros. by apply dec_go_digits. Qed.

Lemma dec_value_app s t acc : dec_value (s +:+ t) acc = dec_value t (dec_value s acc).
Proof. revert acc; induction s; intros; [done|]. rewrite str_app_cons. simpl. auto. Qed.

Lemma dec_go_app fuel n acc : dec_go fuel n acc = dec_go fuel n EmptyString +:+ acc.
Proof.
  revert n acc; induction fuel; intros; [done|]. simpl. case_decide; [done|].
  rewrite IHfuel, (IHfuel _ (String _ EmptyString)), str_app_assoc. done.
Qed.

Lemma dec_go_value fuel n acc :
  (0 ≤ n < 2 ^ Z.of_nat fuel)%Z → dec_value (dec_go fuel n acc) 0 = dec_value acc n.
Proof.
  revert n acc; induction fuel as [|fuel IH]; intros n acc Hn.
  - simpl in *. by replace n with 0%Z by lia.
  - pose proof (Z.mod_pos_bound n 10 ltac:(lia)). simpl. case_decide.
    + simpl. rewrite byte_of_digit_char by lia. rewrite Z.mod_small by lia. f_equal. lia.
    + rewrite IH.
      * simpl. rewrite byte_of_digit_char by lia. f_equal.
        rewrite (Z.div_mod n 10) at 3 by lia. lia.
      * rewrite Nat2Z.inj_succ, Z.pow_succ_r in Hn by lia.
        split; [apply Z.div_pos; lia|apply Z.div_lt_upper_bound; lia].
Qed.

Lemma to_string_value n : (0 ≤ n)%Z → dec_value (to_string n) 0 = n.
Proof.
  intros Hn. unfold to_string. rewrite dec_go_value; [done|]. split; [done|].
  destruct (decide (n = 0)%Z) as [->|]; [done|].
  rewrite Nat2Z.inj_succ, Z2Nat.id by apply Z.log2_nonneg.
  apply Z.log2_spec. lia.
Qed.

Lemma to_string_nonempty n : to_string n ≠ EmptyString.
Proof. unfold to_string. simpl. case_decide; [done|]. rewrite dec_go_app. by destruct (dec_go _ _ _). Qed.

Lemma dec_go_length fuel n acc k :
  (0 ≤ n < 10 ^ Z.of_nat (S k))%Z →
  String.length (dec_go fuel n acc) ≤ S k + String.length acc.
Proof.
  revert n acc k; induction fuel as [|fuel IH]; intros n acc k Hn; simpl; [lia|].
  case_dec; simpl; [lia|]. destruct k as [|k]; [simpl in Hn; lia|].
  specialize (IH (n / 10)%Z (String (digit_char (n mod 10)) acc) k). simpl in IH.
  assert (0 ≤ n / 10 < 10 ^ Z.of_nat (S k))%Z; [|lia].
  split; [apply Z.div_pos; lia|]. apply Z.div_lt_upper_bound; [lia|].
  rewrite <-Z.pow_succ_r by lia. replace (Z.succ (Z.of_nat (S k))) with (Z.of_nat (S (S k))) by lia. lia.
Qed.

Lemma to_string_length n k :
  (0 ≤ n < 10 ^ Z.of_nat (S k))%Z → String.length (to_string n) ≤ S k.
Proof.
  intros H. pose proof (dec_go_length (S (Z.to_nat (Z.log2 n))) n EmptyString k H) as Hl.
  unfold to_string. rewrite Nat.add_0_r in Hl. exact Hl.
Qed.

Lemma str_lt_irrefl a : str_lt a a = false.
Proof.
  unfold str_lt. destruct (String.compare a a) eqn:E; [done| |done].
  pose proof (String.compare_antisym a a) as H. by rewrite E in H.
Qed.

(** Of two different strings exactly one is smaller. *)
Lemma str_lt_total a b : a ≠ b → str_lt a b = negb (str_lt b a).
Proof.
  intros Hne. unfold str_lt. rewrite (String.compare_antisym b a).
  destruct (String.compare a b) eqn:E; simpl; try done.
  apply String.compare_eq_iff in E. congruence.
Qed.

Lemma is_digit_not_char c a : is_digit c = true → is_digit a = false → c ≠ a.
Proof. congruence. Qed.

Lemma digits_lack a s : is_digit a = false → str_all is_digit s = true → lacks a s = true.
Proof.
  intros Ha. induction s; [done|]. simpl. intros [Hc Hs]%andb_true_iff.
  apply lacks_cons. split; [congruence|auto].
Qed.

(** *** Lists *)

Lemma NoDup_fmap_filter {A B} (f : A → B) (P : A → Prop) `{!∀ x, Decision (P x)} (l : list A) :
  NoDup (f <$> l) → NoDup (f <$> filter P l).
Proof.
  induction l as [|x l IH]; [done|]. rewrite fmap_cons, NoDup_cons, filter_cons.
  intros [Hx Hl]. case_dec; [|by apply IH]. rewrite fmap_cons. apply NoDup_cons. split; [|by apply IH].
  intros (y & E & [_ Hy]%list_elem_of_filter)%list_elem_of_fmap. apply Hx. rewrite E.
  by apply list_elem_of_fmap_2.
Qed.

Lemma length_omap_le {A B} (f : A → option B) (l : list A) : length (omap f l) ≤ length l.
Proof. induction l as [|x l IH]; [done|]. cbn. destruct (f x); cbn; lia. Qed.

(** *** Counting modulo a window *)

Lemma succ_mod_wrap n m : 0 < m → m ≤ S (n mod m) → S n mod m = 0.
Proof.
  intros Hm H. pose proof (Nat.mod_upper_bound n m ltac:(lia)).
  rewrite (Nat.div_mod_eq n m).
  replace (S (m * (n / m) + n mod m)) with (0 + (S (n / m)) * m) by lia.
  rewrite Nat.Div0.mod_add. by apply Nat.mod_small.
Qed.

Lemma succ_mod_nowrap n m : S (n mod m) < m → S n mod m = S (n mod m).
Proof.
  intros H. rewrite (Nat.div_mod_eq n m) at 1.
  replace (S (m * (n / m) + n mod m)) with (S (n mod m) + (n / m) * m) by lia.
  rewrite Nat.Div0.mod_add. by apply Nat.mod_small.
Qed.

Lemma lor_disjoint a b k : (0 ≤ k)%Z → (0 ≤ a < 2 ^ k)%Z → (0 ≤ b)%Z → Z.lor a (Z.shiftl b k) = (a + b * 2 ^ k)%Z.
Proof.
  intros Hk Ha Hb. rewrite Z.shiftl_mul_pow2 by lia.
  assert (Z.land a (b * 2 ^ k) = 0%Z) as Hl.
  { apply Z.bits_inj'; intros i Hi. rewrite Z.land_spec, Z.bits_0.
    destruct (decide (i < k)%Z); [by rewrite Z.mul_pow2_bits_low, andb_false_r by lia|].
    destruct (decide (a = 0%Z)) as [->|]; [by rewrite Z.bits_0|].
    rewrite (Z.bits_above_log2 a); [done|lia|]. apply Z.log2_lt_pow2; [lia|].
    apply Z.lt_le_trans with (2 ^ k)%Z; [lia|apply Z.pow_le_mono_r; lia]. }
  by rewrite <-Z.lxor_lor, <-Z.add_nocarry_lxor.
Qed.

Lemma str_drop_app_ge n s t : n = String.length s → str_drop n (s +:+ t) = t.
Proof. intros ->. apply str_drop_app_length. Qed.

Lemma str_take_app_ge k a b :
  String.length a ≤ k → str_take k (a +:+ b) = a +:+ str_take (k - String.length a) b.
Proof.
  revert k; induction a as [|c a IH]; intros k Hk; simpl in *.
  - by rewrite !str_app_empty, Nat.sub_0_r.
  - destruct k as [|k]; [lia|]. rewrite !str_app_cons. simpl. rewrite IH by lia. done.
Qed.

Lemma str_take_app_le k a b : k ≤ String.length a → str_take k (a +:+ b) = str_take k a.
Proof.
  revert k; induction a as [|c a IH]; intros k Hk; simpl in *.
  - replace k with 0 by lia. by destruct b.
  - destruct k as [|k]; [done|]. rewrite str_app_cons. simpl. rewrite IH by lia. done.
Qed.
