(* ===== verification/MessageKeys.v ===== *)
(** * Keys and subscription scopes

    Models [common/messagekeys.h]: the [Origin] bitmask of a subscription, the
    reserved [__KEY__] namespace and the control keys, and the one-byte payload a
    [__SUBSCRIBE__] carries its scope in. *)

From Stdlib Require Import ZArith Lia.
From S2P Require Import Prelude.

Local Open Scope string_scope.

(** ** Origin

    [enum class Origin : std::uint8_t]: an enumeration with a fixed underlying
    type, so a value is any byte ([unionScope] starts from [static_cast<Origin>(0)]). *)

Record Origin := mkOrigin { origin_bits : Z }.

#[export] Instance Origin_eq_dec : EqDecision Origin.
Proof. solve_decision. Defined.

Module Origins.
Definition Local : Origin := mkOrigin 1.
Definition Mesh : Origin := mkOrigin 2.
Definition Any : Origin := mkOrigin 3.
End Origins.

Definition scopeAccepts (scope : Origin) (isLocal : bool) : bool :=
  let wanted := origin_bits (if isLocal then Origins.Local else Origins.Mesh) in
  negb (bool_decide (Z.land (origin_bits scope) wanted = 0%Z)).

Definition widen (left right : Origin) : Origin :=
  mkOrigin (Z.lor (origin_bits left) (origin_bits right)).

(** ** Keys *)

Module Keys.
Definition CONNECT : string := "__CONNECT__".
Definition DISCONNECT : string := "__DISCONNECT__".
Definition RESET : string := "__RESET__".
Definition HEARTBEAT : string := "__HEARTBEAT__".
Definition HEARTBEAT_ACK : string := "__HEARTBEAT_ACK__".
Definition SUBSCRIBE : string := "__SUBSCRIBE__".
Definition UNSUBSCRIBE : string := "__UNSUBSCRIBE__".
Definition SYS_STATS : string := "__SYS_STATS__".
Definition UNLINK : string := "__UNLINK__".
Definition SET_CLUSTER : string := "__SET_CLUSTER__".
Definition WILDCARD_TOPIC : string := "*".

(** [key.size() >= 2 && key[0] == '_' && key[1] == '_']. *)
Definition isReservedKey (key : string) : bool :=
  match key with
  | String a (String b _) => bool_decide (byte_of a = 95%Z) && bool_decide (byte_of b = 95%Z)
  | _ => false
  end.

Definition isSystemPacket (key : string) : bool :=
  bool_decide (key = HEARTBEAT) || bool_decide (key = HEARTBEAT_ACK) ||
  bool_decide (key = CONNECT) || bool_decide (key = DISCONNECT) || bool_decide (key = RESET).

Definition isControlMessage (key : string) : bool :=
  isSystemPacket key || bool_decide (key = SUBSCRIBE) || bool_decide (key = UNSUBSCRIBE) ||
  bool_decide (key = SET_CLUSTER).
End Keys.

(** ** The scope payload of a __SUBSCRIBE__ *)

Definition encodeSubscribeScope (scope : Origin) : string :=
  if decide (scope = Origins.Any) then EmptyString
  else String (chr (origin_bits scope)) EmptyString.

(** [data] with its size: the payload frame's bytes. *)
Definition decodeSubscribeScope (data : string) : Origin :=
  match data with
  | EmptyString => Origins.Any
  | String c _ =>
      let bits := Z.land (byte_of c) (origin_bits Origins.Any) in
      if decide (bits = 0%Z) then Origins.Any else mkOrigin bits
  end.

(** A scope a subscription can hold: the three named values. *)
Definition named_scope (scope : Origin) : Prop :=
  scope = Origins.Local ∨ scope = Origins.Mesh ∨ scope = Origins.Any.

(** ** Properties *)

Lemma land_3_cases z :
  (0 ≤ z)%Z → Z.land z 3 = 0%Z ∨ Z.land z 3 = 1%Z ∨ Z.land z 3 = 2%Z ∨ Z.land z 3 = 3%Z.
Proof.
  intros. assert (Z.land z 3 = z mod 4)%Z as -> by (apply (Z.land_ones z 2); lia).
  pose proof (Z.mod_pos_bound z 4 ltac:(lia)). lia.
Qed.

Lemma decodeSubscribeScope_named data : named_scope (decodeSubscribeScope data).
Proof.
  unfold named_scope. destruct data as [|c s]; simpl; [by right; right|].
  pose proof (byte_of_range c).
  destruct (land_3_cases (byte_of c) ltac:(lia)) as [E|[E|[E|E]]]; rewrite E;
    case_decide; try done; auto.
Qed.

(** A scope that reaches a broker survives its encoding: what a client asks for
    is what the broker records. *)
Lemma subscribeScope_roundtrip scope :
  named_scope scope → decodeSubscribeScope (encodeSubscribeScope scope) = scope.
Proof. by intros [->|[->| ->]]. Qed.

Lemma scopeAccepts_named scope :
  named_scope scope →
  ∀ isLocal, scopeAccepts scope isLocal = true ↔
    scope = Origins.Any ∨ scope = (if isLocal then Origins.Local else Origins.Mesh).
Proof. intros [->|[->| ->]] [|]; vm_compute; naive_solver. Qed.

(** Widening accepts exactly what either side accepts. *)
Lemma widen_accepts left right isLocal :
  scopeAccepts (widen left right) isLocal =
  scopeAccepts left isLocal || scopeAccepts right isLocal.
Proof.
  destruct left as [l], right as [r]. unfold scopeAccepts, widen. simpl.
  rewrite <-negb_andb. f_equal. apply eq_bool_prop_intro.
  rewrite andb_True, !bool_decide_spec, Z.land_lor_distr_l. apply Z.lor_eq_0_iff.
Qed.

Lemma isReservedKey_spec key :
  Keys.isReservedKey key = true ↔ starts_with "__" key = true.
Proof.
  destruct key as [|a [|b s]]; simpl; try done.
  - by rewrite andb_false_r.
  - rewrite andb_true_r, !andb_true_iff, !bool_decide_eq_true.
    assert (∀ c, byte_of c = 95%Z ↔ chr 95 = c) as E.
    { intros c. split; [|by intros <-]. intros H. by rewrite <-H, chr_byte_of. }
    rewrite !E. done.
Qed.

(** Every control key is in the reserved namespace, so no application message can
    be taken for one. *)
Lemma control_is_reserved key : Keys.isControlMessage key = true → Keys.isReservedKey key = true.
Proof.
  unfold Keys.isControlMessage, Keys.isSystemPacket.
  rewrite !orb_true_iff, !bool_decide_eq_true.
  intros [[[[[[[->| ->]| ->]| ->]| ->]| ->]| ->]| ->]; reflexivity.
Qed.

(** A subscription's scope survives the wire and means what it says.  Whatever scope a
    client can ask for is what the broker decodes from the payload; any payload at all
    decodes to one of the three scopes; and a scope accepts local (mesh) traffic iff it
    is [Local] ([Mesh]) or [Any]. *)
Theorem subscribe_scope_contract (scope : Origin) (data : string) (isLocal : bool) :
  named_scope scope →
  decodeSubscribeScope (encodeSubscribeScope scope) = scope ∧
  named_scope (decodeSubscribeScope data) ∧
  (scopeAccepts scope isLocal = true ↔
     scope = Origins.Any ∨ scope = (if isLocal then Origins.Local else Origins.Mesh)).
Proof.
  intros Hs. split; [by apply subscribeScope_roundtrip|].
  split; [apply decodeSubscribeScope_named|by apply scopeAccepts_named].
Qed.

Lemma subscribe_scope_contract_witness :
  decodeSubscribeScope (encodeSubscribeScope Origins.Mesh) = Origins.Mesh.
Proof. apply (subscribe_scope_contract Origins.Mesh EmptyString true). right; left; reflexivity. Defined.
