(* ===== verification/Config.v ===== *)
(** * Configuration parsing

    Models [common/config.h]: [parsePort] (through [std::stoi]), [parsePeerList] with
    its index loop, the caps and [ConnectionConfig].  The loop of [parsePeerList] is
    given one unit of fuel per character and one more; the theorems show that is
    enough and that the result is the comma-separated fields, trimmed, the empty ones
    dropped. *)

From Stdlib Require Import ZArith Lia.
From S2P Require Import Prelude.


(** ** std::stoi *)

(** The longest prefix of decimal digits. *)
Fixpoint digit_prefix (s : string) : string :=
  match s with
  | EmptyString => EmptyString
  | String c s => if is_digit c then String c (digit_prefix s) else EmptyString
  end.

(** An optional sign: whether it is a minus, and the rest. *)
Definition take_sign (s : string) : bool * string :=
  match s with
  | String c s' =>
      if decide (byte_of c = 45%Z) then (true, s')
      else if decide (byte_of c = 43%Z) then (false, s')
      else (false, s)
  | EmptyString => (false, EmptyString)
  end.

(** [std::stoi(text)]: leading white space, an optional sign, then digits up to the
    first other character.  [None] is an exception: no digit, or a value outside
    [int]. *)
Definition stoi (text : string) : option Z :=
  let '(neg, s) := take_sign (ltrim text) in
  match digit_prefix s with
  | EmptyString => None
  | ds =>
      let v := dec_value ds 0 in
      let v := if neg : bool then (- v)%Z else v in
      if decide (-2147483648 ≤ v ≤ 2147483647)%Z then Some v else None
  end.

(** [Some port] is [true] with [outPort] written. *)
Definition parsePort (text : string) (zeroAllowed : bool) : option Z :=
  match stoi text with
  | None => None
  | Some value =>
      if decide (value < (if zeroAllowed then 0 else 1))%Z then None
      else if decide (65535 < value)%Z then None
      else Some (wrap 16 value)
  end.

(** ** parsePeerList *)

(** [while (begin < end && std::isspace(text[begin])) ++begin;]. *)
Fixpoint skip_forward (fuel : nat) (text : string) (begin last : nat) : nat :=
  match fuel with
  | O => begin
  | S fuel =>
      if decide (begin < last) then
        match char_at text begin with
        | Some c => if isspace c then skip_forward fuel text (S begin) last else begin
        | None => begin
        end
      else begin
  end.

(** [while (last > begin && std::isspace(text[last - 1])) --last;]. *)
Fixpoint skip_backward (fuel : nat) (text : string) (begin last : nat) : nat :=
  match fuel with
  | O => last
  | S fuel =>
      if decide (begin < last) then
        match char_at text (last - 1) with
        | Some c => if isspace c then skip_backward fuel text begin (last - 1) else last
        | None => last
        end
      else last
  end.

(** The outer loop from [pos], [None] when the fuel runs out. *)
Fixpoint parsePeerList_loop (fuel : nat) (text : string) (pos : nat) (peers : list string)
    : option (list string) :=
  match fuel with
  | O => None
  | S fuel =>
      if decide (pos ≤ String.length text) then
        let comma := find_char (chr 44) text pos in
        let stop := default (String.length text) comma in
        let begin := skip_forward (String.length text) text pos stop in
        let last := skip_backward (String.length text) text begin stop in
        let peers := if decide (begin < last) then (peers ++ [substr text begin (last - begin)])%list
                     else peers in
        match comma with
        | None => Some peers
        | Some comma => parsePeerList_loop fuel text (comma + 1) peers
        end
      else Some peers
  end.

Definition parsePeerList (text : string) : option (list string) :=
  parsePeerList_loop (S (S (String.length text))) text 0 [].

(** ** Limits and connection settings *)

Definition MAX_MESSAGE_SIZE_BYTES : Z := 16 * 1024 * 1024.
Definition MAX_TOPIC_LENGTH_BYTES : nat := Z.to_nat 512.
Definition MAX_SUBSCRIPTIONS_PER_CLIENT : nat := Z.to_nat 10000.

Record ConnectionConfig := mkConfig {
  cfg_address : string;
  cfg_clientId : string;
  cfg_keepAliveTime : Z;
  cfg_keepAliveTimeout : Z
}.

(** The defaults of the struct's members. *)
Definition default_config (address clientId : string) : ConnectionConfig :=
  mkConfig address clientId 3000 10000.

(** ** Lemmas *)

Lemma digit_prefix_all s t :
  str_all is_digit s = true →
  (∀ c t', t = String c t' → is_digit c = false) →
  digit_prefix (s +:+ t) = s.
Proof.
  intros Hs Ht. induction s as [|c s IH].
  - destruct t as [|c t]; [done|]. rewrite str_app_empty. simpl. by rewrite (Ht c t).
  - simpl in Hs. apply andb_true_iff in Hs as [Hc Hs].
    rewrite str_app_cons. simpl. rewrite Hc, IH; done.
Qed.

Lemma digit_no_space c : is_digit c = true → isspace c = false.
Proof.
  unfold is_digit, isspace. rewrite bool_decide_eq_true. intros.
  rewrite !bool_decide_false by lia. done.
Qed.

Lemma digits_no_sign c s : is_digit c = true → take_sign (String c s) = (false, String c s).
Proof.
  unfold is_digit. rewrite bool_decide_eq_true. intros. simpl.
  rewrite !decide_False by lia. done.
Qed.

(** A digit string followed by no digit is read as its value. *)
Lemma stoi_digits s t :
  s ≠ EmptyString → str_all is_digit s = true →
  (∀ c t', t = String c t' → is_digit c = false) →
  (dec_value s 0 ≤ 2147483647)%Z → (0 ≤ dec_value s 0)%Z →
  stoi (s +:+ t) = Some (dec_value s 0).
Proof.
  intros Hne Hs Ht Hv H0. unfold stoi. destruct s as [|c s]; [done|].
  pose proof Hs as Hall. simpl in Hs. apply andb_true_iff in Hs as [Hc Hs].
  rewrite str_app_cons. simpl ltrim. rewrite (digit_no_space c Hc).
  rewrite digits_no_sign by done.
  rewrite <-str_app_cons, digit_prefix_all by done. simpl.
  simpl in Hv, H0. rewrite decide_True by lia. done.
Qed.

Lemma parsePort_digits s t (zero : bool) :
  s ≠ EmptyString → str_all is_digit s = true →
  (∀ c t', t = String c t' → is_digit c = false) →
  ((if zero then 0 else 1) ≤ dec_value s 0 ≤ 65535)%Z →
  parsePort (s +:+ t) zero = Some (dec_value s 0).
Proof.
  intros Hne Hs Ht Hv. assert (0 ≤ dec_value s 0)%Z by (destruct zero; lia).
  unfold parsePort. rewrite stoi_digits by (done || lia).
  rewrite !decide_False by lia. f_equal. unfold wrap. apply Z.mod_small. lia.
Qed.

Lemma parsePort_to_string n (zero : bool) :
  ((if zero then 0 else 1) ≤ n ≤ 65535)%Z → parsePort (to_string n) zero = Some n.
Proof.
  intros Hn. assert (0 ≤ n)%Z by (destruct zero; lia).
  rewrite <-(str_app_nil_r (to_string n)), parsePort_digits; [by rewrite to_string_value|..].
  - apply to_string_nonempty.
  - by apply to_string_digits.
  - done.
  - by rewrite to_string_value.
Qed.

Lemma parsePort_range text zero p :
  parsePort text zero = Some p → ((if zero then 0 else 1) ≤ p ≤ 65535)%Z.
Proof.
  unfold parsePort. destruct (stoi text) as [v|]; [|done]. repeat case_dec; try done.
  intros [= <-]. unfold wrap. rewrite Z.mod_small; destruct zero; lia.
Qed.

(** *** The loops of parsePeerList *)

Lemma skip_forward_spec fuel text begin last :
  last ≤ String.length text → begin ≤ last → last - begin ≤ fuel →
  let begin' := skip_forward fuel text begin last in
  begin ≤ begin' ≤ last ∧
  substr text begin' (last - begin') = ltrim (substr text begin (last - begin)).
Proof.
  intros Hlen. revert begin; induction fuel as [|fuel IH]; intros begin Hb Hf; simpl.
  - replace (last - begin) with 0 by lia. split; [lia|]. unfold substr. by destruct (str_drop _ _).
  - destruct (decide (begin < last)) as [Hlt|].
    + destruct (char_at_lt text begin) as [c Hc]; [lia|]. rewrite Hc.
      replace (last - begin) with (S (last - S begin)) by lia.
      rewrite (substr_head _ _ _ _ Hc). simpl ltrim. destruct (isspace c).
      * destruct (IH (S begin)) as [? ->]; [lia..|]. split; [lia|done].
      * split; [lia|]. replace (last - begin) with (S (last - S begin)) by lia.
        by rewrite (substr_head _ _ _ _ Hc).
    + replace (last - begin) with 0 by lia. split; [lia|]. unfold substr. by destruct (str_drop _ _).
Qed.

Lemma skip_backward_spec fuel text begin last :
  last ≤ String.length text → begin ≤ last → last - begin ≤ fuel →
  let last' := skip_backward fuel text begin last in
  begin ≤ last' ≤ last ∧
  substr text begin (last' - begin) = rtrim (substr text begin (last - begin)).
Proof.
  revert last; induction fuel as [|fuel IH]; intros last Hlen Hb Hf; simpl.
  - replace (last - begin) with 0 by lia. split; [lia|]. unfold substr. by destruct (str_drop _ _).
  - destruct (decide (begin < last)) as [Hlt|].
    + destruct (char_at_lt text (last - 1)) as [c Hc]; [lia|]. rewrite Hc.
      replace (last - begin) with (S (last - 1 - begin)) by lia.
      rewrite (substr_last _ _ _ c), rtrim_snoc by (rewrite <-Hc; f_equal; lia).
      destruct (isspace c).
      * destruct (IH (last - 1)) as [? ->]; [lia..|]. split; [lia|done].
      * split; [lia|]. replace (last - begin) with (S (last - 1 - begin)) by lia.
        rewrite (substr_last _ _ _ c); [done|]. rewrite <-Hc. f_equal. lia.
    + replace (last - begin) with 0 by lia. split; [lia|]. unfold substr. by destruct (str_drop _ _).
Qed.

Definition nonempty (s : string) : Prop := s ≠ EmptyString.

#[export] Instance nonempty_dec s : Decision (nonempty s).
Proof. unfold nonempty. apply _. Defined.

(** One field: what an iteration adds to the list. *)
Lemma peer_field text pos stop peers :
  pos ≤ stop ≤ String.length text →
  let begin := skip_forward (String.length text) text pos stop in
  let last := skip_backward (String.length text) text begin stop in
  (if decide (begin < last) then peers ++ [substr text begin (last - begin)] else peers) =
  peers ++ filter nonempty [trim (substr text pos (stop - pos))].
Proof.
  intros [Hp Hs] begin last.
  destruct (skip_forward_spec (String.length text) text pos stop) as [Hb Eb]; [lia..|].
  fold begin in Hb, Eb.
  destruct (skip_backward_spec (String.length text) text begin stop) as [Hl El]; [lia..|].
  fold last in Hl, El. unfold trim. rewrite <-Eb, <-El.
  destruct (decide (begin < last)).
  - rewrite filter_cons_True; [done|]. unfold nonempty. rewrite <-str_length_zero.
    unfold substr. rewrite str_length_take, str_length_drop. lia.
  - replace (last - begin) with 0 by lia.
    rewrite filter_cons_False; [by rewrite app_nil_r|]. unfold nonempty, substr.
    destruct (str_drop begin text); naive_solver.
Qed.

Lemma find_char_bounds c s pos k :
  find_char c s pos = Some k →
  pos ≤ k < String.length s ∧
  split_char c (str_drop pos s) = substr s pos (k - pos) :: split_char c (str_drop (S k) s).
Proof.
  unfold find_char. destruct (find_char_from0 c (str_drop pos s)) as [j|] eqn:E; [|done].
  intros [= <-]. pose proof (find_char_from0_Some _ _ _ E) as (_ & _ & Hj).
  rewrite str_length_drop in Hj. split; [lia|].
  rewrite split_char_find, E, str_drop_drop. unfold substr. f_equal; [|f_equal; f_equal; lia].
  f_equal. lia.
Qed.

Lemma parsePeerList_loop_spec fuel text pos peers :
  String.length text - pos + 1 < fuel → pos ≤ String.length text →
  parsePeerList_loop fuel text pos peers =
  Some (peers ++ filter nonempty (trim <$> split_char (chr 44) (str_drop pos text))).
Proof.
  revert pos peers; induction fuel as [|fuel IH]; intros pos peers Hf Hp; [lia|].
  cbn [parsePeerList_loop]. rewrite decide_True by done. cbv zeta.
  destruct (find_char (chr 44) text pos) as [k|] eqn:E; simpl default.
  - destruct (find_char_bounds _ _ _ _ E) as [Hk ->].
    rewrite peer_field by lia. rewrite Nat.add_1_r, IH by lia.
    rewrite fmap_cons, <-app_assoc. f_equal. f_equal.
    rewrite (filter_cons _ (trim (substr _ _ _))), (filter_cons _ (trim (substr _ _ _))).
    by case_dec.
  - rewrite peer_field by lia. rewrite split_char_find.
    unfold find_char in E. destruct (find_char_from0 _ _); [done|]. simpl.
    do 3 f_equal. unfold substr. f_equal.
    rewrite str_take_all; [done|]. rewrite str_length_drop. lia.
Qed.

(** ** Properties *)

(** [parsePort] accepts exactly what it should of decimal text: the decimal form of
    a port in range is read back as that port, and whatever it accepts is in range
    (1-65535, or 0-65535 where 0 is allowed). *)
Theorem parsePort_correct (text : string) (zeroAllowed : bool) (n : Z) :
  (((if zeroAllowed then 0 else 1) ≤ n ≤ 65535)%Z ↔
   parsePort (to_string n) zeroAllowed = Some n) ∧
  (∀ p, parsePort text zeroAllowed = Some p → ((if zeroAllowed then 0 else 1) ≤ p ≤ 65535)%Z).
Proof.
  split; [split|].
  - apply parsePort_to_string.
  - apply parsePort_range.
  - intros p. apply parsePort_range.
Qed.

(** [parsePeerList] returns on every text, and its result is the comma-separated
    fields in order, each trimmed of surrounding white space, the empty ones dropped. *)
Theorem parsePeerList_equiv (text : string) :
  parsePeerList text = Some (filter nonempty (trim <$> split_char (chr 44) text)).
Proof. unfold parsePeerList. by rewrite parsePeerList_loop_spec by lia. Qed.

(** [parsePort] takes digits followed by anything: the text need not be a number. *)
Theorem parsePort_trailing_garbage (digits garbage : string) (zeroAllowed : bool) :
  digits ≠ EmptyString → str_all is_digit digits = true →
  (∀ c t, garbage = String c t → is_digit c = false) →
  ((if zeroAllowed then 0 else 1) ≤ dec_value digits 0 ≤ 65535)%Z →
  parsePort (digits +:+ garbage) zeroAllowed = Some (dec_value digits 0).
Proof. apply parsePort_digits. Qed.

Lemma parsePort_trailing_garbage_witness :
  parsePort ("5555" +:+ "junk") false = Some 5555%Z.
Proof.
  apply (parsePort_trailing_garbage "5555" "junk" false); [done|reflexivity| |split; vm_compute; discriminate].
  intros c t [= <- _]. reflexivity.
Defined.
