(* ===== verification/Logger.v ===== *)
(** * The logger

    Models [common/logger.h]: the time stamp of a line, the throttle in front of recurring
    warnings, and the process-wide logger with its level filter, its handler and its mutex.

    A handler is the program's own code, which may log again or change the logger while it
    runs.  It is named by a number, and [behaviour] gives the calls of the logger it makes
    for a line.  The mutex is a flag: taking it while it is held is the deadlock of a thread
    with itself, a value of [Outcome]. *)

From Stdlib Require Import ZArith Lia Sorted.
From S2P Require Import Prelude.

(** ** Time stamps *)

(** The fields of a [std::tm] that are printed. *)
Record tm := mkTm { tm_hour : Z; tm_min : Z; tm_sec : Z }.

(** [%H], [%M] and [%S]: two digits. *)
Definition two_digits (n : Z) : string := setw zero_char 2 (to_string n).

Definition put_time (t : tm) : string :=
  two_digits (tm_hour t) +:+ ":" +:+ two_digits (tm_min t) +:+ ":" +:+ two_digits (tm_sec t).

Section time.
(** The time zone: [localtime_r]. *)
Context (localtime_r : Z → tm).

(** [when] in nanoseconds since the epoch; both casts truncate. *)
Definition hhmmssMillis (when : Z) : string :=
  let time := Z.quot when 1000000000 in
  let ms := Z.rem (Z.quot when 1000000) 1000 in
  put_time (localtime_r time) +:+ "." +:+ setw zero_char 3 (put_int ms).
End time.

(** ** The throttle *)

Record LogThrottle := mkThrottle { m_interval : Z; m_lastFired : Z }.

Definition new_throttle (interval now : Z) : LogThrottle := mkThrottle interval (now - interval).

Definition ready (now : Z) (t : LogThrottle) : bool * LogThrottle :=
  if decide (now - m_lastFired t < m_interval t)%Z then (false, t) else (true, mkThrottle (m_interval t) now).

(** The calls at the times [ts], and those of them that were let through. *)
Fixpoint fired (ts : list Z) (t : LogThrottle) : list Z :=
  match ts with
  | [] => []
  | now :: ts => let '(b, t) := ready now t in (if b then [now] else []) ++ fired ts t
  end.

(** ** The logger *)

Inductive Level := Debug | Info | Warning | Error.

#[export] Instance Level_eq_dec : EqDecision Level.
Proof. solve_decision. Defined.

(** The value of the enumerator. *)
Definition level_value (l : Level) : Z :=
  match l with Debug => 0 | Info => 1 | Warning => 2 | Error => 3 end.

(** [std::tolower] in the "C" locale. *)
Definition tolower (c : Ascii.ascii) : Ascii.ascii :=
  if decide (65 ≤ byte_of c ≤ 90)%Z then chr (byte_of c + 32) else c.

Fixpoint lower (s : string) : string :=
  match s with EmptyString => EmptyString | String c s => String (tolower c) (lower s) end.

(** [env] is [WISP_LOG_LEVEL]. *)
Definition initialLevel (env : option string) : Level :=
  match env with
  | None => Debug
  | Some value =>
      let value := lower value in
      if decide (value = "info"%string) then Info
      else if decide (value = "warning"%string ∨ value = "warn"%string) then Warning
      else if decide (value = "error"%string) then Error
      else Debug
  end.

Inductive Stream := Stdout | Stderr.

(** What leaves the logger: a line on a stream, or a call of a handler. *)
Inductive LogEvent :=
  | Written (out : Stream) (line : string)
  | Handled (handler : nat) (level : Level) (msg : string).

Record Logger := mkLogger {
  m_mutex : bool;
  m_minLevel : Level;
  m_handler : option nat;
  lg_events : list LogEvent
}.

Definition new_logger (env : option string) : Logger := mkLogger false (initialLevel env) None [].

Inductive Outcome := Done (l : Logger) | Deadlock | OutOfFuel.

Definition bind_outcome (o : Outcome) (f : Logger → Outcome) : Outcome :=
  match o with Done l => f l | o => o end.

Definition lock (l : Logger) : Outcome :=
  if m_mutex l then Deadlock else Done (mkLogger true (m_minLevel l) (m_handler l) (lg_events l)).

Definition unlock (l : Logger) : Logger := mkLogger false (m_minLevel l) (m_handler l) (lg_events l).

Definition emit (e : LogEvent) (l : Logger) : Logger :=
  mkLogger (m_mutex l) (m_minLevel l) (m_handler l) (lg_events l ++ [e]).

Definition level_tag (level : Level) : string :=
  match level with
  | Debug => "[DEBUG] " | Info => "[INFO]  " | Warning => "[WARN]  " | Error => "[ERROR] "
  end.

(** The calls of the interface. *)
Inductive LogCall :=
  | CallLog (level : Level) (msg : string)
  | CallSetMinLevel (level : Level)
  | CallSetHandler (handler : option nat).

Definition setMinLevel (level : Level) (l : Logger) : Logger :=
  mkLogger (m_mutex l) level (m_handler l) (lg_events l).

Definition setHandler (handler : option nat) (l : Logger) : Outcome :=
  bind_outcome (lock l) (λ l, Done (unlock (mkLogger (m_mutex l) (m_minLevel l) handler (lg_events l)))).

Section logger.
Context (stamp : string) (behaviour : nat → Level → string → list LogCall).

(** [stamp] is [TimeFormat::hhmmssMillisNow()]. *)
Definition writeDefault (level : Level) (msg : string) (l : Logger) : Logger :=
  let out := if decide (level = Error) then Stderr else Stdout in
  emit (Written out ("[" +:+ stamp +:+ "] " +:+ level_tag level +:+ msg)) l.

(** A call, with [log] for the logger's own [logInternal]. *)
Definition exec_call (log : Level → string → Logger → Outcome) (c : LogCall) (l : Logger) : Outcome :=
  match c with
  | CallLog level msg => log level msg l
  | CallSetMinLevel level => Done (setMinLevel level l)
  | CallSetHandler handler => setHandler handler l
  end.

Fixpoint exec_calls (log : Level → string → Logger → Outcome) (cs : list LogCall) (l : Logger) : Outcome :=
  match cs with
  | [] => Done l
  | c :: cs => bind_outcome (exec_call log c l) (exec_calls log cs)
  end.

(** [fuel] is how deep handlers that log may nest. *)
Fixpoint logInternal (fuel : nat) (level : Level) (msg : string) (l : Logger) : Outcome :=
  match fuel with
  | O => OutOfFuel
  | S fuel =>
      if decide (level_value level < level_value (m_minLevel l))%Z then Done l
      else
        bind_outcome (lock l) (λ l,
          match m_handler l with
          | None => Done (unlock (writeDefault level msg l))
          | Some h => exec_calls (logInternal fuel) (behaviour h level msg) (emit (Handled h level msg) (unlock l))
          end)
  end.

(** The calls of a program, one after the other. *)
Definition log_run (fuel : nat) (cs : list LogCall) (l : Logger) : Outcome := exec_calls (logInternal fuel) cs l.

(** ** What the logger promises *)

(** Where a message goes under a level and a handler. *)
Definition sink (minLevel : Level) (handler : option nat) (level : Level) (msg : string) : list LogEvent :=
  if decide (level_value level < level_value minLevel)%Z then []
  else match handler with
       | Some h => [Handled h level msg]
       | None => [Written (if decide (level = Error) then Stderr else Stdout)
                    ("[" +:+ stamp +:+ "] " +:+ level_tag level +:+ msg)]
       end.

(** The sinks of the messages of a program, under the last level and handler it set. *)
Fixpoint sinks (minLevel : Level) (handler : option nat) (cs : list LogCall) : list LogEvent :=
  match cs with
  | [] => []
  | CallLog level msg :: cs => sink minLevel handler level msg ++ sinks minLevel handler cs
  | CallSetMinLevel level :: cs => sinks level handler cs
  | CallSetHandler handler :: cs => sinks minLevel handler cs
  end.
End logger.

(** ** Lemmas *)

(** The times let through are an interval apart, and the first is an interval after the
    last before. *)
Definition spaced (d : Z) (ts : list Z) : Prop := Sorted (λ a b, a + d ≤ b)%Z ts.

Lemma fired_spaced ts t : spaced (m_interval t) (m_lastFired t :: fired ts t).
Proof.
  unfold spaced. revert t. induction ts as [|now ts IH]; intros t; [by repeat constructor|].
  cbn [fired]. unfold ready. case_dec; [apply IH|].
  apply Sorted_cons; [apply (IH (mkThrottle (m_interval t) now))|]. constructor. lia.
Qed.

(** What is not let through is within an interval of something that was. *)
Lemma fired_covers ts t now :
  now ∈ ts → now ∈ fired ts t ∨ ∃ f, f ∈ m_lastFired t :: fired ts t ∧ (now < f + m_interval t)%Z.
Proof.
  revert t. induction ts as [|x ts IH]; intros t; [by intros ?%not_elem_of_nil|].
  intros [->|H]%elem_of_cons; cbn [fired]; unfold ready; case_dec.
  - right. exists (m_lastFired t). split; [by left|lia].
  - left. by left.
  - apply IH. exact H.
  - destruct (IH (mkThrottle (m_interval t) x) H) as [Hf|(f & Hf & Hlt)]; [left; by right|].
    right. exists f. split; [by right|exact Hlt].
Qed.

Section lemmas.
Context (stamp : string) (behaviour : nat → Level → string → list LogCall).

(** Not a deadlock, and the mutex is free again. *)
Definition safe_outcome (o : Outcome) : Prop :=
  match o with Done l => m_mutex l = false | Deadlock => False | OutOfFuel => True end.

Lemma exec_calls_safe log cs l :
  (∀ level msg l, m_mutex l = false → safe_outcome (log level msg l)) →
  m_mutex l = false → safe_outcome (exec_calls log cs l).
Proof.
  intros Hlog. revert l. induction cs as [|c cs IH]; intros l Hl; [done|]. cbn [exec_calls].
  assert (safe_outcome (exec_call log c l)) as Hc.
  { destruct c; cbn [exec_call]; [by apply Hlog|done|]. unfold setHandler, lock. by rewrite Hl. }
  destruct (exec_call log c l); [by apply IH|done..].
Qed.

Lemma logInternal_safe fuel level msg l :
  m_mutex l = false → safe_outcome (logInternal stamp behaviour fuel level msg l).
Proof.
  revert level msg l. induction fuel as [|fuel IH]; intros level msg l Hl; [done|]. cbn [logInternal].
  case_dec; [done|]. unfold lock. rewrite Hl. cbn [bind_outcome m_handler].
  destruct (m_handler l) as [h|]; [|done]. by apply exec_calls_safe.
Qed.

(** A handler that makes no calls of the logger. *)
Definition quiet : Prop := ∀ h level msg, behaviour h level msg = [].

Lemma logInternal_sink fuel level msg l :
  quiet → m_mutex l = false →
  logInternal stamp behaviour (S fuel) level msg l =
    Done (mkLogger false (m_minLevel l) (m_handler l)
            (lg_events l ++ sink stamp (m_minLevel l) (m_handler l) level msg)).
Proof.
  intros Hq Hl. cbn [logInternal]. unfold sink. destruct l as [mu mn h ev]. cbn in *. subst mu.
  case_dec; [by rewrite app_nil_r|]. destruct h as [h|]; cbn; [|done]. by rewrite Hq.
Qed.
End lemmas.

(** ** Properties *)

(** The throttle lets an event through at most once per interval and never starves it.
    Of the calls of [ready] at any times, those that return true are at least an interval
    apart, and a call that returns false came less than an interval after one that
    returned true; the first call of a fresh throttle returns true. *)
Theorem throttle_rate (interval t0 first : Z) (ts : list Z) :
  (0 ≤ interval)%Z → (t0 ≤ first)%Z →
  let f := fired (first :: ts) (new_throttle interval t0) in
  spaced interval f ∧ head f = Some first ∧
  (∀ now, now ∈ ts → now ∈ f ∨ ∃ at_, at_ ∈ f ∧ (now < at_ + interval)%Z).
Proof.
  intros Hi Ht f. assert (f = first :: fired ts (mkThrottle interval first)) as ->.
  { unfold f. cbn [fired]. unfold ready, new_throttle. cbn. by rewrite decide_False by lia. }
  split_and!; [apply (fired_spaced ts (mkThrottle interval first))|done|].
  intros now Hn. destruct (fired_covers ts (mkThrottle interval first) now Hn) as [H|H]; [left; by right|by right].
Qed.

Lemma throttle_rate_witness :
  fired [10; 12; 15; 16; 30]%Z (new_throttle 5 10) = [10; 15; 30]%Z ∧ spaced 5 (fired [10; 12; 15; 16; 30]%Z (new_throttle 5 10)).
Proof. split; [by vm_compute|]. apply (throttle_rate 5 10 10 [12; 15; 16; 30]%Z); lia. Defined.

(** A handler may use the logger.  Whatever calls a handler makes while it handles a
    line - logging again, changing the level, replacing itself - no call of the program
    waits for a mutex its own thread holds, and the mutex is free after every call.  When
    handlers make no such calls, every message goes to exactly one place: nowhere below
    the minimum level, to the handler last set, otherwise to standard error for an error
    and to standard output for the rest. *)
Theorem logger_contract stamp behaviour fuel cs l :
  m_mutex l = false →
  safe_outcome (log_run stamp behaviour fuel cs l) ∧
  (quiet behaviour → 0 < fuel → ∃ l', log_run stamp behaviour fuel cs l = Done l' ∧
     lg_events l' = lg_events l ++ sinks stamp (m_minLevel l) (m_handler l) cs).
Proof.
  intros Hl. split; [apply exec_calls_safe; [apply logInternal_safe|done]|].
  intros Hq Hf. destruct fuel as [|fuel]; [lia|]. clear Hf. revert l Hl.
  induction cs as [|c cs IH]; intros l Hl; [exists l; cbn; by rewrite app_nil_r|].
  unfold log_run. cbn [exec_calls]. destruct c as [level msg|level|h]; cbn [exec_call sinks].
  - rewrite logInternal_sink by done. cbn [bind_outcome].
    destruct (IH (mkLogger false (m_minLevel l) (m_handler l) (lg_events l ++ sink stamp (m_minLevel l) (m_handler l) level msg)))
      as (l' & E & Hev); [done|]. exists l'. split; [exact E|]. rewrite Hev. cbn. by rewrite <-app_assoc.
  - apply (IH (setMinLevel level l)). done.
  - unfold setHandler, lock. rewrite Hl. cbn [bind_outcome].
    apply (IH (mkLogger false (m_minLevel l) h (lg_events l))). done.
Qed.

Definition demo_calls : list LogCall := [CallSetMinLevel Warning; CallLog Info "a"; CallLog Error "b"; CallSetHandler (Some 1); CallLog Warning "c"].

Lemma logger_contract_witness :
  safe_outcome (log_run "t" (λ _ _ _, [CallLog Error "again"]) 5 demo_calls (new_logger None)) ∧
  ∃ l', log_run "t" (λ _ _ _, []) 1 demo_calls (new_logger None) = Done l' ∧
    lg_events l' = [Written Stderr "[t] [ERROR] b"; Handled 1 Warning "c"].
Proof.
  split; [apply (logger_contract "t" (λ _ _ _, [CallLog Error "again"]) 5 demo_calls (new_logger None)); done|].
  destruct (proj2 (logger_contract "t" (λ _ _ _, []) 1 demo_calls (new_logger None) eq_refl)) as (l' & E & Hev);
    [done|lia|]. exists l'. split; [exact E|]. rewrite Hev. by vm_compute.
Defined.
