(* ===== verification/SafeQueue.v ===== *)
(** * The bounded queue between threads

    Models [common/safequeue.h].  Every operation of [SafeQueue] runs under the
    queue's mutex, so a concurrent history is a sequence of operations, each atomic at
    the point where it holds the lock and its wait predicate is true; [qstep] is that
    transition relation.  A blocking operation whose predicate is false has no
    transition (the thread sleeps); a timed one may also give up, leaving the queue
    alone.

    The second part models the wake-up protocol built on [wasEmpty]
    ([ZmqWorker::enqueue] with the poll loop of [ZmqWorker::runLoop], and the peer
    callback of [Broker::addPeer] with [Broker::run]): a producer pings the consumer
    only when its push found the queue empty. *)

From Stdlib Require Import ZArith Lia.
From S2P Require Import Prelude.
From stdpp Require Import relations.

Record SafeQueue (T : Type) := mkQueue { m_queue : list T; m_stop : bool; m_maxSize : nat }.
Arguments mkQueue {T} _ _ _.
Arguments m_queue {T} _.
Arguments m_stop {T} _.
Arguments m_maxSize {T} _.

Definition new_queue {T} (maxSize : nat) : SafeQueue T := mkQueue [] false maxSize.

(** The default capacity of the constructor. *)
Definition DefaultQueueSize : nat := Z.to_nat 5000.

Section operations.
Context {T : Type}.
Implicit Types (q : SafeQueue T) (v : T).

(** The wait predicate of [pushInternal]. *)
Definition hasRoom q : bool := bool_decide (length (m_queue q) < m_maxSize q) || m_stop q.

(** [pushInternal] once its wait is over with the predicate true: the return value,
    [wasEmpty] (unchanged, here [false], when the queue is stopped) and the queue. *)
Definition push_ready v q : bool * bool * SafeQueue T :=
  if m_stop q then (false, false, q)
  else (true, bool_decide (m_queue q = []), mkQueue (m_queue q ++ [v]) (m_stop q) (m_maxSize q)).

(** A timed push at the end of its wait: [false] when there is still no room. *)
Definition push_timed v q : bool * bool * SafeQueue T :=
  if hasRoom q then push_ready v q else (false, false, q).

(** [pop] once its wait is over: [None] is the return value [false]. *)
Definition pop_ready q : option T * SafeQueue T :=
  match m_queue q with
  | [] => (None, q)
  | v :: rest => (Some v, mkQueue rest (m_stop q) (m_maxSize q))
  end.

Definition canPop q : bool := negb (bool_decide (m_queue q = [])) || m_stop q.

Definition try_pop q : option T * SafeQueue T :=
  match m_queue q with
  | [] => (None, q)
  | v :: rest => (Some v, mkQueue rest (m_stop q) (m_maxSize q))
  end.

Definition drainTo q : list T * SafeQueue T := (m_queue q, mkQueue [] (m_stop q) (m_maxSize q)).

Definition queue_empty q : bool := bool_decide (m_queue q = []).

Definition queue_stop q : SafeQueue T := mkQueue (m_queue q) true (m_maxSize q).

Definition queue_reset q : SafeQueue T := mkQueue (m_queue q) false (m_maxSize q).

(** What an operation did, as its caller sees it. *)
Inductive QEvent :=
  | EvPush (v : T) (wasEmpty : bool)
  | EvPushRefused (v : T)
  | EvPop (v : T)
  | EvPopEnd
  | EvDrain (vs : list T)
  | EvStop
  | EvReset.

(** One atomic step of some thread on the queue. *)
Inductive qstep : SafeQueue T → QEvent → SafeQueue T → Prop :=
  | step_push v wasEmpty q q' :
      hasRoom q = true → push_ready v q = (true, wasEmpty, q') → qstep q (EvPush v wasEmpty) q'
  | step_push_stopped v w q q' :
      hasRoom q = true → push_ready v q = (false, w, q') → qstep q (EvPushRefused v) q'
  | step_push_timeout v w q q' :
      hasRoom q = false → push_timed v q = (false, w, q') → qstep q (EvPushRefused v) q'
  | step_pop v q q' :
      canPop q = true → pop_ready q = (Some v, q') → qstep q (EvPop v) q'
  | step_pop_end q q' :
      canPop q = true → pop_ready q = (None, q') → qstep q EvPopEnd q'
  | step_try_pop v q q' : try_pop q = (Some v, q') → qstep q (EvPop v) q'
  | step_drain vs q q' : drainTo q = (vs, q') → qstep q (EvDrain vs) q'
  | step_stop q : qstep q EvStop (queue_stop q)
  | step_reset q : qstep q EvReset (queue_reset q).

(** A history: the events in the order they took effect. *)
Inductive qtrace : SafeQueue T → list QEvent → SafeQueue T → Prop :=
  | trace_nil q : qtrace q [] q
  | trace_cons q e q' es q'' : qstep q e q' → qtrace q' es q'' → qtrace q (e :: es) q''.

(** What a history put in and what it took out, in order. *)
Definition ev_in (e : QEvent) : list T :=
  match e with EvPush v _ => [v] | _ => [] end.

Definition ev_out (e : QEvent) : list T :=
  match e with EvPop v => [v] | EvDrain vs => vs | _ => [] end.

Lemma qstep_fifo q e q' : qstep q e q' → m_queue q ++ ev_in e = ev_out e ++ m_queue q'.
Proof.
  destruct 1 as [v w q q' _ H|v w q q' _ H|v w q q' Hr H|v q q' _ H|q q' _ H|v q q' H|vs q q' H|q|q];
    unfold push_timed, push_ready, pop_ready, try_pop, drainTo in *; simpl; try rewrite ?Hr in H;
    try destruct (m_stop q); try destruct (m_queue q) eqn:E; simplify_eq/=; try done;
    rewrite ?E, ?app_nil_r; done.
Qed.

Lemma qstep_bound q e q' :
  qstep q e q' → length (m_queue q) ≤ m_maxSize q →
  length (m_queue q') ≤ m_maxSize q' ∧ m_maxSize q' = m_maxSize q.
Proof.
  destruct 1 as [v w q q' Hr H|v w q q' _ H|v w q q' Hr H|v q q' _ H|q q' _ H|v q q' H|vs q q' H|q|q];
    unfold push_timed, push_ready, pop_ready, try_pop, drainTo, hasRoom in *; simpl; intros Hb;
    try rewrite ?Hr in H; try destruct (m_stop q) eqn:Es;
    try destruct (m_queue q) eqn:E; simplify_eq/=; rewrite ?E; simpl; try lia;
    rewrite orb_false_r, bool_decide_eq_true in Hr; rewrite ?E in *; simpl in *;
    rewrite ?length_app; simpl; lia.
Qed.

Lemma qtrace_fifo q es q' :
  qtrace q es q' → m_queue q ++ concat (ev_in <$> es) = concat (ev_out <$> es) ++ m_queue q'.
Proof.
  induction 1 as [q|q e q' es q'' Hs _ IH]; simpl; [by rewrite app_nil_r|].
  rewrite app_assoc, (qstep_fifo _ _ _ Hs), <-!app_assoc. f_equal. exact IH.
Qed.

Lemma qtrace_bound q es q' :
  qtrace q es q' → length (m_queue q) ≤ m_maxSize q →
  length (m_queue q') ≤ m_maxSize q' ∧ m_maxSize q' = m_maxSize q.
Proof.
  induction 1 as [q|q e q' es q'' Hs _ IH]; intros Hb; [done|].
  destruct (qstep_bound _ _ _ Hs Hb) as [Hb' E]. destruct (IH Hb') as [? E']. split; [done|congruence].
Qed.

Lemma push_timed_spec v q :
  push_timed v q =
  if bool_decide (length (m_queue q) < m_maxSize q) && negb (m_stop q)
  then (true, bool_decide (m_queue q = []), mkQueue (m_queue q ++ [v]) (m_stop q) (m_maxSize q))
  else (false, false, q).
Proof.
  unfold push_timed, hasRoom, push_ready. destruct (bool_decide _), (m_stop q); done.
Qed.
End operations.

Arguments QEvent T : clear implicits.

(** ** The wake-up protocol *)

Section wake.
Context {T : Type}.

(** Where the consumer is in its loop: asleep in [zmq::poll] (or about to enter it),
    past the poll ([saw] is whether the wake socket was readable), or past the
    clearing of the pings. *)
Inductive Phase := AtPoll | AfterPoll (saw : bool) | Cleared.

(** [w_debts] counts the producers that pushed into an empty queue and have not sent
    their ping yet. *)
Record WakeState := mkWake {
  w_queue : SafeQueue T;
  w_debts : nat;
  w_pings : nat;
  w_phase : Phase
}.

Definition initial_wake (maxSize : nat) : WakeState := mkWake (new_queue maxSize) 0 0 AtPoll.

Inductive wake_step : WakeState → WakeState → Prop :=
  (* a producer's push *)
  | wake_push v wasEmpty q q' d p ph :
      push_timed v q = (true, wasEmpty, q') →
      wake_step (mkWake q d p ph) (mkWake q' (if wasEmpty then S d else d) p ph)
  (* its ping: refused only by a pipe that is full of pings *)
  | wake_ping q d p ph : wake_step (mkWake q (S d) p ph) (mkWake q d (S p) ph)
  | wake_ping_refused q d p ph : wake_step (mkWake q (S d) (S p) ph) (mkWake q d (S p) ph)
  (* the poll returns: a ping is there, or the timeout or the data socket ended it *)
  | wake_poll q d p : wake_step (mkWake q d p AtPoll) (mkWake q d p (AfterPoll (bool_decide (0 < p))))
  | wake_clear q d p :
      wake_step (mkWake q d p (AfterPoll true)) (mkWake q d 0 Cleared)
  | wake_no_clear q d p : wake_step (mkWake q d p (AfterPoll false)) (mkWake q d p Cleared)
  | wake_drain q d p vs q' :
      drainTo q = (vs, q') → wake_step (mkWake q d p Cleared) (mkWake q' d p AtPoll).

Definition wake_inv (w : WakeState) : Prop :=
  m_queue (w_queue w) = [] ∨ 0 < w_debts w ∨ 0 < w_pings w ∨ w_phase w ≠ AtPoll.

Lemma wake_step_inv w w' : wake_step w w' → wake_inv w → wake_inv w'.
Proof.
  unfold wake_inv.
  destruct 1 as [v wasEmpty q q' d p ph H|q d p ph|q d p ph|q d p|q d p|q d p|q d p vs q' H]; simpl.
  - rewrite push_timed_spec in H. destruct (_ && _); [|done]. simplify_eq.
    intros [E|[Hd|Hr]]; [|by case_bool_decide; right; left; lia|by right; right].
    rewrite E. rewrite bool_decide_true by done. right; left; lia.
  - intros _. right; right; left; lia.
  - intros _. right; right; left; lia.
  - intros _. by right; right; right.
  - intros _. by right; right; right.
  - intros _. by right; right; right.
  - unfold drainTo in H. simplify_eq/=. by left.
Qed.

Lemma wake_reachable_inv maxSize w :
  rtc wake_step (initial_wake maxSize) w → wake_inv w.
Proof.
  intros H. assert (∀ w0, rtc wake_step w0 w → wake_inv w0 → wake_inv w) as Hgen.
  { clear H. induction 1 as [|w0 w1 w2 Hs _ IH]; eauto using wake_step_inv. }
  apply (Hgen _ H). by left.
Qed.
End wake.

Arguments WakeState T : clear implicits.

(** ** Properties *)

(** C27: the queue is a bounded FIFO under every interleaving: over any history from an
    empty queue, what was pushed is, in order, what was taken out followed by what is
    still queued (nothing lost, duplicated or reordered), and the queue never holds
    more than its capacity. *)
Theorem SafeQueue_fifo_bounded {T} (maxSize : nat) (es : list (QEvent T)) (q : SafeQueue T) :
  qtrace (new_queue maxSize) es q →
  concat (ev_in <$> es) = concat (ev_out <$> es) ++ m_queue q ∧
  length (m_queue q) ≤ maxSize.
Proof.
  intros H. split; [apply (qtrace_fifo _ _ _ H)|].
  destruct (qtrace_bound _ _ _ H) as [Hb E]; [simpl; lia|]. by rewrite E in Hb.
Qed.

Lemma SafeQueue_fifo_bounded_witness :
  concat (ev_in <$> [EvPush 7 true; EvPush 8 false; EvPop 7]) =
  concat (ev_out <$> [EvPush 7 true; EvPush 8 false; EvPop 7]) ++ [8] ∧ length [8] ≤ 2.
Proof.
  apply (SafeQueue_fifo_bounded 2 [EvPush 7 true; EvPush 8 false; EvPop 7] (mkQueue [8] false 2)).
  eapply trace_cons; [by apply step_push|]. eapply trace_cons; [by apply step_push|].
  eapply trace_cons; [by apply step_pop|]. apply trace_nil.
Defined.


