(* ===== verification/Wire.v ===== *)
(** * Messages, header frames and ZeroMQ framing

    Models [common/wireframe.h] (the envelope, the codec seam, the format byte) and
    [common/zmqframes.h] (putting a message on a ZMQ socket as one multipart group
    and taking it off again).

    Two things are not under src/ and are parameters here, as type classes with the
    documented behaviour the code relies on as laws: the protobuf runtime's
    serialization of [MessageHeader], and a ZeroMQ socket's [send], [recv] and
    [ZMQ_RCVMORE]. *)

From Stdlib Require Import ZArith Lia.
From S2P Require Import Prelude.

(** ** Messages *)

(** [broker::MessageHeader] (common/proto/broker.proto). *)
Record MessageHeader := mkHeader {
  handler_key : string;
  sender_id : string;
  topic : string;
  origin_broker_id : string;
  message_uuid : string;
  reply_topic : string
}.

#[export] Instance MessageHeader_eq_dec : EqDecision MessageHeader.
Proof. solve_decision. Defined.

(** The default-constructed header: every field empty. *)
Definition empty_header : MessageHeader :=
  mkHeader EmptyString EmptyString EmptyString EmptyString EmptyString EmptyString.

Record Envelope := mkEnvelope { env_header : MessageHeader; env_payload : string }.

#[export] Instance Envelope_eq_dec : EqDecision Envelope.
Proof. solve_decision. Defined.

Record WireMessage := mkWireMessage { headerBytes : string; wire_payload : string }.

Definition makeWireMessage (headerBytes payload : string) : WireMessage :=
  mkWireMessage headerBytes payload.

Definition makeControlHeader (handlerKey senderId topic : string) : MessageHeader :=
  mkHeader handlerKey senderId topic EmptyString EmptyString EmptyString.

Definition makeControl (handlerKey senderId topic : string) : Envelope :=
  mkEnvelope (makeControlHeader handlerKey senderId topic) EmptyString.

(** ** The header codec *)

(** [enum class Format : std::uint8_t]: any byte; one value is named. *)
Record Format := mkFormat { format_byte : Z }.

Definition Format_Protobuf : Format := mkFormat 1.

(** A string is valid UTF-8: no stray or missing continuation byte, no overlong form, no
    surrogate, nothing above U+10FFFF. *)
Definition utf8_tail (c : Ascii.ascii) : bool := bool_decide (0x80 ≤ byte_of c ≤ 0xbf)%Z.

Definition utf8_second (lead : Z) (c : Ascii.ascii) : bool :=
  let b := byte_of c in
  if decide (lead = 0xe0)%Z then bool_decide (0xa0 ≤ b ≤ 0xbf)%Z
  else if decide (lead = 0xed)%Z then bool_decide (0x80 ≤ b ≤ 0x9f)%Z
  else if decide (lead = 0xf0)%Z then bool_decide (0x90 ≤ b ≤ 0xbf)%Z
  else if decide (lead = 0xf4)%Z then bool_decide (0x80 ≤ b ≤ 0x8f)%Z
  else utf8_tail c.

Fixpoint is_utf8 (s : string) : bool :=
  match s with
  | EmptyString => true
  | String c s =>
      let b := byte_of c in
      if decide (b ≤ 0x7f)%Z then is_utf8 s
      else if decide (0xc2 ≤ b ≤ 0xdf)%Z then
        match s with String c1 s => utf8_tail c1 && is_utf8 s | _ => false end
      else if decide (0xe0 ≤ b ≤ 0xef)%Z then
        match s with String c1 (String c2 s) => utf8_second b c1 && utf8_tail c2 && is_utf8 s | _ => false end
      else if decide (0xf0 ≤ b ≤ 0xf4)%Z then
        match s with
        | String c1 (String c2 (String c3 s)) => utf8_second b c1 && utf8_tail c2 && utf8_tail c3 && is_utf8 s
        | _ => false
        end
      else false
  end.

(** The [string] fields of a header, as opposed to the [bytes] one. *)
Definition header_utf8 (h : MessageHeader) : bool :=
  is_utf8 (handler_key h) && is_utf8 (sender_id h) && is_utf8 (topic h) && is_utf8 (origin_broker_id h) &&
  is_utf8 (reply_topic h).

(** The protobuf runtime on a [MessageHeader]: [ByteSizeLong],
    [SerializeWithCachedSizesToArray] and [ParseFromArray]. *)
Class ProtobufRuntime := {
  pb_ByteSizeLong : MessageHeader → nat;
  pb_Serialize : MessageHeader → string;
  pb_Parse : string → option MessageHeader
}.

(** Protobuf's limit: a message has less than two gigabytes. *)
Definition pb_sized `{!ProtobufRuntime} (h : MessageHeader) : Prop := (Z.of_nat (String.length (pb_Serialize h)) < 2 ^ 31)%Z.

(** Its documented behaviour: the size is the number of bytes written, and parsing what was
    serialized gives the message back when its [string] fields are UTF-8.  A message in
    which one is not is serialized all the same, and refused by the parser. *)
Class ProtobufLaws `{!ProtobufRuntime} : Prop := {
  pb_size : ∀ h, pb_ByteSizeLong h = String.length (pb_Serialize h);
  pb_roundtrip : ∀ h, pb_sized h → header_utf8 h = true → pb_Parse (pb_Serialize h) = Some h;
  pb_refuses : ∀ h, pb_sized h → header_utf8 h = false → pb_Parse (pb_Serialize h) = None;
  pb_strict : ∀ s h, pb_Parse s = Some h → header_utf8 h = true
}.

(** [class HeaderCodec]: its virtual functions. *)
Record HeaderCodec := mkCodec {
  codec_format : Format;
  codec_encode : MessageHeader → string → string;
  codec_decode : string → option MessageHeader
}.

Section codec.
Context `{!ProtobufRuntime}.

Definition ProtobufHeaderCodec : HeaderCodec := {|
  codec_format := Format_Protobuf;
  codec_encode := λ header out,
    let headerSize := pb_ByteSizeLong header in
    if decide (headerSize = 0) then out else out +:+ pb_Serialize header;
  codec_decode := λ data, pb_Parse data
|}.

Definition defaultFormat : Format := Format_Protobuf.

(** [nullptr] is [None]. *)
Definition codecFor (format : Format) : option HeaderCodec :=
  if decide (format_byte format = format_byte Format_Protobuf) then Some ProtobufHeaderCodec
  else None.

(** The codec of [defaultFormat] is always registered; a null one would be
    dereferenced, which the empty string stands for. *)
Definition encodeHeader (header : MessageHeader) : string :=
  match codecFor defaultFormat with
  | Some codec =>
      codec_encode codec header (String (chr (format_byte (codec_format codec))) EmptyString)
  | None => EmptyString
  end.

(** [None] is [false]. *)
Definition decodeHeaderFrame (frame : string) : option MessageHeader :=
  match frame with
  | EmptyString => None
  | String tag data =>
      match codecFor (mkFormat (byte_of tag)) with
      | Some codec => codec_decode codec data
      | None => None
      end
  end.

Lemma encodeHeader_eq `{!ProtobufLaws} h :
  encodeHeader h = String (chr 1) (pb_Serialize h).
Proof.
  unfold encodeHeader. simpl. case_dec as E; [|done].
  rewrite pb_size in E. apply str_length_zero in E. by rewrite E.
Qed.

Lemma decode_encodeHeader `{!ProtobufLaws} h : pb_sized h → header_utf8 h = true → decodeHeaderFrame (encodeHeader h) = Some h.
Proof. intros Hs Hu. rewrite encodeHeader_eq. simpl. by apply pb_roundtrip. Qed.

Lemma decode_encodeHeader_refused `{!ProtobufLaws} h : pb_sized h → header_utf8 h = false → decodeHeaderFrame (encodeHeader h) = None.
Proof. intros Hs Hu. rewrite encodeHeader_eq. simpl. by apply pb_refuses. Qed.

Lemma decodeHeaderFrame_utf8 `{!ProtobufLaws} frame h : decodeHeaderFrame frame = Some h → header_utf8 h = true.
Proof.
  destruct frame as [|tag data]; [done|]. simpl. unfold codecFor. case_decide; [|done]. simpl. apply pb_strict.
Qed.
End codec.

(** ** Sending on a ZMQ socket *)

(** What a non-blocking [send] of one frame does: accept it, refuse it (EAGAIN), or
    throw [zmq::error_t] (an unroutable identity under [router_mandatory]). *)
Inductive SendResult := Sent | Refused | Threw.

#[export] Instance SendResult_eq_dec : EqDecision SendResult.
Proof. solve_decision. Defined.

(** A socket to send on.  [zmq_send s frame more] offers one frame, [more] being
    [ZMQ_SNDMORE].  [sock_wire] is the groups it accepted so far, oldest first, and
    [sock_open] the frames of the group still being sent. *)
Class ZmqSender (S : Type) := {
  zmq_send : S → string → bool → SendResult * S;
  sock_wire : S → list (list string);
  sock_open : S → list string
}.

(** ZeroMQ's documented multipart semantics: a refused or failed frame changes
    nothing, an accepted one extends the open group and closes it when it is the
    last, and once the first frame of a group is accepted the others are. *)
Class ZmqSenderLaws S `{!ZmqSender S} : Prop := {
  zmq_refused : ∀ s f more r s', zmq_send s f more = (r, s') → r ≠ Sent →
    sock_wire s' = sock_wire s ∧ sock_open s' = sock_open s;
  zmq_sent_more : ∀ s f s', zmq_send s f true = (Sent, s') →
    sock_wire s' = sock_wire s ∧ sock_open s' = sock_open s ++ [f];
  zmq_sent_last : ∀ s f s', zmq_send s f false = (Sent, s') →
    sock_wire s' = sock_wire s ++ [sock_open s ++ [f]] ∧ sock_open s' = [];
  zmq_continuation : ∀ s f more, sock_open s ≠ [] → (zmq_send s f more).1 = Sent
}.

Section send.
Context {S : Type} `{!ZmqSender S}.

(** The payload frame, last of its group. *)
Definition sendPayload (sock : S) (payload : string) : bool * S :=
  match zmq_send sock payload false with
  | (Threw, sock') => (false, sock')
  | (_, sock') => (true, sock')
  end.

(** The header frame and what follows it. *)
Definition sendHeaderAndPayload (sock : S) (headerIsLeadFrame : bool) (headerFrame payload : string)
    : bool * S :=
  let hasPayload := bool_decide (0 < String.length payload) in
  match zmq_send sock headerFrame hasPayload with
  | (Threw, sock') => (false, sock')
  | (Refused, sock') =>
      if headerIsLeadFrame then (false, sock')
      else if hasPayload then sendPayload sock' payload else (true, sock')
  | (Sent, sock') => if hasPayload then sendPayload sock' payload else (true, sock')
  end.

(** [Wire::sendFrames]; a [None] identity is the [nullptr]. *)
Definition sendFrames (sock : S) (identity : option string) (headerFrame payload : string)
    : bool * S :=
  match identity with
  | Some id =>
      match zmq_send sock id true with
      | (Sent, sock') => sendHeaderAndPayload sock' false headerFrame payload
      | (_, sock') => (false, sock')
      end
  | None => sendHeaderAndPayload sock true headerFrame payload
  end.

Definition sendTo (sock : S) (identity headerFrame payload : string) : bool * S :=
  sendFrames sock (Some identity) headerFrame payload.

Definition send_encoded (sock : S) (msg : WireMessage) : bool * S :=
  sendFrames sock None (headerBytes msg) (wire_payload msg).

Definition send_envelope `{!ProtobufRuntime} (sock : S) (env : Envelope) : bool * S :=
  sendFrames sock None (encodeHeader (env_header env)) (env_payload env).

(** The group a message is on the wire. *)
Definition frames (identity : option string) (headerFrame payload : string) : list string :=
  option_list identity ++ [headerFrame] ++
  (if bool_decide (0 < String.length payload) then [payload] else []).

Context `{!ZmqSenderLaws S}.

Lemma sendPayload_spec sock payload ok sock' :
  sock_open sock ≠ [] → sendPayload sock payload = (ok, sock') →
  ok = true ∧ sock_wire sock' = sock_wire sock ++ [sock_open sock ++ [payload]] ∧ sock_open sock' = [].
Proof.
  intros Ho. unfold sendPayload. pose proof (zmq_continuation sock payload false Ho) as Hc.
  destruct (zmq_send sock payload false) as [r s'] eqn:E. simpl in Hc. subst r.
  intros [= <- <-]. split; [done|]. by apply zmq_sent_last.
Qed.

Lemma sendHeaderAndPayload_spec sock lead headerFrame payload ok sock' :
  (lead = true ∧ sock_open sock = [] ∨ sock_open sock ≠ []) →
  sendHeaderAndPayload sock lead headerFrame payload = (ok, sock') →
  (sock_open sock ≠ [] → ok = true) ∧
  sock_open sock' = [] ∧
  sock_wire sock' = sock_wire sock ++
    (if ok then [sock_open sock ++ [headerFrame] ++
       (if bool_decide (0 < String.length payload) then [payload] else [])] else []).
Proof.
  intros Hl. unfold sendHeaderAndPayload.
  destruct (zmq_send sock headerFrame _) as [r s'] eqn:E.
  destruct (decide (r = Sent)) as [->|Hr].
  - case_bool_decide.
    + apply zmq_sent_more in E as [Hw Ho]. intros Hp.
      apply sendPayload_spec in Hp as (-> & Hw' & Ho'); [|rewrite Ho; by destruct (sock_open sock)].
      split; [done|]. split; [done|]. by rewrite Hw', Hw, Ho, <-app_assoc.
    + apply zmq_sent_last in E as [Hw Ho]. intros [= <- <-]. done.
  - assert (sock_open sock = []) as Ho.
    { destruct Hl as [[_ ?]|Hl]; [done|].
      pose proof (zmq_continuation sock headerFrame (bool_decide (0 < String.length payload)) Hl) as Hc.
      rewrite E in Hc. done. }
    destruct Hl as [[-> _]|Hl]; [|done].
    pose proof (zmq_refused _ _ _ _ _ E Hr) as [Hw Ho'].
    destruct r; [done|..]; intros [= <- <-]; rewrite Ho', Hw, app_nil_r; done.
Qed.

(** A send puts the whole group on the wire or nothing of it. *)
Lemma sendFrames_spec sock identity headerFrame payload ok sock' :
  sock_open sock = [] → sendFrames sock identity headerFrame payload = (ok, sock') →
  sock_open sock' = [] ∧
  sock_wire sock' = sock_wire sock ++
    (if ok then [frames identity headerFrame payload] else []).
Proof.
  intros Ho. unfold sendFrames, frames. destruct identity as [id|]; simpl.
  - destruct (zmq_send sock id true) as [r s1] eqn:E.
    destruct (decide (r = Sent)) as [->|Hr].
    + apply zmq_sent_more in E as [Hw Ho1]. rewrite Ho in Ho1. simpl in Ho1. intros H.
      apply sendHeaderAndPayload_spec in H as (Hok & Ho' & Hw'); [|right; by rewrite Ho1].
      split; [done|]. rewrite Hw', Hw, Ho1. done.
    + pose proof (zmq_refused _ _ _ _ _ E Hr) as [Hw Ho1].
      destruct r; [done|..]; intros [= <- <-]; rewrite Ho1, Hw, app_nil_r; done.
  - intros H. apply sendHeaderAndPayload_spec in H as (_ & Ho' & Hw'); [|by left].
    split; [done|]. rewrite Hw', Ho. done.
Qed.
End send.

(** ** Receiving from a ZMQ socket *)

(** A socket to receive from.  [zmq_recv] takes the next frame, [None] when there is
    none (EAGAIN); [zmq_rcvmore] is [ZMQ_RCVMORE].  [sock_rest] is the frames left of
    the message being read, [sock_queue] the whole messages waiting behind it. *)
Class ZmqReceiver (S : Type) := {
  zmq_recv : S → option string * S;
  zmq_rcvmore : S → bool;
  sock_rest : S → list string;
  sock_queue : S → list (list string)
}.

(** Frames arrive in order, a message as a whole, and [ZMQ_RCVMORE] says whether the
    message being read has frames left. *)
Class ZmqReceiverLaws S `{!ZmqReceiver S} : Prop := {
  zmq_more : ∀ s, zmq_rcvmore s = negb (bool_decide (sock_rest s = []));
  zmq_recv_rest : ∀ s f fs, sock_rest s = f :: fs →
    ∃ s', zmq_recv s = (Some f, s') ∧ sock_rest s' = fs ∧ sock_queue s' = sock_queue s;
  zmq_recv_next : ∀ s f fs q, sock_rest s = [] → sock_queue s = (f :: fs) :: q →
    ∃ s', zmq_recv s = (Some f, s') ∧ sock_rest s' = fs ∧ sock_queue s' = q;
  zmq_recv_none : ∀ s, sock_rest s = [] → sock_queue s = [] →
    ∃ s', zmq_recv s = (None, s') ∧ sock_rest s' = [] ∧ sock_queue s' = []
}.

Section recv.
Context {S : Type} `{!ZmqReceiver S} `{!ProtobufRuntime}.

(** [Wire::drainMultipart], one unit of fuel per frame left. *)
Fixpoint drainMultipart (fuel : nat) (sock : S) : S :=
  match fuel with
  | O => sock
  | Datatypes.S fuel => if zmq_rcvmore sock then drainMultipart fuel (zmq_recv sock).2 else sock
  end.

(** The optional payload frame after a header, and the garbage behind it. *)
Definition recvPayload (sock : S) : string * S :=
  if zmq_rcvmore sock then
    let '(payload, sock') := zmq_recv sock in
    (default EmptyString payload, drainMultipart (length (sock_rest sock')) sock')
  else (EmptyString, sock).

(** [Wire::recv]: [Some (env, wireBytes)] is [true]. *)
Definition recv (sock : S) : option (Envelope * nat) * S :=
  match zmq_recv sock with
  | (None, sock') => (None, sock')
  | (Some headerFrame, sock') =>
      match decodeHeaderFrame headerFrame with
      | None => (None, drainMultipart (length (sock_rest sock')) sock')
      | Some header =>
          let '(payload, sock'') := recvPayload sock' in
          (Some (mkEnvelope header payload, String.length headerFrame + String.length payload), sock'')
      end
  end.

Context `{!ZmqReceiverLaws S}.

Lemma drainMultipart_spec fuel sock :
  length (sock_rest sock) ≤ fuel →
  sock_rest (drainMultipart fuel sock) = [] ∧ sock_queue (drainMultipart fuel sock) = sock_queue sock.
Proof.
  revert sock; induction fuel as [|fuel IH]; intros sock Hf; simpl.
  - by destruct (sock_rest sock); simpl in *; [|lia].
  - rewrite zmq_more. destruct (sock_rest sock) as [|f fs] eqn:E; [done|].
    rewrite bool_decide_false by done. simpl.
    destruct (zmq_recv_rest _ _ _ E) as (s' & -> & Hr & Hq). simpl.
    destruct (IH s') as [? ?]; [rewrite Hr; simpl in *; lia|]. by rewrite <-Hq.
Qed.

Lemma recvPayload_spec sock :
  (recvPayload sock).1 = default EmptyString (head (sock_rest sock)) ∧
  sock_rest (recvPayload sock).2 = [] ∧ sock_queue (recvPayload sock).2 = sock_queue sock.
Proof.
  unfold recvPayload. rewrite zmq_more. destruct (sock_rest sock) as [|f fs] eqn:E; [done|].
  rewrite bool_decide_false by done. simpl.
  destruct (zmq_recv_rest _ _ _ E) as (s' & -> & Hr & Hq). simpl.
  destruct (drainMultipart_spec (length (sock_rest s')) s') as [? Hq']; [lia|]. by rewrite Hq', Hq.
Qed.

(** Reading one message: the whole group is consumed, whatever it holds. *)
Lemma recv_spec sock header rest q :
  sock_rest sock = [] → sock_queue sock = (header :: rest) :: q →
  ∃ sock', recv sock =
    ((λ h, (mkEnvelope h (default EmptyString (head rest)),
            String.length header + String.length (default EmptyString (head rest))))
       <$> decodeHeaderFrame header, sock') ∧
    sock_rest sock' = [] ∧ sock_queue sock' = q.
Proof.
  intros Hr Hq. unfold recv. destruct (zmq_recv_next _ _ _ _ Hr Hq) as (s' & -> & Hr' & Hq').
  destruct (decodeHeaderFrame header) as [h|]; simpl.
  - destruct (recvPayload_spec s') as (Hp & Hr2 & Hq2).
    destruct (recvPayload s') as [p s2]. simpl in *. exists s2. subst p. rewrite Hr', Hq2. done.
  - destruct (drainMultipart_spec (length (sock_rest s')) s') as [? Hq2]; [lia|].
    eexists. split; [done|]. by rewrite Hq2.
Qed.
End recv.

(** ** Instances

    Concrete runtimes that satisfy the laws, for evaluating the model.  The codec
    writes each field behind its length; the sockets are a pipe with room for a number
    of groups, and a queue of messages. *)

Definition put_field (f : string) (rest : string) : string :=
  to_string (Z.of_nat (String.length f)) +:+ String (chr 58) (f +:+ rest).

Definition get_field (s : string) : option (string * string) :=
  match find_char_from0 (chr 58) s with
  | None => None
  | Some k =>
      let n := Z.to_nat (dec_value (str_take k s) 0) in
      let rest := str_drop (S k) s in
      Some (str_take n rest, str_drop n rest)
  end.

Lemma get_put_field f rest : get_field (put_field f rest) = Some (f, rest).
Proof.
  unfold get_field, put_field. rewrite find_char_from0_app.
  - rewrite str_take_app_length, to_string_value, Nat2Z.id by lia.
    replace (S (String.length (to_string (Z.of_nat (String.length f)))))
      with (String.length (to_string (Z.of_nat (String.length f))) + 1) by lia.
    rewrite <-str_drop_drop, str_drop_app_length. simpl.
    by rewrite str_take_app_length, str_drop_app_length.
  - apply digits_lack; [done|]. apply to_string_digits. lia.
Qed.

Definition demo_serialize (h : MessageHeader) : string :=
  put_field (handler_key h) (put_field (sender_id h) (put_field (topic h)
    (put_field (origin_broker_id h) (put_field (message_uuid h) (put_field (reply_topic h) EmptyString))))).

Definition demo_fields (s : string) : option MessageHeader :=
  '(a, s) ← get_field s; '(b, s) ← get_field s; '(c, s) ← get_field s;
  '(d, s) ← get_field s; '(e, s) ← get_field s; '(f, s) ← get_field s;
  Some (mkHeader a b c d e f).

Definition demo_parse (s : string) : option MessageHeader :=
  match demo_fields s with Some h => if header_utf8 h then Some h else None | None => None end.

Definition demo_runtime : ProtobufRuntime := {|
  pb_ByteSizeLong := λ h, String.length (demo_serialize h);
  pb_Serialize := demo_serialize;
  pb_Parse := demo_parse
|}.

Lemma demo_runtime_laws : @ProtobufLaws demo_runtime.
Proof.
  assert (∀ h, demo_fields (demo_serialize h) = Some h) as Hf.
  { intros [a b c d e f]. unfold demo_fields, demo_serialize. simpl. do 6 (rewrite get_put_field; simpl). done. }
  split; [done|..]; simpl; unfold demo_parse.
  - intros h _ Hu. by rewrite Hf, Hu.
  - intros h _ Hu. by rewrite Hf, Hu.
  - intros s h. destruct (demo_fields s) as [h'|]; [|done]. destruct (header_utf8 h') eqn:E; [|done]. by intros [= <-].
Qed.

(** [ds_room]: how many more groups each identity's pipe takes; [ds_known]: the
    identities a ROUTER can reach ([None] for a socket that addresses nobody). *)
Record DemoSender := mkDemoSender {
  ds_known : option (list string);
  ds_room : nat;
  ds_wire : list (list string);
  ds_open : list string
}.

Definition demo_send (s : DemoSender) (f : string) (more : bool) : SendResult * DemoSender :=
  let accept :=
    (Sent, if more then mkDemoSender (ds_known s) (ds_room s) (ds_wire s) (ds_open s ++ [f])
           else mkDemoSender (ds_known s) (ds_room s - 1) (ds_wire s ++ [ds_open s ++ [f]]) []) in
  match ds_open s with
  | _ :: _ => accept
  | [] =>
      if decide (ds_room s = 0) then (Refused, s)
      else match ds_known s with
           | Some known => if decide (f ∈ known) then accept else (Threw, s)
           | None => accept
           end
  end.

Definition demo_sender : ZmqSender DemoSender :=
  {| zmq_send := demo_send; sock_wire := ds_wire; sock_open := ds_open |}.

Lemma demo_sender_laws : @ZmqSenderLaws DemoSender demo_sender.
Proof.
  split; simpl.
  - intros s f more r s' H Hne. unfold demo_send in H. destruct (ds_open s) eqn:E; [|by simplify_eq].
    destruct (decide (ds_room s = 0)); [by simplify_eq|].
    destruct (ds_known s) as [l|]; [destruct (decide (f ∈ l))|]; by simplify_eq.
  - intros s f s'. unfold demo_send. destruct (ds_open s) eqn:E; [|by intros [= <-]].
    destruct (decide (ds_room s = 0)); [done|].
    destruct (ds_known s) as [l|]; [destruct (decide (f ∈ l))|]; intros; simplify_eq; done.
  - intros s f s'. unfold demo_send. destruct (ds_open s) eqn:E; [|by intros [= <-]].
    destruct (decide (ds_room s = 0)); [done|].
    destruct (ds_known s) as [l|]; [destruct (decide (f ∈ l))|]; intros; simplify_eq; done.
  - intros s f more Ho. unfold demo_send. by destruct (ds_open s).
Qed.

Record DemoReceiver := mkDemoReceiver { dr_rest : list string; dr_queue : list (list string) }.

Definition demo_recv (s : DemoReceiver) : option string * DemoReceiver :=
  match dr_rest s, dr_queue s with
  | f :: fs, q => (Some f, mkDemoReceiver fs q)
  | [], (f :: fs) :: q => (Some f, mkDemoReceiver fs q)
  | [], [] :: q => (Some EmptyString, mkDemoReceiver [] q)
  | [], [] => (None, s)
  end.

Definition demo_receiver : ZmqReceiver DemoReceiver := {|
  zmq_recv := demo_recv;
  zmq_rcvmore := λ s, negb (bool_decide (dr_rest s = []));
  sock_rest := dr_rest;
  sock_queue := dr_queue
|}.

Lemma demo_receiver_laws : @ZmqReceiverLaws DemoReceiver demo_receiver.
Proof.
  split; simpl; [done|..]; intros [r q]; unfold demo_recv; simpl; intros; subst; eauto.
Qed.

(** ** Properties *)

(** A header survives its frame: what [decodeHeaderFrame] reads back from
    [encodeHeader] is the header, and the frame is never empty.  A header in which a string
    is not UTF-8, a frame that is empty or carries any other format byte are refused. *)
Theorem header_frame_roundtrip `{!ProtobufRuntime} `{!ProtobufLaws} (h : MessageHeader) :
  pb_sized h →
  decodeHeaderFrame (encodeHeader h) = (if header_utf8 h then Some h else None) ∧
  decodeHeaderFrame EmptyString = None ∧
  (∀ tag data, byte_of tag ≠ 1%Z → decodeHeaderFrame (String tag data) = None).
Proof.
  intros Hs. split; [destruct (header_utf8 h) eqn:E; [by apply decode_encodeHeader|by apply decode_encodeHeader_refused]|].
  split; [done|]. intros tag data Ht. simpl.
  unfold codecFor. simpl. by rewrite decide_False.
Qed.

Lemma header_frame_roundtrip_witness :
  let rt := demo_runtime in
  decodeHeaderFrame (encodeHeader (mkHeader "k" "me" "t" "" "" "r")) =
  Some (mkHeader "k" "me" "t" "" "" "r").
Proof.
  apply (@header_frame_roundtrip demo_runtime demo_runtime_laws (mkHeader "k" "me" "t" "" "" "r")). reflexivity.
Defined.

(** A message group is never torn.  From a socket with no group in progress,
    [sendFrames] either returns [true] and has put exactly the identity, header and
    (non-empty) payload frames on the wire as one group, or returns [false] and has
    put nothing. *)
Theorem sendFrames_atomic {S} `{!ZmqSender S} `{!ZmqSenderLaws S} (sock : S)
    (identity : option string) (headerFrame payload : string) :
  sock_open sock = [] →
  let '(ok, sock') := sendFrames sock identity headerFrame payload in
  sock_open sock' = [] ∧
  sock_wire sock' = sock_wire sock ++ (if ok then [frames identity headerFrame payload] else []).
Proof.
  intros Ho. destruct (sendFrames _ _ _ _) as [ok sock'] eqn:E. by eapply sendFrames_spec.
Qed.

Lemma sendFrames_atomic_witness :
  let snd := demo_sender in
  let sock := mkDemoSender (Some ["alice"%string]) 1 [] [] in
  sock_wire (sendFrames sock (Some "alice"%string) "H" "P").2 =
  [["alice"%string; "H"%string; "P"%string]].
Proof.
  apply (@sendFrames_atomic DemoSender demo_sender demo_sender_laws
    (mkDemoSender (Some ["alice"%string]) 1 [] []) (Some "alice"%string) "H" "P").
  reflexivity.
Defined.


