(* ===== verification/Generated.v ===== *)
(** * The generated protobuf code

    Models what [protoc] generated from [common/proto/broker.proto]: the C binding
    [common/generated-c/broker.pb-c.c] and [.h] (structures, initializers, wrappers and
    descriptor tables, module [CBinding]), and of the C++ class
    [common/generated/broker.pb.cc] and [.h] the routing header (presence bits, setters,
    [Clear], serializer, size and parse table, module [CppHeader]).

    The two runtimes behind the code, protobuf-c and the C++ library, are not in the
    sources: [ProtobufC] and [WireRuntime] are their operations, and [WireLaws] states what
    the wire format documents.  From these [generated_header_laws] derives the
    [ProtobufLaws] on which the theorems about frames rest. *)

From Stdlib Require Import ZArith Lia.
From S2P Require Import Prelude.
From S2P Require Import Wire.

(** ** The schema *)

Inductive Label := LABEL_NONE | LABEL_REPEATED.
Inductive FieldType :=
  | TYPE_STRING | TYPE_BYTES | TYPE_INT32 | TYPE_INT64 | TYPE_UINT32 | TYPE_UINT64 | TYPE_DOUBLE | TYPE_MESSAGE.

#[export] Instance Label_eq_dec : EqDecision Label.
Proof. solve_decision. Defined.
#[export] Instance FieldType_eq_dec : EqDecision FieldType.
Proof. solve_decision. Defined.

(** A field of [broker.proto]: its label, type, the message type if it is one, its name
    and number. *)
Record ProtoField := mkField {
  pf_label : Label;
  pf_type : FieldType;
  pf_message : option string;
  pf_name : string;
  pf_number : Z
}.

#[export] Instance ProtoField_eq_dec : EqDecision ProtoField.
Proof. solve_decision. Defined.

Definition proto_message_header : list ProtoField :=
  [mkField LABEL_NONE TYPE_STRING None "handler_key" 1;
   mkField LABEL_NONE TYPE_STRING None "sender_id" 2;
   mkField LABEL_NONE TYPE_STRING None "topic" 3;
   mkField LABEL_NONE TYPE_STRING None "origin_broker_id" 4;
   mkField LABEL_NONE TYPE_BYTES None "message_uuid" 5;
   mkField LABEL_NONE TYPE_STRING None "reply_topic" 6].

Definition proto_client_info : list ProtoField :=
  [mkField LABEL_NONE TYPE_STRING None "id" 1;
   mkField LABEL_REPEATED TYPE_STRING None "subscriptions" 2;
   mkField LABEL_NONE TYPE_UINT64 None "dropped_messages" 3;
   mkField LABEL_NONE TYPE_UINT32 None "subscription_count" 4].

Definition proto_system_stats : list ProtoField :=
  [mkField LABEL_NONE TYPE_STRING None "broker_id" 1;
   mkField LABEL_NONE TYPE_INT32 None "clients_count" 2;
   mkField LABEL_NONE TYPE_INT32 None "peers_count" 3;
   mkField LABEL_NONE TYPE_INT32 None "msgs_per_sec" 4;
   mkField LABEL_NONE TYPE_DOUBLE None "kb_per_sec" 5;
   mkField LABEL_NONE TYPE_INT64 None "total_msgs" 6;
   mkField LABEL_NONE TYPE_INT64 None "uptime_sec" 7;
   mkField LABEL_REPEATED TYPE_MESSAGE (Some "ClientInfo") "connected_clients" 8;
   mkField LABEL_NONE TYPE_STRING None "cluster" 9;
   mkField LABEL_NONE TYPE_UINT64 None "total_dropped" 10;
   mkField LABEL_NONE TYPE_UINT64 None "total_rejected_subs" 11].

(** ** The C binding *)

Module CBinding.

(** The three descriptors, as the addresses the code compares. *)
Inductive Descriptor := broker__message_header__descriptor | broker__client_info__descriptor | broker__system_stats__descriptor.

#[export] Instance Descriptor_eq_dec : EqDecision Descriptor.
Proof. solve_decision. Defined.

(** A member of a generated structure as its initializer leaves it or a caller fills it. *)
Inductive CValue :=
  | CString (s : string)
  | CBinary (len : nat) (data : option string)
  | CNumber (z : Z)
  | CSize (n : nat)
  | CArray (elements : option (list string)).

(** The C type of a member. *)
Inductive CType := CharPtr | BinaryData | SizeT | PtrArray | Scalar (t : FieldType).

#[export] Instance CType_eq_dec : EqDecision CType.
Proof. solve_decision. Defined.

(** A message: [base.descriptor] and the members behind it. *)
Record CMessage := mkC {
  base_descriptor : Descriptor;
  c_members : list CValue
}.

(** *** Structures and initializers *)

Definition Broker__MessageHeader : list (string * CType) :=
  [("handler_key", CharPtr);
   ("sender_id", CharPtr);
   ("topic", CharPtr);
   ("origin_broker_id", CharPtr);
   ("message_uuid", BinaryData);
   ("reply_topic", CharPtr)].

Definition BROKER__MESSAGE_HEADER__INIT : CMessage :=
  mkC broker__message_header__descriptor
    [CString EmptyString; CString EmptyString; CString EmptyString; CString EmptyString; CBinary 0 None; CString EmptyString].

Definition Broker__ClientInfo : list (string * CType) :=
  [("id", CharPtr);
   ("n_subscriptions", SizeT);
   ("subscriptions", PtrArray);
   ("dropped_messages", Scalar TYPE_UINT64);
   ("subscription_count", Scalar TYPE_UINT32)].

Definition BROKER__CLIENT_INFO__INIT : CMessage :=
  mkC broker__client_info__descriptor
    [CString EmptyString; CSize 0; CArray None; CNumber 0; CNumber 0].

Definition Broker__SystemStats : list (string * CType) :=
  [("broker_id", CharPtr);
   ("clients_count", Scalar TYPE_INT32);
   ("peers_count", Scalar TYPE_INT32);
   ("msgs_per_sec", Scalar TYPE_INT32);
   ("kb_per_sec", Scalar TYPE_DOUBLE);
   ("total_msgs", Scalar TYPE_INT64);
   ("uptime_sec", Scalar TYPE_INT64);
   ("n_connected_clients", SizeT);
   ("connected_clients", PtrArray);
   ("cluster", CharPtr);
   ("total_dropped", Scalar TYPE_UINT64);
   ("total_rejected_subs", Scalar TYPE_UINT64)].

Definition BROKER__SYSTEM_STATS__INIT : CMessage :=
  mkC broker__system_stats__descriptor
    [CString EmptyString; CNumber 0; CNumber 0; CNumber 0; CNumber 0; CNumber 0; CNumber 0; CSize 0; CArray None; CString EmptyString; CNumber 0; CNumber 0].

(** *** Wrappers

    The protobuf-c library's functions, and the generated functions around them: every one
    that takes a message asserts that its descriptor is the type's own.  [None] is a failed
    assertion. *)

Class ProtobufC := {
  protobuf_c_message_get_packed_size : CMessage → nat;
  protobuf_c_message_pack : CMessage → nat * string;
  protobuf_c_message_pack_to_buffer : CMessage → string → nat * string;
  protobuf_c_message_unpack : Descriptor → string → option CMessage
}.

Section wrappers.
Context `{!ProtobufC}.

Definition asserting {A} (d : Descriptor) (message : CMessage) (run : A) : option A :=
  if decide (base_descriptor message = d) then Some run else None.

Definition broker__message_header__init (message : CMessage) : CMessage := BROKER__MESSAGE_HEADER__INIT.

Definition broker__message_header__get_packed_size (message : CMessage) : option nat :=
  asserting broker__message_header__descriptor message (protobuf_c_message_get_packed_size message).

Definition broker__message_header__pack (message : CMessage) : option (nat * string) :=
  asserting broker__message_header__descriptor message (protobuf_c_message_pack message).

Definition broker__message_header__pack_to_buffer (message : CMessage) (buffer : string) : option (nat * string) :=
  asserting broker__message_header__descriptor message (protobuf_c_message_pack_to_buffer message buffer).

Definition broker__message_header__unpack (data : string) : option CMessage :=
  protobuf_c_message_unpack broker__message_header__descriptor data.

(** The message handed to the library to be freed, none for a null pointer. *)
Definition broker__message_header__free_unpacked (message : option CMessage) : option (option CMessage) :=
  match message with
  | None => Some None
  | Some m => asserting broker__message_header__descriptor m (Some m)
  end.

Definition broker__client_info__init (message : CMessage) : CMessage := BROKER__CLIENT_INFO__INIT.

Definition broker__client_info__get_packed_size (message : CMessage) : option nat :=
  asserting broker__client_info__descriptor message (protobuf_c_message_get_packed_size message).

Definition broker__client_info__pack (message : CMessage) : option (nat * string) :=
  asserting broker__client_info__descriptor message (protobuf_c_message_pack message).

Definition broker__client_info__pack_to_buffer (message : CMessage) (buffer : string) : option (nat * string) :=
  asserting broker__client_info__descriptor message (protobuf_c_message_pack_to_buffer message buffer).

Definition broker__client_info__unpack (data : string) : option CMessage :=
  protobuf_c_message_unpack broker__client_info__descriptor data.

(** The message handed to the library to be freed, none for a null pointer. *)
Definition broker__client_info__free_unpacked (message : option CMessage) : option (option CMessage) :=
  match message with
  | None => Some None
  | Some m => asserting broker__client_info__descriptor m (Some m)
  end.

Definition broker__system_stats__init (message : CMessage) : CMessage := BROKER__SYSTEM_STATS__INIT.

Definition broker__system_stats__get_packed_size (message : CMessage) : option nat :=
  asserting broker__system_stats__descriptor message (protobuf_c_message_get_packed_size message).

Definition broker__system_stats__pack (message : CMessage) : option (nat * string) :=
  asserting broker__system_stats__descriptor message (protobuf_c_message_pack message).

Definition broker__system_stats__pack_to_buffer (message : CMessage) (buffer : string) : option (nat * string) :=
  asserting broker__system_stats__descriptor message (protobuf_c_message_pack_to_buffer message buffer).

Definition broker__system_stats__unpack (data : string) : option CMessage :=
  protobuf_c_message_unpack broker__system_stats__descriptor data.

(** The message handed to the library to be freed, none for a null pointer. *)
Definition broker__system_stats__free_unpacked (message : option CMessage) : option (option CMessage) :=
  match message with
  | None => Some None
  | Some m => asserting broker__system_stats__descriptor m (Some m)
  end.

End wrappers.

(** *** Descriptor tables *)

(** [ProtobufCFieldDescriptor]: [offsetof] members by name, the count's one being the
    quantifier of a repeated field. *)
Record FieldDescriptor := mkFD {
  fd_name : string;
  fd_id : Z;
  fd_label : Label;
  fd_type : FieldType;
  fd_quantifier : option string;
  fd_offset : string;
  fd_descriptor : option Descriptor;
  fd_empty_default : bool
}.

(** [ProtobufCMessageDescriptor]; a range is its first number and the index of its first
    field, the last one only the end. *)
Record MessageDescriptor := mkMD {
  md_name : string;
  md_short_name : string;
  md_c_name : string;
  md_package : string;
  md_n_fields : nat;
  md_fields : list FieldDescriptor;
  md_fields_sorted_by_name : list nat;
  md_n_field_ranges : nat;
  md_field_ranges : list (Z * nat);
  md_init : CMessage → CMessage
}.

Definition broker__message_header__field_descriptors : list FieldDescriptor :=
  [mkFD "handler_key" 1 LABEL_NONE TYPE_STRING None "handler_key" None true;
   mkFD "sender_id" 2 LABEL_NONE TYPE_STRING None "sender_id" None true;
   mkFD "topic" 3 LABEL_NONE TYPE_STRING None "topic" None true;
   mkFD "origin_broker_id" 4 LABEL_NONE TYPE_STRING None "origin_broker_id" None true;
   mkFD "message_uuid" 5 LABEL_NONE TYPE_BYTES None "message_uuid" None false;
   mkFD "reply_topic" 6 LABEL_NONE TYPE_STRING None "reply_topic" None true].

Definition broker__message_header__field_indices_by_name : list nat := [0; 4; 3; 5; 1; 2].

Definition broker__message_header__number_ranges : list (Z * nat) := [(1%Z, 0); (0%Z, 6)].

Definition broker__client_info__field_descriptors : list FieldDescriptor :=
  [mkFD "id" 1 LABEL_NONE TYPE_STRING None "id" None true;
   mkFD "subscriptions" 2 LABEL_REPEATED TYPE_STRING (Some "n_subscriptions") "subscriptions" None true;
   mkFD "dropped_messages" 3 LABEL_NONE TYPE_UINT64 None "dropped_messages" None false;
   mkFD "subscription_count" 4 LABEL_NONE TYPE_UINT32 None "subscription_count" None false].

Definition broker__client_info__field_indices_by_name : list nat := [2; 0; 3; 1].

Definition broker__client_info__number_ranges : list (Z * nat) := [(1%Z, 0); (0%Z, 4)].

Definition broker__system_stats__field_descriptors : list FieldDescriptor :=
  [mkFD "broker_id" 1 LABEL_NONE TYPE_STRING None "broker_id" None true;
   mkFD "clients_count" 2 LABEL_NONE TYPE_INT32 None "clients_count" None false;
   mkFD "peers_count" 3 LABEL_NONE TYPE_INT32 None "peers_count" None false;
   mkFD "msgs_per_sec" 4 LABEL_NONE TYPE_INT32 None "msgs_per_sec" None false;
   mkFD "kb_per_sec" 5 LABEL_NONE TYPE_DOUBLE None "kb_per_sec" None false;
   mkFD "total_msgs" 6 LABEL_NONE TYPE_INT64 None "total_msgs" None false;
   mkFD "uptime_sec" 7 LABEL_NONE TYPE_INT64 None "uptime_sec" None false;
   mkFD "connected_clients" 8 LABEL_REPEATED TYPE_MESSAGE (Some "n_connected_clients") "connected_clients" (Some broker__client_info__descriptor) false;
   mkFD "cluster" 9 LABEL_NONE TYPE_STRING None "cluster" None true;
   mkFD "total_dropped" 10 LABEL_NONE TYPE_UINT64 None "total_dropped" None false;
   mkFD "total_rejected_subs" 11 LABEL_NONE TYPE_UINT64 None "total_rejected_subs" None false].

Definition broker__system_stats__field_indices_by_name : list nat := [0; 1; 8; 7; 4; 3; 2; 9; 5; 10; 6].

Definition broker__system_stats__number_ranges : list (Z * nat) := [(1%Z, 0); (0%Z, 11)].

Definition message_header_descriptor : MessageDescriptor :=
  mkMD "broker.MessageHeader" "MessageHeader" "Broker__MessageHeader" "broker" 6 broker__message_header__field_descriptors broker__message_header__field_indices_by_name
    1 broker__message_header__number_ranges broker__message_header__init.

Definition client_info_descriptor : MessageDescriptor :=
  mkMD "broker.ClientInfo" "ClientInfo" "Broker__ClientInfo" "broker" 4 broker__client_info__field_descriptors broker__client_info__field_indices_by_name
    1 broker__client_info__number_ranges broker__client_info__init.

Definition system_stats_descriptor : MessageDescriptor :=
  mkMD "broker.SystemStats" "SystemStats" "Broker__SystemStats" "broker" 11 broker__system_stats__field_descriptors broker__system_stats__field_indices_by_name
    1 broker__system_stats__number_ranges broker__system_stats__init.

Definition descriptor_of (d : Descriptor) : MessageDescriptor :=
  match d with
  | broker__message_header__descriptor => message_header_descriptor
  | broker__client_info__descriptor => client_info_descriptor
  | broker__system_stats__descriptor => system_stats_descriptor
  end.

(** *** What the library requires of the tables *)

Definition proto_of (d : Descriptor) : list ProtoField :=
  match d with
  | broker__message_header__descriptor => proto_message_header
  | broker__client_info__descriptor => proto_client_info
  | broker__system_stats__descriptor => proto_system_stats
  end.

Definition members_of (d : Descriptor) : list (string * CType) :=
  match d with
  | broker__message_header__descriptor => Broker__MessageHeader
  | broker__client_info__descriptor => Broker__ClientInfo
  | broker__system_stats__descriptor => Broker__SystemStats
  end.

(** The field of the schema a descriptor is of. *)
Definition declared (f : FieldDescriptor) : ProtoField :=
  mkField (fd_label f) (fd_type f) (d ← fd_descriptor f; Some (md_short_name (descriptor_of d))) (fd_name f) (fd_id f).

(** The C type a field is stored in. *)
Definition stored (f : FieldDescriptor) : CType :=
  match fd_label f, fd_type f with
  | LABEL_REPEATED, _ => PtrArray
  | _, TYPE_STRING => CharPtr
  | _, TYPE_BYTES => BinaryData
  | _, t => Scalar t
  end.

(** Its offset is that of a member of that type, and a repeated field has the offset of
    its count. *)
Definition placed (members : list (string * CType)) (f : FieldDescriptor) : bool :=
  bool_decide ((fd_offset f, stored f) ∈ members) &&
  match fd_label f, fd_quantifier f with
  | LABEL_NONE, None => true
  | LABEL_REPEATED, Some n => bool_decide ((n, SizeT) ∈ members)
  | _, _ => false
  end.

(** An initial value fits the C type of its member: an empty string, never a null one. *)
Definition initial (v : CValue) (t : CType) : Prop :=
  match t with
  | CharPtr => v = CString EmptyString
  | BinaryData => v = CBinary 0 None
  | SizeT => v = CSize 0
  | PtrArray => v = CArray None
  | Scalar _ => v = CNumber 0
  end.

(** The ranges as protobuf-c documents them: the index of the field with
    a number, by the range it is in. *)
Fixpoint field_index (ranges : list (Z * nat)) (number : Z) : option nat :=
  match ranges with
  | (start, first) :: ((_, next) :: _) as rest =>
      if decide (start ≤ number < start + Z.of_nat (next - first))%Z then Some (first + Z.to_nat (number - start))
      else field_index rest number
  | _ => None
  end.

(** The names in the order of the index, which the library searches by bisection. *)
Definition names_by_index (md : MessageDescriptor) : list string :=
  omap (λ i, fd_name <$> md_fields md !! i) (md_fields_sorted_by_name md).

Fixpoint ascending (names : list string) : bool :=
  match names with
  | a :: (b :: _) as rest => str_lt a b && ascending rest
  | _ => true
  end.

(** The tables of one message. *)
Definition tables_ok (d : Descriptor) : Prop :=
  let md := descriptor_of d in
  md_name md = md_package md +:+ "." +:+ md_short_name md ∧
  length (md_fields md) = md_n_fields md ∧
  declared <$> md_fields md = proto_of d ∧
  forallb (placed (members_of d)) (md_fields md) = true ∧
  NoDup (fd_offset <$> md_fields md) ∧
  md_fields_sorted_by_name md ≡ₚ seq 0 (md_n_fields md) ∧
  ascending (names_by_index md) = true ∧
  length (md_field_ranges md) = S (md_n_field_ranges md) ∧
  Forall (λ i, (fd_id <$> md_fields md !! i) ≫= field_index (md_field_ranges md) = Some i) (seq 0 (md_n_fields md)) ∧
  ∀ m, base_descriptor (md_init md m) = d ∧ Forall2 initial (c_members (md_init md m)) (members_of d).*2.

(** The wrappers of one message. *)
Definition packs `{!ProtobufC} (d : Descriptor) (m : CMessage) : option (nat * string) :=
  match d with
  | broker__message_header__descriptor => broker__message_header__pack m
  | broker__client_info__descriptor => broker__client_info__pack m
  | broker__system_stats__descriptor => broker__system_stats__pack m
  end.

Lemma tables_of_schema d : tables_ok d.
Proof.
  destruct d; unfold tables_ok; split_and!; try (vm_compute; reflexivity);
    first [apply (bool_decide_eq_true_1 _); vm_compute; reflexivity | by repeat constructor].
Qed.

Lemma packs_own `{!ProtobufC} d d' m : is_Some (packs d' (md_init (descriptor_of d) m)) ↔ d = d'.
Proof.
  assert (packs d' (md_init (descriptor_of d) m) =
    asserting d' (md_init (descriptor_of d) m) (protobuf_c_message_pack (md_init (descriptor_of d) m))) as -> by (by destruct d').
  unfold asserting. replace (base_descriptor (md_init (descriptor_of d) m)) with d by (by destruct d).
  case_decide; [by eauto|]. split; [by intros [? [=]]|done].
Qed.

(** The generated C tables are the ones [broker.proto] demands.  For each of the three
    messages the descriptor lists the schema's fields in order, with their numbers, labels
    and types; every field lies at the offset of its own structure member of the right C
    type, a repeated one beside its count; the index by name is a permutation in strictly
    ascending order, so that bisection finds every name; looking a field number up in the
    ranges gives the field that has it; and the initializer leaves every member in its
    default, strings empty and never null.  A message so initialized passes the assertions
    of its own type's functions, and of no other type's. *)
Theorem c_tables_match_proto :
  (∀ d, tables_ok d) ∧
  ∀ `{!ProtobufC} d d' m, is_Some (packs d' (md_init (descriptor_of d) m)) ↔ d = d'.
Proof. split; [exact tables_of_schema|intros; apply packs_own]. Qed.

End CBinding.

(** ** The C++ routing header *)

(** What the generated class calls: writing a length-delimited field of a number and its
    size without the tag, and the table-driven parser.  A table has an entry per field, its
    wire tag and whether the field must be UTF-8; the parser returns the fields in the
    table's order. *)
Definition ParseTable := list (Z * bool).

Class WireRuntime := {
  WriteString : Z → string → string;
  StringSize : string → nat;
  TcParse : ParseTable → string → option (list string)
}.

(** The tag of a length-delimited field. *)
Definition wire_tag (number : Z) : Z := Z.lor (Z.shiftl number 3) 2.

(** The fields a sequence of records carries, one after the other. *)
Fixpoint written `{!WireRuntime} (records : list (Z * string)) : string :=
  match records with
  | [] => EmptyString
  | (number, s) :: records => WriteString number s +:+ written records
  end.

(** The field of a tag, empty when no record has it. *)
Fixpoint value_of (records : list (Z * string)) (tag : Z) : string :=
  match records with
  | [] => EmptyString
  | (number, s) :: records => if decide (wire_tag number = tag) then s else value_of records tag
  end.

Definition utf8_ok (entry : Z * bool) (s : string) : bool := if entry.2 then is_utf8 s else true.

(** The documented wire format: a number below 16 takes a tag of one byte, and parsing
    records of distinct fields of the table gives each field its bytes and the others
    nothing, unless a [string] field is not UTF-8. *)
Class WireLaws `{!WireRuntime} : Prop := {
  wire_size : ∀ number s, (1 ≤ number < 16)%Z → String.length (WriteString number s) = 1 + StringSize s;
  wire_records : ∀ table records,
    Forall (λ r, 1 ≤ r.1 < 16 ∧ wire_tag r.1 ∈ table.*1)%Z records → NoDup records.*1 →
    (Z.of_nat (String.length (written records)) < 2 ^ 31)%Z →
    TcParse table (written records) =
      if forallb (λ entry, utf8_ok entry (value_of records entry.1)) table
      then Some ((λ entry, value_of records entry.1) <$> table) else None;
  wire_strict : ∀ table s fields, TcParse table s = Some fields → Forall2 (λ entry f, utf8_ok entry f = true) table fields
}.

Module CppHeader.

(** [MessageHeader::_impl_]: the presence bits and the fields, and the bytes of the fields
    the class does not know. *)
Record Impl := mkImpl {
  has_bits : Z;
  impl_fields : MessageHeader;
  unknown_fields : string
}.

Definition new_impl : Impl := mkImpl 0 (mkHeader EmptyString EmptyString EmptyString EmptyString EmptyString EmptyString) EmptyString.

(** *** Setters *)

Definition set_handler_key (value : string) (x : Impl) : Impl :=
  let f := impl_fields x in
  mkImpl (Z.lor (has_bits x) 0x1) (mkHeader value (sender_id f) (topic f) (origin_broker_id f) (message_uuid f) (reply_topic f)) (unknown_fields x).

Definition set_sender_id (value : string) (x : Impl) : Impl :=
  let f := impl_fields x in
  mkImpl (Z.lor (has_bits x) 0x2) (mkHeader (handler_key f) value (topic f) (origin_broker_id f) (message_uuid f) (reply_topic f)) (unknown_fields x).

Definition set_topic (value : string) (x : Impl) : Impl :=
  let f := impl_fields x in
  mkImpl (Z.lor (has_bits x) 0x4) (mkHeader (handler_key f) (sender_id f) value (origin_broker_id f) (message_uuid f) (reply_topic f)) (unknown_fields x).

Definition set_origin_broker_id (value : string) (x : Impl) : Impl :=
  let f := impl_fields x in
  mkImpl (Z.lor (has_bits x) 0x8) (mkHeader (handler_key f) (sender_id f) (topic f) value (message_uuid f) (reply_topic f)) (unknown_fields x).

Definition set_message_uuid (value : string) (x : Impl) : Impl :=
  let f := impl_fields x in
  mkImpl (Z.lor (has_bits x) 0x10) (mkHeader (handler_key f) (sender_id f) (topic f) (origin_broker_id f) value (reply_topic f)) (unknown_fields x).

Definition set_reply_topic (value : string) (x : Impl) : Impl :=
  let f := impl_fields x in
  mkImpl (Z.lor (has_bits x) 0x20) (mkHeader (handler_key f) (sender_id f) (topic f) (origin_broker_id f) (message_uuid f) value) (unknown_fields x).

(** [(cached_has_bits & mask) != 0]. *)
Definition has (x : Impl) (mask : Z) : bool := negb (Z.land (has_bits x) mask =? 0)%Z.

Definition nonempty (s : string) : bool := match s with EmptyString => false | _ => true end.

(** *** [Clear]: only the fields whose bit is set are emptied. *)
Definition Clear (x : Impl) : Impl :=
  let f := impl_fields x in
  let cleared mask (get : MessageHeader → string) := if has x 0x3f && has x mask then EmptyString else get f in
  mkImpl 0 (mkHeader (cleared 0x1%Z handler_key) (cleared 0x2%Z sender_id) (cleared 0x4%Z topic)
    (cleared 0x8%Z origin_broker_id) (cleared 0x10%Z message_uuid) (cleared 0x20%Z reply_topic)) EmptyString.

Section codec.
Context `{!WireRuntime}.

(** *** Serializing *)

Definition serialize_field (x : Impl) (mask number : Z) (s : string) : string :=
  if has x mask then if nonempty s then WriteString number s else EmptyString else EmptyString.

(** [UnknownFieldSet] is written as it was read. *)
Definition InternalSerialize (x : Impl) : string :=
  let f := impl_fields x in
  serialize_field x 0x1 1 (handler_key f) +:+ (serialize_field x 0x2 2 (sender_id f) +:+
  (serialize_field x 0x4 3 (topic f) +:+ (serialize_field x 0x8 4 (origin_broker_id f) +:+
  (serialize_field x 0x10 5 (message_uuid f) +:+ (serialize_field x 0x20 6 (reply_topic f) +:+
  unknown_fields x))))).

Definition field_size (x : Impl) (mask : Z) (s : string) : nat :=
  if has x mask then if nonempty s then 1 + StringSize s else 0 else 0.

Definition ByteSizeLong (x : Impl) : nat :=
  let f := impl_fields x in
  (if has x 0x3f then
     field_size x 0x1 (handler_key f) + field_size x 0x2 (sender_id f) + field_size x 0x4 (topic f) +
     field_size x 0x8 (origin_broker_id f) + field_size x 0x10 (message_uuid f) + field_size x 0x20 (reply_topic f)
   else 0) + String.length (unknown_fields x).

(** *** Parsing: the table's six entries. *)
Definition header_table : ParseTable :=
  [(10, true); (18, true); (26, true); (34, true); (42, false); (50, true)]%Z.

Definition parse_header (s : string) : option MessageHeader :=
  match TcParse header_table s with
  | Some [a; b; c; d; e; f] => Some (mkHeader a b c d e f)
  | _ => None
  end.

(** A header as the code builds one, field by field. *)
Definition built (h : MessageHeader) : Impl :=
  set_reply_topic (reply_topic h) (set_message_uuid (message_uuid h) (set_origin_broker_id (origin_broker_id h)
    (set_topic (topic h) (set_sender_id (sender_id h) (set_handler_key (handler_key h) new_impl))))).

Definition generated_runtime : ProtobufRuntime := {|
  pb_ByteSizeLong := λ h, ByteSizeLong (built h);
  pb_Serialize := λ h, InternalSerialize (built h);
  pb_Parse := parse_header
|}.
End codec.

(** *** The presence bits *)

Definition header_masks : list (Z * (MessageHeader → string)) :=
  [(0x1, handler_key); (0x2, sender_id); (0x4, topic); (0x8, origin_broker_id); (0x10, message_uuid);
   (0x20, reply_topic)]%Z.

(** A field that is not empty has its bit. *)
Definition impl_wf (x : Impl) : Prop :=
  Forall (λ '(mask, get), get (impl_fields x) ≠ EmptyString → has x mask = true) header_masks.

Lemma has_lor bits bit f u mask :
  has (mkImpl (Z.lor bits bit) f u) mask = has (mkImpl bits f u) mask || negb (Z.land bit mask =? 0)%Z.
Proof.
  unfold has; simpl. rewrite Z.land_lor_distr_l. apply eq_bool_prop_intro. rewrite orb_True, !negb_True, !Is_true_true, !Z.eqb_eq.
  rewrite Z.lor_eq_0_iff. destruct (decide (Z.land bits mask = 0%Z)); tauto.
Qed.

Inductive setter : (Impl → Impl) → Prop :=
  | by_handler_key v : setter (set_handler_key v)
  | by_sender_id v : setter (set_sender_id v)
  | by_topic v : setter (set_topic v)
  | by_origin_broker_id v : setter (set_origin_broker_id v)
  | by_message_uuid v : setter (set_message_uuid v)
  | by_reply_topic v : setter (set_reply_topic v).

Lemma new_impl_wf : impl_wf new_impl.
Proof. by repeat constructor. Qed.

Lemma setter_wf set x : setter set → impl_wf x → impl_wf (set x).
Proof.
  destruct x as [b f u]. unfold impl_wf, header_masks. rewrite !Forall_cons.
  intros Hset (H1 & H2 & H3 & H4 & H5 & H6 & _).
  destruct Hset; unfold set_handler_key, set_sender_id, set_topic, set_origin_broker_id, set_message_uuid, set_reply_topic;
    cbn [has_bits impl_fields unknown_fields handler_key sender_id topic origin_broker_id message_uuid reply_topic] in *;
    repeat constructor; intros Hn; rewrite has_lor; apply orb_true_iff; (by right) || (left; eauto).
Qed.

Lemma built_wf h : impl_wf (built h).
Proof. repeat (apply setter_wf; [constructor|]). apply new_impl_wf. Qed.

Lemma built_fields h : impl_fields (built h) = h.
Proof. by destruct h. Qed.

Lemma has_all x mask : Z.land 0x3f mask = mask → has x 0x3f = false → has x mask = false.
Proof.
  unfold has. intros <- E. apply negb_false_iff, Z.eqb_eq in E. by rewrite Z.land_assoc, E.
Qed.

(** A field of a well-formed header: empty, or with its bit. *)
Lemma wf_field x mask get :
  impl_wf x → (mask, get) ∈ header_masks → get (impl_fields x) = EmptyString ∨ has x mask = true.
Proof.
  intros Hwf Hin. pose proof (proj1 (Forall_forall _ _) Hwf _ Hin) as Hm. simpl in Hm.
  destruct (decide (get (impl_fields x) = EmptyString)); [by left|right; by apply Hm].
Qed.

Ltac masks := unfold header_masks; set_solver.

(** Clearing a header, by its bits alone, leaves none of its fields. *)
Lemma clear_wf x : impl_wf x → Clear x = new_impl.
Proof.
  intros Hwf. unfold Clear, new_impl.
  assert (∀ mask get, (mask, get) ∈ header_masks → Z.land 0x3f mask = mask →
    (if has x 0x3f && has x mask then EmptyString else get (impl_fields x)) = EmptyString) as Hc.
  { intros mask get Hin Hm. destruct (wf_field x mask get Hwf Hin) as [E|E]; [rewrite E; by destruct (_ && _)|].
    destruct (has x 63) eqn:Ea; [by rewrite E|]. by rewrite (has_all x mask Hm Ea) in E. }
  f_equal. f_equal; (apply Hc; [masks|done]).
Qed.

(** The records of a header: its fields that are not empty, by number. *)
Definition records (h : MessageHeader) : list (Z * string) :=
  filter (λ r, nonempty r.2 = true)
    [(1, handler_key h); (2, sender_id h); (3, topic h); (4, origin_broker_id h); (5, message_uuid h); (6, reply_topic h)]%Z.

Section laws.
Context `{!WireRuntime}.

Lemma written_filter number s l :
  written (filter (λ r, nonempty r.2 = true) ((number, s) :: l)) =
  (if nonempty s then WriteString number s else EmptyString) +:+ written (filter (λ r, nonempty r.2 = true) l).
Proof.
  rewrite filter_cons. simpl. destruct (nonempty s).
  - by rewrite decide_True.
  - rewrite decide_False by done. by rewrite str_app_empty.
Qed.

Lemma serialize_field_wf x mask get number :
  impl_wf x → (mask, get) ∈ header_masks →
  serialize_field x mask number (get (impl_fields x)) =
    if nonempty (get (impl_fields x)) then WriteString number (get (impl_fields x)) else EmptyString.
Proof.
  intros Hwf Hin. unfold serialize_field. destruct (wf_field x mask get Hwf Hin) as [E|E]; rewrite E; [|done].
  by destruct (has x mask).
Qed.

(** What is written depends on the fields, not on the bits. *)
Lemma serialize_records x :
  impl_wf x → InternalSerialize x = written (records (impl_fields x)) +:+ unknown_fields x.
Proof.
  intros Hwf. unfold InternalSerialize, records. rewrite !written_filter.
  rewrite (serialize_field_wf x 0x1 handler_key), (serialize_field_wf x 0x2 sender_id), (serialize_field_wf x 0x4 topic),
    (serialize_field_wf x 0x8 origin_broker_id), (serialize_field_wf x 0x10 message_uuid),
    (serialize_field_wf x 0x20 reply_topic) by (done || masks).
  rewrite filter_nil. cbn [written]. by rewrite !str_app_assoc, str_app_empty.
Qed.

Context `{!WireLaws}.

Lemma field_size_length x mask number s :
  (1 ≤ number < 16)%Z → field_size x mask s = String.length (serialize_field x mask number s).
Proof.
  intros Hn. unfold field_size, serialize_field. destruct (has x mask), (nonempty s); simpl; try done.
  by rewrite wire_size.
Qed.

Lemma byte_size x : ByteSizeLong x = String.length (InternalSerialize x).
Proof.
  unfold ByteSizeLong, InternalSerialize. rewrite !str_length_app.
  rewrite <-!field_size_length by lia. destruct (has x 63) eqn:E; [lia|].
  unfold field_size. rewrite !(has_all x) by done. simpl. lia.
Qed.

Lemma value_of_filter l tag :
  NoDup (wire_tag <$> l.*1) → value_of (filter (λ r, nonempty r.2 = true) l) tag = value_of l tag.
Proof.
  induction l as [|[n s] l IH]; [done|]. cbn [fmap list_fmap fst]. rewrite NoDup_cons. intros [Hn Hl].
  rewrite filter_cons. destruct s as [|c s]; simpl; repeat case_dec; try (by rewrite ?IH).
  rewrite IH by done. subst tag. clear IH Hl. induction l as [|[m t] l IH]; [done|]. simpl in *.
  rewrite decide_False by (intros E; apply Hn; rewrite E; left). apply IH. set_solver.
Qed.

Lemma records_values h :
  (λ entry, value_of (records h) entry.1) <$> header_table =
  [handler_key h; sender_id h; topic h; origin_broker_id h; message_uuid h; reply_topic h].
Proof.
  unfold records, header_table. cbn [fmap list_fmap fst].
  rewrite !value_of_filter by (apply (bool_decide_eq_true_1 _); vm_compute; reflexivity). done.
Qed.

Lemma records_fit h :
  Forall (λ r, 1 ≤ r.1 < 16 ∧ wire_tag r.1 ∈ header_table.*1)%Z (records h) ∧ NoDup (records h).*1.
Proof.
  unfold records. split.
  - apply Forall_forall. intros r [_ Hr]%list_elem_of_filter. revert r Hr. apply Forall_forall. repeat constructor; cbn [fst]; try lia; apply (bool_decide_eq_true_1 _); vm_compute; reflexivity.
  - eapply sublist_NoDup; [|apply fmap_sublist, sublist_filter].
    apply (bool_decide_eq_true_1 _). vm_compute. reflexivity.
Qed.

(** Parsing a header's records. *)
Lemma parse_records h :
  (Z.of_nat (String.length (written (records h))) < 2 ^ 31)%Z →
  parse_header (written (records h)) = if header_utf8 h then Some h else None.
Proof.
  intros Hs. destruct (records_fit h) as [Hf Hn]. unfold parse_header.
  rewrite (wire_records header_table (records h) Hf Hn Hs), records_values.
  assert (forallb (λ entry, utf8_ok entry (value_of (records h) entry.1)) header_table = header_utf8 h) as ->.
  { pose proof (records_values h) as Hv. unfold header_table in *. cbn [fmap list_fmap fst] in Hv. injection Hv as H1 H2 H3 H4 H5 H6.
    cbn [forallb fst utf8_ok snd]. unfold utf8_ok; cbn [fst snd]. rewrite H1, H2, H3, H4, H6. unfold header_utf8.
    by rewrite andb_true_r, andb_true_l, !andb_assoc. }
  destruct (header_utf8 h); [by destruct h|done].
Qed.

End laws.

(** C22: The generated C++ header keeps the contract every theorem about frames rests on.
    Given the wire format the runtime documents, the generated size function counts
    exactly the bytes the generated serializer writes, parsing them by the generated table
    gives the header back when its text fields are UTF-8 and refuses it otherwise, and no
    header with an invalid text field is ever parsed.  The bytes depend only on the fields:
    the presence bits, kept by every setter, never hide one, and clearing by the bits
    empties all of them. *)
Theorem generated_header_laws `{!WireRuntime} (Hwire : WireLaws) :
  @ProtobufLaws generated_runtime ∧
  (∀ x, impl_wf x → unknown_fields x = EmptyString →
     InternalSerialize x = @pb_Serialize generated_runtime (impl_fields x) ∧ Clear x = new_impl) ∧
  ∀ set x, setter set → impl_wf x → impl_wf (set x).
Proof.
  assert (∀ h, InternalSerialize (built h) = written (records h)) as Hb.
  { intros h. rewrite serialize_records, built_fields by apply built_wf. apply str_app_nil_r. }
  split_and!; [split| |by apply setter_wf].
  - intros h. apply byte_size.
  - intros h Hs Hu. unfold pb_sized in Hs. simpl in *. rewrite Hb in *. by rewrite parse_records, Hu.
  - intros h Hs Hu. unfold pb_sized in Hs. simpl in *. rewrite Hb in *. by rewrite parse_records, Hu.
  - intros s h. simpl. unfold parse_header. destruct (TcParse header_table s) as [fs|] eqn:E; [|done].
    apply wire_strict in E. destruct fs as [|a [|b [|c [|d [|e [|f [|]]]]]]]; try done. intros [= <-].
    unfold header_table, utf8_ok in E. rewrite !Forall2_cons in E. simpl in E. unfold header_utf8; simpl.
    destruct E as (-> & -> & -> & -> & _ & -> & _). done.
  - intros x Hwf Hu. simpl. rewrite Hb, serialize_records, Hu by done. split; [apply str_app_nil_r|by apply clear_wf].
Qed.

(** *** A runtime that satisfies the laws *)

Definition demo_write (number : Z) (s : string) : string := String (chr number) (put_field s EmptyString).

Fixpoint demo_records (fuel : nat) (s : string) : option (list (Z * string)) :=
  match fuel, s with
  | _, EmptyString => Some []
  | S fuel, String c s => '(f, s) ← get_field s; l ← demo_records fuel s; Some ((byte_of c, f) :: l)
  | O, String _ _ => None
  end.

Definition demo_wire : WireRuntime := {|
  WriteString := demo_write;
  StringSize := λ s, String.length (put_field s EmptyString);
  TcParse := λ table s,
    l ← demo_records (String.length s) s;
    if forallb (λ entry, utf8_ok entry (value_of l entry.1)) table
    then Some ((λ entry, value_of l entry.1) <$> table) else None
|}.

Lemma put_field_app f rest : put_field f rest = put_field f EmptyString +:+ rest.
Proof. unfold put_field. by rewrite str_app_assoc, str_app_cons, str_app_assoc, str_app_empty. Qed.

Lemma demo_records_written fuel l :
  Forall (λ r, 1 ≤ r.1 < 16)%Z l → String.length (@written demo_wire l) ≤ fuel → demo_records fuel (@written demo_wire l) = Some l.
Proof.
  revert fuel; induction l as [|[n s] l IH]; intros fuel Hl Hf; [by destruct fuel|].
  apply Forall_cons in Hl as [Hn Hl]. cbn [written WriteString demo_wire] in *. unfold demo_write in *.
  rewrite str_app_cons in *. destruct fuel as [|fuel]; [cbn [String.length] in Hf; lia|]. cbn [demo_records].
  rewrite <-put_field_app, get_put_field. cbn [mbind option_bind].
  rewrite IH, byte_of_chr_small; [done|simpl in Hn; lia|done|]. cbn [String.length] in Hf. rewrite str_length_app in Hf. lia.
Qed.

Lemma demo_wire_laws : @WireLaws demo_wire.
Proof.
  split.
  - done.
  - intros table l Hl _ _. cbn [TcParse demo_wire]. rewrite demo_records_written; [done| |done].
    eapply Forall_impl; [exact Hl|]. by intros ? [].
  - intros table s fields. cbn [TcParse demo_wire]. destruct (demo_records _ s) as [l|]; [|done]. cbn [mbind option_bind].
    destruct (forallb _ table) eqn:E; [|done]. intros [= <-].
    apply Forall2_fmap_r, Forall_Forall2_diag, Forall_forall. intros x Hx. simpl.
    rewrite forallb_forall in E. apply E, list_elem_of_In, Hx.
Qed.

Lemma generated_header_laws_witness :
  @pb_Parse (@generated_runtime demo_wire) (InternalSerialize (H := demo_wire) (built (mkHeader "k" "me" "t" EmptyString EmptyString "r"))) =
    Some (mkHeader "k" "me" "t" EmptyString EmptyString "r").
Proof.
  apply (pb_roundtrip (ProtobufLaws := proj1 (@generated_header_laws demo_wire demo_wire_laws)) (mkHeader "k" "me" "t" EmptyString EmptyString "r")); reflexivity.
Defined.

End CppHeader.
