(* ===== verification/Beacon.v ===== *)
(** * Discovery beacons

    Models [common/beacon.h] and [common/beacon.cpp]: the datagram a broker announces
    itself with, its validation, and the listen-only receiver.  The UDP socket itself
    ([UdpSocket]) is operating-system calls; a datagram is the bytes it hands over. *)

From Stdlib Require Import ZArith Lia.
From S2P Require Import Prelude.
From S2P Require Import Config.

Record Beacon := mkBeacon {
  bc_cluster : string;
  bc_uuid : string;
  bc_routerPort : Z;
  bc_tapPort : Z
}.

Definition MAGIC : string := "WISP".
Definition WIRE_VERSION : string := "1".
Definition DEFAULT_PORT : Z := 5670.
Definition MAX_DATAGRAM_SIZE : nat := 512.

(** The field separator ['|']. *)
Definition bar : Ascii.ascii := chr 124.

Definition isValidClusterName (cluster : string) : bool :=
  bool_decide (cluster ≠ EmptyString) && bool_decide (String.length cluster ≤ 64) &&
  bool_decide (find_char bar cluster 0 = None).

(** [std::to_string] of a port. *)
Definition encode (cluster uuid : string) (routerPort tapPort : Z) : string :=
  MAGIC +:+ String bar (WIRE_VERSION +:+ String bar (cluster +:+ String bar
    (uuid +:+ String bar (to_string routerPort +:+ String bar (to_string tapPort))))).

(** The splitting loop of [decode]; [None] when the fuel runs out. *)
Fixpoint split_loop (fuel : nat) (s : string) (start : nat) (fields : list string)
    : option (list string) :=
  match fuel with
  | O => None
  | S fuel =>
      match find_char bar s start with
      | None => Some (fields ++ [str_drop start s])
      | Some pos => split_loop fuel s (pos + 1) (fields ++ [substr s start (pos - start)])
      end
  end.

(** [None] is [false], or the loop not ending (which the lemmas exclude). *)
Definition decode (data : string) : option Beacon :=
  fields ← split_loop (S (String.length data)) data 0 [];
  match fields with
  | [magic; version; cluster; uuid; routerText; tapText] =>
      if decide (magic ≠ MAGIC ∨ version ≠ WIRE_VERSION) then None
      else
        routerPort ← parsePort routerText false;
        tapPort ← parsePort tapText true;
        Some (mkBeacon cluster uuid routerPort tapPort)
  | _ => None
  end.

(** ** The UDP socket

    Descriptors are counted: how many were opened and how many closed. *)

Record UdpSocket := mkUdp { m_descriptor : bool; udp_opened : nat; udp_closed : nat }.

Definition new_udp : UdpSocket := mkUdp false 0 0.

Definition udp_close (s : UdpSocket) : UdpSocket := mkUdp false (udp_opened s) (S (udp_closed s)).

(** Whether [::socket] and [::bind] succeed is the system's. *)
Definition udp_open (socketOk bindOk : bool) (s : UdpSocket) : bool * UdpSocket :=
  let s := if m_descriptor s then udp_close s else s in
  if negb socketOk then (false, s)
  else
    let s := mkUdp true (S (udp_opened s)) (udp_closed s) in
    if bindOk then (true, s) else (false, udp_close s).

Definition udp_destroy (s : UdpSocket) : UdpSocket := if m_descriptor s then udp_close s else s.

(** [readable] is the answer of [::poll]; the datagram is what the kernel holds, of which
    [::recvfrom] gives at most [capacity] bytes; no [ip] is [::inet_ntop] failing.  An empty
    datagram and a failed receive are the zero the caller takes for nothing. *)
Definition udp_receive (readable : bool) (capacity : nat) (datagram ip : option string) : option (string * string) :=
  if negb readable then None
  else match str_take capacity <$> datagram with
       | None | Some EmptyString => None
       | Some bytes => (λ ip, (ip, bytes)) <$> ip
       end.

(** ** The listener *)

(** What one wait of the loop meets. *)
Record Wait := mkWait { wt_readable : bool; wt_datagram : option string; wt_ip : option string }.

(** One pass of [Listener::run]: the callback's arguments, if it is called. *)
Definition listener_step (w : Wait) : option (string * Beacon) :=
  match udp_receive (wt_readable w) MAX_DATAGRAM_SIZE (wt_datagram w) (wt_ip w) with
  | None => None
  | Some (senderIp, buf) => (λ heard, (senderIp, heard)) <$> decode buf
  end.

Record Listener := mkListener { l_running : bool; l_joinable : bool; l_starts : nat; l_heard : list (string * Beacon) }.

Definition new_listener : Listener := mkListener false false 0 [].

(** A second start while the thread is there is ignored. *)
Definition listener_start (l : Listener) : Listener :=
  if l_joinable l then l else mkListener true true (S (l_starts l)) (l_heard l).

Definition listener_stop (l : Listener) : Listener := mkListener false false (l_starts l) (l_heard l).

(** [run] of a thread whose socket opened, one wait after the other while [m_running]. *)
Definition listener_run (opened : bool) (waits : list Wait) (l : Listener) : Listener :=
  if opened && l_running l
  then mkListener (l_running l) (l_joinable l) (l_starts l) (l_heard l ++ omap listener_step waits) else l.

(** ** Lemmas *)

Lemma isValidClusterName_spec cluster :
  isValidClusterName cluster = true ↔
  cluster ≠ EmptyString ∧ String.length cluster ≤ 64 ∧ lacks bar cluster = true.
Proof.
  unfold isValidClusterName. rewrite !andb_true_iff, !bool_decide_eq_true.
  unfold find_char. rewrite fmap_None, find_char_from0_None. simpl.
  destruct cluster; tauto.
Qed.

Lemma split_loop_spec fuel s start fields :
  String.length s - start < fuel → start ≤ String.length s →
  split_loop fuel s start fields = Some (fields ++ split_char bar (str_drop start s)).
Proof.
  revert start fields; induction fuel as [|fuel IH]; intros start fields Hf Hs; [lia|].
  cbn [split_loop]. destruct (find_char bar s start) as [pos|] eqn:E.
  - destruct (find_char_bounds _ _ _ _ E) as [Hp ->].
    rewrite Nat.add_1_r, IH by lia. by rewrite <-app_assoc.
  - unfold find_char in E. destruct (find_char_from0 _ _) eqn:E'; [done|].
    by rewrite split_char_find, E'.
Qed.

Lemma decode_fields data :
  decode data =
  match split_char bar data with
  | [magic; version; cluster; uuid; routerText; tapText] =>
      if decide (magic ≠ MAGIC ∨ version ≠ WIRE_VERSION) then None
      else
        routerPort ← parsePort routerText false;
        tapPort ← parsePort tapText true;
        Some (mkBeacon cluster uuid routerPort tapPort)
  | _ => None
  end.
Proof. unfold decode. rewrite split_loop_spec by lia. done. Qed.

Lemma split_char_app c s t :
  lacks c s = true → split_char c (s +:+ String c t) = s :: split_char c t.
Proof.
  intros H. rewrite split_char_find, find_char_from0_app by done.
  rewrite str_take_app_length. f_equal. f_equal.
  rewrite <-Nat.add_1_r, <-str_drop_drop, str_drop_app_length. done.
Qed.

Lemma split_char_last c s : lacks c s = true → split_char c s = [s].
Proof. intros H%find_char_from0_None. by rewrite split_char_find, H. Qed.

Lemma split_char_lacks c s f : f ∈ split_char c s → lacks c f = true.
Proof.
  revert f; induction s as [|a s IH]; simpl; intros f.
  - by intros ->%list_elem_of_singleton.
  - case_dec as Ha; [intros [->|Hf]%elem_of_cons; auto; done|].
    destruct (split_char c s) as [|g gs] eqn:E.
    + intros ->%list_elem_of_singleton. by apply lacks_cons.
    + intros [->|Hf]%elem_of_cons.
      * apply lacks_cons. split; [done|]. apply IH. left.
      * apply IH. by right.
Qed.

Lemma decode_encode cluster uuid routerPort tapPort :
  lacks bar cluster = true → lacks bar uuid = true →
  (1 ≤ routerPort ≤ 65535)%Z → (0 ≤ tapPort ≤ 65535)%Z →
  decode (encode cluster uuid routerPort tapPort) = Some (mkBeacon cluster uuid routerPort tapPort).
Proof.
  intros Hc Hu Hr Ht. rewrite decode_fields. unfold encode.
  assert (∀ n, (0 ≤ n)%Z → lacks bar (to_string n) = true) as Hn.
  { intros n Hn. apply digits_lack; [done|]. by apply to_string_digits. }
  rewrite (split_char_app bar MAGIC), (split_char_app bar WIRE_VERSION), (split_char_app bar cluster),
    (split_char_app bar uuid), split_char_app, split_char_last by (done || apply Hn; lia).
  rewrite decide_False by naive_solver.
  by rewrite (parsePort_to_string routerPort false), (parsePort_to_string tapPort true).
Qed.

Lemma decode_sound data b :
  decode data = Some b →
  lacks bar (bc_cluster b) = true ∧ lacks bar (bc_uuid b) = true ∧
  (1 ≤ bc_routerPort b ≤ 65535)%Z ∧ (0 ≤ bc_tapPort b ≤ 65535)%Z.
Proof.
  rewrite decode_fields. pose proof (split_char_lacks bar data) as Hl.
  destruct (split_char bar data) as [|f0 [|f1 [|f2 [|f3 [|f4 [|f5 [|]]]]]]]; try done.
  case_dec; [done|].
  destruct (parsePort f4 false) as [rp|] eqn:Er; [|done]. simpl.
  destruct (parsePort f5 true) as [tp|] eqn:Et; [|done]. simpl. intros [= <-]. simpl.
  split; [apply Hl; set_solver|]. split; [apply Hl; set_solver|].
  split; [by apply parsePort_range in Er|by apply parsePort_range in Et].
Qed.

Lemma encode_length cluster uuid routerPort tapPort :
  (0 ≤ routerPort ≤ 65535)%Z → (0 ≤ tapPort ≤ 65535)%Z →
  String.length (encode cluster uuid routerPort tapPort) ≤
  20 + String.length cluster + String.length uuid.
Proof.
  intros Hr Ht. unfold encode.
  pose proof (to_string_length routerPort 4 ltac:(lia)).
  pose proof (to_string_length tapPort 4 ltac:(lia)).
  repeat (rewrite str_length_app; simpl). lia.
Qed.

(** ** Properties *)

(** A socket never leaks a descriptor, whatever is opened again and whatever fails: before
    its destruction at most the current one is open, and after it none. *)
Theorem udp_no_leak (attempts : list (bool * bool)) :
  let s := foldl (λ s a, (udp_open a.1 a.2 s).2) new_udp attempts in
  udp_opened s = udp_closed s + (if m_descriptor s then 1 else 0) ∧
  udp_opened (udp_destroy s) = udp_closed (udp_destroy s).
Proof.
  cbv zeta. set (s := foldl _ _ _). assert (udp_opened s = udp_closed s + (if m_descriptor s then 1 else 0)) as H.
  { unfold s. clear s. assert (udp_opened new_udp = udp_closed new_udp + (if m_descriptor new_udp then 1 else 0)) as H0 by done.
    revert H0. generalize new_udp. induction attempts as [|[so bo] attempts IH]; intros s Hs; [done|]. cbn [foldl]. apply IH.
    unfold udp_open. destruct s as [[] o c]; cbn in *; destruct so, bo; cbn; lia. }
  split; [done|]. unfold udp_destroy. destruct (m_descriptor s); cbn; lia.
Qed.

(** A listener hears every beacon a broker sends, from every cluster: the datagram is neither
    cut nor misread on its way. *)
Theorem listener_hears (cluster uuid ip : string) (routerPort tapPort : Z) (before after : list Wait) (l : Listener) :
  isValidClusterName cluster = true → lacks bar uuid = true → String.length uuid ≤ 36 →
  (1 ≤ routerPort ≤ 65535)%Z → (0 ≤ tapPort ≤ 65535)%Z → l_running l = true →
  l_heard (listener_run true (before ++ [mkWait true (Some (encode cluster uuid routerPort tapPort)) (Some ip)] ++ after) l) =
    l_heard l ++ omap listener_step before ++ [(ip, mkBeacon cluster uuid routerPort tapPort)] ++ omap listener_step after.
Proof.
  intros (_ & Hlen & Hc)%isValidClusterName_spec Hu Hul Hr Ht Hl. unfold listener_run. rewrite Hl. cbn [andb l_heard].
  f_equal. rewrite !omap_app. do 2 f_equal.
  pose proof (encode_length cluster uuid routerPort tapPort ltac:(lia) Ht) as Hel.
  pose proof (decode_encode cluster uuid routerPort tapPort Hc Hu Hr Ht) as Hd.
  assert (str_take MAX_DATAGRAM_SIZE (encode cluster uuid routerPort tapPort) = encode cluster uuid routerPort tapPort) as Et
    by (apply str_take_all; unfold MAX_DATAGRAM_SIZE; lia).
  set (w := mkWait _ _ _). assert (listener_step w = Some (ip, mkBeacon cluster uuid routerPort tapPort)) as Ew.
  { unfold listener_step, udp_receive, w. cbn [negb wt_readable wt_datagram wt_ip]. change (str_take MAX_DATAGRAM_SIZE <$> Some ?x) with (Some (str_take MAX_DATAGRAM_SIZE x)).
    rewrite Et. destruct (encode cluster uuid routerPort tapPort) as [|c rest] eqn:E; [done|]. cbn [fmap option_fmap option_map]. by rewrite Hd. }
  change (omap listener_step [w]) with (match listener_step w with Some y => [y] | None => [] end). by rewrite Ew.
Qed.

(** A broker's beacon is read back as it was written by every broker that hears it:
    for any cluster name the broker accepts and any uuid without ['|'], decoding the
    encoded datagram gives the same fields; and the datagram fits the receive buffer,
    so it is never truncated. *)
Theorem beacon_roundtrip (cluster uuid : string) (routerPort tapPort : Z) :
  isValidClusterName cluster = true →
  lacks bar uuid = true → String.length uuid ≤ 36 →
  (1 ≤ routerPort ≤ 65535)%Z → (0 ≤ tapPort ≤ 65535)%Z →
  decode (encode cluster uuid routerPort tapPort) = Some (mkBeacon cluster uuid routerPort tapPort) ∧
  String.length (encode cluster uuid routerPort tapPort) ≤ MAX_DATAGRAM_SIZE.
Proof.
  intros (_ & Hlen & Hc)%isValidClusterName_spec Hu Hul Hr Ht. split; [by apply decode_encode|].
  pose proof (encode_length cluster uuid routerPort tapPort ltac:(lia) Ht). unfold MAX_DATAGRAM_SIZE. lia.
Qed.

Lemma beacon_roundtrip_witness :
  decode (encode "lab" "3f2a" 5555 0) = Some (mkBeacon "lab" "3f2a" 5555 0).
Proof. apply (beacon_roundtrip "lab" "3f2a" 5555 0); [reflexivity|reflexivity|simpl; lia|lia|lia]. Defined.

(** Decoding is safe on any bytes: whatever [decode] accepts has a usable router port
    (1-65535), a tap port in 0-65535 and fields without the separator; anything with
    another number of fields, magic or version is refused. *)
Theorem beacon_decode_safe (data : string) :
  (∀ b, decode data = Some b →
     lacks bar (bc_cluster b) = true ∧ lacks bar (bc_uuid b) = true ∧
     (1 ≤ bc_routerPort b ≤ 65535)%Z ∧ (0 ≤ bc_tapPort b ≤ 65535)%Z) ∧
  (length (split_char bar data) ≠ 6 → decode data = None) ∧
  (head (split_char bar data) ≠ Some MAGIC → decode data = None).
Proof.
  split; [apply decode_sound|]. rewrite decode_fields.
  destruct (split_char bar data) as [|f0 [|f1 [|f2 [|f3 [|f4 [|f5 [|]]]]]]]; try done.
  simpl. split; [done|]. intros Hm. case_dec as H; [done|].
  destruct H. left. congruence.
Qed.
