(* ===== verification/Discovery.v ===== *)
(** * Peer discovery

    Models [server/discovery.h] and [server/discovery.cpp]: the decision logic that
    turns beacons into peer links ([onDatagram], [setCluster], [expireStale]) and the
    loop that drives it.  The dial and drop callbacks are the events an operation
    emits, in order; times are milliseconds of the steady clock. *)

From Stdlib Require Import ZArith Lia.
From S2P Require Import Prelude.
From S2P Require Import Config.
From S2P Require Import Beacon.

Record PeerEntry := mkPeerEntry { pe_address : string; pe_lastSeen : Z }.

Record BrokerDiscovery := mkDiscovery {
  m_cluster : string;
  m_selfUuid : string;
  m_routerPort : Z;
  m_tapPort : Z;
  m_dialed : gmap string PeerEntry
}.

Definition new_discovery (cluster selfUuid : string) (routerPort tapPort : Z) : BrokerDiscovery :=
  mkDiscovery cluster selfUuid routerPort tapPort ∅.

Definition MaxDialedPeers : nat := 64.
Definition BeaconInterval : Z := 1000.
Definition MissedBeaconsBeforeDrop : Z := 5.
Definition m_peerTimeout : Z := BeaconInterval * MissedBeaconsBeforeDrop.

Definition with_dialed (dialed : gmap string PeerEntry) (d : BrokerDiscovery) : BrokerDiscovery :=
  mkDiscovery (m_cluster d) (m_selfUuid d) (m_routerPort d) (m_tapPort d) dialed.

Definition with_cluster (cluster : string) (d : BrokerDiscovery) : BrokerDiscovery :=
  mkDiscovery cluster (m_selfUuid d) (m_routerPort d) (m_tapPort d) (m_dialed d).

(** What discovery asks of its owner and of the network. *)
Inductive DiscoveryEvent :=
  | Dial (uuid address : string)
  | Drop (uuid : string)
  | Broadcast (wire : string).

Definition peer_address (senderIp : string) (routerPort : Z) : string :=
  "tcp://" +:+ senderIp +:+ ":" +:+ to_string routerPort.

Definition onDatagram (senderIp data : string) (now : Z) (d : BrokerDiscovery)
    : list DiscoveryEvent * BrokerDiscovery :=
  match decode data with
  | None => ([], d)
  | Some heard =>
      if decide (bc_uuid heard = m_selfUuid d) then ([], d)
      else if negb (str_lt (m_selfUuid d) (bc_uuid heard)) then ([], d)
      else
        let address := peer_address senderIp (bc_routerPort heard) in
        if decide (bc_cluster heard ≠ m_cluster d) then ([], d)
        else
          match m_dialed d !! bc_uuid heard with
          | None =>
              if decide (MaxDialedPeers ≤ size (m_dialed d)) then ([], d)
              else
                ([Dial (bc_uuid heard) address],
                 with_dialed (<[bc_uuid heard := mkPeerEntry address now]> (m_dialed d)) d)
          | Some _ =>
              ([], with_dialed (<[bc_uuid heard := mkPeerEntry address now]> (m_dialed d)) d)
          end
  end.

Definition setCluster (ho : HashOrder) (cluster : string) (d : BrokerDiscovery)
    : list DiscoveryEvent * BrokerDiscovery :=
  if decide (cluster = m_cluster d) then ([], d)
  else
    let dropped := (entries ho (m_dialed d)).*1 in
    (Drop <$> dropped, with_dialed ∅ (with_cluster cluster d)).

Definition stale (now : Z) (entry : PeerEntry) : Prop := (now - pe_lastSeen entry > m_peerTimeout)%Z.

#[export] Instance stale_dec now entry : Decision (stale now entry).
Proof. unfold stale. apply _. Defined.

(** The erasing loop: the entries in the order it meets them, the uuids lost so far and
    the map. *)
Fixpoint expire_loop (now : Z) (es : list (string * PeerEntry)) (lost : list string)
    (m : gmap string PeerEntry) : list string * gmap string PeerEntry :=
  match es with
  | [] => (lost, m)
  | (uuid, entry) :: es =>
      if decide (stale now entry) then expire_loop now es (lost ++ [uuid]) (delete uuid m)
      else expire_loop now es lost m
  end.

Definition expireStale (ho : HashOrder) (now : Z) (d : BrokerDiscovery)
    : list DiscoveryEvent * BrokerDiscovery :=
  let '(lost, m) := expire_loop now (entries ho (m_dialed d)) [] (m_dialed d) in
  (Drop <$> lost, with_dialed m d).

(** One pass of the loop of [run]: [now] at its top, [now'] when the datagram (if any)
    is handled, [nextBeacon] the time the next announcement is due. *)
Definition run_iteration (ho : HashOrder) (now now' : Z) (datagram : option (string * string))
    (st : BrokerDiscovery * Z) : list DiscoveryEvent * (BrokerDiscovery * Z) :=
  let '(d, nextBeacon) := st in
  let '(evs1, d1, next1) :=
    if decide (nextBeacon ≤ now)%Z then
      let wire := encode (m_cluster d) (m_selfUuid d) (m_routerPort d) (m_tapPort d) in
      let '(evs, d') := expireStale ho now d in
      (Broadcast wire :: evs, d', (now + BeaconInterval)%Z)
    else ([], d, nextBeacon) in
  match datagram with
  | Some (senderIp, buf) =>
      let '(evs2, d2) := onDatagram senderIp buf now' d1 in (evs1 ++ evs2, (d2, next1))
  | None => (evs1, (d1, next1))
  end.

(** *** The thread *)

(** What a pass of the loop takes from outside: the clock at its top and when a datagram is
    handled, and what the wait on the socket meets. *)
Definition Pass : Type := Z * Z * Wait.

(** The passes of [run], one after the other: the events with the time of their pass. *)
Fixpoint run_passes (ho : HashOrder) (passes : list Pass) (st : BrokerDiscovery * Z)
    : list (Z * DiscoveryEvent) * (BrokerDiscovery * Z) :=
  match passes with
  | [] => ([], st)
  | (now, now', w) :: passes =>
      let received := udp_receive (wt_readable w) MAX_DATAGRAM_SIZE (wt_datagram w) (wt_ip w) in
      let '(evs, st) := run_iteration ho now now' received st in
      let '(rest, st) := run_passes ho passes st in
      ((pair now <$> evs) ++ rest, st)
  end.

Record DiscoveryThread := mkThread {
  dt_running : bool;
  dt_joinable : bool;
  dt_starts : nat;
  dt_discovery : BrokerDiscovery;
  dt_events : list (Z * DiscoveryEvent)
}.

Definition new_thread (d : BrokerDiscovery) : DiscoveryThread := mkThread false false 0 d [].

(** A second start while the thread is there is ignored. *)
Definition discovery_start (t : DiscoveryThread) : DiscoveryThread :=
  if dt_joinable t then t else mkThread true true (S (dt_starts t)) (dt_discovery t) (dt_events t).

Definition discovery_stop (t : DiscoveryThread) : DiscoveryThread :=
  mkThread false false (dt_starts t) (dt_discovery t) (dt_events t).

(** [run] from [begin] on: nothing when the socket did not open, else the passes while
    [m_running]. *)
Definition discovery_run (ho : HashOrder) (opened : bool) (begin : Z) (passes : list Pass) (t : DiscoveryThread)
    : DiscoveryThread :=
  if opened && dt_running t then
    let '(evs, (d, _)) := run_passes ho passes (dt_discovery t, begin) in
    mkThread (dt_running t) (dt_joinable t) (dt_starts t) d (dt_events t ++ evs)
  else t.

(** ** The links an owner holds

    The owner opens a link on [Dial] and closes it on [Drop]: the keys it has links
    for after a sequence of events. *)
Definition apply_event (links : gset string) (e : DiscoveryEvent) : gset string :=
  match e with
  | Dial uuid _ => {[uuid]} ∪ links
  | Drop uuid => links ∖ {[uuid]}
  | Broadcast _ => links
  end.

Definition apply_events (links : gset string) (es : list DiscoveryEvent) : gset string :=
  foldl apply_event links es.

(** ** Lemmas *)

Lemma expire_loop_spec now es lost m :
  NoDup es.*1 → (∀ k e, (k, e) ∈ es → m !! k = Some e) →
  let '(lost', m') := expire_loop now es lost m in
  lost' = lost ++ (filter (λ e, stale now e.2) es).*1 ∧
  (∀ k, m' !! k = if decide (k ∈ (filter (λ e, stale now e.2) es).*1) then None else m !! k).
Proof.
  revert lost m; induction es as [|[u e] es IH]; intros lost m Hnd Hes; simpl.
  - rewrite app_nil_r. split; [done|]. done.
  - apply NoDup_cons in Hnd as [Hu Hnd]. rewrite filter_cons. simpl. case_dec as Hst.
    + specialize (IH (lost ++ [u]) (delete u m) Hnd).
      destruct (expire_loop now es (lost ++ [u]) (delete u m)) as [lost' m'].
      destruct IH as [-> IH].
      { intros k e' Hin. rewrite lookup_delete_ne; [apply Hes; by right|].
        intros ->. apply Hu. by apply (list_elem_of_fmap_2 fst) in Hin. }
      rewrite <-app_assoc. split; [done|]. intros k. rewrite IH, lookup_delete. simpl.
      destruct (decide (k ∈ (filter (λ e0, stale now e0.2) es).*1)) as [Hk|Hk].
      * rewrite decide_True; [done|]. by right.
      * destruct (decide (u = k)) as [->|Huk]; [by rewrite decide_True by left|].
        rewrite decide_False; [done|]. by intros [?|?]%elem_of_cons.
    + apply IH; [done|]. intros k e' Hin. apply Hes. by right.
Qed.

Lemma stale_keys ho now m k :
  k ∈ (filter (λ e : string * PeerEntry, stale now e.2) (entries ho m)).*1 ↔
  ∃ e, m !! k = Some e ∧ stale now e.
Proof.
  rewrite list_elem_of_fmap. setoid_rewrite list_elem_of_filter. split.
  - intros ([k' e] & -> & Hs & H%elem_of_entries). eauto.
  - intros (e & H%(elem_of_entries ho) & Hs). by exists (k, e).
Qed.

(** [expireStale] keeps exactly the entries heard within the timeout. *)
Lemma expireStale_spec ho now d :
  let '(evs, d') := expireStale ho now d in
  m_dialed d' = filter (λ e, ¬ stale now e.2) (m_dialed d) ∧
  with_dialed (m_dialed d) d' = d ∧
  (∀ uuid, Drop uuid ∈ evs ↔ ∃ e, m_dialed d !! uuid = Some e ∧ stale now e) ∧
  (∀ u a, Dial u a ∉ evs).
Proof.
  unfold expireStale.
  pose proof (expire_loop_spec now (entries ho (m_dialed d)) [] (m_dialed d) (NoDup_entries ho _)) as H.
  destruct (expire_loop _ _ _ _) as [lost m']. destruct H as [-> Hm].
  { intros k e. by rewrite elem_of_entries. }
  simpl. split_and!.
  - apply map_eq. intros k. rewrite Hm, map_lookup_filter.
    destruct (m_dialed d !! k) as [e|] eqn:E; simpl.
    + destruct (decide (stale now e)) as [Hs|Hs].
      * rewrite decide_True by (apply stale_keys; eauto). by case_guard.
      * rewrite decide_False by (intros (e' & ? & ?)%stale_keys; congruence). by case_guard.
    + by case_dec.
  - by destruct d.
  - intros uuid. rewrite <-(stale_keys ho), list_elem_of_fmap. naive_solver.
  - intros u a (x & ? & _)%list_elem_of_fmap. done.
Qed.

Lemma setCluster_spec ho cluster d :
  let '(evs, d') := setCluster ho cluster d in
  if decide (cluster = m_cluster d) then evs = [] ∧ d' = d
  else m_cluster d' = cluster ∧ m_dialed d' = ∅ ∧
       ∀ uuid, Drop uuid ∈ evs ↔ is_Some (m_dialed d !! uuid).
Proof.
  unfold setCluster. case_dec; [done|]. simpl. split_and!; [done..|].
  intros uuid. rewrite <-(elem_of_entries_keys ho), list_elem_of_fmap. naive_solver.
Qed.

Lemma apply_drops ds links : apply_events links (Drop <$> ds) = links ∖ list_to_set ds.
Proof.
  revert links; induction ds as [|u ds IH]; intros links; [set_solver|].
  unfold apply_events in *. simpl. rewrite IH. set_solver.
Qed.

(** The dialed map never outgrows the cap, and its keys are the links the events leave
    open. *)
Definition discovery_inv (links : gset string) (d : BrokerDiscovery) : Prop :=
  dom (m_dialed d) = links ∧ size (m_dialed d) ≤ MaxDialedPeers.

Lemma onDatagram_inv ip data now d links :
  discovery_inv links d →
  let '(evs, d') := onDatagram ip data now d in discovery_inv (apply_events links evs) d'.
Proof.
  intros [Hd Hs]. unfold onDatagram.
  destruct (decode data) as [heard|]; [|done]. case_dec; [done|].
  destruct (negb _); [done|]. case_dec; [done|].
  destruct (m_dialed d !! bc_uuid heard) as [e|] eqn:E.
  - split; simpl.
    + rewrite dom_insert_L. apply (elem_of_dom_2 (D := gset string)) in E. set_solver.
    + rewrite map_size_insert_Some; eauto.
  - destruct (decide (MaxDialedPeers ≤ size (m_dialed d))); [done|]. split; simpl.
    + rewrite dom_insert_L. by rewrite Hd.
    + rewrite map_size_insert_None by done. lia.
Qed.

Lemma dom_filter_fresh now (m : gmap string PeerEntry) (ds : list string) :
  (∀ k, k ∈ ds ↔ ∃ e, m !! k = Some e ∧ stale now e) →
  dom (filter (λ e, ¬ stale now e.2) m) = dom m ∖ list_to_set ds.
Proof.
  intros Hds. apply set_eq. intros k.
  rewrite elem_of_difference, elem_of_list_to_set, Hds, !elem_of_dom. unfold is_Some.
  setoid_rewrite map_lookup_filter_Some. simpl. split.
  - intros (e & He & Hn). split; [eauto|]. intros (e' & ? & ?). congruence.
  - intros [[e He] Hn]. exists e. split; [done|]. intros ?. eauto.
Qed.

Lemma expireStale_inv ho now d links :
  discovery_inv links d →
  let '(evs, d') := expireStale ho now d in discovery_inv (apply_events links evs) d'.
Proof.
  intros [Hd Hs]. pose proof (expireStale_spec ho now d) as Hspec.
  unfold expireStale in *. destruct (expire_loop _ _ _ _) as [lost m].
  destruct Hspec as (Hm & _ & Hdrop & _). simpl in *.
  split; simpl.
  - rewrite Hm, apply_drops, <-Hd. apply dom_filter_fresh. intros k. rewrite <-Hdrop, list_elem_of_fmap.
    naive_solver.
  - rewrite Hm. etrans; [|exact Hs]. apply map_size_filter.
Qed.

Lemma setCluster_inv ho cluster d links :
  discovery_inv links d →
  let '(evs, d') := setCluster ho cluster d in discovery_inv (apply_events links evs) d'.
Proof.
  intros [Hd Hs]. unfold setCluster. case_dec; [done|]. split; simpl.
  - rewrite apply_drops, <-Hd, dom_empty_L.
    assert (dom (m_dialed d) ⊆ list_to_set (entries ho (m_dialed d)).*1); [|set_solver].
    intros k. by rewrite elem_of_list_to_set, elem_of_entries_keys, elem_of_dom.
  - rewrite map_size_empty. lia.
Qed.

(** *** Runs *)

(** An operation, with everything it takes from outside. *)
Inductive DiscoveryOp :=
  | OpDatagram (senderIp data : string) (now : Z)
  | OpExpire (ho : HashOrder) (now : Z)
  | OpSetCluster (ho : HashOrder) (cluster : string).

Definition run_op (op : DiscoveryOp) (d : BrokerDiscovery) : list DiscoveryEvent * BrokerDiscovery :=
  match op with
  | OpDatagram ip data now => onDatagram ip data now d
  | OpExpire ho now => expireStale ho now d
  | OpSetCluster ho cluster => setCluster ho cluster d
  end.

(** The discovery state and the owner's links after a sequence of operations. *)
Fixpoint run_ops (ops : list DiscoveryOp) (st : gset string * BrokerDiscovery)
    : gset string * BrokerDiscovery :=
  match ops with
  | [] => st
  | op :: ops =>
      let '(evs, d') := run_op op st.2 in run_ops ops (apply_events st.1 evs, d')
  end.

Lemma run_op_inv op d links :
  discovery_inv links d →
  let '(evs, d') := run_op op d in discovery_inv (apply_events links evs) d'.
Proof. destruct op; [apply onDatagram_inv|apply expireStale_inv|apply setCluster_inv]. Qed.

Lemma run_ops_inv ops links d :
  discovery_inv links d →
  discovery_inv (run_ops ops (links, d)).1 (run_ops ops (links, d)).2.
Proof.
  revert links d; induction ops as [|op ops IH]; intros links d Hinv; [done|]. simpl.
  pose proof (run_op_inv op d links Hinv) as H. destruct (run_op op d) as [evs d']. by apply IH.
Qed.

(** A beacon of a peer in the same cluster, from a broker that is not linked to it and
    has room: who dials is decided by the uuids alone. *)
Lemma onDatagram_beacon ip now d peer port tap :
  lacks bar (m_cluster d) = true → lacks bar peer = true →
  (1 ≤ port ≤ 65535)%Z → (0 ≤ tap ≤ 65535)%Z →
  m_dialed d !! peer = None → size (m_dialed d) < MaxDialedPeers →
  (onDatagram ip (encode (m_cluster d) peer port tap) now d).1 =
  if str_lt (m_selfUuid d) peer then [Dial peer (peer_address ip port)] else [].
Proof.
  intros Hc Hp Hr Ht Hm Hs. unfold onDatagram. rewrite decode_encode by done. simpl.
  destruct (decide (peer = m_selfUuid d)) as [->|Hne]; [by rewrite str_lt_irrefl|].
  destruct (str_lt (m_selfUuid d) peer); simpl; [|done].
  rewrite decide_False by tauto. rewrite Hm, decide_False by lia. done.
Qed.

(** *** The cluster swap in two steps

    [setCluster] empties the table under the lock and calls the drop callbacks after
    releasing it; the discovery thread can handle a datagram in between. *)
Definition setCluster_locked (ho : HashOrder) (cluster : string) (d : BrokerDiscovery)
    : list string * BrokerDiscovery :=
  if decide (cluster = m_cluster d) then ([], d)
  else ((entries ho (m_dialed d)).*1, with_dialed ∅ (with_cluster cluster d)).

Lemma setCluster_steps ho cluster d :
  setCluster ho cluster d =
  (Drop <$> (setCluster_locked ho cluster d).1, (setCluster_locked ho cluster d).2).
Proof. unfold setCluster, setCluster_locked. by case_dec. Qed.

(** *** The thread *)

Definition broadcasts (evs : list (Z * DiscoveryEvent)) : list (Z * string) :=
  omap (λ '(t, e), match e with Broadcast wire => Some (t, wire) | _ => None end) evs.

(** Announcements from [next] on, at least an interval apart. *)
Fixpoint spaced (next : Z) (bs : list Z) : Prop :=
  match bs with
  | [] => True
  | b :: bs => (next ≤ b)%Z ∧ spaced (b + BeaconInterval) bs
  end.

Definition announcement (d : BrokerDiscovery) : string := encode (m_cluster d) (m_selfUuid d) (m_routerPort d) (m_tapPort d).

Lemma broadcasts_app l1 l2 : broadcasts (l1 ++ l2) = broadcasts l1 ++ broadcasts l2.
Proof. apply omap_app. Qed.

Lemma broadcasts_first t wire evs : broadcasts (pair t <$> Broadcast wire :: evs) = (t, wire) :: broadcasts (pair t <$> evs).
Proof. done. Qed.

Lemma onDatagram_quiet ip data now d t :
  let '(evs, d') := onDatagram ip data now d in broadcasts (pair t <$> evs) = [] ∧ announcement d' = announcement d.
Proof.
  unfold onDatagram. destruct (decode data) as [heard|]; [|done]. case_dec; [done|]. destruct (negb _); [done|].
  case_dec; [done|]. destruct (m_dialed d !! _); [done|]. by case_dec.
Qed.

Lemma expireStale_quiet ho now d t :
  let '(evs, d') := expireStale ho now d in broadcasts (pair t <$> evs) = [] ∧ announcement d' = announcement d.
Proof.
  unfold expireStale. destruct (expire_loop _ _ _ _) as [lost m]. split; [|done].
  induction lost as [|u lost IH]; [done|]. exact IH.
Qed.

(** A pass announces exactly when it is due, and sets the next time. *)
Lemma iteration_broadcast ho now now' datagram d next :
  let '(evs, (d', next')) := run_iteration ho now now' datagram (d, next) in
  announcement d' = announcement d ∧
  if decide (next ≤ now)%Z then broadcasts (pair now <$> evs) = [(now, announcement d)] ∧ next' = (now + BeaconInterval)%Z
  else broadcasts (pair now <$> evs) = [] ∧ next' = next.
Proof.
  unfold run_iteration. destruct (decide (next ≤ now)%Z).
  - pose proof (expireStale_quiet ho now d now) as He. destruct (expireStale ho now d) as [evs d1]. destruct He as [He Ha].
    destruct datagram as [[ip buf]|]; [|by rewrite broadcasts_first, He].
    pose proof (onDatagram_quiet ip buf now' d1 now) as Hd. destruct (onDatagram ip buf now' d1) as [evs2 d2]. destruct Hd as [Hd Hb].
    rewrite fmap_app, broadcasts_app, Hd, app_nil_r. split; [congruence|]. by rewrite broadcasts_first, He.
  - destruct datagram as [[ip buf]|]; [|done].
    pose proof (onDatagram_quiet ip buf now' d now) as Hd. destruct (onDatagram ip buf now' d) as [evs2 d2]. by destruct Hd.
Qed.

Lemma passes_announce ho passes d next :
  let '(evs, _) := run_passes ho passes (d, next) in
  spaced next (broadcasts evs).*1 ∧
  Forall (λ b, b.2 = announcement d) (broadcasts evs) ∧
  ∀ p, last passes = Some p → (p.1.1 < next)%Z ∨ ∃ b, b ∈ (broadcasts evs).*1 ∧ (p.1.1 < b + BeaconInterval)%Z.
Proof.
  revert d next; induction passes as [|[[now now'] w] passes IH]; intros d next; [by repeat split|]. cbn [run_passes].
  set (received := udp_receive _ _ _ _). pose proof (iteration_broadcast ho now now' received d next) as Hit.
  destruct (run_iteration ho now now' received (d, next)) as [evs [d1 next1]]. destruct Hit as [Ha Hit].
  specialize (IH d1 next1). destruct (run_passes ho passes (d1, next1)) as [rest st]. destruct IH as (Hs & Hw & Hl).
  rewrite broadcasts_app. rewrite Ha in Hw. unfold BeaconInterval in *.
  destruct (decide (next ≤ now)%Z) as [Hn|Hn]; destruct Hit as [-> ->]; cbn [app fmap list_fmap fst].
  - split_and!; [done|by constructor|]. intros p Hp. right. rewrite last_cons in Hp.
    destruct (last passes) as [q|] eqn:E; injection Hp as <-; [|exists now; split; [left|simpl; lia]].
    destruct (Hl q eq_refl) as [Hq|(b & Hb & Hq)]; [exists now|exists b]; split; try done; [left|by right].
  - split_and!; [done|done|]. intros p Hp. rewrite last_cons in Hp.
    destruct (last passes) as [q|] eqn:E; injection Hp as <-; [by apply Hl|]. left. simpl. lia.
Qed.

(** The passes act on the tracked peers as the operations they make. *)
Lemma iteration_inv ho now now' datagram d next links :
  discovery_inv links d →
  let '(evs, (d', _)) := run_iteration ho now now' datagram (d, next) in discovery_inv (apply_events links evs) d'.
Proof.
  intros Hinv. unfold run_iteration. destruct (decide (next ≤ now)%Z).
  - pose proof (expireStale_inv ho now d links Hinv) as He. destruct (expireStale ho now d) as [evs d1].
    destruct datagram as [[ip buf]|]; [|done].
    pose proof (onDatagram_inv ip buf now' d1 _ He) as Hd. destruct (onDatagram ip buf now' d1) as [evs2 d2].
    unfold apply_events in *. cbn. by rewrite foldl_app.
  - destruct datagram as [[ip buf]|]; [|done].
    pose proof (onDatagram_inv ip buf now' d links Hinv) as Hd. by destruct (onDatagram ip buf now' d).
Qed.

Lemma passes_inv ho passes d next links :
  discovery_inv links d →
  let '(evs, (d', _)) := run_passes ho passes (d, next) in discovery_inv (apply_events links evs.*2) d'.
Proof.
  revert d next links; induction passes as [|[[now now'] w] passes IH]; intros d next links Hinv; [done|]. cbn [run_passes].
  set (received := udp_receive _ _ _ _). pose proof (iteration_inv ho now now' received d next links Hinv) as Hit.
  destruct (run_iteration ho now now' received (d, next)) as [evs [d1 next1]].
  specialize (IH d1 next1 _ Hit). destruct (run_passes ho passes (d1, next1)) as [rest [d2 next2]].
  rewrite fmap_app, <-list_fmap_compose, (list_fmap_ext _ id), list_fmap_id by done.
  unfold apply_events in *. by rewrite foldl_app.
Qed.

(** ** Properties *)


(** Exactly one side of a pair dials.  Two brokers of one cluster, with different
    uuids and not linked yet, that hear each other's beacon: one opens a link to the
    other and the other does nothing. *)
Theorem exactly_one_side_dials (a b : BrokerDiscovery) (ipA ipB : string) (now : Z) :
  m_selfUuid a ≠ m_selfUuid b → m_cluster a = m_cluster b →
  lacks bar (m_cluster a) = true → lacks bar (m_selfUuid a) = true → lacks bar (m_selfUuid b) = true →
  (1 ≤ m_routerPort a ≤ 65535)%Z → (0 ≤ m_tapPort a ≤ 65535)%Z →
  (1 ≤ m_routerPort b ≤ 65535)%Z → (0 ≤ m_tapPort b ≤ 65535)%Z →
  m_dialed a !! m_selfUuid b = None → size (m_dialed a) < MaxDialedPeers →
  m_dialed b !! m_selfUuid a = None → size (m_dialed b) < MaxDialedPeers →
  let fromA := encode (m_cluster a) (m_selfUuid a) (m_routerPort a) (m_tapPort a) in
  let fromB := encode (m_cluster b) (m_selfUuid b) (m_routerPort b) (m_tapPort b) in
  let evA := (onDatagram ipB fromB now a).1 in
  let evB := (onDatagram ipA fromA now b).1 in
  (evA = [Dial (m_selfUuid b) (peer_address ipB (m_routerPort b))] ∧ evB = []) ∨
  (evA = [] ∧ evB = [Dial (m_selfUuid a) (peer_address ipA (m_routerPort a))]).
Proof.
  intros Hne Hc Hlc Hla Hlb Hra Hta Hrb Htb Hma Hsa Hmb Hsb. cbv zeta.
  rewrite <-Hc. rewrite (onDatagram_beacon ipB now a) by done.
  rewrite Hc. rewrite (onDatagram_beacon ipA now b) by (congruence || done).
  rewrite (str_lt_total (m_selfUuid a) (m_selfUuid b) Hne).
  destruct (str_lt (m_selfUuid b) (m_selfUuid a)); auto.
Qed.

Lemma exactly_one_side_dials_witness :
  let a := new_discovery "lab" "aa" 5555 0 in
  let b := new_discovery "lab" "bb" 5556 0 in
  ((onDatagram "10.0.0.2" (encode "lab" "bb" 5556 0) 7 a).1 = [Dial "bb" (peer_address "10.0.0.2" 5556)] ∧
   (onDatagram "10.0.0.1" (encode "lab" "aa" 5555 0) 7 b).1 = []) ∨
  ((onDatagram "10.0.0.2" (encode "lab" "bb" 5556 0) 7 a).1 = [] ∧
   (onDatagram "10.0.0.1" (encode "lab" "aa" 5555 0) 7 b).1 = [Dial "aa" (peer_address "10.0.0.1" 5555)]).
Proof.
  apply (exactly_one_side_dials (new_discovery "lab" "aa" 5555 0) (new_discovery "lab" "bb" 5556 0)
           "10.0.0.1" "10.0.0.2" 7); simpl; try done; try lia; try (rewrite map_size_empty; unfold MaxDialedPeers; lia).
Defined.

(** Expiry is exact.  [expireStale] drops a peer iff its last beacon is more than
    [m_peerTimeout] (five beacon intervals) old, keeps the others untouched, and dials
    nobody. *)
Theorem expireStale_exact (ho : HashOrder) (now : Z) (d : BrokerDiscovery) :
  let '(evs, d') := expireStale ho now d in
  (∀ uuid, Drop uuid ∈ evs ↔ ∃ e, m_dialed d !! uuid = Some e ∧ (now - pe_lastSeen e > 5000)%Z) ∧
  (∀ uuid e, m_dialed d' !! uuid = Some e ↔
     m_dialed d !! uuid = Some e ∧ ¬ (now - pe_lastSeen e > 5000)%Z) ∧
  (∀ u a, Dial u a ∉ evs).
Proof.
  pose proof (expireStale_spec ho now d) as H. destruct (expireStale ho now d) as [evs d'].
  destruct H as (-> & _ & Hd & Hn). split; [exact Hd|]. split; [|done].
  intros uuid e. rewrite map_lookup_filter_Some. done.
Qed.

(** The cluster swap can strand a link.  If the discovery thread handles a beacon of a
    tracked peer, already announcing the new cluster, after [setCluster] emptied the
    table and before its drop callbacks run, the peer ends up tracked with no link
    open, and its further beacons never dial it again. *)
Theorem setCluster_strands_link (ho : HashOrder) (d : BrokerDiscovery) (cluster peer ip : string)
    (port tap : Z) (t1 t2 : Z) (e : PeerEntry) :
  cluster ≠ m_cluster d → lacks bar cluster = true → lacks bar peer = true →
  (1 ≤ port ≤ 65535)%Z → (0 ≤ tap ≤ 65535)%Z →
  str_lt (m_selfUuid d) peer = true → m_dialed d !! peer = Some e →
  let links := dom (m_dialed d) in
  let '(dropped, d1) := setCluster_locked ho cluster d in
  let '(evs, d2) := onDatagram ip (encode cluster peer port tap) t1 d1 in
  let links' := apply_events (apply_events links evs) (Drop <$> dropped) in
  is_Some (m_dialed d2 !! peer) ∧ peer ∉ links' ∧
  (onDatagram ip (encode cluster peer port tap) t2 d2).1 = [].
Proof.
  intros Hne Hlc Hlp Hp Ht Hlt He. unfold setCluster_locked. rewrite decide_False by done.
  unfold onDatagram at 1. rewrite decode_encode by done. simpl.
  assert (peer ≠ m_selfUuid d) as Hself by (intros ->; by rewrite str_lt_irrefl in Hlt).
  rewrite (decide_False (P := peer = m_selfUuid d)) by done. rewrite Hlt. simpl.
  rewrite decide_False by tauto. rewrite lookup_empty, map_size_empty.
  rewrite decide_False by (unfold MaxDialedPeers; lia). simpl.
  rewrite lookup_insert_eq. split; [eauto|]. split.
  - rewrite apply_drops. apply not_elem_of_difference. right.
    apply elem_of_list_to_set, elem_of_entries_keys. eauto.
  - unfold onDatagram. rewrite decode_encode by done. simpl.
    rewrite (decide_False (P := peer = m_selfUuid d)) by done. rewrite Hlt. simpl.
    rewrite decide_False by tauto. by rewrite lookup_insert_eq.
Qed.

Lemma setCluster_strands_link_witness :
  let d := with_dialed {[ "bb" := mkPeerEntry "tcp://10.0.0.2:5556" 0 ]} (new_discovery "lab" "aa" 5555 0) in
  let links := dom (m_dialed d) in
  let '(dropped, d1) := setCluster_locked some_order "new" d in
  let '(evs, d2) := onDatagram "10.0.0.2" (encode "new" "bb" 5556 0) 1 d1 in
  let links' := apply_events (apply_events links evs) (Drop <$> dropped) in
  is_Some (m_dialed d2 !! "bb"%string) ∧ "bb"%string ∉ links' ∧
  (onDatagram "10.0.0.2" (encode "new" "bb" 5556 0) 2 d2).1 = [].
Proof.
  apply (setCluster_strands_link some_order
    (with_dialed {[ "bb" := mkPeerEntry "tcp://10.0.0.2:5556" 0 ]} (new_discovery "lab" "aa" 5555 0))
    "new" "bb" "10.0.0.2" 5556 0 1 2 (mkPeerEntry "tcp://10.0.0.2:5556" 0));
    [discriminate|reflexivity|reflexivity|lia|lia|reflexivity|reflexivity].
Defined.

(** A discovery thread keeps announcing itself.  Its first pass announces; from then on
    two announcements are at least an interval apart, no pass starts an interval or more
    after the last one, and each carries the cluster, id and ports of the broker.  What the
    passes dial and drop leaves exactly the tracked peers linked.  A thread whose socket
    did not open, or that was not started, does nothing, and a second start is ignored. *)
Theorem discovery_announces ho begin passes t links :
  discovery_inv links (dt_discovery t) →
  dt_events t = [] →
  let t' := discovery_run ho true begin passes (discovery_start t) in
  (dt_joinable t = false →
     spaced begin (broadcasts (dt_events t')).*1 ∧
     Forall (λ b, b.2 = announcement (dt_discovery t)) (broadcasts (dt_events t')) ∧
     (∀ p, last passes = Some p → (begin ≤ p.1.1)%Z →
        ∃ b, b ∈ (broadcasts (dt_events t')).*1 ∧ (p.1.1 < b + BeaconInterval)%Z) ∧
     discovery_inv (apply_events links (dt_events t').*2) (dt_discovery t')) ∧
  discovery_run ho false begin passes t = t ∧
  discovery_run ho true begin passes (discovery_stop t) = discovery_stop t ∧
  discovery_start (discovery_start t) = discovery_start t.
Proof.
  intros Hinv Hev. split_and!; [|done|done|unfold discovery_start; destruct (dt_joinable t) eqn:E; [by rewrite E|done]].
  intros Hj. unfold discovery_start. rewrite Hj. unfold discovery_run. cbn [dt_running dt_discovery dt_events andb].
  pose proof (passes_announce ho passes (dt_discovery t) begin) as Ha.
  pose proof (passes_inv ho passes (dt_discovery t) begin links Hinv) as Hi.
  destruct (run_passes ho passes (dt_discovery t, begin)) as [evs [d next]]. destruct Ha as (Hs & Hw & Hl).
  cbn [dt_events dt_discovery]. rewrite Hev. split_and!; [done..| |done].
  intros p Hp Hb. destruct (Hl p Hp) as [?|?]; [lia|done].
Qed.

Lemma discovery_announces_witness :
  let d := new_discovery "lan" "b1" 5555 0 in
  broadcasts (dt_events (discovery_run some_order true 0
    [(0, 0, mkWait false None None); (400, 400, mkWait false None None); (1100, 1100, mkWait false None None)]%Z
    (discovery_start (new_thread d)))) = [(0, announcement d); (1100, announcement d)]%Z ∧
  spaced 0 [0; 1100]%Z.
Proof.
  split; [reflexivity|].
  exact (proj1 (proj1 (discovery_announces some_order 0
    [(0, 0, mkWait false None None); (400, 400, mkWait false None None); (1100, 1100, mkWait false None None)]%Z
    (new_thread (new_discovery "lan" "b1" 5555 0)) ∅ (conj eq_refl (le_0_n _)) eq_refl) eq_refl)).
Defined.
