(* ===== verification/Registry.v ===== *)
(** * The subscription registry

    Models [server/subscriptionregistry.h]: the two maps [m_clientTopics] (client to
    its topics) and [m_topicSubscribers] (topic to its subscribers) and the
    operations that keep them in step.

    The abstract specification is one finite map from (client, topic) to the scope
    held; the theorems show that each operation keeps the two concrete maps
    consistent ([registry_wf]) and acts on the abstract map as an insert, a delete
    or a filter. *)

From S2P Require Import Prelude.
From S2P Require Import MessageKeys.
From stdpp Require Import sorting.

Record Subscriber := mkSubscriber { sub_clientId : string; sub_scope : Origin }.

#[export] Instance Subscriber_eq_dec : EqDecision Subscriber.
Proof. solve_decision. Defined.

Record SubscriptionRegistry := mkRegistry {
  m_clientTopics : gmap string (gmap string Origin);
  m_topicSubscribers : gmap string (list Subscriber)
}.

Definition empty_registry : SubscriptionRegistry := mkRegistry ∅ ∅.

(** Iteration over a [std::map<std::string, _>] is in increasing key order. *)
Definition entry_le {A} (p q : string * A) : Prop := String.le p.1 q.1.

#[export] Instance entry_le_dec {A} : RelDecision (@entry_le A).
Proof. unfold entry_le. intros p q. apply _. Defined.

Definition map_entries {A} (m : gmap string A) : list (string * A) :=
  merge_sort entry_le (map_to_list m).

(** [std::find_if] on a subscriber vector, by client id: the index found. *)
Definition find_client (clientId : string) (subs : list Subscriber) : option (nat * Subscriber) :=
  list_find (λ s, sub_clientId s = clientId) subs.

(** [*pos = subs.back(); subs.pop_back();]. *)
Definition swap_remove {A} (pos : nat) (l : list A) : list A :=
  match last l with
  | Some b => take (length l - 1) (<[pos := b]> l)
  | None => l
  end.

(** [findSubscriber(topic, clientId)] followed by the write through the pointer it
    returns. *)
Definition set_subscriber_scope (topic clientId : string) (scope : Origin)
    (m : gmap string (list Subscriber)) : gmap string (list Subscriber) :=
  match m !! topic with
  | None => m
  | Some subs =>
      match find_client clientId subs with
      | None => m
      | Some (pos, s) => <[topic := <[pos := mkSubscriber (sub_clientId s) scope]> subs]> m
      end
  end.

(** The vector part of [dropSubscriber]. *)
Definition drop_client (clientId : string) (subs : list Subscriber) : list Subscriber :=
  match find_client clientId subs with
  | Some (pos, _) => swap_remove pos subs
  | None => subs
  end.

Definition dropSubscriber (topic clientId : string)
    (m : gmap string (list Subscriber)) : gmap string (list Subscriber) :=
  match m !! topic with
  | None => m
  | Some subs =>
      let subs' := drop_client clientId subs in
      if decide (subs' = []) then delete topic m else <[topic := subs']> m
  end.

Definition subscribe (clientId topic : string) (scope : Origin) (reg : SubscriptionRegistry)
    : bool * SubscriptionRegistry :=
  let topics := default ∅ (m_clientTopics reg !! clientId) in
  match topics !! topic with
  | None =>
      (true,
       mkRegistry
         (<[clientId := <[topic := scope]> topics]> (m_clientTopics reg))
         (<[topic := default [] (m_topicSubscribers reg !! topic) ++ [mkSubscriber clientId scope]]>
            (m_topicSubscribers reg)))
  | Some held =>
      if decide (held = scope) then (false, reg)
      else
        (true,
         mkRegistry
           (<[clientId := <[topic := scope]> topics]> (m_clientTopics reg))
           (set_subscriber_scope topic clientId scope (m_topicSubscribers reg)))
  end.

Definition unsubscribe (clientId topic : string) (reg : SubscriptionRegistry)
    : bool * SubscriptionRegistry :=
  match m_clientTopics reg !! clientId with
  | None => (false, reg)
  | Some topics =>
      match topics !! topic with
      | None => (false, reg)
      | Some _ =>
          let topics' := delete topic topics in
          (true,
           mkRegistry
             (if decide (topics' = ∅) then delete clientId (m_clientTopics reg)
              else <[clientId := topics']> (m_clientTopics reg))
             (dropSubscriber topic clientId (m_topicSubscribers reg)))
      end
  end.

Definition removeClientSubs (clientId : string) (reg : SubscriptionRegistry) : SubscriptionRegistry :=
  match m_clientTopics reg !! clientId with
  | None => reg
  | Some topics =>
      mkRegistry
        (delete clientId (m_clientTopics reg))
        (foldl (λ m e, dropSubscriber e.1 clientId m) (m_topicSubscribers reg) (map_entries topics))
  end.

(** [nullptr] is [None]. *)
Definition subscribersOf (topic : string) (reg : SubscriptionRegistry) : option (list Subscriber) :=
  m_topicSubscribers reg !! topic.

Definition subscriptionsOf (clientId : string) (reg : SubscriptionRegistry) : option (gmap string Origin) :=
  m_clientTopics reg !! clientId.

Definition hasMeshSubscriber (topic : string) (reg : SubscriptionRegistry) : bool :=
  match subscribersOf topic reg with
  | None => false
  | Some subs => existsb (λ s, scopeAccepts (sub_scope s) false) subs
  end.

(** ** Abstract specification *)

(** The scope [clientId] holds on [topic]. *)
Definition held (reg : SubscriptionRegistry) (clientId topic : string) : option Origin :=
  m_clientTopics reg !! clientId ≫= λ m, m !! topic.

Definition subs_of (m : gmap string (list Subscriber)) (topic : string) : list Subscriber :=
  default [] (m !! topic).

(** The abstract registry: (client, topic) to scope. *)
Definition abs_registry (reg : SubscriptionRegistry) : gmap (string * string) Origin :=
  map_uncurry (M1 := gmap string) (M2 := gmap string) (M12 := gmap (string * string))
    (m_clientTopics reg).

(** The two maps agree, a client is listed once per topic, and neither map keeps an
    empty entry. *)
Record registry_wf (reg : SubscriptionRegistry) : Prop := {
  wf_listed : ∀ c t s,
    held reg c t = Some s ↔ mkSubscriber c s ∈ subs_of (m_topicSubscribers reg) t;
  wf_once : ∀ t, NoDup (sub_clientId <$> subs_of (m_topicSubscribers reg) t);
  wf_topics_nonempty : ∀ c m, m_clientTopics reg !! c = Some m → m ≠ ∅;
  wf_subs_nonempty : ∀ t l, m_topicSubscribers reg !! t = Some l → l ≠ []
}.

(** ** Lists of subscribers *)

Lemma swap_remove_perm {A} (l : list A) i x :
  l !! i = Some x → l ≡ₚ x :: swap_remove i l.
Proof.
  intros Hi. unfold swap_remove.
  destruct l as [|b l' _] using rev_ind; [done|].
  rewrite last_snoc, length_app. simpl. rewrite Nat.add_sub.
  pose proof (lookup_lt_Some _ _ _ Hi) as Hlt. rewrite length_app in Hlt. simpl in Hlt.
  destruct (decide (i = length l')) as [->|].
  - rewrite list_lookup_middle in Hi by done. simplify_eq.
    rewrite list_insert_id by (by rewrite list_lookup_middle).
    rewrite take_app_length. by rewrite Permutation_app_comm.
  - rewrite insert_app_l, take_app_length' by (rewrite ?length_insert; lia).
    rewrite lookup_app_l in Hi by lia.
    rewrite insert_take_drop by lia. rewrite (delete_Permutation l' i x Hi) at 1.
    rewrite delete_take_drop. simpl. constructor.
    rewrite <-app_assoc. f_equiv. by rewrite Permutation_app_comm.
Qed.

Lemma find_client_Some c l pos s :
  find_client c l = Some (pos, s) → l !! pos = Some s ∧ sub_clientId s = c.
Proof. intros (?&?&?)%list_find_Some. done. Qed.

Lemma find_client_None c l : find_client c l = None ↔ c ∉ (sub_clientId <$> l).
Proof.
  unfold find_client. rewrite list_find_None, Forall_forall, list_elem_of_fmap. naive_solver.
Qed.

Lemma find_client_elem c s l :
  NoDup (sub_clientId <$> l) → mkSubscriber c s ∈ l →
  ∃ pos, find_client c l = Some (pos, mkSubscriber c s).
Proof.
  intros Hnd Hin. destruct (find_client c l) as [[pos x]|] eqn:E.
  - exists pos. do 2 f_equal. apply find_client_Some in E as [Hx Hc].
    apply list_elem_of_lookup in Hin as [j Hj].
    assert (pos = j) as ->; [|congruence].
    eapply NoDup_lookup; [exact Hnd|..]; rewrite list_lookup_fmap.
    + by rewrite Hx.
    + rewrite Hj. simpl. congruence.
  - apply find_client_None in E. destruct E. apply list_elem_of_fmap. by exists (mkSubscriber c s).
Qed.

Lemma drop_client_elem c l x :
  NoDup (sub_clientId <$> l) → x ∈ drop_client c l ↔ x ∈ l ∧ sub_clientId x ≠ c.
Proof.
  intros Hnd. unfold drop_client. destruct (find_client c l) as [[pos y]|] eqn:E.
  - apply find_client_Some in E as [Hy <-].
    pose proof (swap_remove_perm _ _ _ Hy) as Hp.
    rewrite Hp in Hnd. apply NoDup_cons in Hnd as [Hni _].
    assert (x ∈ l ↔ x = y ∨ x ∈ swap_remove pos l) as -> by (by rewrite Hp at 1; apply elem_of_cons).
    split; [|naive_solver]. intros Hx. split; [auto|]. intros E. apply Hni. rewrite <-E.
    by apply list_elem_of_fmap_2.
  - apply find_client_None in E. split; [|tauto]. intros Hx. split; [done|].
    intros <-. apply E. by apply list_elem_of_fmap_2.
Qed.

Lemma drop_client_NoDup c l :
  NoDup (sub_clientId <$> l) → NoDup (sub_clientId <$> drop_client c l).
Proof.
  intros Hnd. unfold drop_client. destruct (find_client c l) as [[pos y]|] eqn:E; [|done].
  apply find_client_Some in E as [Hy _]. rewrite (swap_remove_perm _ _ _ Hy) in Hnd.
  by apply NoDup_cons in Hnd as [_ ?].
Qed.

Lemma set_scope_elem c s l pos y x :
  NoDup (sub_clientId <$> l) → find_client c l = Some (pos, y) →
  x ∈ <[pos := mkSubscriber (sub_clientId y) s]> l ↔
  x = mkSubscriber c s ∨ (x ∈ l ∧ sub_clientId x ≠ c).
Proof.
  intros Hnd E. pose proof (find_client_Some _ _ _ _ E) as [Hy <-].
  rewrite <-(drop_client_elem _ l x Hnd). unfold drop_client. rewrite E.
  pose proof (lookup_lt_Some _ _ _ Hy).
  assert (<[pos:=mkSubscriber (sub_clientId y) s]> l ≡ₚ
          mkSubscriber (sub_clientId y) s :: swap_remove pos l) as ->;
    [|by rewrite elem_of_cons].
  assert (delete pos l ≡ₚ swap_remove pos l) as Hp.
  { apply (Permutation_cons_inv (a := y)). by rewrite <-swap_remove_perm, <-delete_Permutation. }
  rewrite <-Hp, insert_take_drop, delete_take_drop by done.
  by rewrite Permutation_middle.
Qed.

Lemma set_scope_ids c s l pos y :
  find_client c l = Some (pos, y) →
  sub_clientId <$> <[pos := mkSubscriber (sub_clientId y) s]> l = sub_clientId <$> l.
Proof.
  intros [Hy _]%find_client_Some. rewrite list_fmap_insert. simpl.
  apply list_insert_id. by rewrite list_lookup_fmap, Hy.
Qed.

(** ** The topic side *)

Lemma subs_of_insert m t l t' :
  subs_of (<[t := l]> m) t' = if decide (t = t') then l else subs_of m t'.
Proof. unfold subs_of. rewrite lookup_insert. by case_decide. Qed.

Lemma subs_of_drop t c m t' :
  subs_of (dropSubscriber t c m) t' =
  if decide (t = t') then drop_client c (subs_of m t') else subs_of m t'.
Proof.
  unfold dropSubscriber. destruct (m !! t) as [l|] eqn:E.
  - case_decide as Hl.
    + unfold subs_of. rewrite lookup_delete. case_decide; subst; [|done].
      rewrite E. simpl. congruence.
    + rewrite subs_of_insert. case_decide; subst; [|done]. unfold subs_of. by rewrite E.
  - case_decide; subst; [|done]. unfold subs_of. by rewrite E.
Qed.

Lemma dropSubscriber_nonempty t c m :
  (∀ t l, m !! t = Some l → l ≠ []) → ∀ t' l, dropSubscriber t c m !! t' = Some l → l ≠ [].
Proof.
  intros H t' l. unfold dropSubscriber. destruct (m !! t) as [l0|] eqn:E; [|eauto].
  case_decide.
  - rewrite lookup_delete. case_decide; [done|eauto].
  - rewrite lookup_insert. case_decide; [naive_solver|eauto].
Qed.

Lemma subs_of_set_scope t c s m t' :
  subs_of (set_subscriber_scope t c s m) t' =
  if decide (t = t') then
    match find_client c (subs_of m t') with
    | Some (pos, y) => <[pos := mkSubscriber (sub_clientId y) s]> (subs_of m t')
    | None => subs_of m t'
    end
  else subs_of m t'.
Proof.
  unfold set_subscriber_scope. destruct (m !! t) as [l|] eqn:E.
  - destruct (find_client c l) as [[pos y]|] eqn:F.
    + rewrite subs_of_insert. case_decide; subst; [|done]. unfold subs_of. rewrite E. simpl. by rewrite F.
    + case_decide; subst; [|done]. unfold subs_of. rewrite E. simpl. by rewrite F.
  - case_decide; subst; [|done]. unfold subs_of. by rewrite E.
Qed.

Lemma fold_drop_elem c ts m t x :
  (∀ t, NoDup (sub_clientId <$> subs_of m t)) →
  x ∈ subs_of (foldl (λ m e, dropSubscriber e.1 c m) m ts : gmap string (list Subscriber)) t ↔
  x ∈ subs_of m t ∧ ¬ (sub_clientId x = c ∧ ∃ s : Origin, (t, s) ∈ ts).
Proof.
  revert m. induction ts as [|[t0 s0] ts IH]; intros m Hnd; simpl.
  - assert (¬ ∃ s : Origin, (t, s) ∈ []) by (intros [? ?%not_elem_of_nil]; done). tauto.
  - rewrite IH; rewrite ?subs_of_drop.
    + setoid_rewrite elem_of_cons. case_decide; subst.
      * rewrite drop_client_elem by auto. naive_solver.
      * naive_solver.
    + intros t'. rewrite subs_of_drop. case_decide; [|auto]. by apply drop_client_NoDup.
Qed.

Lemma fold_drop_NoDup c (ts : list (string * Origin)) m :
  (∀ t, NoDup (sub_clientId <$> subs_of m t)) →
  ∀ t, NoDup (sub_clientId <$> subs_of (foldl (λ m e, dropSubscriber e.1 c m) m ts) t).
Proof.
  revert m. induction ts as [|[t0 s0] ts IH]; intros m Hnd; simpl; [done|].
  apply IH. intros t'. rewrite subs_of_drop. case_decide; [|auto]. by apply drop_client_NoDup.
Qed.

Lemma fold_drop_nonempty c (ts : list (string * Origin)) m :
  (∀ t l, m !! t = Some l → l ≠ []) →
  ∀ t l, (foldl (λ m e, dropSubscriber e.1 c m) m ts) !! t = Some l → l ≠ [].
Proof.
  revert m. induction ts as [|[t0 s0] ts IH]; intros m Hne; simpl; [done|].
  apply IH. by apply dropSubscriber_nonempty.
Qed.

(** ** Invariant *)

Lemma empty_registry_wf : registry_wf empty_registry.
Proof.
  split; unfold held, subs_of, empty_registry; simpl.
  - intros c t s. rewrite !lookup_empty. simpl. split; [done|]. by intros ?%not_elem_of_nil.
  - intros t. rewrite lookup_empty. simpl. constructor.
  - intros c m. by rewrite lookup_empty.
  - intros t l. by rewrite lookup_empty.
Qed.

Lemma subs_of_subscribersOf t reg :
  subs_of (m_topicSubscribers reg) t = default [] (subscribersOf t reg).
Proof. done. Qed.

(** What [held] becomes when a client's inner map is replaced. *)
Lemma held_insert c (m : gmap string Origin) ct ts c' t' :
  held (mkRegistry (<[c := m]> ct) ts) c' t' =
  if decide (c = c') then m !! t' else held (mkRegistry ct ts) c' t'.
Proof. unfold held. simpl. rewrite lookup_insert. by case_decide. Qed.

Lemma held_delete c ct ts c' t' :
  held (mkRegistry (delete c ct) ts) c' t' =
  if decide (c = c') then None else held (mkRegistry ct ts) c' t'.
Proof. unfold held. simpl. rewrite lookup_delete. by case_decide. Qed.

Lemma held_topics reg c t : default ∅ (m_clientTopics reg !! c) !! t = held reg c t.
Proof. unfold held. destruct (m_clientTopics reg !! c); simpl; [done|]. by rewrite lookup_empty. Qed.

(** [held] after each operation: the functional content of the refinement below. *)
Lemma held_subscribe c t s reg c' t' :
  held (subscribe c t s reg).2 c' t' =
  if decide ((c, t) = (c', t')) then Some s else held reg c' t'.
Proof.
  unfold subscribe. rewrite held_topics.
  assert (∀ ts, held (mkRegistry (<[c:=<[t:=s]> (default ∅ (m_clientTopics reg !! c))]>
    (m_clientTopics reg)) ts) c' t' = if decide ((c, t) = (c', t')) then Some s else held reg c' t') as H.
  { intros ts. rewrite held_insert. repeat case_decide; simplify_eq.
    - by rewrite lookup_insert_eq.
    - rewrite lookup_insert_ne by congruence. apply held_topics.
    - done. }
  destruct (held reg c t) as [s'|] eqn:E; [|apply H].
  destruct (decide (s' = s)); [|apply H]. simpl. case_decide; simplify_eq; done.
Qed.

Lemma held_unsubscribe c t reg c' t' :
  held (unsubscribe c t reg).2 c' t' =
  if decide ((c, t) = (c', t')) then None else held reg c' t'.
Proof.
  unfold unsubscribe.
  assert (held reg c t = None → held reg c' t' =
    if decide ((c, t) = (c', t')) then None else held reg c' t') as Hnone.
  { intros. case_decide; simplify_eq; done. }
  destruct (m_clientTopics reg !! c) as [m|] eqn:Ec; [|apply Hnone; unfold held; by rewrite Ec].
  destruct (m !! t) as [s|] eqn:Et; [|apply Hnone; unfold held; by rewrite Ec].
  simpl. destruct (decide (delete t m = ∅)) as [Hm|Hm].
  - rewrite held_delete. repeat case_decide; simplify_eq; try done.
    unfold held. rewrite Ec. simpl.
    rewrite <-(lookup_delete_ne m t t'), Hm by congruence. by rewrite lookup_empty.
  - rewrite held_insert. repeat case_decide; simplify_eq; try done.
    + apply lookup_delete_eq.
    + rewrite lookup_delete_ne by congruence. unfold held. by rewrite Ec.
Qed.

Lemma held_removeClient c reg c' t' :
  held (removeClientSubs c reg) c' t' = if decide (c = c') then None else held reg c' t'.
Proof.
  unfold removeClientSubs. destruct (m_clientTopics reg !! c) as [m|] eqn:Ec.
  - rewrite held_delete. by case_decide.
  - case_decide; [|done]. subst. unfold held. by rewrite Ec.
Qed.

Lemma subscribe_wf c t s reg : registry_wf reg → registry_wf (subscribe c t s reg).2.
Proof.
  intros Hwf. pose proof (held_subscribe c t s reg) as Hheld.
  unfold subscribe in *. rewrite held_topics in *.
  destruct (held reg c t) as [s0|] eqn:E; [case_decide as Hs; [done|]|]; simpl in *.
  - (* the scope changed *)
    apply (wf_listed _ Hwf) in E as Hin.
    destruct (find_client_elem _ _ _ (wf_once _ Hwf t) Hin) as [pos Hpos].
    split; simpl.
    + intros c' t' s'. rewrite Hheld. rewrite subs_of_set_scope.
      repeat case_decide; simplify_eq; rewrite ?Hpos.
      * rewrite set_scope_elem by (eauto; apply (wf_once _ Hwf)). naive_solver.
      * rewrite set_scope_elem by (eauto; apply (wf_once _ Hwf)).
        rewrite (wf_listed _ Hwf). naive_solver.
      * apply (wf_listed _ Hwf).
    + intros t'. rewrite subs_of_set_scope. case_decide; subst; [|apply (wf_once _ Hwf)].
      rewrite Hpos, (set_scope_ids c) by done. apply (wf_once _ Hwf).
    + intros c' m'. rewrite lookup_insert. case_decide; [|apply (wf_topics_nonempty _ Hwf)].
      intros [= <-]. apply insert_non_empty.
    + intros t' l. unfold set_subscriber_scope.
      destruct (m_topicSubscribers reg !! t) as [l0|] eqn:El; [|apply (wf_subs_nonempty _ Hwf)].
      destruct (find_client c l0) as [[p y]|]; [|apply (wf_subs_nonempty _ Hwf)].
      rewrite lookup_insert. case_decide; [|apply (wf_subs_nonempty _ Hwf)]. intros [= <-].
      apply (wf_subs_nonempty _ Hwf) in El. rewrite <-length_zero_iff_nil in *.
      by rewrite length_insert.
  - (* a new subscription *)
    assert (c ∉ (sub_clientId <$> subs_of (m_topicSubscribers reg) t)) as Hni.
    { intros ([c0 s0] & -> & Hin)%list_elem_of_fmap. simpl in *.
      apply (wf_listed _ Hwf) in Hin. congruence. }
    split; simpl.
    + intros c' t' s'. rewrite Hheld, subs_of_insert. fold (subs_of (m_topicSubscribers reg) t).
      repeat case_decide; simplify_eq.
      * rewrite elem_of_app, list_elem_of_singleton. split; [naive_solver|].
        intros [Hin|]; [|congruence]. destruct Hni. apply (list_elem_of_fmap_2 sub_clientId) in Hin. done.
      * rewrite elem_of_app, list_elem_of_singleton, (wf_listed _ Hwf). naive_solver.
      * apply (wf_listed _ Hwf).
    + intros t'. rewrite subs_of_insert. fold (subs_of (m_topicSubscribers reg) t).
      case_decide; subst; [|apply (wf_once _ Hwf)].
      rewrite fmap_app. apply NoDup_app. split; [apply (wf_once _ Hwf)|]. simpl.
      split; [|apply NoDup_singleton]. intros x Hx ->%list_elem_of_singleton. done.
    + intros c' m'. rewrite lookup_insert. case_decide; [|apply (wf_topics_nonempty _ Hwf)].
      intros [= <-]. apply insert_non_empty.
    + intros t' l. rewrite lookup_insert. case_decide; [|apply (wf_subs_nonempty _ Hwf)].
      intros [= <-]. by destruct (default [] _).
Qed.

Lemma unsubscribe_wf c t reg : registry_wf reg → registry_wf (unsubscribe c t reg).2.
Proof.
  intros Hwf. pose proof (held_unsubscribe c t reg) as Hheld.
  unfold unsubscribe in *.
  destruct (m_clientTopics reg !! c) as [m|] eqn:Ec; [|done].
  destruct (m !! t) as [s|] eqn:Et; [|done]. simpl in *.
  split; simpl.
  - intros c' t' s'. rewrite Hheld, subs_of_drop.
    destruct (decide (t = t')), (decide (c = c')); subst;
      rewrite ?(decide_True (P := (_, _) = (_, _))), ?(decide_False (P := (_, _) = (_, _))) by congruence.
    + rewrite drop_client_elem by apply (wf_once _ Hwf). simpl. naive_solver.
    + rewrite drop_client_elem, (wf_listed _ Hwf) by apply (wf_once _ Hwf). simpl. naive_solver.
    + apply (wf_listed _ Hwf).
    + apply (wf_listed _ Hwf).
  - intros t'. rewrite subs_of_drop. case_dec; [|apply (wf_once _ Hwf)].
    apply drop_client_NoDup, (wf_once _ Hwf).
  - intros c' m'. destruct (decide (delete t m = ∅)).
    + rewrite lookup_delete. case_dec; [done|]. apply (wf_topics_nonempty _ Hwf).
    + rewrite lookup_insert. case_dec; [naive_solver|]. apply (wf_topics_nonempty _ Hwf).
  - apply dropSubscriber_nonempty, (wf_subs_nonempty _ Hwf).
Qed.

Lemma map_entries_perm {A} (m : gmap string A) : map_entries m ≡ₚ map_to_list m.
Proof. apply merge_sort_Permutation. Qed.

Lemma elem_of_map_entries {A} (m : gmap string A) k v : (k, v) ∈ map_entries m ↔ m !! k = Some v.
Proof. by rewrite map_entries_perm, elem_of_map_to_list. Qed.

Lemma removeClient_wf c reg : registry_wf reg → registry_wf (removeClientSubs c reg).
Proof.
  intros Hwf. pose proof (held_removeClient c reg) as Hheld. unfold removeClientSubs in *.
  destruct (m_clientTopics reg !! c) as [m|] eqn:Ec; [|done]. split; simpl.
  - intros c' t' s'. rewrite Hheld, fold_drop_elem, <-(wf_listed _ Hwf) by apply (wf_once _ Hwf).
    setoid_rewrite elem_of_map_entries. simpl. case_dec; subst; [|naive_solver].
    split; [done|]. intros [H1 H2]. destruct H2. split; [done|]. exists s'.
    unfold held in H1. by rewrite Ec in H1.
  - apply fold_drop_NoDup, (wf_once _ Hwf).
  - intros c' m'. rewrite lookup_delete. case_dec; [done|]. apply (wf_topics_nonempty _ Hwf).
  - apply fold_drop_nonempty, (wf_subs_nonempty _ Hwf).
Qed.

#[export] Hint Resolve empty_registry_wf subscribe_wf unsubscribe_wf removeClient_wf : wisp.

(** ** Queries *)

Lemma subscribersOf_None reg t :
  registry_wf reg → subscribersOf t reg = None ↔ ∀ c, held reg c t = None.
Proof.
  intros Hwf. split.
  - intros E c. destruct (held reg c t) eqn:H; [|done].
    apply (wf_listed _ Hwf) in H. rewrite subs_of_subscribersOf, E in H.
    by apply not_elem_of_nil in H.
  - intros H. destruct (subscribersOf t reg) as [[|[c s] l]|] eqn:E; [..|done].
    + by apply (wf_subs_nonempty _ Hwf) in E.
    + specialize (H c). assert (held reg c t = Some s); [|congruence].
      apply (wf_listed _ Hwf). rewrite subs_of_subscribersOf, E. left.
Qed.

Lemma subscribersOf_Some reg t l c s :
  registry_wf reg → subscribersOf t reg = Some l → mkSubscriber c s ∈ l ↔ held reg c t = Some s.
Proof. intros Hwf E. by rewrite (wf_listed _ Hwf), subs_of_subscribersOf, E. Qed.

Lemma hasMeshSubscriber_spec reg t :
  registry_wf reg →
  hasMeshSubscriber t reg = true ↔ ∃ c s, held reg c t = Some s ∧ scopeAccepts s false = true.
Proof.
  intros Hwf. unfold hasMeshSubscriber. destruct (subscribersOf t reg) as [l|] eqn:E.
  - rewrite existsb_exists. split.
    + intros ([c s] & Hin & Hs). exists c, s. split; [|done].
      apply (subscribersOf_Some _ _ _ _ _ Hwf E). by apply list_elem_of_In.
    + intros (c & s & Hh & Hs). exists (mkSubscriber c s). split; [|done].
      apply list_elem_of_In. by apply (subscribersOf_Some _ _ _ _ _ Hwf E).
  - split; [done|]. intros (c & s & Hh & _).
    rewrite (proj1 (subscribersOf_None _ _ Hwf) E) in Hh. done.
Qed.

(** ** Refinement *)

Lemma abs_registry_held reg c t : abs_registry reg !! (c, t) = held reg c t.
Proof. unfold abs_registry. rewrite lookup_map_uncurry. done. Qed.

(** [subscribe] is an insert into the abstract map, and reports whether it changed it. *)
Lemma subscribe_refines c t s reg :
  abs_registry (subscribe c t s reg).2 = <[(c, t) := s]> (abs_registry reg) ∧
  (subscribe c t s reg).1 = bool_decide (abs_registry reg !! (c, t) ≠ Some s).
Proof.
  split.
  - apply map_eq. intros [c' t']. rewrite lookup_insert, !abs_registry_held. apply held_subscribe.
  - rewrite abs_registry_held. unfold subscribe. rewrite held_topics.
    destruct (held reg c t) as [s'|]; [|done].
    destruct (decide (s' = s)); simpl; symmetry;
      [apply bool_decide_false|apply bool_decide_true]; naive_solver.
Qed.

(** [unsubscribe] is a delete, and reports whether the subscription existed. *)
Lemma unsubscribe_refines c t reg :
  abs_registry (unsubscribe c t reg).2 = delete (c, t) (abs_registry reg) ∧
  (unsubscribe c t reg).1 = bool_decide (is_Some (abs_registry reg !! (c, t))).
Proof.
  split.
  - apply map_eq. intros [c' t']. rewrite lookup_delete, !abs_registry_held. apply held_unsubscribe.
  - rewrite abs_registry_held. unfold unsubscribe, held.
    destruct (m_clientTopics reg !! c) as [m|]; simpl; [|done]. by destruct (m !! t).
Qed.

(** [removeClient] keeps exactly the other clients' subscriptions. *)
Lemma removeClient_refines c reg :
  abs_registry (removeClientSubs c reg) = filter (λ e, e.1.1 ≠ c) (abs_registry reg).
Proof.
  apply map_eq. intros [c' t']. rewrite map_lookup_filter, !abs_registry_held, held_removeClient.
  destruct (held reg c' t'); simpl; case_dec; simpl; try done;
    case_guard; simpl in *; congruence.
Qed.

(** ** Properties *)

(** C13: the registry implements one map from (client, topic) to scope.  On a consistent
    registry every operation keeps the two maps consistent, acts on the abstract map as
    an insert, a delete or the removal of one client's entries, and [subscribe] and
    [unsubscribe] report whether they changed it. *)
Theorem registry_refines (clientId topic : string) (scope : Origin) (reg : SubscriptionRegistry) :
  registry_wf reg →
  (registry_wf (subscribe clientId topic scope reg).2 ∧
   abs_registry (subscribe clientId topic scope reg).2 = <[(clientId, topic) := scope]> (abs_registry reg) ∧
   (subscribe clientId topic scope reg).1 =
     bool_decide (abs_registry reg !! (clientId, topic) ≠ Some scope)) ∧
  (registry_wf (unsubscribe clientId topic reg).2 ∧
   abs_registry (unsubscribe clientId topic reg).2 = delete (clientId, topic) (abs_registry reg) ∧
   (unsubscribe clientId topic reg).1 = bool_decide (is_Some (abs_registry reg !! (clientId, topic)))) ∧
  (registry_wf (removeClientSubs clientId reg) ∧
   abs_registry (removeClientSubs clientId reg) = filter (λ e, e.1.1 ≠ clientId) (abs_registry reg)).
Proof.
  intros Hwf. pose proof (subscribe_refines clientId topic scope reg) as [? ?].
  pose proof (unsubscribe_refines clientId topic reg) as [? ?].
  split_and!; auto using subscribe_wf, unsubscribe_wf, removeClient_wf, removeClient_refines.
Qed.

Lemma registry_refines_witness :
  abs_registry (subscribe "alice" "news" Origins.Any empty_registry).2 =
  <[("alice", "news")%string := Origins.Any]> (abs_registry empty_registry).
Proof. apply (registry_refines "alice" "news" Origins.Any empty_registry empty_registry_wf). Defined.

(** Routing reads the registry correctly.  The subscribers listed for a topic are
    exactly the clients holding it, each once, with the scope they hold (no list at all
    when nobody does), and a topic is wanted from the mesh iff some holder's scope
    accepts mesh traffic. *)
Theorem registry_lookup (topic : string) (reg : SubscriptionRegistry) :
  registry_wf reg →
  (subscribersOf topic reg = None ↔ ∀ c, abs_registry reg !! (c, topic) = None) ∧
  (∀ l, subscribersOf topic reg = Some l →
     NoDup (sub_clientId <$> l) ∧
     ∀ c s, mkSubscriber c s ∈ l ↔ abs_registry reg !! (c, topic) = Some s) ∧
  (hasMeshSubscriber topic reg = true ↔
     ∃ c s, abs_registry reg !! (c, topic) = Some s ∧ scopeAccepts s false = true).
Proof.
  intros Hwf. setoid_rewrite abs_registry_held. split; [by apply subscribersOf_None|]. split.
  - intros l Hl. split; [|intros c s; by apply subscribersOf_Some].
    pose proof (wf_once _ Hwf topic) as H. by rewrite subs_of_subscribersOf, Hl in H.
  - by apply hasMeshSubscriber_spec.
Qed.

Lemma registry_lookup_witness :
  hasMeshSubscriber "news" empty_registry = true ↔
  ∃ c s, abs_registry empty_registry !! (c, "news"%string) = Some s ∧ scopeAccepts s false = true.
Proof. apply (registry_lookup "news" empty_registry empty_registry_wf). Defined.
