(* ===== verification/Dedup.v ===== *)
(** * Message deduplication

    Models [MessageId], [MessageIdHash] and [MessageIdSet] of [server/broker.h], and
    [messageIdFrom] and [Broker::isDuplicate] of [server/broker.cpp].

    [MessageIdSet] is an open-addressed hash set with linear probing.  Its probe
    loop has no bound of its own: it stops because the set always has an empty slot.
    The loop is modelled with one unit of fuel per slot, and the theorems show that
    under the invariant ([set_wf]) the fuel is never exhausted and the set refines a
    finite set of ids.  The two rotating windows of [isDuplicate] are related to the
    log of accepted ids: the most recent [MaxHistorySize] are always remembered. *)

From Stdlib Require Import ZArith Lia.
From S2P Require Import Prelude.

Record MessageId := mkMessageId { id_hi : Z; id_lo : Z }.

#[export] Instance MessageId_eq_dec : EqDecision MessageId.
Proof. solve_decision. Defined.

#[export] Instance MessageId_countable : Countable MessageId.
Proof.
  refine (inj_countable' (λ i, (id_hi i, id_lo i)) (λ p, mkMessageId p.1 p.2) _).
  by intros [].
Defined.

(** [size_t] arithmetic: 64 bits. *)
Definition MessageIdHash (id : MessageId) : Z :=
  Z.lxor (id_hi id) (wrap 64 (id_lo id * 0x9e3779b97f4a7c15)).

Definition isEmptySlot (id : MessageId) : bool :=
  bool_decide (id_hi id = 0%Z) && bool_decide (id_lo id = 0%Z).

Record MessageIdSet := mkMessageIdSet { m_slots : list MessageId; m_count : nat }.

(** [MessageIdSet(capacity)]: value-initialized slots. *)
Definition new_MessageIdSet (capacity : nat) : MessageIdSet :=
  mkMessageIdSet (replicate capacity (mkMessageId 0 0)) 0.

(** [x & (m_slots.size() - 1)]. *)
Definition slot_index (slots : list MessageId) (x : Z) : nat :=
  Z.to_nat (Z.land x (Z.of_nat (length slots) - 1)).

(** The probe loop shared by [contains] and [insert]: walks from [idx] until the id
    or an empty slot.  [Some (idx, true)] when the id was found at [idx],
    [Some (idx, false)] when [idx] is the empty slot that ended the walk, [None] when
    the fuel ran out. *)
Fixpoint probe (fuel : nat) (slots : list MessageId) (id : MessageId) (idx : nat)
    : option (nat * bool) :=
  match fuel with
  | O => None
  | S fuel =>
      match slots !! idx with
      | None => None
      | Some s =>
          if isEmptySlot s then Some (idx, false)
          else if decide (s = id) then Some (idx, true)
          else probe fuel slots id (slot_index slots (Z.of_nat idx + 1))
      end
  end.

Definition lookup_slot (id : MessageId) (s : MessageIdSet) : option (nat * bool) :=
  probe (length (m_slots s)) (m_slots s) id (slot_index (m_slots s) (MessageIdHash id)).

Definition set_contains (id : MessageId) (s : MessageIdSet) : option bool :=
  snd <$> lookup_slot id s.

Definition set_insert (id : MessageId) (s : MessageIdSet) : option MessageIdSet :=
  '(idx, found) ← lookup_slot id s;
  if (found : bool) then Some s
  else Some (mkMessageIdSet (<[idx := id]> (m_slots s)) (S (m_count s))).

Definition set_size (s : MessageIdSet) : nat := m_count s.

Definition set_clear (s : MessageIdSet) : MessageIdSet :=
  mkMessageIdSet (replicate (length (m_slots s)) (mkMessageId 0 0)) 0.

(** ** Ids from uuids *)

Definition MaxHistorySize : nat := Z.to_nat 10000.
Definition DedupSetCapacity : nat := Z.to_nat 32768.

(** [std::memcpy] of eight bytes into a [uint64_t] on a little-endian host. *)
Fixpoint le_load (n : nat) (s : string) : Z :=
  match n, s with
  | S n, String c s => byte_of c + 256 * le_load n s
  | _, _ => 0
  end.

(** One FNV-1a style stream: [h = (h ^ c) * prime] in 64 bits. *)
Fixpoint fnv (prime h : Z) (s : string) : Z :=
  match s with
  | EmptyString => h
  | String c s => fnv prime (wrap 64 (Z.lxor h (byte_of c) * prime)) s
  end.

Definition fnv_offset : Z := 14695981039346656037.
Definition fnv_prime : Z := 1099511628211.

Definition messageIdFrom (uuid : string) : MessageId :=
  if decide (String.length uuid = 16) then
    mkMessageId (le_load 8 uuid) (le_load 8 (str_drop 8 uuid))
  else
    mkMessageId (fnv fnv_prime fnv_offset uuid)
                (fnv 0x9e3779b97f4a7c15 0x2545f4914f6cdd1d uuid).

(** The id [isDuplicate] looks up: the empty-slot sentinel is remapped. *)
Definition dedup_id (uuid : string) : MessageId :=
  let id := messageIdFrom uuid in
  if isEmptySlot id then mkMessageId (id_hi id) 1 else id.

(** The two windows [m_seenCurrent] and [m_seenPrevious]. *)
Record DedupState := mkDedup { m_seenCurrent : MessageIdSet; m_seenPrevious : MessageIdSet }.

Definition initial_dedup : DedupState :=
  mkDedup (new_MessageIdSet DedupSetCapacity) (new_MessageIdSet DedupSetCapacity).

(** [Broker::isDuplicate]: the answer and the windows after it. *)
Definition isDuplicate (uuid : string) (st : DedupState) : option (bool * DedupState) :=
  let id := dedup_id uuid in
  inCurrent ← set_contains id (m_seenCurrent st);
  if (inCurrent : bool) then Some (true, st)
  else
    inPrevious ← set_contains id (m_seenPrevious st);
    if (inPrevious : bool) then Some (true, st)
    else
      current ← set_insert id (m_seenCurrent st);
      if decide (MaxHistorySize ≤ set_size current) then
        Some (false, mkDedup (set_clear (m_seenPrevious st)) current)
      else Some (false, mkDedup current (m_seenPrevious st)).

(** ** Invariant and abstraction *)

(** The [k]-th slot of the walk that starts at [h]. *)
Definition walk (slots : list MessageId) (h k : nat) : nat := (h + k) mod length slots.

Definition home (slots : list MessageId) (id : MessageId) : nat :=
  slot_index slots (MessageIdHash id).

Definition full_at (slots : list MessageId) (i : nat) : Prop :=
  ∃ x, slots !! i = Some x ∧ isEmptySlot x = false.

(** The ids a table holds. *)
Definition set_ids (s : MessageIdSet) : gset MessageId :=
  list_to_set (filter (λ x, isEmptySlot x = false) (m_slots s)).

Record slots_wf (slots : list MessageId) : Prop := {
  slots_pow2 : ∃ k : nat, length slots = 2 ^ k;
  (* an id sits on its own walk, with no empty slot before it *)
  slots_reach : ∀ j x, slots !! j = Some x → isEmptySlot x = false →
    ∃ d, d < length slots ∧ j = walk slots (home slots x) d ∧
         ∀ k, k < d → full_at slots (walk slots (home slots x) k)
}.

Record set_wf (s : MessageIdSet) : Prop := {
  set_slots_wf : slots_wf (m_slots s);
  set_once : NoDup (filter (λ x, isEmptySlot x = false) (m_slots s));
  set_count : m_count s = length (filter (λ x, isEmptySlot x = false) (m_slots s))
}.

(** ** Walks *)

Section walks.
Context (slots : list MessageId) (Hpow : ∃ k : nat, length slots = 2 ^ k).

Lemma slots_pos : 0 < length slots.
Proof. destruct Hpow as [k ->]. pose proof (Nat.pow_nonzero 2 k). lia. Qed.

Lemma slot_index_mod x : slot_index slots x = Z.to_nat (x mod Z.of_nat (length slots)).
Proof.
  unfold slot_index. destruct Hpow as [k ->].
  rewrite Nat2Z.inj_pow. change (Z.of_nat 2) with 2%Z.
  replace (2 ^ Z.of_nat k - 1)%Z with (Z.ones (Z.of_nat k)) by (rewrite Z.ones_equiv; lia).
  by rewrite Z.land_ones by lia.
Qed.

Lemma slot_index_lt x : slot_index slots x < length slots.
Proof.
  rewrite slot_index_mod. pose proof slots_pos.
  pose proof (Z.mod_pos_bound x (Z.of_nat (length slots))). lia.
Qed.

Lemma walk_lt h k : walk slots h k < length slots.
Proof. pose proof slots_pos. apply Nat.mod_upper_bound. lia. Qed.

Lemma walk_0 h : h < length slots → walk slots h 0 = h.
Proof. intros. unfold walk. rewrite Nat.add_0_r. by apply Nat.mod_small. Qed.

Lemma walk_next h k : slot_index slots (Z.of_nat (walk slots h k) + 1) = walk slots h (S k).
Proof.
  pose proof slots_pos. rewrite slot_index_mod. unfold walk.
  replace (Z.of_nat ((h + k) mod length slots) + 1)%Z
    with (Z.of_nat (S ((h + k) mod length slots))) by lia.
  rewrite <-Nat2Z.inj_mod, Nat2Z.id.
  rewrite <-Nat.add_1_r, Nat.Div0.add_mod_idemp_l. f_equal. lia.
Qed.

Lemma walk_inj h a b :
  h < length slots → a < length slots → b < length slots →
  walk slots h a = walk slots h b → a = b.
Proof.
  intros Hh Ha Hb. unfold walk.
  assert (∀ c, c < length slots → (h + c) mod length slots =
    if decide (h + c < length slots) then h + c else h + c - length slots) as E.
  { intros c Hc. case_dec; [by apply Nat.mod_small|].
    rewrite <-(Nat.mod_small (h + c - length slots) (length slots)) by lia.
    replace (h + c) with (h + c - length slots + 1 * length slots) at 1 by lia.
    by rewrite Nat.Div0.mod_add. }
  rewrite (E a Ha), (E b Hb). repeat case_dec; lia.
Qed.

Lemma walk_surj h j :
  h < length slots → j < length slots → ∃ e, e < length slots ∧ walk slots h e = j.
Proof.
  intros Hh Hj. unfold walk. destruct (decide (h ≤ j)).
  - exists (j - h). split; [lia|]. replace (h + (j - h)) with j by lia. by apply Nat.mod_small.
  - exists (length slots + j - h). split; [lia|].
    replace (h + (length slots + j - h)) with (j + 1 * length slots) by lia.
    rewrite Nat.Div0.mod_add. by apply Nat.mod_small.
Qed.

(** The probe stops at the first slot of its walk that is empty or holds the id. *)
Lemma probe_walk id h fuel k :
  fuel + k = length slots →
  (∃ e x, k ≤ e < length slots ∧ slots !! walk slots h e = Some x ∧ isEmptySlot x = true) →
  ∃ m found, probe fuel slots id (walk slots h k) = Some (walk slots h m, found) ∧
    k ≤ m < length slots ∧
    (∀ i, k ≤ i < m → full_at slots (walk slots h i) ∧ slots !! walk slots h i ≠ Some id) ∧
    ∃ x, slots !! walk slots h m = Some x ∧
         if (found : bool) then isEmptySlot x = false ∧ x = id else isEmptySlot x = true.
Proof.
  revert k; induction fuel as [|fuel IH]; intros k Hf (e & y & He & Hy & Ey); [lia|].
  destruct (lookup_lt_is_Some_2 slots (walk slots h k) (walk_lt h k)) as [x Hx].
  simpl. rewrite Hx. destruct (isEmptySlot x) eqn:Ex.
  { exists k, false. repeat split; [lia..|lia|]. eauto. }
  destruct (decide (x = id)) as [Hid|Hid].
  { exists k, true. repeat split; [lia..|lia|]. eauto. }
  rewrite walk_next. destruct (IH (S k)) as (m & found & -> & Hm & Hbefore & Hat); [lia|..].
  - exists e, y. split; [|done]. split; [|lia].
    destruct (decide (e = k)) as [->|]; [|lia]. congruence.
  - exists m, found. split; [done|]. split; [lia|]. split; [|done].
    intros i Hi. destruct (decide (i = k)) as [->|]; [|apply Hbefore; lia].
    split; [by exists x|congruence].
Qed.
End walks.

(** ** The set refines a finite set *)

Lemma set_ids_elem s x : x ∈ set_ids s ↔ isEmptySlot x = false ∧ ∃ j, m_slots s !! j = Some x.
Proof.
  unfold set_ids. by rewrite elem_of_list_to_set, list_elem_of_filter, list_elem_of_lookup.
Qed.

Lemma filter_short {A} (P : A → Prop) `{!∀ x, Decision (P x)} (l : list A) :
  length (filter P l) < length l → ∃ j x, l !! j = Some x ∧ ¬ P x.
Proof.
  induction l as [|y l IH]; simpl; [lia|]. rewrite filter_cons. case_dec; simpl.
  - intros (j & x & Hx & Hn)%PeanoNat.lt_S_n%IH. by exists (S j), x.
  - intros _. by exists 0, y.
Qed.

Lemma set_has_empty s h :
  set_wf s → m_count s < length (m_slots s) → h < length (m_slots s) →
  ∃ e x, 0 ≤ e < length (m_slots s) ∧ m_slots s !! walk (m_slots s) h e = Some x ∧
         isEmptySlot x = true.
Proof.
  intros Hwf Hc Hh. rewrite (set_count _ Hwf) in Hc.
  apply filter_short in Hc as (j & x & Hx & Ex).
  apply not_false_iff_true in Ex.
  destruct (walk_surj (m_slots s) h j) as (e & He & <-);
    [done|by eapply lookup_lt_Some|]. exists e, x. repeat split; [lia|done..].
Qed.

(** What a lookup finds, in terms of the abstract set. *)
Lemma lookup_slot_spec id s :
  set_wf s → m_count s < length (m_slots s) → isEmptySlot id = false →
  ∃ m found, lookup_slot id s = Some (walk (m_slots s) (home (m_slots s) id) m, found) ∧
    m < length (m_slots s) ∧
    (∀ k, k < m → full_at (m_slots s) (walk (m_slots s) (home (m_slots s) id) k)) ∧
    found = bool_decide (id ∈ set_ids s) ∧
    (found = false → ∃ x, m_slots s !! walk (m_slots s) (home (m_slots s) id) m = Some x ∧
                          isEmptySlot x = true).
Proof.
  intros Hwf Hc Hid. pose proof (set_slots_wf _ Hwf) as [Hpow Hreach].
  set (slots := m_slots s) in *. set (h := home slots id).
  assert (h < length slots) as Hh by apply (slot_index_lt slots Hpow).
  destruct (probe_walk slots Hpow id h (length slots) 0) as (m & found & Hp & Hm & Hb & x & Hx & Hf);
    [lia|by apply set_has_empty|].
  rewrite walk_0 in Hp by done.
  exists m, found. split; [exact Hp|]. split; [lia|].
  split; [intros k Hk; apply Hb; lia|]. destruct found.
  - destruct Hf as [Ex ->]. split; [|done]. symmetry. apply bool_decide_true.
    apply set_ids_elem. eauto.
  - split; [|eauto]. symmetry. apply bool_decide_false. intros [_ [j Hj]]%set_ids_elem.
    destruct (Hreach j id Hj Hid) as (d & Hd & -> & Hfull).
    destruct (lt_eq_lt_dec d m) as [[Hlt|Heq]|Hgt].
    + destruct (Hb d) as [_ Hne]; [lia|]. by apply Hne.
    + subst d. unfold h, slots in *. rewrite Hj in Hx. congruence.
    + destruct (Hfull m Hgt) as (y & Hy & Ey). unfold h, slots in *. rewrite Hy in Hx. congruence.
Qed.

Lemma set_contains_spec id s :
  set_wf s → m_count s < length (m_slots s) → isEmptySlot id = false →
  set_contains id s = Some (bool_decide (id ∈ set_ids s)).
Proof.
  intros Hwf Hc Hid. unfold set_contains.
  destruct (lookup_slot_spec id s Hwf Hc Hid) as (m & found & -> & _ & _ & -> & _). done.
Qed.

Lemma filter_fill (slots : list MessageId) i x id :
  slots !! i = Some x → isEmptySlot x = true → isEmptySlot id = false →
  filter (λ y, isEmptySlot y = false) (<[i := id]> slots) ≡ₚ
  id :: filter (λ y, isEmptySlot y = false) slots.
Proof.
  intros Hx Ex Eid. pose proof (lookup_lt_Some _ _ _ Hx).
  rewrite insert_take_drop by done. rewrite <-(take_drop_middle slots i x Hx) at 3.
  rewrite !filter_app, !filter_cons_True, filter_cons_False by congruence.
  by rewrite Permutation_middle.
Qed.

Lemma full_at_fill slots i id k :
  isEmptySlot id = false → full_at slots k → full_at (<[i := id]> slots) k.
Proof.
  intros Eid (x & Hx & Ex). destruct (decide (i = k)) as [->|].
  - exists id. split; [|done]. apply list_lookup_insert_eq. by eapply lookup_lt_Some.
  - exists x. by rewrite list_lookup_insert_ne.
Qed.

(** Filling the empty slot that ends an id's walk keeps every id reachable. *)
Lemma slots_fill slots id m x :
  slots_wf slots → isEmptySlot id = false → m < length slots →
  slots !! walk slots (home slots id) m = Some x → isEmptySlot x = true →
  (∀ k, k < m → full_at slots (walk slots (home slots id) k)) →
  slots_wf (<[walk slots (home slots id) m := id]> slots).
Proof.
  intros [Hpow Hreach] Eid Hm Hx Ex Hbefore.
  set (i := walk slots (home slots id) m) in *.
  assert (∀ y, home (<[i:=id]> slots) y = home slots y) as Hhome.
  { intros y. unfold home, slot_index. by rewrite length_insert. }
  assert (∀ h k, walk (<[i:=id]> slots) h k = walk slots h k) as Hwalk.
  { intros h k. unfold walk. by rewrite length_insert. }
  split; [by rewrite length_insert|].
  intros j y Hj Ey. setoid_rewrite Hhome. setoid_rewrite Hwalk. rewrite length_insert.
  destruct (decide (i = j)) as [<-|Hne].
  - rewrite list_lookup_insert_eq in Hj by (by eapply lookup_lt_Some). simplify_eq.
    exists m. split; [done|]. split; [done|]. intros k Hk. apply full_at_fill; auto.
  - rewrite list_lookup_insert_ne in Hj by done.
    destruct (Hreach j y Hj Ey) as (d & Hd & -> & Hfull).
    exists d. split; [done|]. split; [done|]. intros k Hk. apply full_at_fill; auto.
Qed.

Lemma set_insert_spec id s :
  set_wf s → m_count s < length (m_slots s) → isEmptySlot id = false →
  ∃ s', set_insert id s = Some s' ∧ set_wf s' ∧
    length (m_slots s') = length (m_slots s) ∧
    set_ids s' = {[id]} ∪ set_ids s ∧
    m_count s' = if decide (id ∈ set_ids s) then m_count s else S (m_count s).
Proof.
  intros Hwf Hc Hid. unfold set_insert.
  destruct (lookup_slot_spec id s Hwf Hc Hid) as (m & found & -> & Hm & Hfull & Hf & Hempty).
  simpl. destruct found.
  - symmetry in Hf. apply bool_decide_eq_true in Hf. exists s.
    split_and!; [done..|set_solver|by rewrite decide_True].
  - symmetry in Hf. apply bool_decide_eq_false in Hf.
    destruct (Hempty eq_refl) as (x & Hx & Ex).
    pose proof (filter_fill _ _ _ _ Hx Ex Hid) as Hfill.
    eexists. split; [done|]. split; [split|]; simpl.
    + by eapply slots_fill; [apply (set_slots_wf _ Hwf)|..].
    + rewrite Hfill. apply NoDup_cons. split; [|apply (set_once _ Hwf)].
      intros Hin. apply Hf. unfold set_ids. by apply elem_of_list_to_set.
    + rewrite Hfill. simpl. f_equal. apply (set_count _ Hwf).
    + split; [apply length_insert|]. split; [|by rewrite decide_False].
      unfold set_ids. simpl. by rewrite Hfill.
Qed.

Lemma filter_replicate_empty n :
  filter (λ y, isEmptySlot y = false) (replicate n (mkMessageId 0 0)) = [].
Proof. induction n; [done|]. simpl. by rewrite filter_cons_False. Qed.

Lemma empty_set_wf n : (∃ k : nat, n = 2 ^ k) →
  set_wf (mkMessageIdSet (replicate n (mkMessageId 0 0)) 0) ∧
  set_ids (mkMessageIdSet (replicate n (mkMessageId 0 0)) 0) = ∅.
Proof.
  intros Hn. split; [split|]; simpl; rewrite ?filter_replicate_empty.
  - split; [by rewrite length_replicate|].
    intros j x [-> _]%lookup_replicate. done.
  - constructor.
  - done.
  - unfold set_ids. simpl. by rewrite filter_replicate_empty.
Qed.

Lemma set_clear_wf s : set_wf s → set_wf (set_clear s) ∧ set_ids (set_clear s) = ∅.
Proof. intros [[Hpow _] _ _]. by apply empty_set_wf. Qed.

(** ** The two windows *)

(** [log] lists the accepted ids, newest first.  The current window holds the ids
    accepted since the last rotation, the previous one the [MaxHistorySize] before
    them. *)
Record dedup_inv (st : DedupState) (log : list MessageId) : Prop := {
  inv_current_wf : set_wf (m_seenCurrent st);
  inv_previous_wf : set_wf (m_seenPrevious st);
  inv_current_cap : length (m_slots (m_seenCurrent st)) = DedupSetCapacity;
  inv_previous_cap : length (m_slots (m_seenPrevious st)) = DedupSetCapacity;
  inv_count : m_count (m_seenCurrent st) = length log mod MaxHistorySize;
  inv_previous_count : m_count (m_seenPrevious st) ≤ MaxHistorySize;
  inv_current : set_ids (m_seenCurrent st) = list_to_set (take (length log mod MaxHistorySize) log);
  inv_previous : set_ids (m_seenPrevious st) =
    list_to_set (take MaxHistorySize (drop (length log mod MaxHistorySize) log))
}.

Lemma history_bounds : 0 < MaxHistorySize ∧ MaxHistorySize < DedupSetCapacity.
Proof. unfold MaxHistorySize, DedupSetCapacity. lia. Qed.

Lemma capacity_pow2 : ∃ k : nat, DedupSetCapacity = 2 ^ k.
Proof.
  exists 15. apply Nat2Z.inj. unfold DedupSetCapacity.
  rewrite Z2Nat.id, Nat2Z.inj_pow by lia. reflexivity.
Qed.

#[local] Opaque MaxHistorySize DedupSetCapacity.

Lemma initial_dedup_inv : dedup_inv initial_dedup [].
Proof.
  pose proof history_bounds. destruct (empty_set_wf _ capacity_pow2) as [Hwf Hids].
  assert (0 mod MaxHistorySize = 0) as E by (apply Nat.Div0.mod_0_l).
  split; cbn [initial_dedup m_seenCurrent m_seenPrevious new_MessageIdSet m_slots m_count length];
    rewrite ?E, ?take_nil, ?drop_nil.
  - exact Hwf.
  - exact Hwf.
  - apply length_replicate.
  - apply length_replicate.
  - reflexivity.
  - lia.
  - exact Hids.
  - exact Hids.
Qed.

Lemma dedup_id_nonempty uuid : isEmptySlot (dedup_id uuid) = false.
Proof.
  unfold dedup_id. destruct (isEmptySlot (messageIdFrom uuid)) eqn:E; [|done].
  unfold isEmptySlot. simpl. apply andb_false_r.
Qed.

(** The ids a state still remembers. *)
Definition remembered (log : list MessageId) : list MessageId :=
  take (length log mod MaxHistorySize + MaxHistorySize) log.

Lemma remembered_windows st log :
  dedup_inv st log →
  ∀ x, x ∈ remembered log ↔ x ∈ set_ids (m_seenCurrent st) ∨ x ∈ set_ids (m_seenPrevious st).
Proof.
  intros Hinv x. rewrite (inv_current _ _ Hinv), (inv_previous _ _ Hinv), !elem_of_list_to_set.
  rewrite <-elem_of_app. unfold remembered. by rewrite take_take_drop.
Qed.

(** One call of [isDuplicate]: it always returns, answers whether the id is
    remembered, and records it when it is not. *)
Lemma isDuplicate_spec uuid st log :
  dedup_inv st log →
  ∃ dup st', isDuplicate uuid st = Some (dup, st') ∧
    dup = bool_decide (dedup_id uuid ∈ remembered log) ∧
    dedup_inv st' (if (dup : bool) then log else dedup_id uuid :: log).
Proof.
  intros Hinv. pose proof history_bounds as [Hpos Hlt].
  pose proof (remembered_windows _ _ Hinv (dedup_id uuid)) as Hrem.
  pose proof (dedup_id_nonempty uuid) as Hid.
  pose proof (Nat.mod_upper_bound (length log) MaxHistorySize ltac:(lia)) as Hmod.
  set (id := dedup_id uuid) in *.
  assert (m_count (m_seenCurrent st) < length (m_slots (m_seenCurrent st))) as Hc.
  { rewrite (inv_count _ _ Hinv), (inv_current_cap _ _ Hinv). lia. }
  assert (m_count (m_seenPrevious st) < length (m_slots (m_seenPrevious st))) as Hp.
  { rewrite (inv_previous_cap _ _ Hinv). pose proof (inv_previous_count _ _ Hinv). lia. }
  unfold isDuplicate. fold id.
  rewrite (set_contains_spec id _ (inv_current_wf _ _ Hinv) Hc Hid). simpl.
  case_bool_decide as Hcur.
  { exists true, st. rewrite bool_decide_true by tauto. done. }
  rewrite (set_contains_spec id _ (inv_previous_wf _ _ Hinv) Hp Hid). simpl.
  case_bool_decide as Hprev.
  { exists true, st. rewrite bool_decide_true by tauto. done. }
  destruct (set_insert_spec id _ (inv_current_wf _ _ Hinv) Hc Hid)
    as (cur & -> & Hcw & Hcl & Hci & Hcc).
  rewrite decide_False in Hcc by done. rewrite (inv_count _ _ Hinv) in Hcc.
  rewrite (inv_current_cap _ _ Hinv) in Hcl.
  simpl. rewrite bool_decide_false by tauto. unfold set_size. rewrite Hcc.
  exists false. destruct (decide (MaxHistorySize ≤ S (length log mod MaxHistorySize))) as [Hfull|Hfull].
  - (* the current window is full: rotate *)
    assert (S (length log) mod MaxHistorySize = 0) as E by (apply succ_mod_wrap; lia).
    destruct (set_clear_wf _ (inv_previous_wf _ _ Hinv)) as [Hclw Hcli].
    eexists. split; [done|]. split; [done|].
    split; cbn [m_seenCurrent m_seenPrevious length]; rewrite ?E, ?drop_0; try done.
    + simpl. rewrite length_replicate. apply (inv_previous_cap _ _ Hinv).
    + rewrite Hcc. lia.
    + rewrite Hci, (inv_current _ _ Hinv).
      replace MaxHistorySize with (S (length log mod MaxHistorySize)) at 2 by lia. done.
  - assert (S (length log) mod MaxHistorySize = S (length log mod MaxHistorySize)) as E
      by (apply succ_mod_nowrap; lia).
    eexists. split; [done|]. split; [done|].
    split; cbn [m_seenCurrent m_seenPrevious length]; rewrite ?E; try apply Hinv; try done.
    rewrite Hci, (inv_current _ _ Hinv). done.
Qed.

Lemma isDuplicate_true uuid st st' : isDuplicate uuid st = Some (true, st') → st' = st.
Proof.
  unfold isDuplicate. destruct (set_contains _ (m_seenCurrent st)) as [[]|]; simpl; try naive_solver.
  destruct (set_contains _ (m_seenPrevious st)) as [[]|]; simpl; try naive_solver.
  destruct (set_insert _ _); simpl; [|done]. by case_dec.
Qed.

(** ** Runs *)

(** [isDuplicate] called on a sequence of uuids: the verdicts, in order. *)
Fixpoint dedup_run (uuids : list string) (st : DedupState) : option (list bool * DedupState) :=
  match uuids with
  | [] => Some ([], st)
  | uuid :: rest =>
      '(dup, st') ← isDuplicate uuid st;
      '(verdicts, st'') ← dedup_run rest st';
      Some (dup :: verdicts, st'')
  end.

(** The ids accepted as new, newest first. *)
Fixpoint accepted_ids (uuids : list string) (verdicts : list bool) (log : list MessageId)
    : list MessageId :=
  match uuids, verdicts with
  | uuid :: uuids, dup :: verdicts =>
      accepted_ids uuids verdicts (if (dup : bool) then log else dedup_id uuid :: log)
  | _, _ => log
  end.

Lemma dedup_run_inv uuids st log :
  dedup_inv st log →
  ∃ verdicts st', dedup_run uuids st = Some (verdicts, st') ∧
    length verdicts = length uuids ∧ dedup_inv st' (accepted_ids uuids verdicts log).
Proof.
  revert st log. induction uuids as [|u rest IH]; intros st log Hinv; [by exists [], st|].
  destruct (isDuplicate_spec u st log Hinv) as (dup & st' & E & _ & Hinv').
  destruct (IH _ _ Hinv') as (vs & st'' & E' & Hlen & Hinv'').
  exists (dup :: vs), st''. simpl. rewrite E. simpl. rewrite E'. simpl. by rewrite Hlen.
Qed.

Lemma remembered_recent log x : x ∈ take MaxHistorySize log → x ∈ remembered log.
Proof.
  unfold remembered. rewrite Nat.add_comm, <-take_take_drop. intros Hx.
  apply elem_of_app. by left.
Qed.

Lemma remembered_old log x : x ∈ remembered log → x ∈ log.
Proof. intros (i & Hi & _)%elem_of_take. by eapply list_elem_of_lookup_2. Qed.

(** ** The id of a uuid *)

Lemma le_load_inj n s t :
  String.length s = n → String.length t = n → le_load n s = le_load n t → s = t.
Proof.
  revert s t; induction n as [|n IH]; intros [|a s] [|b t]; simpl; try done; try lia.
  intros Hs Ht E. pose proof (byte_of_range a). pose proof (byte_of_range b).
  f_equal; [apply byte_of_inj; lia|]. apply IH; lia.
Qed.

Lemma le_load_take n s : le_load n (str_take n s) = le_load n s.
Proof. revert s; induction n; intros [|c s]; simpl; try done. by rewrite IHn. Qed.

Lemma messageIdFrom_inj u v :
  String.length u = 16 → String.length v = 16 → messageIdFrom u = messageIdFrom v → u = v.
Proof.
  intros Hu Hv. unfold messageIdFrom. rewrite !decide_True by done. intros [= Hhi Hlo].
  rewrite <-(str_take_drop 8 u), <-(str_take_drop 8 v). f_equal.
  - apply (le_load_inj 8); [rewrite str_length_take; lia..|]. by rewrite !le_load_take.
  - apply (le_load_inj 8); [rewrite str_length_drop; lia..|]. done.
Qed.

(** ** Properties *)

(** C12: the open-addressed [MessageIdSet] refines a finite set of ids.  On a
    well-formed table that is not full every call returns (the probe loop
    terminates), [contains] is membership, and [insert] adds the id, keeps the table
    well formed and its capacity, and counts only new ids. *)
Theorem MessageIdSet_refines (id : MessageId) (s : MessageIdSet) :
  set_wf s → m_count s < length (m_slots s) → isEmptySlot id = false →
  set_contains id s = Some (bool_decide (id ∈ set_ids s)) ∧
  (∃ s', set_insert id s = Some s' ∧ set_wf s' ∧
     length (m_slots s') = length (m_slots s) ∧
     set_ids s' = {[id]} ∪ set_ids s ∧
     m_count s' = size (set_ids s')) ∧
  set_wf (set_clear s) ∧ set_ids (set_clear s) = ∅.
Proof.
  intros Hwf Hc Hid. split_and!; try by apply set_clear_wf.
  - by apply set_contains_spec.
  - destruct (set_insert_spec id s Hwf Hc Hid) as (s' & ? & Hwf' & ? & ? & _).
    exists s'. split_and!; try done. rewrite (set_count _ Hwf'). unfold set_ids.
    rewrite size_list_to_set; [done|]. apply (set_once _ Hwf').
Qed.

Lemma MessageIdSet_refines_witness :
  ∃ s', set_insert (mkMessageId 5 6) (new_MessageIdSet 4) = Some s' ∧
        set_ids s' = {[mkMessageId 5 6]} ∪ set_ids (new_MessageIdSet 4).
Proof.
  destruct (MessageIdSet_refines (mkMessageId 5 6) (new_MessageIdSet 4))
    as (_ & (s' & H1 & _ & _ & H2 & _) & _).
  - apply empty_set_wf. by exists 2.
  - simpl. lia.
  - reflexivity.
  - by exists s'.
Defined.

(** C11: the broker's duplicate filter over any run.  Started empty and called on any
    sequence of uuids it always answers, and after the run the next uuid is reported
    a duplicate if its id is among the last [MaxHistorySize] = 10000 accepted ones,
    and is accepted if its id was never accepted before. *)
Theorem dedup_remembers_last_10000 (uuids : list string) :
  ∃ verdicts st, dedup_run uuids initial_dedup = Some (verdicts, st) ∧
    length verdicts = length uuids ∧
    ∀ uuid,
      (dedup_id uuid ∈ take MaxHistorySize (accepted_ids uuids verdicts []) →
         isDuplicate uuid st = Some (true, st)) ∧
      (dedup_id uuid ∉ accepted_ids uuids verdicts [] →
         ∃ st', isDuplicate uuid st = Some (false, st')).
Proof.
  destruct (dedup_run_inv uuids _ _ initial_dedup_inv) as (vs & st & E & Hlen & Hinv).
  exists vs, st. split; [done|]. split; [done|]. intros uuid.
  destruct (isDuplicate_spec uuid st _ Hinv) as (dup & st' & Ed & Hdup & _). split.
  - intros Hin%remembered_recent. rewrite bool_decide_true in Hdup by done. subst dup.
    by rewrite (isDuplicate_true _ _ _ Ed) in Ed.
  - intros Hni. exists st'. rewrite bool_decide_false in Hdup; [by subst|].
    by intros ?%remembered_old.
Qed.

(** Distinct 16-byte uuids have distinct dedup ids, the all-zero uuid apart (its
    id is the table's empty-slot sentinel and is remapped): the filter never takes
    one message for another. *)
Theorem dedup_id_distinct (u v : string) :
  String.length u = 16 → String.length v = 16 →
  isEmptySlot (messageIdFrom u) = false → isEmptySlot (messageIdFrom v) = false →
  u ≠ v → dedup_id u ≠ dedup_id v.
Proof.
  intros Hu Hv Eu Ev Hne. unfold dedup_id. rewrite Eu, Ev. contradict Hne.
  by apply messageIdFrom_inj.
Qed.

Lemma dedup_id_distinct_witness : dedup_id "0123456789abcdef" ≠ dedup_id "0123456789abcdeg".
Proof. apply dedup_id_distinct; [reflexivity..|discriminate]. Defined.
