(* ===== verification/Uuid.v ===== *)
(** * Identifiers

    Models [common/uuidhelper.h].  The random engines are parameters: the draws are
    arguments of the definitions ([gen], [gen2] for the text form, two 64-bit words for
    the binary one). *)

From Stdlib Require Import ZArith Lia.
From S2P Require Import Prelude.
From S2P Require Import Dedup.

(** [hexChars[d]]. *)
Definition hexChar (d : Z) : Ascii.ascii :=
  if decide (d < 10)%Z then chr (48 + d) else chr (87 + d).

(** [std::string] indexed for writing. *)
Definition string_of_list (l : list Ascii.ascii) : string :=
  foldr String EmptyString l.

(** The loop [for (i = first; i < last; ++i) setHex(i);]: the string and the number of
    draws made. *)
Definition setHexRange (gen : nat → Z) (first last : nat) (st : list Ascii.ascii * nat)
    : list Ascii.ascii * nat :=
  foldl (λ st i, (<[i := hexChar (gen st.2)]> st.1, S st.2)) st (seq first (last - first)).

(** [generateUUID]: [gen k] is the k-th draw of [dis], [gen2] the draw of [dis2]. *)
Definition generateUUID (gen : nat → Z) (gen2 : Z) : string :=
  let uuid := replicate 36 (chr 32) in
  let uuid := <[23 := chr 45]> (<[18 := chr 45]> (<[13 := chr 45]> (<[8 := chr 45]> uuid))) in
  let st := setHexRange gen 0 8 (uuid, 0) in
  let st := setHexRange gen 9 13 st in
  let st := (<[14 := chr 52]> st.1, st.2) in
  let st := setHexRange gen 15 18 st in
  let st := (<[19 := hexChar gen2]> st.1, st.2) in
  let st := setHexRange gen 20 23 st in
  let st := setHexRange gen 24 36 st in
  string_of_list st.1.

(** The bytes [memcpy] copies out of [htobe64(x)]: big-endian on any host. *)
Fixpoint be_store (n : nat) (z : Z) : string :=
  match n with
  | O => EmptyString
  | S n => String (chr (Z.shiftr z (8 * Z.of_nat n))) (be_store n z)
  end.

Definition uuid_hi (word : Z) : Z := Z.lor (Z.land word 0xffffffffffff0fff) 0x4000.
Definition uuid_lo (word : Z) : Z := Z.lor (Z.land word 0x3fffffffffffffff) 0x8000000000000000.

(** [generateBinaryUUID] from two draws of the 64-bit engine. *)
Definition generateBinaryUUID (word1 word2 : Z) : string :=
  be_store 8 (uuid_hi word1) +:+ be_store 8 (uuid_lo word2).

(** ** Lemmas *)

Lemma hexChar_ok d : (0 ≤ d < 16)%Z →
  isspace (hexChar d) = false ∧ hexChar d ≠ chr 124 ∧
  (48 ≤ byte_of (hexChar d) ≤ 57 ∨ 97 ≤ byte_of (hexChar d) ≤ 102)%Z.
Proof.
  intros Hd. unfold hexChar, isspace. case_dec.
  - assert (byte_of (chr (48 + d)) = 48 + d)%Z as E by (apply byte_of_chr_small; lia).
    split; [rewrite E, !bool_decide_false by lia; done|]. split; [|lia].
    intros F. apply (f_equal byte_of) in F. rewrite E, byte_of_chr_small in F; lia.
  - assert (byte_of (chr (87 + d)) = 87 + d)%Z as E by (apply byte_of_chr_small; lia).
    split; [rewrite E, !bool_decide_false by lia; done|]. split; [|lia].
    intros F. apply (f_equal byte_of) in F. rewrite E, byte_of_chr_small in F; lia.
Qed.

(** The text form, spelled out. *)
Lemma generateUUID_eq (gen : nat → Z) (gen2 : Z) :
  let x := λ k, hexChar (gen k) in
  generateUUID gen gen2 = string_of_list
    [x 0; x 1; x 2; x 3; x 4; x 5; x 6; x 7; chr 45; x 8; x 9; x 10; x 11; chr 45;
     chr 52; x 12; x 13; x 14; chr 45; hexChar gen2; x 15; x 16; x 17; chr 45;
     x 18; x 19; x 20; x 21; x 22; x 23; x 24; x 25; x 26; x 27; x 28; x 29].
Proof. reflexivity. Qed.

Lemma be_store_length n z : String.length (be_store n z) = n.
Proof. induction n; simpl; auto. Qed.

Lemma be_store_inj n z z' :
  be_store n z = be_store n z' → (z mod 2 ^ (8 * Z.of_nat n) = z' mod 2 ^ (8 * Z.of_nat n))%Z.
Proof.
  induction n as [|n IH]; [by rewrite !Z.mod_1_r|]. cbn [be_store]. intros [= Hc Ht].
  specialize (IH Ht). apply (f_equal byte_of) in Hc. rewrite !byte_of_chr in Hc.
  rewrite !Z.shiftr_div_pow2 in Hc by lia.
  replace (8 * Z.of_nat (S n))%Z with (8 * Z.of_nat n + 8)%Z by lia.
  rewrite Z.pow_add_r by lia. change (2 ^ 8)%Z with 256%Z.
  rewrite !Z.rem_mul_r by lia. lia.
Qed.

Lemma uuid_hi_version w : Z.land (Z.shiftr (uuid_hi w) 12) 15 = 4%Z.
Proof.
  unfold uuid_hi. rewrite Z.shiftr_lor, Z.shiftr_land, Z.land_lor_distr_l, <-Z.land_assoc.
  change (Z.land (Z.shiftr 0xffffffffffff0fff 12) 15) with 0%Z. by rewrite Z.land_0_r.
Qed.

Lemma uuid_lo_variant w : Z.land (Z.shiftr (uuid_lo w) 62) 3 = 2%Z.
Proof.
  unfold uuid_lo. rewrite Z.shiftr_lor, Z.shiftr_land, Z.land_lor_distr_l, <-Z.land_assoc.
  change (Z.land (Z.shiftr 0x3fffffffffffffff 62) 3) with 0%Z. by rewrite Z.land_0_r.
Qed.

(** Byte 6 carries the version nibble, byte 8 the variant bits. *)
Lemma byte6 w1 w2 :
  ∃ c, char_at (generateBinaryUUID w1 w2) 6 = Some c ∧ Z.shiftr (byte_of c) 4 = 4%Z.
Proof.
  eexists. split; [reflexivity|]. rewrite byte_of_chr. change 256%Z with (2 ^ 8)%Z.
  rewrite <-Z.land_ones, Z.shiftr_land, Z.shiftr_shiftr by lia.
  apply (uuid_hi_version w1).
Qed.

Lemma byte8 w1 w2 :
  ∃ c, char_at (generateBinaryUUID w1 w2) 8 = Some c ∧ Z.shiftr (byte_of c) 6 = 2%Z.
Proof.
  eexists. split; [reflexivity|]. rewrite byte_of_chr. change 256%Z with (2 ^ 8)%Z.
  rewrite <-Z.land_ones, Z.shiftr_land, Z.shiftr_shiftr by lia.
  apply (uuid_lo_variant w2).
Qed.

Lemma le_load_nonneg n s : (0 ≤ le_load n s)%Z.
Proof.
  revert s; induction n; intros [|c s]; simpl; try lia.
  pose proof (byte_of_range c). pose proof (IHn s). lia.
Qed.

Lemma le_load_zero n s i c :
  le_load n s = 0%Z → i < n → char_at s i = Some c → byte_of c = 0%Z.
Proof.
  revert s i; induction n as [|n IH]; intros [|a s] [|i]; simpl; try lia; try done.
  - pose proof (byte_of_range a). pose proof (le_load_nonneg n s). intros ? _ [= <-]. lia.
  - pose proof (byte_of_range a). pose proof (le_load_nonneg n s). intros. apply (IH s i); [lia..|done].
Qed.

Lemma generated_nonempty w1 w2 :
  isEmptySlot (messageIdFrom (generateBinaryUUID w1 w2)) = false.
Proof.
  unfold isEmptySlot. apply andb_false_iff. left. apply bool_decide_false. intros E.
  destruct (byte6 w1 w2) as (c & Hc & Hv).
  unfold messageIdFrom in E. rewrite decide_True in E by done. cbn [id_hi] in E.
  rewrite (le_load_zero 8 _ 6 c E) in Hv; [done|lia|done].
Qed.

(** A 64-bit word. *)
Definition word64 (z : Z) : Prop := (0 ≤ z < 2 ^ 64)%Z.

Lemma word64_land_lor w m k : word64 w → word64 m → word64 k → word64 (Z.lor (Z.land w m) k).
Proof.
  assert (∀ z, word64 z ↔ z mod 2 ^ 64 = z)%Z as E.
  { intros z. unfold word64. split; [apply Z.mod_small|]. intros <-. apply Z.mod_pos_bound. lia. }
  rewrite !E, <-!Z.land_ones by lia. intros _ Hm Hk.
  by rewrite Z.land_lor_distr_l, <-Z.land_assoc, Hm, Hk.
Qed.

Lemma generateBinaryUUID_inj w1 w2 v1 v2 :
  word64 w1 → word64 w2 → word64 v1 → word64 v2 →
  generateBinaryUUID w1 w2 = generateBinaryUUID v1 v2 →
  uuid_hi w1 = uuid_hi v1 ∧ uuid_lo w2 = uuid_lo v2.
Proof.
  intros H1 H2 H3 H4 E. unfold generateBinaryUUID in E.
  assert (∀ w, word64 w → word64 (uuid_hi w)) as Hhi.
  { intros w Hw. apply word64_land_lor; [done|unfold word64; lia..]. }
  assert (∀ w, word64 w → word64 (uuid_lo w)) as Hlo.
  { intros w Hw. apply word64_land_lor; [done|unfold word64; lia..]. }
  assert (be_store 8 (uuid_hi w1) = be_store 8 (uuid_hi v1)) as E1.
  { apply (f_equal (str_take 8)) in E.
    rewrite <-(be_store_length 8 (uuid_hi w1)) in E at 1.
    rewrite <-(be_store_length 8 (uuid_hi v1)) in E at 3.
    by rewrite !str_take_app_length in E. }
  rewrite E1 in E. apply str_app_inj_l in E.
  apply be_store_inj in E, E1. rewrite !Z.mod_small in E, E1; auto; try (apply Hlo || apply Hhi); done.
Qed.

(** ** Properties *)

(** [generateUUID] produces a version 4 text uuid whatever the engine draws: 36
    characters, dashes at 8, 13, 18 and 23, the version digit at 14, and no ['|'], so it
    can travel in a beacon. *)
Theorem generateUUID_format (gen : nat → Z) (gen2 : Z) :
  (∀ k, (0 ≤ gen k < 16)%Z) → (8 ≤ gen2 ≤ 11)%Z →
  String.length (generateUUID gen gen2) = 36 ∧
  (∀ i, i ∈ [8; 13; 18; 23] → char_at (generateUUID gen gen2) i = Some (chr 45)) ∧
  char_at (generateUUID gen gen2) 14 = Some (chr 52) ∧
  lacks (chr 124) (generateUUID gen gen2) = true.
Proof.
  intros Hg Hg2. rewrite (generateUUID_eq gen gen2). split; [done|]. split.
  - intros i Hi. repeat (apply elem_of_cons in Hi as [->|Hi]; [reflexivity|]).
    by apply not_elem_of_nil in Hi.
  - split; [reflexivity|].
    assert (∀ k, hexChar (gen k) ≠ chr 124) as Hx by (intros k; by apply hexChar_ok).
    assert (hexChar gen2 ≠ chr 124) as Hx2 by (apply hexChar_ok; lia).
    cbn [string_of_list foldr]. repeat (apply lacks_cons; split; [first [apply Hx|apply Hx2|discriminate]|]).
    done.
Qed.

Lemma generateUUID_format_witness :
  String.length (generateUUID (λ k, Z.of_nat (k mod 16)) 9) = 36.
Proof.
  apply (generateUUID_format (λ k, Z.of_nat (k mod 16)) 9); [|lia].
  intros k. pose proof (Nat.mod_upper_bound k 16). lia.
Defined.

(** [generateBinaryUUID] makes 16 bytes with the version-4 nibble in byte 6 and the
    variant bits in byte 8, and two messages stamped from draws that differ outside
    those fixed bits never share a dedup id: the broker cannot take one fresh message
    for another. *)
Theorem generateBinaryUUID_distinct (w1 w2 v1 v2 : Z) :
  word64 w1 → word64 w2 → word64 v1 → word64 v2 →
  String.length (generateBinaryUUID w1 w2) = 16 ∧
  (∃ c, char_at (generateBinaryUUID w1 w2) 6 = Some c ∧ Z.shiftr (byte_of c) 4 = 4%Z) ∧
  (∃ c, char_at (generateBinaryUUID w1 w2) 8 = Some c ∧ Z.shiftr (byte_of c) 6 = 2%Z) ∧
  (uuid_hi w1 ≠ uuid_hi v1 ∨ uuid_lo w2 ≠ uuid_lo v2 →
   dedup_id (generateBinaryUUID w1 w2) ≠ dedup_id (generateBinaryUUID v1 v2)).
Proof.
  intros H1 H2 H3 H4. split; [done|]. split; [apply byte6|]. split; [apply byte8|].
  intros Hne E. unfold dedup_id in E. rewrite !generated_nonempty in E.
  apply messageIdFrom_inj in E; [|done..].
  destruct (generateBinaryUUID_inj w1 w2 v1 v2 H1 H2 H3 H4 E) as [E1 E2]. by destruct Hne.
Qed.

Lemma generateBinaryUUID_distinct_witness :
  dedup_id (generateBinaryUUID 1 2) ≠ dedup_id (generateBinaryUUID 1 3).
Proof.
  apply (generateBinaryUUID_distinct 1 2 1 3); unfold word64; [lia..|]. right. discriminate.
Defined.
