(* ===== verification/AnyFrame.v ===== *)
(** * The Any a payload frame carries

    Models [common/anyframe.h] (reading the two fields of a serialized
    [google.protobuf.Any] off the bytes) and the protobuf branch of the payload
    encoding of [common/connectionmanager.h] ([appendLengthDelimited],
    [encodePayload], [tryUnpack]).  A message type is any type with a name, a
    serialization and a parser ([ProtobufMessage]): the generated classes and the
    runtime behind them are not part of the sources.

    [readVarint] runs at most ten times, which the shift bounds; the field loop is
    given one unit of fuel per byte and one more, and [read_total] shows it never runs
    out. *)

From Stdlib Require Import ZArith Lia.
From S2P Require Import Prelude.

Definition TYPE_URL_PREFIX : string := "type.googleapis.com/".

(** ** Writing *)

(** The varint of a length: seven bits a byte, low ones first, the top bit set on all
    but the last.  Ten bytes hold any 64-bit number. *)
Fixpoint varint_loop (fuel : nat) (n : Z) : string :=
  match fuel with
  | O => EmptyString
  | S fuel =>
      if decide (0x80 ≤ n)%Z
      then String (chr (Z.lor (Z.land n 0x7f) 0x80)) (varint_loop fuel (Z.shiftr n 7))
      else String (chr n) EmptyString
  end.

Definition appendLengthDelimited (out : string) (tag : Z) (bytes : string) : string :=
  out +:+ String (chr tag) (varint_loop 10 (Z.of_nat (String.length bytes)) +:+ bytes).

(** ** Reading *)

(** [readVarint] at [pos]: the value and the position behind it. *)
Fixpoint readVarint_loop (fuel : nat) (raw : string) (pos : nat) (shift out : Z) : option (Z * nat) :=
  match fuel with
  | O => None
  | S fuel =>
      match char_at raw pos with
      | None => None
      | Some c =>
          let byte := byte_of c in
          let out := Z.lor out (wrap 64 (Z.shiftl (Z.land byte 0x7f) shift)) in
          if decide (Z.land byte 0x80 = 0%Z) then Some (out, S pos)
          else readVarint_loop fuel raw (S pos) (shift + 7) out
      end
  end.

Definition readVarint (raw : string) (pos : nat) : option (Z * nat) := readVarint_loop 10 raw pos 0 0.

(** A result with the two views; [OutOfFuel] is the model's own. *)
Inductive ReadResult :=
  | ReadOk (typeUrl valueBytes : string)
  | ReadFail
  | OutOfFuel.

(** A [string_view] of the frame. *)
Definition field_at (raw : string) (pos len : nat) : string := substr raw pos len.

(** One field: where the next one starts and the two views, [None] when the bytes are
    not a wire-valid message. *)
Definition read_field (raw : string) (pos : nat) (typeUrl valueBytes : string)
    : option (nat * string * string) :=
  match readVarint raw pos with
  | None => None
  | Some (key, pos) =>
      let fieldNumber := Z.shiftr key 3 in
      let wireType := Z.land key 7 in
      if decide (wireType = 0%Z) then
        match readVarint raw pos with
        | None => None
        | Some (_, pos) => Some (pos, typeUrl, valueBytes)
        end
      else if decide (wireType = 1%Z) then
        if decide (String.length raw - pos < 8) then None else Some (pos + 8, typeUrl, valueBytes)
      else if decide (wireType = 2%Z) then
        match readVarint raw pos with
        | None => None
        | Some (len, pos) =>
            if decide (Z.of_nat (String.length raw - pos) < len)%Z then None
            else
              let field := field_at raw pos (Z.to_nat len) in
              let pos := pos + Z.to_nat len in
              if decide (fieldNumber = 1%Z) then Some (pos, field, valueBytes)
              else if decide (fieldNumber = 2%Z) then Some (pos, typeUrl, field)
              else Some (pos, typeUrl, valueBytes)
        end
      else if decide (wireType = 5%Z) then
        if decide (String.length raw - pos < 4) then None else Some (pos + 4, typeUrl, valueBytes)
      else None
  end.

Fixpoint read_loop (fuel : nat) (raw : string) (pos : nat) (typeUrl valueBytes : string) : ReadResult :=
  match fuel with
  | O => OutOfFuel
  | S fuel =>
      if decide (pos < String.length raw) then
        match read_field raw pos typeUrl valueBytes with
        | None => ReadFail
        | Some (pos, typeUrl, valueBytes) => read_loop fuel raw pos typeUrl valueBytes
        end
      else ReadOk typeUrl valueBytes
  end.

Definition read (raw : string) : ReadResult := read_loop (S (String.length raw)) raw 0 EmptyString EmptyString.

(** [typeNameOf]: the name and the packed bytes; both empty when the payload is not an
    Any with a recognizable type url. *)
Definition typeNameOf (payload : string) : string * string :=
  match read payload with
  | ReadOk typeUrl value =>
      if starts_with TYPE_URL_PREFIX typeUrl
      then (str_drop (String.length TYPE_URL_PREFIX) typeUrl, value)
      else (EmptyString, EmptyString)
  | _ => (EmptyString, EmptyString)
  end.

(** ** Payloads *)

(** A protobuf message type, by the members [encodePayload] and [tryUnpack] call. *)
Class ProtobufMessage (T : Type) := {
  GetTypeName : string;
  SerializeAsString : T → string;
  ParseFromArray : string → option T
}.
Arguments GetTypeName T {_}.

(** The runtime's documented round trip. *)
Class ProtobufMessageLaws (T : Type) `{!ProtobufMessage T} : Prop :=
  parse_serialize : ∀ v : T, ParseFromArray (SerializeAsString v) = Some v.

Definition packAny (typeName body : string) : string :=
  appendLengthDelimited (appendLengthDelimited EmptyString 0x0a (TYPE_URL_PREFIX +:+ typeName)) 0x12 body.

Definition encodePayload {T} `{!ProtobufMessage T} (value : T) : string :=
  packAny (GetTypeName T) (SerializeAsString value).

Definition tryUnpack (T : Type) `{!ProtobufMessage T} (raw : string) : option T :=
  match read raw with
  | ReadOk typeUrl valueBytes =>
      if starts_with TYPE_URL_PREFIX typeUrl then
        if decide (str_drop (String.length TYPE_URL_PREFIX) typeUrl = GetTypeName T)
        then ParseFromArray valueBytes else None
      else ParseFromArray raw
  | _ => ParseFromArray raw
  end.

(** ** Lemmas *)

Lemma land_ones7 n : Z.land n 0x7f = (n mod 128)%Z.
Proof. change 0x7f%Z with (Z.ones 7). by rewrite Z.land_ones by lia. Qed.

Lemma land_high n : (0 ≤ n < 256)%Z → Z.land n 0x80 = if decide (n < 128)%Z then 0%Z else 128%Z.
Proof.
  intros Hn. assert (n = Z.of_nat (Z.to_nat n)) as -> by lia.
  assert (Z.to_nat n < 256) as Hb by lia. revert Hb. generalize (Z.to_nat n). intros m Hb.
  do 256 (destruct m as [|m]; [vm_compute; reflexivity|]). lia.
Qed.

Lemma drop_char_at raw pos c t : str_drop pos raw = String c t → char_at raw pos = Some c.
Proof.
  revert pos; induction raw as [|a raw IH]; intros [|pos]; simpl; try done; [by intros [= -> _]|apply IH].
Qed.

Lemma drop_char_tail raw pos c t : str_drop pos raw = String c t → str_drop (S pos) raw = t.
Proof.
  revert pos; induction raw as [|a raw IH]; intros [|pos]; simpl; try done; [by intros [= _ ->]; destruct t|apply IH].
Qed.

Lemma char_at_Some_lt s i c : char_at s i = Some c → i < String.length s.
Proof. revert i; induction s as [|a s IH]; intros [|i]; simpl; try done; [lia|]. intros H%IH. lia. Qed.

(** Reading back a varint: the digits from [shift] on are added to [out]. *)
Lemma readVarint_varint fuel n shift out raw pos rest :
  (0 ≤ shift)%Z → (0 ≤ n)%Z → (n < 2 ^ (7 * Z.of_nat fuel))%Z → (n * 2 ^ shift < 2 ^ 64)%Z →
  (0 ≤ out < 2 ^ shift)%Z → 0 < fuel →
  str_drop pos raw = varint_loop fuel n +:+ rest →
  readVarint_loop fuel raw pos shift out =
    Some ((out + n * 2 ^ shift)%Z, pos + String.length (varint_loop fuel n)).
Proof.
  revert n shift out pos; induction fuel as [|fuel IH]; intros n shift out pos Hs Hn Hf H64 Ho Hfuel Hd; [lia|].
  simpl in Hd |- *.
  assert (0 < 2 ^ shift)%Z as Hp by (apply Z.pow_pos_nonneg; lia).
  case_decide as Hbig.
  - rewrite str_app_cons in Hd.
    assert (char_at raw pos = Some (chr (Z.lor (Z.land n 127) 128))) as Hc.
    { by eapply drop_char_at. }
    rewrite Hc. rewrite land_ones7 in *.
    assert (Z.lor (n mod 128) 128 = n mod 128 + 128)%Z as El.
    { pose proof (lor_disjoint (n mod 128) 1 7 ltac:(lia)) as E.
      change (Z.shiftl 1 7) with 128%Z in E. change (2 ^ 7)%Z with 128%Z in E.
      rewrite E; [lia|apply Z.mod_pos_bound; lia|lia]. }
    pose proof (Z.mod_pos_bound n 128 ltac:(lia)) as Hm.
    rewrite El, byte_of_chr_small by lia. rewrite land_high by lia.
    rewrite (decide_False (P := (n mod 128 + 128 < 128)%Z)) by lia. simpl.
    rewrite land_ones7.
    replace ((n mod 128 + 128) mod 128)%Z with (n mod 128)%Z.
    2: { rewrite <-(Z.mul_1_l 128) at 3. rewrite Z.mod_add by lia. symmetry. apply Z.mod_small. lia. }
    assert (n mod 128 * 2 ^ shift < 2 ^ 64)%Z as Hw.
    { apply Z.le_lt_trans with (n * 2 ^ shift)%Z; [|done]. apply Z.mul_le_mono_nonneg_r; [lia|]. apply Z.mod_le; lia. }
    unfold wrap. rewrite Z.shiftl_mul_pow2, Z.mod_small by nia. rewrite <-Z.shiftl_mul_pow2 by lia.
    rewrite lor_disjoint by lia.
    assert (n = 128 * (n / 128) + n mod 128)%Z as Hdm by (apply Z.div_mod; lia).
    assert (2 ^ (shift + 7) = 128 * 2 ^ shift)%Z as Hsh by (rewrite Z.pow_add_r by lia; lia).
    assert (Z.shiftr n 7 = n / 128)%Z as Hsr by (by rewrite Z.shiftr_div_pow2 by lia).
    rewrite Hsr in *. rewrite (IH (n / 128)%Z (shift + 7)%Z _ (S pos)).
    + rewrite Hsh. f_equal. f_equal; [|simpl; lia]. nia.
    + lia.
    + apply Z.div_pos; lia.
    + apply Z.div_lt_upper_bound; [lia|]. rewrite Nat2Z.inj_succ in Hf.
      replace (7 * Z.succ (Z.of_nat fuel))%Z with (7 + 7 * Z.of_nat fuel)%Z in Hf by lia.
      rewrite Z.pow_add_r in Hf by lia. lia.
    + rewrite Hsh. nia.
    + rewrite Hsh. nia.
    + destruct fuel; [|lia]. simpl in Hf. lia.
    + by eapply drop_char_tail.
  - rewrite str_app_cons in Hd.
    assert (char_at raw pos = Some (chr n)) as Hc by (by eapply drop_char_at).
    rewrite Hc, byte_of_chr_small by lia. rewrite land_high by lia.
    rewrite (decide_True (P := (n < 128)%Z)) by lia. simpl.
    rewrite land_ones7, Z.mod_small by lia. unfold wrap.
    rewrite Z.shiftl_mul_pow2, Z.mod_small by nia. rewrite <-Z.shiftl_mul_pow2 by lia.
    rewrite lor_disjoint, ?Z.shiftl_mul_pow2 by lia. do 2 f_equal; simpl; lia.
Qed.

(** A varint takes the bytes it was written in and at least one. *)
Lemma readVarint_loop_pos fuel raw pos shift out v pos' :
  readVarint_loop fuel raw pos shift out = Some (v, pos') → pos < pos' ≤ String.length raw.
Proof.
  revert pos shift out; induction fuel as [|fuel IH]; intros pos shift out; simpl; [done|].
  destruct (char_at raw pos) as [c|] eqn:Ec; [|done].
  assert (pos < String.length raw) by (by eapply char_at_Some_lt).
  case_decide; [intros [= _ <-]; lia|]. intros Hr%IH. lia.
Qed.

Lemma readVarint_nonneg fuel raw pos shift out v pos' :
  (0 ≤ out)%Z → readVarint_loop fuel raw pos shift out = Some (v, pos') → (0 ≤ v)%Z.
Proof.
  revert pos shift out; induction fuel as [|fuel IH]; intros pos shift out Ho; simpl; [done|].
  destruct (char_at raw pos) as [c|]; [|done].
  assert (0 ≤ Z.lor out (wrap 64 (Z.shiftl (Z.land (byte_of c) 127) shift)))%Z.
  { apply Z.lor_nonneg. split; [done|]. unfold wrap. apply Z.mod_pos_bound. done. }
  case_decide; [by intros [= <- _]|]. by apply IH.
Qed.

(** A field ends behind where it began and inside the frame, and the views it sets are
    parts of the frame. *)
Lemma read_field_pos raw pos u v pos' u' v' :
  read_field raw pos u v = Some (pos', u', v') →
  pos < pos' ≤ String.length raw ∧
  (u' = u ∨ ∃ p n, p + n ≤ String.length raw ∧ u' = substr raw p n) ∧
  (v' = v ∨ ∃ p n, p + n ≤ String.length raw ∧ v' = substr raw p n).
Proof.
  unfold read_field, readVarint. destruct (readVarint_loop 10 raw pos 0 0) as [[key p]|] eqn:Ek; [|done].
  apply readVarint_loop_pos in Ek. case_decide; [|case_decide; [|case_decide; [|case_decide; [|done]]]].
  - destruct (readVarint_loop 10 raw p 0 0) as [[x p']|] eqn:Ex; [|done]. apply readVarint_loop_pos in Ex.
    intros [= <- <- <-]. split; [lia|]. by split; left.
  - case_decide; [done|]. intros [= <- <- <-]. split; [lia|]. by split; left.
  - destruct (readVarint_loop 10 raw p 0 0) as [[len p']|] eqn:Ex; [|done].
    pose proof (readVarint_nonneg _ _ _ _ _ _ _ ltac:(done) Ex). apply readVarint_loop_pos in Ex.
    case_decide; [done|].
    assert (p' + Z.to_nat len ≤ String.length raw) by lia. unfold field_at.
    repeat case_decide; intros [= <- <- <-]; (split; [lia|]); split; by eauto.
  - case_decide; [done|]. intros [= <- <- <-]. split; [lia|]. by split; left.
Qed.

Definition part_of (raw s : string) : Prop := ∃ p n, p + n ≤ String.length raw ∧ s = substr raw p n.

(** The loop ends within its fuel and what it returns are parts of the frame. *)
Lemma read_loop_total fuel raw pos u v :
  pos ≤ String.length raw < fuel + pos → part_of raw u → part_of raw v →
  match read_loop fuel raw pos u v with
  | ReadOk u' v' => part_of raw u' ∧ part_of raw v'
  | ReadFail => True
  | OutOfFuel => False
  end.
Proof.
  revert pos u v; induction fuel as [|fuel IH]; intros pos u v Hf Hu Hv; simpl; [lia|].
  case_decide; [|done]. destruct (read_field raw pos u v) as [[[pos' u'] v']|] eqn:E; [|done].
  apply read_field_pos in E as (Hp & Hu' & Hv'). apply IH; [lia| |].
  - by destruct Hu' as [->|?].
  - by destruct Hv' as [->|?].
Qed.

Lemma empty_part raw : part_of raw EmptyString.
Proof. exists 0, 0. split; [lia|done]. Qed.

(** *** A frame written here *)

Lemma varint_small n : (0 ≤ n < 128)%Z → varint_loop 10 n = String (chr n) EmptyString.
Proof. intros. cbn [varint_loop]. by rewrite decide_False by lia. Qed.

(** A one-byte varint at [pos]. *)
Lemma readVarint_tag raw pos tag rest :
  (0 ≤ tag < 128)%Z → str_drop pos raw = String (chr tag) rest → readVarint raw pos = Some (tag, S pos).
Proof.
  intros Ht Hd. unfold readVarint. rewrite (readVarint_varint 10 tag 0 0 raw pos rest); try lia.
  - rewrite varint_small by lia. simpl. do 2 f_equal; lia.
  - rewrite varint_small by lia. exact Hd.
Qed.

Lemma readVarint_length raw pos n rest :
  (Z.of_nat n < 2 ^ 64)%Z → str_drop pos raw = varint_loop 10 (Z.of_nat n) +:+ rest →
  readVarint raw pos = Some (Z.of_nat n, pos + String.length (varint_loop 10 (Z.of_nat n))).
Proof.
  intros Hn Hd. unfold readVarint. rewrite (readVarint_varint 10 (Z.of_nat n) 0 0 raw pos rest); try lia; [|done].
  do 2 f_equal. lia.
Qed.

(** Reading the length-delimited field [tag] at [pos]. *)
Lemma read_field_delimited raw pos tag bytes rest u v :
  tag = 0x0a%Z ∨ tag = 0x12%Z → (Z.of_nat (String.length bytes) < 2 ^ 64)%Z →
  str_drop pos raw = String (chr tag) (varint_loop 10 (Z.of_nat (String.length bytes)) +:+ (bytes +:+ rest)) →
  ∃ pos', read_field raw pos u v =
      Some (pos', if decide (tag = 0x0a%Z) then bytes else u, if decide (tag = 0x0a%Z) then v else bytes) ∧
    pos < pos' ∧ str_drop pos' raw = rest.
Proof.
  intros Ht Hl Hd. pose proof (drop_char_tail _ _ _ _ Hd) as Hd1.
  set (n := String.length bytes) in *. set (k := String.length (varint_loop 10 (Z.of_nat n))) in *.
  pose proof (readVarint_tag raw pos tag _ ltac:(lia) Hd) as Hk.
  pose proof (readVarint_length raw (S pos) n _ Hl Hd1) as Hlen. fold k in Hlen.
  assert (str_drop (S pos + k) raw = bytes +:+ rest) as Hd2.
  { rewrite <-str_drop_drop, Hd1. apply str_drop_app_length. }
  assert (String.length raw - (S pos + k) = n + String.length rest) as Hroom.
  { by rewrite <-str_length_drop, Hd2, str_length_app. }
  exists (S pos + k + n). unfold read_field. rewrite Hk, Hlen.
  assert (substr raw (S pos + k) n = bytes) as Hs by (unfold substr; rewrite Hd2; apply str_take_app_length).
  split_and!; [|lia|rewrite <-str_drop_drop, Hd2; apply str_drop_app_length].
  assert (Z.land tag 7 = 2%Z) as -> by (by destruct Ht as [-> | ->]).
  rewrite (decide_False (P := 2%Z = 0%Z)), (decide_False (P := 2%Z = 1%Z)), (decide_True (P := 2%Z = 2%Z)) by done.
  rewrite (decide_False (P := (_ < Z.of_nat n)%Z)) by lia.
  unfold field_at. rewrite Nat2Z.id, Hs. destruct Ht as [-> | ->].
  - change (Z.shiftr 10 3) with 1%Z. by rewrite !decide_True.
  - change (Z.shiftr 18 3) with 2%Z. by rewrite (decide_False (P := 2%Z = 1%Z)), (decide_True (P := 2%Z = 2%Z)).
Qed.

Lemma read_loop_step fuel raw pos u v pos' u' v' :
  read_field raw pos u v = Some (pos', u', v') → pos < String.length raw →
  read_loop (S fuel) raw pos u v = read_loop fuel raw pos' u' v'.
Proof. intros E Hp. cbn [read_loop]. by rewrite decide_True, E. Qed.

Lemma read_packAny typeName body :
  (Z.of_nat (String.length TYPE_URL_PREFIX + String.length typeName) < 2 ^ 64)%Z →
  (Z.of_nat (String.length body) < 2 ^ 64)%Z →
  read (packAny typeName body) = ReadOk (TYPE_URL_PREFIX +:+ typeName) body.
Proof.
  intros Hn Hb. unfold read. set (raw := packAny typeName body).
  assert (2 ≤ String.length raw) as Hlen.
  { unfold raw, packAny, appendLengthDelimited. rewrite !str_length_app. cbn [String.length]. lia. }
  destruct (read_field_delimited raw 0 0x0a (TYPE_URL_PREFIX +:+ typeName)
    (String (chr 0x12) (varint_loop 10 (Z.of_nat (String.length body)) +:+ body)) EmptyString EmptyString)
    as (p1 & E1 & Hp1 & Hd1); [by left|by rewrite str_length_app| |].
  { unfold raw, packAny, appendLengthDelimited. cbn [str_drop].
    by rewrite str_app_empty, !str_app_cons, !str_app_assoc. }
  destruct (read_field_delimited raw p1 0x12 body EmptyString (TYPE_URL_PREFIX +:+ typeName) EmptyString)
    as (p2 & E2 & Hp2 & Hd2); [by right|done|by rewrite str_app_nil_r|].
  apply drop_char_at, char_at_Some_lt in Hd1.
  apply (f_equal String.length) in Hd2. rewrite str_length_drop in Hd2.
  change (String.length EmptyString) with 0 in Hd2.
  destruct (String.length raw) as [|[|m]] eqn:El; [lia..|].
  rewrite (read_loop_step _ _ _ _ _ _ _ _ E1), (read_loop_step _ _ _ _ _ _ _ _ E2) by lia.
  cbn [read_loop]. by rewrite decide_False by lia.
Qed.

(** ** Properties *)

(** What is packed as an Any is read back.  For a type name and a body of any size a
    machine can hold, [read] finds exactly the type url and the body that [encodePayload]
    wrote, [typeNameOf] the name; a message decodes to itself as its own type, and as a
    type of another name it is refused rather than parsed. *)
Theorem any_payload_roundtrip {T U} `{!ProtobufMessage T} `{!ProtobufMessageLaws T} `{!ProtobufMessage U}
    (value : T) :
  (Z.of_nat (String.length TYPE_URL_PREFIX + String.length (GetTypeName T)) < 2 ^ 64)%Z →
  (Z.of_nat (String.length (SerializeAsString value)) < 2 ^ 64)%Z →
  read (encodePayload value) = ReadOk (TYPE_URL_PREFIX +:+ GetTypeName T) (SerializeAsString value) ∧
  typeNameOf (encodePayload value) = (GetTypeName T, SerializeAsString value) ∧
  tryUnpack T (encodePayload value) = Some value ∧
  (GetTypeName U ≠ GetTypeName T → tryUnpack U (encodePayload value) = None).
Proof.
  intros Hn Hb. unfold tryUnpack, typeNameOf, encodePayload. rewrite read_packAny by done.
  rewrite starts_with_app, str_drop_app_length. split_and!; [done..| |].
  - by rewrite decide_True, parse_serialize by done.
  - intros Hne. by rewrite decide_False by done.
Qed.


(** ** Witnesses *)

(** Two message types: one text field, packed as such. *)
Definition demo_message (name : string) : ProtobufMessage string :=
  {| GetTypeName := name; SerializeAsString := λ s, s; ParseFromArray := Some |}.

Lemma any_payload_roundtrip_witness :
  let T := demo_message "a.Text" in let U := demo_message "a.Other" in
  @tryUnpack string T (@encodePayload string T "hello") = Some "hello"%string ∧
  (@GetTypeName string U ≠ @GetTypeName string T →
   @tryUnpack string U (@encodePayload string T "hello") = None).
Proof.
  refine (proj2 (proj2 (@any_payload_roundtrip string string (demo_message "a.Text") _ (demo_message "a.Other")
    "hello" _ _))).
  - intros v. reflexivity.
  - vm_compute. reflexivity.
  - vm_compute. reflexivity.
Defined.
