(* ===== verification/Worker.v ===== *)
(** * The worker interface

    Models [common/workerinterface.h]: what a connection worker promises to the broker
    (for its peer links) and to the client library.  [WorkerInterface] is the
    operations, [WorkerLaws] the contract the clients' theorems are proved against;
    the ZMQ worker discharges it in its own file.

    The contract is stated over what the worker was handed: the control messages, the
    data messages and the pre-encoded messages it accepted, oldest first, and how many
    control messages it refused. *)

From Stdlib Require Import ZArith Lia.
From S2P Require Import Prelude.
From S2P Require Import Config.
From S2P Require Import Wire.

Class WorkerInterface (W : Type) := {
  new_worker : ConnectionConfig → W;
  worker_start : W → W;
  worker_stop : W → W;
  writeMessage : Envelope → W → bool * W;
  writeControlMessage : Envelope → W → bool * W;
  writeEncoded : WireMessage → W → bool * W;
  control_written : W → list Envelope;
  control_refused : W → nat;
  data_written : W → list Envelope;
  encoded_written : W → list WireMessage
}.

Class WorkerLaws (W : Type) `{!WorkerInterface W} : Prop := {
  new_worker_blank : ∀ cfg,
    control_written (new_worker cfg) = [] ∧ control_refused (new_worker cfg) = 0 ∧
    encoded_written (new_worker cfg) = [];
  worker_start_keeps : ∀ w,
    control_written (worker_start w) = control_written w ∧
    control_refused (worker_start w) = control_refused w ∧
    encoded_written (worker_start w) = encoded_written w;
  (* a control message is taken, in order, or refused and counted *)
  writeControlMessage_law : ∀ m w ok w', writeControlMessage m w = (ok, w') →
    control_written w' = control_written w ++ (if ok then [m] else []) ∧
    control_refused w' = (if ok then control_refused w else S (control_refused w)) ∧
    encoded_written w' = encoded_written w;
  writeEncoded_law : ∀ m w ok w', writeEncoded m w = (ok, w') →
    encoded_written w' = encoded_written w ++ (if ok then [m] else []) ∧
    control_written w' = control_written w ∧ control_refused w' = control_refused w;
  writeMessage_law : ∀ m w ok w', writeMessage m w = (ok, w') →
    data_written w' = data_written w ++ (if ok then [m] else []) ∧
    control_written w' = control_written w ∧ control_refused w' = control_refused w ∧
    encoded_written w' = encoded_written w;
  writeControlMessage_data : ∀ m w, data_written (writeControlMessage m w).2 = data_written w
}.

Section write_all.
Context {W : Type} `{!WorkerInterface W}.

(** Writing several control messages in a row, results ignored. *)
Definition write_controls (ms : list Envelope) (w : W) : W :=
  foldl (λ w m, (writeControlMessage m w).2) w ms.

Context `{!WorkerLaws W}.

Lemma write_controls_refused ms w :
  control_refused w ≤ control_refused (write_controls ms w).
Proof.
  revert w; induction ms as [|m ms IH]; intros w; [done|]. simpl. etrans; [|apply IH].
  destruct (writeControlMessage m w) as [ok w'] eqn:E. simpl.
  apply writeControlMessage_law in E as (_ & -> & _). destruct ok; lia.
Qed.

(** Unless one was refused, all of them were taken, in order. *)
Lemma write_controls_written ms w :
  control_refused (write_controls ms w) = 0 →
  control_written (write_controls ms w) = control_written w ++ ms.
Proof.
  revert w; induction ms as [|m ms IH]; intros w Hr; [by rewrite app_nil_r|]. simpl in *.
  destruct (writeControlMessage m w) as [ok w'] eqn:E. simpl in *.
  pose proof (write_controls_refused ms w').
  apply writeControlMessage_law in E as (Hw & Hn & _). destruct ok; [|lia].
  rewrite IH by done. by rewrite Hw, <-app_assoc.
Qed.

Lemma write_controls_encoded ms w : encoded_written (write_controls ms w) = encoded_written w.
Proof.
  revert w; induction ms as [|m ms IH]; intros w; [done|]. simpl.
  destruct (writeControlMessage m w) as [ok w'] eqn:E. simpl. rewrite IH.
  by apply writeControlMessage_law in E as (_ & _ & ->).
Qed.
End write_all.

(** A worker with room for a number of messages, for evaluating the model. *)
Record DemoWorker := mkDemoWorker {
  dw_room : nat;
  dw_control : list Envelope;
  dw_refused : nat;
  dw_encoded : list WireMessage;
  dw_data : list Envelope
}.

#[export] Instance demo_worker : WorkerInterface DemoWorker := {|
  new_worker := λ _, mkDemoWorker 8 [] 0 [] [];
  worker_start := λ w, w;
  worker_stop := λ w, w;
  writeMessage := λ m w,
    match dw_room w with
    | O => (false, w)
    | S n => (true, mkDemoWorker n (dw_control w) (dw_refused w) (dw_encoded w) (dw_data w ++ [m]))
    end;
  writeControlMessage := λ m w,
    match dw_room w with
    | O => (false, mkDemoWorker 0 (dw_control w) (S (dw_refused w)) (dw_encoded w) (dw_data w))
    | S n => (true, mkDemoWorker n (dw_control w ++ [m]) (dw_refused w) (dw_encoded w) (dw_data w))
    end;
  writeEncoded := λ m w,
    match dw_room w with
    | O => (false, w)
    | S n => (true, mkDemoWorker n (dw_control w) (dw_refused w) (dw_encoded w ++ [m]) (dw_data w))
    end;
  control_written := dw_control;
  control_refused := dw_refused;
  data_written := dw_data;
  encoded_written := dw_encoded
|}.

#[export] Instance demo_worker_laws : WorkerLaws DemoWorker.
Proof.
  split; simpl; [done..| | | |]; intros m [room c r e d]; simpl; [intros ok w'..|];
    destruct room; intros; simplify_eq; simpl; by rewrite ?app_nil_r.
Qed.
