(* ===== verification/Interest.v ===== *)
(** * Mesh interest

    Models the interest half of [server/broker.cpp]: which topics a broker asks its
    peers for.  [m_interest], [m_interestSaturated] and [m_interestWildcard] are the
    record [Interest]; [noteTopicSubscribed], [noteTopicUnsubscribed] and
    [sendInterestTo] each decide under the interest lock and then write control
    messages to peer links under the peers lock, and are modelled as these two parts.

    What a remote holds for a link is what replaying the link's control messages
    leaves subscribed ([remote_topics]).  The invariant [link_mirrors] relates it to
    the interest; [interest_tracks] relates the interest to the registry. *)

From Stdlib Require Import ZArith Lia.
From S2P Require Import Prelude.
From S2P Require Import MessageKeys.
From S2P Require Import Config.
From S2P Require Import Wire.
From S2P Require Import Registry.
From S2P Require Import Worker.
From stdpp Require Import sorting.

Record Interest := mkInterest {
  m_interest : gset string;
  m_interestSaturated : bool;
  m_interestWildcard : bool
}.

Definition initial_interest : Interest := mkInterest ∅ false false.

Definition MaxInterestTopics : nat := Z.to_nat 1000.

Definition isPropagatableTopic (topic : string) : bool :=
  bool_decide (topic ≠ EmptyString) && bool_decide (topic ≠ Keys.WILDCARD_TOPIC) &&
  negb (Keys.isReservedKey topic).

(** Iteration over a [std::set<std::string>] is in increasing order. *)
Definition set_elements (s : gset string) : list string := merge_sort String.le (elements s).

(** A control message for a link, before it carries the link's id: key and topic. *)
Definition LinkControl : Type := string * string.

Definition sub (topic : string) : LinkControl := (Keys.SUBSCRIBE, topic).
Definition unsub (topic : string) : LinkControl := (Keys.UNSUBSCRIBE, topic).

(** [noteTopicSubscribed] under the interest lock: the interest after it, and what
    every link is then told. *)
Definition topicSubscribed (topic : string) (i : Interest) : Interest * list LinkControl :=
  if decide (topic = Keys.WILDCARD_TOPIC) then
    if m_interestWildcard i then (i, [])
    else (mkInterest (m_interest i) (m_interestSaturated i) true, [sub Keys.WILDCARD_TOPIC])
  else if negb (isPropagatableTopic topic) then (i, [])
  else if m_interestSaturated i || bool_decide (topic ∈ m_interest i) then (i, [])
  else
    let interest := {[topic]} ∪ m_interest i in
    let saturatedNow := bool_decide (MaxInterestTopics < size interest) in
    (mkInterest interest saturatedNow (m_interestWildcard i),
     [sub (if saturatedNow then Keys.WILDCARD_TOPIC else topic)]).

(** [noteTopicUnsubscribed] likewise. *)
Definition topicUnsubscribed (topic : string) (i : Interest) : Interest * list LinkControl :=
  if decide (topic = Keys.WILDCARD_TOPIC) then
    if negb (m_interestWildcard i) then (i, [])
    else
      let i' := mkInterest (m_interest i) (m_interestSaturated i) false in
      if m_interestSaturated i then (i', [])
      else (i', unsub Keys.WILDCARD_TOPIC :: (sub <$> set_elements (m_interest i)))
  else if negb (isPropagatableTopic topic) then (i, [])
  else if m_interestSaturated i || bool_decide (topic ∉ m_interest i) then (i, [])
  else
    (mkInterest (m_interest i ∖ {[topic]}) (m_interestSaturated i) (m_interestWildcard i),
     [unsub topic]).

(** What [sendInterestTo] writes to a link. *)
Definition interestMessages (i : Interest) : list LinkControl :=
  if m_interestSaturated i || m_interestWildcard i then [sub Keys.WILDCARD_TOPIC]
  else sub <$> set_elements (m_interest i).

(** ** Peer links *)

Section links.
Context {W : Type} `{!WorkerInterface W}.

Record PeerLink := mkPeerLink {
  pl_address : string;
  pl_linkId : string;
  pl_worker : W;
  pl_active : bool
}.

Definition with_worker (w : W) (link : PeerLink) : PeerLink :=
  mkPeerLink (pl_address link) (pl_linkId link) w (pl_active link).

(** [Wire::makeControl(key, linkId, topic)]. *)
Definition link_control (linkId : string) (m : LinkControl) : Envelope :=
  makeControl m.1 linkId m.2.

Definition tell (ms : list LinkControl) (link : PeerLink) : PeerLink :=
  with_worker (write_controls (link_control (pl_linkId link) <$> ms) (pl_worker link)) link.

(** [for (auto& [key, peer] : m_peers) ...], each pass touching its own entry. *)
Definition for_each_peer (ho : HashOrder) (f : PeerLink → PeerLink) (peers : gmap string PeerLink)
    : gmap string PeerLink :=
  foldl (λ m e, <[e.1 := f e.2]> m) peers (entries ho peers).

Definition noteTopicSubscribed (ho : HashOrder) (topic : string)
    (st : Interest * gmap string PeerLink) : Interest * gmap string PeerLink :=
  let '(i, ms) := topicSubscribed topic st.1 in (i, for_each_peer ho (tell ms) st.2).

Definition noteTopicUnsubscribed (ho : HashOrder) (topic : string)
    (st : Interest * gmap string PeerLink) : Interest * gmap string PeerLink :=
  let '(i, ms) := topicUnsubscribed topic st.1 in (i, for_each_peer ho (tell ms) st.2).

(** [noteMeshInterestChange]; [wantedNow] is asked of the registry [reg]. *)
Definition noteMeshInterestChange (ho : HashOrder) (reg : SubscriptionRegistry) (topic : string)
    (wantedBefore : bool) (st : Interest * gmap string PeerLink) : Interest * gmap string PeerLink :=
  let wantedNow := hasMeshSubscriber topic reg in
  if decide (wantedNow = wantedBefore) then st
  else if wantedNow then noteTopicSubscribed ho topic st
  else noteTopicUnsubscribed ho topic st.

Definition sendInterestTo (i : Interest) (linkId : string) (w : W) : W :=
  write_controls (link_control linkId <$> interestMessages i) w.
End links.

Arguments PeerLink W : clear implicits.

(** ** What the remote holds *)

(** A link's subscriptions on the remote after its control messages. *)
Definition remote_apply (topics : gset string) (m : Envelope) : gset string :=
  let key := handler_key (env_header m) in
  let t := topic (env_header m) in
  if decide (key = Keys.SUBSCRIBE) then {[t]} ∪ topics
  else if decide (key = Keys.UNSUBSCRIBE) then topics ∖ {[t]}
  else if decide (key = Keys.DISCONNECT) then ∅
  else topics.

Definition remote_topics (ms : list Envelope) : gset string := foldl remote_apply ∅ ms.

(** The remote's view of a link against this broker's interest. *)
Definition mirrors (i : Interest) (topics : gset string) : Prop :=
  if m_interestSaturated i then Keys.WILDCARD_TOPIC ∈ topics
  else if m_interestWildcard i then
    Keys.WILDCARD_TOPIC ∈ topics ∧ topics ⊆ {[Keys.WILDCARD_TOPIC]} ∪ m_interest i
  else topics = m_interest i.

(** The interest against what is wanted from the mesh ([want], in the broker the
    registry's [hasMeshSubscriber]): until it saturates, exactly the propagatable
    topics wanted; and the cap. *)
Record interest_tracks (i : Interest) (want : string → bool) : Prop := {
  tracks_topics : m_interestSaturated i = false →
    ∀ t, t ∈ m_interest i ↔ isPropagatableTopic t = true ∧ want t = true;
  tracks_propagatable : ∀ t, t ∈ m_interest i → isPropagatableTopic t = true;
  tracks_wildcard : m_interestWildcard i = want Keys.WILDCARD_TOPIC;
  tracks_bounded : size (m_interest i) ≤
    (if m_interestSaturated i then S MaxInterestTopics else MaxInterestTopics)
}.

(** ** Lemmas *)

Lemma elem_of_set_elements s t : t ∈ set_elements s ↔ t ∈ s.
Proof. unfold set_elements. by rewrite merge_sort_Permutation, elem_of_elements. Qed.

Lemma propagatable_not_wildcard t : isPropagatableTopic t = true → t ≠ Keys.WILDCARD_TOPIC.
Proof. unfold isPropagatableTopic. rewrite !andb_true_iff, !bool_decide_eq_true. tauto. Qed.

Lemma propagatable_not_reserved t : isPropagatableTopic t = true → Keys.isReservedKey t = false.
Proof. unfold isPropagatableTopic. rewrite !andb_true_iff, negb_true_iff. tauto. Qed.

Lemma tracks_ext i want want' :
  (∀ t, want t = want' t) → interest_tracks i want → interest_tracks i want'.
Proof.
  intros E [H1 H2 H3 H4]. split; [|done|by rewrite <-E|done].
  intros Hs t. rewrite <-E. by apply H1.
Qed.

Lemma initial_tracks : interest_tracks initial_interest (λ _, false).
Proof. split; [set_solver|set_solver|done|]. cbn. rewrite size_empty. lia. Qed.

(** *** The interest follows the registry *)

Definition update (want : string → bool) (t : string) (b : bool) : string → bool :=
  λ t', if decide (t' = t) then b else want t'.

Lemma topicSubscribed_tracks t i want :
  interest_tracks i want → want t = false →
  interest_tracks (topicSubscribed t i).1 (update want t true).
Proof.
  intros Htr Hw. unfold topicSubscribed, update.
  destruct (decide (t = Keys.WILDCARD_TOPIC)) as [->|Hne].
  { rewrite (tracks_wildcard _ _ Htr), Hw. split; simpl.
    - intros Hs t. rewrite (tracks_topics _ _ Htr Hs). case_dec; [|done]. subst.
      split; intros [Hp _]; by apply propagatable_not_wildcard in Hp.
    - apply (tracks_propagatable _ _ Htr).
    - done.
    - apply Htr. }
  destruct (isPropagatableTopic t) eqn:Hp; simpl.
  2: { split; [|apply (tracks_propagatable _ _ Htr)|rewrite decide_False by done; apply Htr|apply Htr].
       intros Hs t'. rewrite (tracks_topics _ _ Htr Hs). case_dec; [|done]. subst.
       rewrite Hp. split; by intros [? _]. }
  destruct (m_interestSaturated i) eqn:Hs; simpl.
  { split; [congruence|apply (tracks_propagatable _ _ Htr)|rewrite decide_False by done; apply Htr|].
    pose proof (tracks_bounded _ _ Htr) as Hb. by rewrite Hs in *. }
  assert (t ∉ m_interest i) as Hni.
  { intros [_ ?]%(tracks_topics _ _ Htr Hs). congruence. }
  rewrite bool_decide_false by done. simpl. split; simpl.
  - intros _ t'. rewrite elem_of_union, elem_of_singleton, (tracks_topics _ _ Htr Hs).
    case_dec as E; [subst; tauto|tauto].
  - intros t' [->%elem_of_singleton|Ht']%elem_of_union; [done|]. by apply (tracks_propagatable _ _ Htr).
  - rewrite decide_False by done. apply Htr.
  - pose proof (tracks_bounded _ _ Htr) as Hb. rewrite Hs in Hb.
    assert (size ({[t]} ∪ m_interest i) = S (size (m_interest i))) as E.
    { rewrite size_union by set_solver. by rewrite size_singleton. }
    rewrite E. case_bool_decide; lia.
Qed.

Lemma topicUnsubscribed_tracks t i want :
  interest_tracks i want → want t = true →
  interest_tracks (topicUnsubscribed t i).1 (update want t false).
Proof.
  intros Htr Hw. unfold topicUnsubscribed, update.
  destruct (decide (t = Keys.WILDCARD_TOPIC)) as [->|Hne].
  { rewrite (tracks_wildcard _ _ Htr), Hw. simpl.
    assert (interest_tracks (mkInterest (m_interest i) (m_interestSaturated i) false)
      (λ t', if decide (t' = Keys.WILDCARD_TOPIC) then false else want t')) as H.
    { split; simpl; [|apply (tracks_propagatable _ _ Htr)|done|apply Htr].
      intros Hs t. rewrite (tracks_topics _ _ Htr Hs). case_dec; [|done]. subst.
      split; intros [Hp _]; by apply propagatable_not_wildcard in Hp. }
    by destruct (m_interestSaturated i). }
  destruct (isPropagatableTopic t) eqn:Hp; simpl.
  2: { split; [|apply (tracks_propagatable _ _ Htr)|rewrite decide_False by done; apply Htr|apply Htr].
       intros Hs t'. rewrite (tracks_topics _ _ Htr Hs). case_dec; [|done]. subst.
       rewrite Hp. split; by intros [? _]. }
  destruct (m_interestSaturated i) eqn:Hs; simpl.
  { split; [congruence|apply (tracks_propagatable _ _ Htr)|rewrite decide_False by done; apply Htr|].
    pose proof (tracks_bounded _ _ Htr) as Hb. by rewrite Hs in *. }
  assert (t ∈ m_interest i) as Hin by (by apply (tracks_topics _ _ Htr Hs)).
  rewrite bool_decide_false by tauto. simpl. split; simpl.
  - intros _ t'. rewrite elem_of_difference, elem_of_singleton, (tracks_topics _ _ Htr Hs).
    case_dec as E; [subst; intuition done|tauto].
  - intros t' [Ht' _]%elem_of_difference. by apply (tracks_propagatable _ _ Htr).
  - rewrite decide_False by done. apply Htr.
  - pose proof (tracks_bounded _ _ Htr) as Hb. rewrite Hs in *.
    etrans; [|exact Hb]. apply subseteq_size. set_solver.
Qed.

(** *** The remote follows the interest *)

Definition lc_apply (topics : gset string) (m : LinkControl) : gset string :=
  if decide (m.1 = Keys.SUBSCRIBE) then {[m.2]} ∪ topics
  else if decide (m.1 = Keys.UNSUBSCRIBE) then topics ∖ {[m.2]}
  else if decide (m.1 = Keys.DISCONNECT) then ∅
  else topics.

Lemma lc_apply_sub R t : lc_apply R (sub t) = {[t]} ∪ R.
Proof. done. Qed.

Lemma lc_apply_unsub R t : lc_apply R (unsub t) = R ∖ {[t]}.
Proof. done. Qed.

Lemma lc_apply_subs R ts : foldl lc_apply R (sub <$> ts) = R ∪ list_to_set ts.
Proof.
  revert R; induction ts as [|t ts IH]; intros R; [set_solver|]. cbn [fmap list_fmap foldl].
  rewrite IH, lc_apply_sub. set_solver.
Qed.

Lemma set_elements_set s : list_to_set (set_elements s) = s.
Proof. apply set_eq. intros t. by rewrite elem_of_list_to_set, elem_of_set_elements. Qed.

Lemma no_wildcard i want :
  interest_tracks i want → Keys.WILDCARD_TOPIC ∉ m_interest i.
Proof. by intros Htr ?%(tracks_propagatable _ _ Htr)%propagatable_not_wildcard. Qed.

Lemma topicSubscribed_mirrors t i want R :
  interest_tracks i want → mirrors i R →
  mirrors (topicSubscribed t i).1 (foldl lc_apply R (topicSubscribed t i).2).
Proof.
  intros Htr. unfold topicSubscribed, mirrors.
  destruct (decide (t = Keys.WILDCARD_TOPIC)) as [->|Hne].
  { destruct (m_interestWildcard i) eqn:Hw; [by simpl; rewrite ?Hw|]. simpl. rewrite lc_apply_sub.
    destruct (m_interestSaturated i); set_solver. }
  destruct (isPropagatableTopic t) eqn:Hp; simpl; [|done].
  destruct (m_interestSaturated i) eqn:Hs; simpl; [by rewrite ?Hs|].
  case_bool_decide; simpl; [by rewrite ?Hs|].
  case_bool_decide; simpl; rewrite lc_apply_sub; [set_solver|].
  destruct (m_interestWildcard i); set_solver.
Qed.

Lemma topicUnsubscribed_mirrors t i want R :
  interest_tracks i want → mirrors i R →
  mirrors (topicUnsubscribed t i).1 (foldl lc_apply R (topicUnsubscribed t i).2).
Proof.
  intros Htr. pose proof (no_wildcard _ _ Htr) as Hnw. unfold topicUnsubscribed, mirrors.
  destruct (decide (t = Keys.WILDCARD_TOPIC)) as [->|Hne].
  { destruct (m_interestWildcard i) eqn:Hw; simpl; [|by rewrite ?Hw].
    destruct (m_interestSaturated i) eqn:Hs; simpl; [done|].
    rewrite lc_apply_unsub, lc_apply_subs, set_elements_set. intros [? ?]. set_solver. }
  destruct (isPropagatableTopic t) eqn:Hp; simpl; [|done].
  destruct (m_interestSaturated i) eqn:Hs; simpl; [by rewrite ?Hs|].
  case_bool_decide; simpl; [by rewrite ?Hs|]. rewrite ?Hs, lc_apply_unsub.
  destruct (m_interestWildcard i); set_solver.
Qed.

(** Sending the interest in full brings a link that holds nothing up to date, and
    leaves one that is up to date so. *)
Lemma interestMessages_mirrors i R :
  (R = ∅ ∨ mirrors i R) → mirrors i (foldl lc_apply R (interestMessages i)).
Proof.
  unfold interestMessages, mirrors.
  destruct (m_interestSaturated i), (m_interestWildcard i); simpl; rewrite ?lc_apply_sub;
    [set_solver..|]. rewrite lc_apply_subs, set_elements_set. set_solver.
Qed.

(** A link the remote mirrors gets everything wanted, exact topics and wildcards. *)
Lemma mirrors_covers i want R t :
  interest_tracks i want → mirrors i R →
  isPropagatableTopic t = true → want t = true ∨ want Keys.WILDCARD_TOPIC = true →
  t ∈ R ∨ Keys.WILDCARD_TOPIC ∈ R.
Proof.
  unfold mirrors. intros Htr Hm Hp Hw. destruct (m_interestSaturated i) eqn:Hs; [by right|].
  destruct (m_interestWildcard i) eqn:Hwild; [right; tauto|]. subst R.
  destruct Hw as [Hw|Hw]; [|rewrite <-(tracks_wildcard _ _ Htr) in Hw; congruence].
  left. by apply (tracks_topics _ _ Htr Hs).
Qed.

(** ... and no more, until the interest saturates or somebody here holds ["*"]. *)
Lemma mirrors_exact i want R t :
  interest_tracks i want → mirrors i R → m_interestSaturated i = false →
  want Keys.WILDCARD_TOPIC = false →
  t ∈ R → isPropagatableTopic t = true ∧ want t = true.
Proof.
  unfold mirrors. intros Htr Hm Hs Hw. rewrite Hs, (tracks_wildcard _ _ Htr), Hw in Hm. subst R.
  by apply (tracks_topics _ _ Htr Hs).
Qed.

(** *** Links *)

Section link_lemmas.
Context {W : Type} `{!WorkerInterface W}.

Lemma for_each_peer_fmap ho (f : PeerLink W → PeerLink W) peers :
  for_each_peer ho f peers = f <$> peers.
Proof.
  unfold for_each_peer.
  assert (∀ (es : list (string * PeerLink W)) (m : gmap string (PeerLink W)), NoDup es.*1 →
    ∀ k, foldl (λ m e, <[e.1 := f e.2]> m) m es !! k =
      match list_find (λ e, e.1 = k) es with Some (_, e) => Some (f e.2) | None => m !! k end) as H.
  { induction es as [|[k0 l0] es IH]; intros m Hnd k; [done|]. simpl.
    apply NoDup_cons in Hnd as [Hk0 Hnd]. rewrite IH by done. case_dec.
    - simpl in *. subst k0. assert (list_find (λ e, e.1 = k) es = None) as ->.
      { apply list_find_None, Forall_forall. intros e He E. apply Hk0. rewrite <-E.
        by apply list_elem_of_fmap_2. }
      by rewrite lookup_insert_eq.
    - simpl. destruct (list_find (λ e, e.1 = k) es) as [[]|]; [done|]. simpl in *.
      by rewrite lookup_insert_ne. }
  apply map_eq. intros k. rewrite H by apply NoDup_entries. rewrite lookup_fmap.
  destruct (list_find _ _) as [[j [k' l]]|] eqn:E.
  - apply list_find_Some in E as (Hl & Hk & _). simpl in *. subst k'.
    apply list_elem_of_lookup_2, elem_of_entries in Hl. by rewrite Hl.
  - destruct (peers !! k) as [l|] eqn:El; [|done]. apply list_find_None in E.
    rewrite Forall_forall in E. apply (elem_of_entries ho) in El. by destruct (E _ El).
Qed.

Lemma remote_link_control linkId R m : remote_apply R (link_control linkId m) = lc_apply R m.
Proof. by destruct m. Qed.

Lemma remote_foldl linkId R ms :
  foldl remote_apply R (link_control linkId <$> ms) = foldl lc_apply R ms.
Proof.
  revert R; induction ms as [|m ms IH]; intros R; [done|]. cbn [fmap list_fmap foldl].
  by rewrite remote_link_control, IH.
Qed.

Context `{!WorkerLaws W}.

(** What the remote holds after a link is told [ms], if the worker took all of it. *)
Lemma tell_remote ms link :
  control_refused (pl_worker (tell ms link)) = 0 →
  remote_topics (control_written (pl_worker (tell ms link))) =
  foldl lc_apply (remote_topics (control_written (pl_worker link))) ms.
Proof.
  unfold tell. simpl. intros Hr. rewrite write_controls_written by done.
  unfold remote_topics. by rewrite foldl_app, remote_foldl.
Qed.

Lemma tell_refused ms link :
  control_refused (pl_worker (tell ms link)) = 0 → control_refused (pl_worker link) = 0.
Proof.
  unfold tell. simpl. pose proof (write_controls_refused (link_control (pl_linkId link) <$> ms) (pl_worker link)).
  lia.
Qed.

(** Every link that refused no control message is mirrored by its remote. *)
Definition links_mirror (i : Interest) (peers : gmap string (PeerLink W)) : Prop :=
  ∀ k link, peers !! k = Some link → control_refused (pl_worker link) = 0 →
    mirrors i (remote_topics (control_written (pl_worker link))).

Lemma links_mirror_tell ho i i' ms peers :
  (∀ R, mirrors i R → mirrors i' (foldl lc_apply R ms)) →
  links_mirror i peers → links_mirror i' (for_each_peer ho (tell ms) peers).
Proof.
  intros Hstep Hl k link. rewrite for_each_peer_fmap, lookup_fmap.
  destruct (peers !! k) as [l|] eqn:E; [|done]. intros [= <-] Hr.
  rewrite tell_remote by done. apply Hstep, (Hl k l E). by apply tell_refused in Hr.
Qed.

(** A change of what is wanted of one topic, carried to interest and links. *)
Lemma noteMeshInterestChange_ok ho reg t want st :
  interest_tracks st.1 want → links_mirror st.1 st.2 →
  let st' := noteMeshInterestChange ho reg t (want t) st in
  interest_tracks st'.1 (update want t (hasMeshSubscriber t reg)) ∧ links_mirror st'.1 st'.2.
Proof.
  intros Htr Hl. unfold noteMeshInterestChange. case_dec as E.
  - split; [|done]. eapply tracks_ext; [|exact Htr]. intros t'. unfold update. case_dec; congruence.
  - destruct (hasMeshSubscriber t reg) eqn:Hm.
    + assert (want t = false) as Hw by (destruct (want t); congruence).
      unfold noteTopicSubscribed. pose proof (topicSubscribed_tracks t _ _ Htr Hw) as H1.
      pose proof (λ R, topicSubscribed_mirrors t _ _ R Htr) as H2.
      destruct (topicSubscribed t st.1) as [i' ms]. split; [done|]. simpl in *.
      by eapply links_mirror_tell.
    + assert (want t = true) as Hw by (destruct (want t); congruence).
      unfold noteTopicUnsubscribed. pose proof (topicUnsubscribed_tracks t _ _ Htr Hw) as H1.
      pose proof (λ R, topicUnsubscribed_mirrors t _ _ R Htr) as H2.
      destruct (topicUnsubscribed t st.1) as [i' ms]. split; [done|]. simpl in *.
      by eapply links_mirror_tell.
Qed.

Lemma sendInterestTo_ok i linkId w :
  control_refused (sendInterestTo i linkId w) = 0 →
  (remote_topics (control_written w) = ∅ ∨ mirrors i (remote_topics (control_written w))) →
  mirrors i (remote_topics (control_written (sendInterestTo i linkId w))).
Proof.
  unfold sendInterestTo. intros Hr HR. rewrite write_controls_written by done.
  unfold remote_topics in *. rewrite foldl_app, remote_foldl. by apply interestMessages_mirrors.
Qed.
End link_lemmas.
