(* ===== verification/Broker.v ===== *)
(** * The broker

    Models [server/broker.h] and [server/broker.cpp]: the state the broker thread
    owns, [processMessage] and everything under it (sessions, subscriptions, delivery,
    flooding), peer links, the zombie sweep, the stats broadcast and the passes of the
    run loop.

    The ROUTER and inspector sockets, the protobuf runtime and the peer workers are
    the interfaces of [Wire] and [Worker]; an [Env] is what one handler takes from
    outside (the clock, the random words of a fresh uuid, the iteration order of the
    hash maps).  Logging is left out: it changes no other state.  A result [None] of
    [processMessage] would be the dedup probe not ending; the invariant excludes it. *)

From Stdlib Require Import ZArith Lia.
From S2P Require Import Prelude.
From S2P Require Import MessageKeys.
From S2P Require Import Config.
From S2P Require Import Logger.
From S2P Require Import SafeQueue.
From S2P Require Import Wire.
From S2P Require Import Beacon.
From S2P Require Import Discovery.
From S2P Require Import Registry.
From S2P Require Import Dedup.
From S2P Require Import Uuid.
From S2P Require Import Worker.
From S2P Require Import Interest.

(** ** Helpers of broker.cpp *)

(** [Detail::peerLinkId]. *)
Definition peerLinkId (brokerId key : string) : string :=
  let hash := fnv fnv_prime fnv_offset key in
  let suffix := string_of_list
    ((λ i, hexChar (Z.land (Z.shiftr hash (60 - Z.of_nat i * 4)) 0xf)) <$> seq 0 8) in
  "BrokerLink-" +:+ str_take 8 brokerId +:+ "-" +:+ suffix.

Definition parseTcpPort_one (addr : string) : option Z :=
  if negb (starts_with "tcp://" addr) then None
  else match rfind_char (chr 58) addr with
       | None => None
       | Some colon => parsePort (str_drop (colon + 1) addr) false
       end.

(** The port of the first address that has one, 0 when none does. *)
Fixpoint parseTcpPort (addresses : list string) : Z :=
  match addresses with
  | [] => 0
  | addr :: rest =>
      match parseTcpPort_one addr with
      | Some port => port
      | None => parseTcpPort rest
      end
  end.

Record ClientState := mkClient { lastSeen : Z; droppedMessages : Z }.

(** [uint64_t] increment and addition. *)
Definition inc64 (z : Z) : Z := wrap 64 (z + 1).
Definition add64 (z n : Z) : Z := wrap 64 (z + n).

Definition MaxMessagesPerWake : nat := Z.to_nat 1000.
Definition MaxRemovalsPerSweep : nat := 16.
Definition MaxListedSubscriptions : nat := 64.

(** What a handler takes from outside. *)
Record Env := mkEnv { env_now : Z; env_order : HashOrder; env_word1 : Z; env_word2 : Z }.

Section broker.
Context {S : Type} `{!ZmqSender S} {W : Type} `{!WorkerInterface W} {PB : ProtobufRuntime}.

(** ** State

    [m_retired] collects the workers of links taken down: the C++ object is destroyed
    once stopped. [m_socket] and [m_tap] are the ROUTER and inspector sockets that
    [run] owns and passes down. *)

Record Broker := mkBroker {
  m_brokerId : string;
  m_clientTimeout : Z;
  m_clients : gmap string ClientState;
  m_subscriptions : SubscriptionRegistry;
  m_interestState : Interest;
  m_peers : gmap string (PeerLink W);
  m_retired : list W;
  m_peerInboundQueue : SafeQueue Envelope;
  m_discovery : option BrokerDiscovery;
  m_discoveryEnabled : bool;
  m_clusterName : string;
  m_discoveryPort : Z;
  m_inspectorTcpPort : Z;
  m_inspectorEndpoint : string;
  m_seen : DedupState;
  m_startTime : Z;
  m_lastStatsTime : Z;
  m_totalMessages : Z;
  m_totalDropped : Z;
  m_rejectedSubscriptions : Z;
  m_msgsInterval : Z;
  m_bytesInterval : Z;
  m_socket : S;
  m_tap : S
}.

Definition with_clients (v0 : gmap string ClientState) (b : Broker) : Broker :=
  mkBroker (m_brokerId b) (m_clientTimeout b) v0 (m_subscriptions b) (m_interestState b)
    (m_peers b) (m_retired b) (m_peerInboundQueue b) (m_discovery b) (m_discoveryEnabled b)
    (m_clusterName b) (m_discoveryPort b) (m_inspectorTcpPort b) (m_inspectorEndpoint b)
    (m_seen b) (m_startTime b) (m_lastStatsTime b) (m_totalMessages b) (m_totalDropped b)
    (m_rejectedSubscriptions b) (m_msgsInterval b) (m_bytesInterval b) (m_socket b) (m_tap b).

Definition with_subscriptions (v0 : SubscriptionRegistry) (b : Broker) : Broker :=
  mkBroker (m_brokerId b) (m_clientTimeout b) (m_clients b) v0 (m_interestState b) (m_peers b)
    (m_retired b) (m_peerInboundQueue b) (m_discovery b) (m_discoveryEnabled b) (m_clusterName b)
    (m_discoveryPort b) (m_inspectorTcpPort b) (m_inspectorEndpoint b) (m_seen b) (m_startTime b)
    (m_lastStatsTime b) (m_totalMessages b) (m_totalDropped b) (m_rejectedSubscriptions b)
    (m_msgsInterval b) (m_bytesInterval b) (m_socket b) (m_tap b).

Definition with_interest (v0 : Interest) (v1 : gmap string (PeerLink W)) (b : Broker) : Broker :=
  mkBroker (m_brokerId b) (m_clientTimeout b) (m_clients b) (m_subscriptions b) v0 v1
    (m_retired b) (m_peerInboundQueue b) (m_discovery b) (m_discoveryEnabled b) (m_clusterName b)
    (m_discoveryPort b) (m_inspectorTcpPort b) (m_inspectorEndpoint b) (m_seen b) (m_startTime b)
    (m_lastStatsTime b) (m_totalMessages b) (m_totalDropped b) (m_rejectedSubscriptions b)
    (m_msgsInterval b) (m_bytesInterval b) (m_socket b) (m_tap b).

Definition with_peers (v0 : gmap string (PeerLink W)) (b : Broker) : Broker :=
  mkBroker (m_brokerId b) (m_clientTimeout b) (m_clients b) (m_subscriptions b)
    (m_interestState b) v0 (m_retired b) (m_peerInboundQueue b) (m_discovery b)
    (m_discoveryEnabled b) (m_clusterName b) (m_discoveryPort b) (m_inspectorTcpPort b)
    (m_inspectorEndpoint b) (m_seen b) (m_startTime b) (m_lastStatsTime b) (m_totalMessages b)
    (m_totalDropped b) (m_rejectedSubscriptions b) (m_msgsInterval b) (m_bytesInterval b)
    (m_socket b) (m_tap b).

Definition with_retired (v0 : list W) (b : Broker) : Broker :=
  mkBroker (m_brokerId b) (m_clientTimeout b) (m_clients b) (m_subscriptions b)
    (m_interestState b) (m_peers b) v0 (m_peerInboundQueue b) (m_discovery b)
    (m_discoveryEnabled b) (m_clusterName b) (m_discoveryPort b) (m_inspectorTcpPort b)
    (m_inspectorEndpoint b) (m_seen b) (m_startTime b) (m_lastStatsTime b) (m_totalMessages b)
    (m_totalDropped b) (m_rejectedSubscriptions b) (m_msgsInterval b) (m_bytesInterval b)
    (m_socket b) (m_tap b).

Definition with_inbound (v0 : SafeQueue Envelope) (b : Broker) : Broker :=
  mkBroker (m_brokerId b) (m_clientTimeout b) (m_clients b) (m_subscriptions b)
    (m_interestState b) (m_peers b) (m_retired b) v0 (m_discovery b) (m_discoveryEnabled b)
    (m_clusterName b) (m_discoveryPort b) (m_inspectorTcpPort b) (m_inspectorEndpoint b)
    (m_seen b) (m_startTime b) (m_lastStatsTime b) (m_totalMessages b) (m_totalDropped b)
    (m_rejectedSubscriptions b) (m_msgsInterval b) (m_bytesInterval b) (m_socket b) (m_tap b).

Definition with_discovery (v0 : option BrokerDiscovery) (b : Broker) : Broker :=
  mkBroker (m_brokerId b) (m_clientTimeout b) (m_clients b) (m_subscriptions b)
    (m_interestState b) (m_peers b) (m_retired b) (m_peerInboundQueue b) v0 (m_discoveryEnabled b)
    (m_clusterName b) (m_discoveryPort b) (m_inspectorTcpPort b) (m_inspectorEndpoint b)
    (m_seen b) (m_startTime b) (m_lastStatsTime b) (m_totalMessages b) (m_totalDropped b)
    (m_rejectedSubscriptions b) (m_msgsInterval b) (m_bytesInterval b) (m_socket b) (m_tap b).

Definition with_clusterName (v0 : string) (b : Broker) : Broker :=
  mkBroker (m_brokerId b) (m_clientTimeout b) (m_clients b) (m_subscriptions b)
    (m_interestState b) (m_peers b) (m_retired b) (m_peerInboundQueue b) (m_discovery b)
    (m_discoveryEnabled b) v0 (m_discoveryPort b) (m_inspectorTcpPort b) (m_inspectorEndpoint b)
    (m_seen b) (m_startTime b) (m_lastStatsTime b) (m_totalMessages b) (m_totalDropped b)
    (m_rejectedSubscriptions b) (m_msgsInterval b) (m_bytesInterval b) (m_socket b) (m_tap b).

Definition with_seen (v0 : DedupState) (b : Broker) : Broker :=
  mkBroker (m_brokerId b) (m_clientTimeout b) (m_clients b) (m_subscriptions b)
    (m_interestState b) (m_peers b) (m_retired b) (m_peerInboundQueue b) (m_discovery b)
    (m_discoveryEnabled b) (m_clusterName b) (m_discoveryPort b) (m_inspectorTcpPort b)
    (m_inspectorEndpoint b) v0 (m_startTime b) (m_lastStatsTime b) (m_totalMessages b)
    (m_totalDropped b) (m_rejectedSubscriptions b) (m_msgsInterval b) (m_bytesInterval b)
    (m_socket b) (m_tap b).

Definition with_totalDropped (v0 : Z) (b : Broker) : Broker :=
  mkBroker (m_brokerId b) (m_clientTimeout b) (m_clients b) (m_subscriptions b)
    (m_interestState b) (m_peers b) (m_retired b) (m_peerInboundQueue b) (m_discovery b)
    (m_discoveryEnabled b) (m_clusterName b) (m_discoveryPort b) (m_inspectorTcpPort b)
    (m_inspectorEndpoint b) (m_seen b) (m_startTime b) (m_lastStatsTime b) (m_totalMessages b) v0
    (m_rejectedSubscriptions b) (m_msgsInterval b) (m_bytesInterval b) (m_socket b) (m_tap b).

Definition with_rejected (v0 : Z) (b : Broker) : Broker :=
  mkBroker (m_brokerId b) (m_clientTimeout b) (m_clients b) (m_subscriptions b)
    (m_interestState b) (m_peers b) (m_retired b) (m_peerInboundQueue b) (m_discovery b)
    (m_discoveryEnabled b) (m_clusterName b) (m_discoveryPort b) (m_inspectorTcpPort b)
    (m_inspectorEndpoint b) (m_seen b) (m_startTime b) (m_lastStatsTime b) (m_totalMessages b)
    (m_totalDropped b) v0 (m_msgsInterval b) (m_bytesInterval b) (m_socket b) (m_tap b).

Definition with_received (v0 : Z) (v1 : Z) (v2 : Z) (b : Broker) : Broker :=
  mkBroker (m_brokerId b) (m_clientTimeout b) (m_clients b) (m_subscriptions b)
    (m_interestState b) (m_peers b) (m_retired b) (m_peerInboundQueue b) (m_discovery b)
    (m_discoveryEnabled b) (m_clusterName b) (m_discoveryPort b) (m_inspectorTcpPort b)
    (m_inspectorEndpoint b) (m_seen b) (m_startTime b) (m_lastStatsTime b) v0 (m_totalDropped b)
    (m_rejectedSubscriptions b) v1 v2 (m_socket b) (m_tap b).

Definition with_times (v0 : Z) (v1 : Z) (b : Broker) : Broker :=
  mkBroker (m_brokerId b) (m_clientTimeout b) (m_clients b) (m_subscriptions b)
    (m_interestState b) (m_peers b) (m_retired b) (m_peerInboundQueue b) (m_discovery b)
    (m_discoveryEnabled b) (m_clusterName b) (m_discoveryPort b) (m_inspectorTcpPort b)
    (m_inspectorEndpoint b) (m_seen b) v0 v1 (m_totalMessages b) (m_totalDropped b)
    (m_rejectedSubscriptions b) (m_msgsInterval b) (m_bytesInterval b) (m_socket b) (m_tap b).

Definition with_discovery_config (v0 : bool) (v1 : string) (v2 : Z) (b : Broker) : Broker :=
  mkBroker (m_brokerId b) (m_clientTimeout b) (m_clients b) (m_subscriptions b)
    (m_interestState b) (m_peers b) (m_retired b) (m_peerInboundQueue b) (m_discovery b) v0 v1 v2
    (m_inspectorTcpPort b) (m_inspectorEndpoint b) (m_seen b) (m_startTime b) (m_lastStatsTime b)
    (m_totalMessages b) (m_totalDropped b) (m_rejectedSubscriptions b) (m_msgsInterval b)
    (m_bytesInterval b) (m_socket b) (m_tap b).

Definition with_inspector (v0 : Z) (v1 : string) (b : Broker) : Broker :=
  mkBroker (m_brokerId b) (m_clientTimeout b) (m_clients b) (m_subscriptions b)
    (m_interestState b) (m_peers b) (m_retired b) (m_peerInboundQueue b) (m_discovery b)
    (m_discoveryEnabled b) (m_clusterName b) (m_discoveryPort b) v0 v1 (m_seen b) (m_startTime b)
    (m_lastStatsTime b) (m_totalMessages b) (m_totalDropped b) (m_rejectedSubscriptions b)
    (m_msgsInterval b) (m_bytesInterval b) (m_socket b) (m_tap b).

Definition with_socket (v0 : S) (b : Broker) : Broker :=
  mkBroker (m_brokerId b) (m_clientTimeout b) (m_clients b) (m_subscriptions b)
    (m_interestState b) (m_peers b) (m_retired b) (m_peerInboundQueue b) (m_discovery b)
    (m_discoveryEnabled b) (m_clusterName b) (m_discoveryPort b) (m_inspectorTcpPort b)
    (m_inspectorEndpoint b) (m_seen b) (m_startTime b) (m_lastStatsTime b) (m_totalMessages b)
    (m_totalDropped b) (m_rejectedSubscriptions b) (m_msgsInterval b) (m_bytesInterval b) v0
    (m_tap b).

Definition with_tap (v0 : S) (b : Broker) : Broker :=
  mkBroker (m_brokerId b) (m_clientTimeout b) (m_clients b) (m_subscriptions b)
    (m_interestState b) (m_peers b) (m_retired b) (m_peerInboundQueue b) (m_discovery b)
    (m_discoveryEnabled b) (m_clusterName b) (m_discoveryPort b) (m_inspectorTcpPort b)
    (m_inspectorEndpoint b) (m_seen b) (m_startTime b) (m_lastStatsTime b) (m_totalMessages b)
    (m_totalDropped b) (m_rejectedSubscriptions b) (m_msgsInterval b) (m_bytesInterval b)
    (m_socket b) v0.

(** [Broker::Broker]; the uuid is [generateUUID]'s, the sockets those [run] opens. *)
Definition new_broker (brokerId : string) (clientTimeout : Z) (socket tap : S) : Broker :=
  mkBroker brokerId clientTimeout ∅ empty_registry initial_interest ∅ [] (new_queue DefaultQueueSize)
    None false EmptyString DEFAULT_PORT 0 "ipc:///tmp/broker_inspector.sock" initial_dedup 0 0
    0 0 0 0 0 socket tap.

Definition m_cleanupInterval (b : Broker) : Z := Z.min 2000 (m_clientTimeout b / 2).

(** ** Counters and small helpers *)

Definition noteDroppedTo (clientId : string) (b : Broker) : Broker :=
  let b :=
    match m_clients b !! clientId with
    | Some c => with_clients (<[clientId := mkClient (lastSeen c) (inc64 (droppedMessages c))]> (m_clients b)) b
    | None => b
    end in
  with_totalDropped (inc64 (m_totalDropped b)) b.

Definition notePeerDrop (b : Broker) : Broker := with_totalDropped (inc64 (m_totalDropped b)) b.

Definition noteRejectedSubscription (b : Broker) : Broker :=
  with_rejected (inc64 (m_rejectedSubscriptions b)) b.

Definition canSubscribe (clientId topic : string) (b : Broker) : bool :=
  match subscriptionsOf clientId (m_subscriptions b) with
  | None => true
  | Some topics =>
      bool_decide (is_Some (topics !! topic)) ||
      bool_decide (size topics < MAX_SUBSCRIPTIONS_PER_CLIENT)
  end.

(** [Wire::sendTo(socket, ...)] on the ROUTER. *)
Definition socket_sendTo (identity headerFrame payload : string) (b : Broker) : bool * Broker :=
  let '(ok, s) := sendTo (m_socket b) identity headerFrame payload in (ok, with_socket s b).

(** [Wire::sendFrames(inspectorSocket, ...)]. *)
Definition tap_send (headerFrame payload : string) (b : Broker) : Broker :=
  with_tap (sendFrames (m_tap b) None headerFrame payload).2 b.

(** A message counted as received. *)
Definition count_received (bytes : nat) (b : Broker) : Broker :=
  with_received (inc64 (m_totalMessages b)) (inc64 (m_msgsInterval b))
    (add64 (m_bytesInterval b) (Z.of_nat bytes)) b.

(** ** Interest and clients *)

Definition note_interest (ho : HashOrder) (topic : string) (wantedBefore : bool) (b : Broker) : Broker :=
  let st := noteMeshInterestChange ho (m_subscriptions b) topic wantedBefore
              (m_interestState b, m_peers b) in
  with_interest st.1 st.2 b.

(** The topics of [clientId] somebody wants from the mesh, in key order. *)
Definition meshTopics (clientId : string) (reg : SubscriptionRegistry) : list string :=
  match subscriptionsOf clientId reg with
  | Some held => filter (λ t, hasMeshSubscriber t reg = true) (map_entries held).*1
  | None => []
  end.

Definition removeClient (env : Env) (clientId : string) (b : Broker) : Broker :=
  let topics := meshTopics clientId (m_subscriptions b) in
  let b := with_subscriptions (removeClientSubs clientId (m_subscriptions b)) b in
  let b := with_clients (delete clientId (m_clients b)) b in
  foldl (λ b t, note_interest (env_order env) t true b) b topics.

Definition isInboundLink (clientId : string) : bool := starts_with "BrokerLink-" clientId.

Definition unlinkInboundPeers (env : Env) (b : Broker) : Broker :=
  let inboundLinks := filter (λ c, isInboundLink c = true) (entries (env_order env) (m_clients b)).*1 in
  let unlinkFrame := encodeHeader (makeControlHeader Keys.UNLINK (m_brokerId b) EmptyString) in
  foldl (λ b c, removeClient env c (socket_sendTo c unlinkFrame EmptyString b).2) b inboundLinks.

(** ** Peer links *)

(** [disconnectPeerLink] then [stop]. *)
Definition retire_worker (brokerId : string) (w : W) : W :=
  worker_stop (writeControlMessage (makeControl Keys.DISCONNECT brokerId EmptyString) w).2.

Definition removePeer (key : string) (b : Broker) : Broker :=
  match m_peers b !! key with
  | None => b
  | Some link =>
      let b := with_peers (delete key (m_peers b)) b in
      with_retired (m_retired b ++ [retire_worker (m_brokerId b) (pl_worker link)]) b
  end.

(** The first half of [addPeer]: a worker that has been told the current interest, not
    in [m_peers] yet. *)
Definition addPeer_prepare (key peerAddress : string) (b : Broker) : W :=
  let linkId := peerLinkId (m_brokerId b) key in
  sendInterestTo (m_interestState b) linkId (new_worker (default_config peerAddress linkId)).

(** The second half, under the peers lock. *)
Definition addPeer_commit (env : Env) (key peerAddress : string) (worker : W) (b : Broker) : Broker :=
  if decide (is_Some (m_peers b !! key)) then b
  else if existsb (λ e, bool_decide (pl_address e.2 = peerAddress)) (entries (env_order env) (m_peers b))
  then b
  else with_peers
         (<[key := mkPeerLink peerAddress (peerLinkId (m_brokerId b) key) (worker_start worker) true]>
            (m_peers b)) b.

(** [addPeer]; [opens] is whether the worker could be created and started (an exception
    is caught and the peer skipped). *)
Definition addPeer (env : Env) (opens : bool) (key peerAddress : string) (b : Broker) : Broker :=
  if negb opens then b
  else addPeer_commit env key peerAddress (addPeer_prepare key peerAddress b) b.

Definition connectToPeer (env : Env) (opens : bool) (peerAddress : string) (b : Broker) : Broker :=
  addPeer env opens peerAddress peerAddress b.

Definition disconnectFromPeer (peerAddress : string) (b : Broker) : Broker :=
  removePeer peerAddress b.

(** The message callback [addPeer] installs, run by the worker of the link under
    [key]. *)
Definition peerCallback (key : string) (env_msg : Envelope) (b : Broker) : Broker :=
  match m_peers b !! key with
  | None => b
  | Some link =>
      if decide (handler_key (env_header env_msg) = Keys.UNLINK) then
        with_peers (<[key := mkPeerLink (pl_address link) (pl_linkId link) (pl_worker link) false]>
                      (m_peers b)) b
      else if decide (handler_key (env_header env_msg) = Keys.RESET) then
        with_peers (<[key := with_worker
                        (sendInterestTo (m_interestState b) (pl_linkId link) (pl_worker link)) link]>
                      (m_peers b)) b
      else with_inbound (push_timed env_msg (m_peerInboundQueue b)).2 b
  end.

(** Discovery's callbacks: dial is [addPeer], drop is [removePeer]. *)
Definition discovery_event (env : Env) (opens : bool) (e : DiscoveryEvent) (b : Broker) : Broker :=
  match e with
  | Dial uuid address => addPeer env opens uuid address b
  | Drop uuid => removePeer uuid b
  | Broadcast _ => b
  end.

(** ** Routing *)

(** [deliver] of [deliverToSubscribers]. *)
Definition deliver (headerBytes payload senderId : string) (isFromPeer : bool)
    (b : Broker) (subscriber : Subscriber) : Broker :=
  if negb isFromPeer && bool_decide (sub_clientId subscriber = senderId) then b
  else if negb (scopeAccepts (sub_scope subscriber) (negb isFromPeer)) then b
  else if decide (m_clients b !! sub_clientId subscriber = None) then b
  else
    let '(ok, b) := socket_sendTo (sub_clientId subscriber) headerBytes payload b in
    if (ok : bool) then b else noteDroppedTo (sub_clientId subscriber) b.

(** Whether the exact subscription of a client already took this message. *)
Definition servedExactly (exactSubs : option (list Subscriber)) (isLocal : bool) (clientId : string) : bool :=
  match exactSubs with
  | None => false
  | Some subs =>
      match find_client clientId subs with
      | Some (_, exact) => scopeAccepts (sub_scope exact) isLocal
      | None => false
      end
  end.

Definition deliverToSubscribers (header : MessageHeader) (headerBytes payload senderId : string)
    (isFromPeer : bool) (b : Broker) : Broker :=
  let exactSubs := subscribersOf (topic header) (m_subscriptions b) in
  let wildcardSubs :=
    if decide (topic header = Keys.WILDCARD_TOPIC) then None
    else subscribersOf Keys.WILDCARD_TOPIC (m_subscriptions b) in
  let isLocal := negb isFromPeer in
  let b := foldl (deliver headerBytes payload senderId isFromPeer) b (default [] exactSubs) in
  foldl (λ b s, if servedExactly exactSubs isLocal (sub_clientId s) then b
                else deliver headerBytes payload senderId isFromPeer b s)
    b (default [] wildcardSubs).

(** One pass of the loop of [floodPeers]. *)
Definition flood_one (fwd : WireMessage) (b : Broker) (e : string * PeerLink W) : Broker :=
  if negb (pl_active e.2) then b
  else
    let '(ok, w) := writeEncoded fwd (pl_worker e.2) in
    let b := with_peers (<[e.1 := with_worker w e.2]> (m_peers b)) b in
    if (ok : bool) then b else notePeerDrop b.

Definition floodPeers (env : Env) (headerBytes payload : string) (b : Broker) : Broker :=
  let fwd := makeWireMessage headerBytes payload in
  foldl (flood_one fwd) b (entries (env_order env) (m_peers b)).

(** ** Sessions and control *)

(** The SUBSCRIBE branch of [handleClientMessage]. *)
Definition handleSubscribe (env : Env) (topic payload senderId : string) (b : Broker) : Broker :=
  if decide (topic = EmptyString) then b
  else if decide (MAX_TOPIC_LENGTH_BYTES < String.length topic) then noteRejectedSubscription b
  else if negb (canSubscribe senderId topic b) then noteRejectedSubscription b
  else
    let scope := decodeSubscribeScope payload in
    let wantedFromMesh := hasMeshSubscriber topic (m_subscriptions b) in
    let '(changed, reg) := subscribe senderId topic scope (m_subscriptions b) in
    let b := with_subscriptions reg b in
    if (changed : bool) then note_interest (env_order env) topic wantedFromMesh b else b.

Definition handleUnsubscribe (env : Env) (topic senderId : string) (b : Broker) : Broker :=
  let wantedFromMesh := hasMeshSubscriber topic (m_subscriptions b) in
  let '(changed, reg) := unsubscribe senderId topic (m_subscriptions b) in
  let b := with_subscriptions reg b in
  if (changed : bool) then note_interest (env_order env) topic wantedFromMesh b else b.

(** The SET_CLUSTER branch: the links this broker dialed are dropped by discovery. *)
Definition handleSetCluster (env : Env) (newCluster : string) (b : Broker) : Broker :=
  if negb (isValidClusterName newCluster) then b
  else match m_discovery b with
       | None => b
       | Some _ =>
           if decide (newCluster = m_clusterName b) then b
           else
             let b := with_clusterName newCluster b in
             let b := unlinkInboundPeers env b in
             match m_discovery b with
             | None => b
             | Some d =>
                 let '(evs, d') := setCluster (env_order env) newCluster d in
                 foldl (λ b e, discovery_event env true e b) (with_discovery (Some d') b) evs
             end
       end.

(** [true]: fully handled. *)
Definition handleClientMessage (env : Env) (header : MessageHeader) (payload senderId : string)
    (b : Broker) : bool * Broker :=
  let key := handler_key header in
  if decide (key = Keys.DISCONNECT) then (true, removeClient env senderId b)
  else
    let known := m_clients b !! senderId in
    let b := with_clients
      (<[senderId := mkClient (env_now env) (default 0%Z (droppedMessages <$> known))]> (m_clients b)) b in
    let b :=
      if decide (known = None ∧ key ≠ Keys.CONNECT) then
        (socket_sendTo senderId
           (encodeHeader (makeControlHeader Keys.RESET (m_brokerId b) EmptyString)) EmptyString b).2
      else b in
    if decide (key = Keys.CONNECT) then (true, b)
    else if decide (key = Keys.HEARTBEAT) then
      (true, (socket_sendTo senderId
         (encodeHeader (makeControlHeader Keys.HEARTBEAT_ACK (m_brokerId b) EmptyString)) EmptyString b).2)
    else if decide (key = Keys.SUBSCRIBE) then (true, handleSubscribe env (topic header) payload senderId b)
    else if decide (key = Keys.UNSUBSCRIBE) then (true, handleUnsubscribe env (topic header) senderId b)
    else if decide (key = Keys.SET_CLUSTER) then (true, handleSetCluster env payload b)
    else (false, b).

(** The header with its identity stamped. *)
Definition stamp (env : Env) (brokerId : string) (header : MessageHeader) : MessageHeader :=
  if decide (message_uuid header = EmptyString) then
    mkHeader (handler_key header) (sender_id header) (topic header) brokerId
      (generateBinaryUUID (env_word1 env) (env_word2 env)) (reply_topic header)
  else header.

Definition processMessage (env : Env) (header : MessageHeader) (payload senderId : string)
    (isFromPeer : bool) (b : Broker) : option Broker :=
  let header := stamp env (m_brokerId b) header in
  let headerBytes := encodeHeader header in
  let b := if isFromPeer then count_received (String.length headerBytes + String.length payload) b else b in
  let isReserved := Keys.isReservedKey (handler_key header) in
  '(dup, seen) ← (if isReserved then Some (false, m_seen b) else isDuplicate (message_uuid header) (m_seen b));
  let b := with_seen seen b in
  if (dup : bool) then Some b
  else
    let b := tap_send headerBytes payload b in
    let '(handled, b) := if isFromPeer then (false, b) else handleClientMessage env header payload senderId b in
    if (handled : bool) then Some b
    else if isReserved then Some b
    else
      let b := deliverToSubscribers header headerBytes payload senderId isFromPeer b in
      Some (floodPeers env headerBytes payload b).

(** ** Zombies and stats *)

(** The sweep over the clients in the order it meets them. *)
Fixpoint sweep_loop (env : Env) (now : Z) (es : list (string * ClientState)) (removed : nat)
    (b : Broker) : Broker :=
  match es with
  | [] => b
  | (id, c) :: es =>
      if decide (removed < MaxRemovalsPerSweep) then
        if decide (now - lastSeen c > m_clientTimeout b)%Z
        then sweep_loop env now es (Datatypes.S removed) (removeClient env id b)
        else sweep_loop env now es removed b
      else b
  end.

Definition sweep (env : Env) (now : Z) (b : Broker) : Broker :=
  sweep_loop env now (entries (env_order env) (m_clients b)) 0 b.

(** [broker::ClientInfo] and [broker::SystemStats], the two rates apart. *)
Record ClientInfo := mkClientInfo {
  ci_id : string;
  ci_subscriptions : list string;
  ci_dropped_messages : Z;
  ci_subscription_count : Z
}.

Record SystemStats := mkStats {
  st_broker_id : string;
  st_clients_count : Z;
  st_peers_count : Z;
  st_total_msgs : Z;
  st_uptime_sec : Z;
  st_connected_clients : list ClientInfo;
  st_cluster : string;
  st_total_dropped : Z;
  st_total_rejected_subs : Z
}.

Definition clientInfo (reg : SubscriptionRegistry) (e : string * ClientState) : ClientInfo :=
  match subscriptionsOf e.1 reg with
  | Some topics =>
      mkClientInfo e.1 (take MaxListedSubscriptions (map_entries topics).*1) (droppedMessages e.2)
        (wrap 32 (Z.of_nat (size topics)))
  | None => mkClientInfo e.1 [] (droppedMessages e.2) 0
  end.

Definition systemStats (env : Env) (b : Broker) : SystemStats :=
  mkStats (m_brokerId b) (Z.of_nat (size (m_clients b))) (Z.of_nat (size (m_peers b)))
    (m_totalMessages b) ((env_now env - m_startTime b) / 1000)
    (clientInfo (m_subscriptions b) <$> entries (env_order env) (m_clients b))
    (m_clusterName b) (m_totalDropped b) (m_rejectedSubscriptions b).

(** [pack] is the protobuf runtime's [any.PackFrom(stats)] and [SerializeAsString]; it is
    given the message and what its two rates are computed from: messages and bytes
    since the last broadcast, and the time since then. *)
Definition broadcastStats (pack : SystemStats → Z → Z → Z → string) (env : Env) (b : Broker) : Broker :=
  let stats := systemStats env b in
  let headerBytes := encodeHeader (makeControlHeader Keys.SYS_STATS "BROKER_SYSTEM" Keys.SYS_STATS) in
  let payload := pack stats (m_msgsInterval b) (m_bytesInterval b) (env_now env - m_lastStatsTime b)%Z in
  let b := tap_send headerBytes payload b in
  foldl (λ b s,
      if negb (scopeAccepts (sub_scope s) true) then b
      else
        let '(ok, b) := socket_sendTo (sub_clientId s) headerBytes payload b in
        if (ok : bool) then b else noteDroppedTo (sub_clientId s) b)
    b (default [] (subscribersOf Keys.SYS_STATS (m_subscriptions b))).

(** ** Configuration, start and stop *)

Definition enableDiscovery (clusterName : string) (discoveryPort : Z) (b : Broker) : Broker :=
  if negb (isValidClusterName clusterName) then b
  else with_discovery_config true clusterName discoveryPort b.

Definition enableRemoteInspector (port : Z) (b : Broker) : Broker :=
  with_inspector port (m_inspectorEndpoint b) b.

Definition setInspectorEndpoint (endpoint : string) (b : Broker) : Broker :=
  if decide (endpoint = EmptyString) then b else with_inspector (m_inspectorTcpPort b) endpoint b.

(** [Broker::start] of a broker that is not running. *)
Definition broker_start (now : Z) (bindAddresses : list string) (b : Broker) : Broker :=
  let b := with_inbound (queue_reset (m_peerInboundQueue b)) b in
  let b := with_times now now b in
  if negb (m_discoveryEnabled b) then b
  else
    let routerPort := parseTcpPort bindAddresses in
    if decide (routerPort = 0%Z) then b
    else with_discovery
           (Some (new_discovery (m_clusterName b) (m_brokerId b) routerPort (m_inspectorTcpPort b))) b.

(** [Broker::stop]: every link is told to disconnect, then stopped. *)
Definition broker_stop (env : Env) (b : Broker) : Broker :=
  let b := with_inbound (queue_stop (m_peerInboundQueue b)) b in
  let workers := (λ e, retire_worker (m_brokerId b) (pl_worker e.2)) <$> entries (env_order env) (m_peers b) in
  with_retired (m_retired b ++ workers) (with_peers ∅ b).
End broker.

Arguments Broker S W : clear implicits.

(** ** The run loop *)

Section run_loop.
Context {S : Type} `{!ZmqSender S} {W : Type} `{!WorkerInterface W} {PB : ProtobufRuntime}.
Context {R : Type} `{!ZmqReceiver R}.

(** What one pass of the drain loop takes from the ROUTER. *)
Inductive RouterInput :=
  | NoInput
  | Skipped
  | Malformed
  | Received (identity : string) (header : MessageHeader) (payload : string) (frameBytes : nat).

Definition router_recv (sock : R) : RouterInput * R :=
  match zmq_recv sock with
  | (None, sock) => (NoInput, sock)
  | (Some identity, sock) =>
      if negb (zmq_rcvmore sock) then (Malformed, sock)
      else match zmq_recv sock with
           | (None, sock) => (Skipped, sock)
           | (Some headerFrame, sock) =>
               match decodeHeaderFrame headerFrame with
               | None => (Malformed, drainMultipart (length (sock_rest sock)) sock)
               | Some header =>
                   let '(payload, sock) := recvPayload sock in
                   (Received identity header payload (String.length headerFrame + String.length payload), sock)
               end
           end
  end.

(** [malformedCount] and [malformedThrottle] of [run], and the counts reported. *)
Record MalformedLog := mkMalformed { malformedCount : Z; malformedThrottle : LogThrottle; malformedReports : list Z }.

Definition new_malformed (now : Z) : MalformedLog := mkMalformed 0 (new_throttle 5000 now) [].

Definition noteMalformed (now : Z) (l : MalformedLog) : MalformedLog :=
  let count := inc64 (malformedCount l) in
  let '(fires, throttle) := ready now (malformedThrottle l) in
  if (fires : bool) then mkMalformed 0 throttle (malformedReports l ++ [count])
  else mkMalformed count throttle (malformedReports l).

(** The drain loop: at most [n] messages, the k-th handled under [envs k]. *)
Fixpoint drain_router (n : nat) (envs : nat → Env) (sock : R) (malformed : MalformedLog) (b : Broker S W)
    : option (R * MalformedLog * Broker S W) :=
  match n with
  | O => Some (sock, malformed, b)
  | Datatypes.S n' =>
      let '(input, sock) := router_recv sock in
      match input with
      | NoInput => Some (sock, malformed, b)
      | Skipped => drain_router n' envs sock malformed b
      | Malformed => drain_router n' envs sock (noteMalformed (env_now (envs n')) malformed) b
      | Received identity header payload frameBytes =>
          let b := count_received frameBytes b in
          b ← processMessage (envs n') header payload identity false b;
          drain_router n' envs sock malformed b
      end
  end.

(** The batch taken from [m_peerInboundQueue], each under the next of [envs]. *)
Fixpoint process_peers (envs : nat → Env) (batch : list Envelope) (b : Broker S W) : option (Broker S W) :=
  match batch with
  | [] => Some b
  | m :: batch =>
      b ← processMessage (envs (length batch)) (env_header m) (env_payload m) "PEER" true b;
      process_peers envs batch b
  end.

Record RunState := mkRunState {
  rs_broker : Broker S W;
  rs_router : R;
  rs_lastCleanup : Z;
  rs_malformed : MalformedLog
}.

(** One pass of [while (m_running)] after the poll: [readable] is the ROUTER's
    [ZMQ_POLLIN], [env] the clock and order of the sweep and the stats. *)
Definition broker_iteration (pack : SystemStats → Z → Z → Z → string) (readable : bool)
    (envs peerEnvs : nat → Env) (env : Env) (st : RunState) : option RunState :=
  '(sock, malformed, b) ← (if readable
     then drain_router MaxMessagesPerWake envs (rs_router st) (rs_malformed st) (rs_broker st)
     else Some (rs_router st, rs_malformed st, rs_broker st));
  let '(peerBatch, q) := drainTo (m_peerInboundQueue b) in
  b ← process_peers peerEnvs peerBatch (with_inbound q b);
  let now := env_now env in
  let '(b, lastCleanup) :=
    if decide (now - rs_lastCleanup st > m_cleanupInterval b)%Z then (sweep env now b, now)
    else (b, rs_lastCleanup st) in
  let b :=
    if decide (now - m_lastStatsTime b > 1000)%Z
    then with_received (m_totalMessages b) 0 0 (with_times (m_startTime b) now (broadcastStats pack env b))
    else b in
  Some (mkRunState b sock lastCleanup malformed).
End run_loop.

Arguments RunState S W R : clear implicits.
