(* ===== verification/BrokerInv.v ===== *)
(** * The broker's invariant

    [broker_inv] relates the parts of the broker's state: the registry is consistent,
    the interest set is what the registry wants from the mesh, every peer link's remote
    mirrors the interest, subscriptions belong to connected clients and respect the
    caps, links carry their own identity and distinct addresses, and the dedup windows
    are well formed.  The lemmas show that every operation of the broker keeps it;
    the properties at the end state what follows for any run. *)

From Stdlib Require Import ZArith Lia.
From S2P Require Import Prelude.
From S2P Require Import MessageKeys.
From S2P Require Import Config.
From S2P Require Import SafeQueue.
From S2P Require Import Wire.
From S2P Require Import Beacon.
From S2P Require Import Discovery.
From S2P Require Import Registry.
From S2P Require Import Dedup.
From S2P Require Import Uuid.
From S2P Require Import Worker.
From S2P Require Import Interest.
From S2P Require Import Broker.

(** ** Registry facts the broker needs *)

Lemma clientTopics_subscribe c t s reg :
  m_clientTopics (subscribe c t s reg).2 =
  <[c := <[t := s]> (default ∅ (m_clientTopics reg !! c))]> (m_clientTopics reg).
Proof.
  unfold subscribe. destruct (m_clientTopics reg !! c) as [m|] eqn:E; simpl.
  - destruct (m !! t) as [s'|] eqn:Et; [|done]. case_dec; [|done]. subst s'. simpl.
    rewrite (insert_id m) by done. by rewrite insert_id.
  - by rewrite lookup_empty.
Qed.

Lemma clientTopics_unsubscribe c t reg c' m' :
  m_clientTopics (unsubscribe c t reg).2 !! c' = Some m' →
  ∃ m, m_clientTopics reg !! c' = Some m ∧ m' ⊆ m.
Proof.
  unfold unsubscribe. destruct (m_clientTopics reg !! c) as [m|] eqn:E; [|eauto].
  destruct (m !! t); [|eauto]. simpl. case_dec.
  - rewrite lookup_delete. case_dec; [done|eauto].
  - rewrite lookup_insert. case_dec; [|eauto]. intros [= <-]. subst. exists m.
    split; [done|]. apply delete_subseteq.
Qed.

Lemma clientTopics_remove c reg c' m' :
  m_clientTopics (removeClientSubs c reg) !! c' = Some m' →
  c ≠ c' ∧ m_clientTopics reg !! c' = Some m'.
Proof.
  unfold removeClientSubs. destruct (m_clientTopics reg !! c) as [m|] eqn:E; simpl.
  - rewrite lookup_delete. by case_dec.
  - intros H. split; [|done]. intros ->. congruence.
Qed.

Lemma hasMesh_bool reg reg' t :
  registry_wf reg → registry_wf reg' →
  (∀ c s, scopeAccepts s false = true → held reg c t = Some s ↔ held reg' c t = Some s) →
  hasMeshSubscriber t reg = hasMeshSubscriber t reg'.
Proof.
  intros H H' Hheld. apply eq_bool_prop_intro. rewrite !Is_true_true, !hasMeshSubscriber_spec by done.
  split; intros (c & s & Hs & Ha); exists c, s; (split; [|done]); by apply Hheld.
Qed.

Lemma hasMesh_subscribe_ne c t s reg t' :
  registry_wf reg → t' ≠ t →
  hasMeshSubscriber t' (subscribe c t s reg).2 = hasMeshSubscriber t' reg.
Proof.
  intros Hwf Hne. apply hasMesh_bool; [by apply subscribe_wf|done|].
  intros c' s' _. rewrite held_subscribe, decide_False by naive_solver. done.
Qed.

Lemma hasMesh_unsubscribe_ne c t reg t' :
  registry_wf reg → t' ≠ t →
  hasMeshSubscriber t' (unsubscribe c t reg).2 = hasMeshSubscriber t' reg.
Proof.
  intros Hwf Hne. apply hasMesh_bool; [by apply unsubscribe_wf|done|].
  intros c' s' _. rewrite held_unsubscribe, decide_False by naive_solver. done.
Qed.

(** Removing a client changes nothing for the topics it is not asked about again. *)
Lemma hasMesh_remove c reg t :
  registry_wf reg → t ∉ meshTopics c reg →
  hasMeshSubscriber t (removeClientSubs c reg) = hasMeshSubscriber t reg.
Proof.
  intros Hwf Hni.
  destruct (hasMeshSubscriber t reg) eqn:Hm.
  - apply hasMeshSubscriber_spec; [by apply removeClient_wf|].
    pose proof Hm as Hm'. apply hasMeshSubscriber_spec in Hm as (c' & s & Hh & Ha); [|done].
    exists c', s. split; [|done]. rewrite held_removeClient. case_dec; [|done]. subst c'.
    destruct Hni. unfold meshTopics, subscriptionsOf. unfold held in Hh.
    destruct (m_clientTopics reg !! c) as [m|]; [|done]. simpl in Hh.
    apply list_elem_of_filter. split; [done|]. apply list_elem_of_fmap. exists (t, s).
    split; [done|]. by apply elem_of_map_entries.
  - destruct (hasMeshSubscriber t (removeClientSubs c reg)) eqn:Hm'; [|done].
    apply hasMeshSubscriber_spec in Hm' as (c' & s & Hh & Ha); [|by apply removeClient_wf].
    rewrite held_removeClient in Hh. destruct (decide (c = c')); [done|].
    assert (hasMeshSubscriber t reg = true); [|congruence].
    apply hasMeshSubscriber_spec; eauto.
Qed.

(** The caps on what one client can make the broker keep. *)
Definition registry_caps (reg : SubscriptionRegistry) : Prop :=
  ∀ c m, m_clientTopics reg !! c = Some m →
    size m ≤ MAX_SUBSCRIPTIONS_PER_CLIENT ∧
    ∀ t, is_Some (m !! t) → 0 < String.length t ≤ MAX_TOPIC_LENGTH_BYTES.

Lemma caps_subseteq m m' :
  m' ⊆ m →
  (size m ≤ MAX_SUBSCRIPTIONS_PER_CLIENT ∧
   ∀ t, is_Some (m !! t) → 0 < String.length t ≤ MAX_TOPIC_LENGTH_BYTES) →
  size (m' : gmap string Origin) ≤ MAX_SUBSCRIPTIONS_PER_CLIENT ∧
  ∀ t, is_Some (m' !! t) → 0 < String.length t ≤ MAX_TOPIC_LENGTH_BYTES.
Proof.
  intros Hsub [Hs Ht]. split.
  - etrans; [|exact Hs]. by apply map_subseteq_size.
  - intros t [x Hx]. apply Ht. exists x. by eapply lookup_weaken.
Qed.

Lemma max_subs_pos : 0 < MAX_SUBSCRIPTIONS_PER_CLIENT.
Proof. unfold MAX_SUBSCRIPTIONS_PER_CLIENT. lia. Qed.

Lemma map_size_insert_le {A} (m : gmap string A) k v : size (<[k := v]> m) ≤ S (size m).
Proof.
  destruct (m !! k) as [x|] eqn:E.
  - rewrite map_size_insert_Some; eauto.
  - by rewrite map_size_insert_None.
Qed.

#[local] Opaque MAX_SUBSCRIPTIONS_PER_CLIENT MAX_TOPIC_LENGTH_BYTES.

(** ** The invariant *)

Section invariant.
Context {S : Type} `{!ZmqSender S} {W : Type} `{!WorkerInterface W} {PB : ProtobufRuntime}.
Implicit Types b : Broker S W.

(** Everything but the interest, which is stated against any [want] while a change of
    the registry is being carried to it. *)
Record broker_inv_want (want : string → bool) b : Prop := {
  inv_registry : registry_wf (m_subscriptions b);
  inv_interest : interest_tracks (m_interestState b) want;
  inv_links : links_mirror (m_interestState b) (m_peers b);
  inv_sessions : ∀ c, is_Some (m_clientTopics (m_subscriptions b) !! c) → is_Some (m_clients b !! c);
  inv_caps : registry_caps (m_subscriptions b);
  inv_linkIds : ∀ k l, m_peers b !! k = Some l → pl_linkId l = peerLinkId (m_brokerId b) k;
  inv_addresses : ∀ k1 k2 l1 l2, m_peers b !! k1 = Some l1 → m_peers b !! k2 = Some l2 →
    pl_address l1 = pl_address l2 → k1 = k2;
  inv_seen : ∃ log, dedup_inv (m_seen b) log
}.

Definition broker_inv b : Prop :=
  broker_inv_want (λ t, hasMeshSubscriber t (m_subscriptions b)) b.

Lemma inv_want_ext want want' b :
  (∀ t, want t = want' t) → broker_inv_want want b → broker_inv_want want' b.
Proof. intros E Hinv. split; try apply Hinv. eapply tracks_ext; [exact E|]. apply Hinv. Qed.

(** Operations that touch none of this: counters, sockets and the inbound queue. *)
Record frame b b' : Prop := {
  frame_subs : m_subscriptions b' = m_subscriptions b;
  frame_interest : m_interestState b' = m_interestState b;
  frame_peers : m_peers b' = m_peers b;
  frame_seen : m_seen b' = m_seen b;
  frame_id : m_brokerId b' = m_brokerId b;
  frame_clients : ∀ c, is_Some (m_clients b !! c) ↔ is_Some (m_clients b' !! c)
}.

#[export] Instance frame_refl : Reflexive frame.
Proof. by split. Qed.

#[export] Instance frame_trans : Transitive frame.
Proof.
  intros b1 b2 b3 [? ? ? ? ? F] [? ? ? ? ? F']. split; try congruence.
  intros c. by rewrite F, F'.
Qed.

Lemma frame_inv want b b' : frame b b' → broker_inv_want want b → broker_inv_want want b'.
Proof.
  intros [E1 E2 E3 E4 E5 E6] Hinv. split; rewrite ?E1, ?E2, ?E3, ?E4, ?E5; try apply Hinv.
  intros c Hc. apply E6, (inv_sessions _ _ Hinv), Hc.
Qed.

Lemma frame_broker_inv b b' : frame b b' → broker_inv b → broker_inv b'.
Proof.
  intros F H. unfold broker_inv. rewrite (frame_subs _ _ F). by eapply frame_inv.
Qed.

Lemma frame_foldl {A} (f : Broker S W → A → Broker S W) l b :
  (∀ b x, frame b (f b x)) → frame b (foldl f b l).
Proof.
  intros Hf. revert b; induction l as [|x l IH]; intros b; simpl; [reflexivity|].
  etrans; [apply Hf|apply IH].
Qed.

Lemma noteDroppedTo_frame c b : frame b (noteDroppedTo c b).
Proof.
  unfold noteDroppedTo. destruct (m_clients b !! c) as [st|] eqn:E; split; simpl; try done.
  intros c'. rewrite lookup_insert. case_dec; [|done]. subst. rewrite E. split; eauto.
Qed.

Lemma socket_sendTo_frame i h p b : frame b (socket_sendTo i h p b).2.
Proof. unfold socket_sendTo. by destruct (sendTo _ _ _ _). Qed.

Lemma tap_send_frame h p b : frame b (tap_send h p b).
Proof. done. Qed.

Lemma send_or_drop_frame i h p b :
  frame b (let '(ok, b) := socket_sendTo i h p b in
           if (ok : bool) then b else noteDroppedTo i b).
Proof.
  pose proof (socket_sendTo_frame i h p b) as H. destruct (socket_sendTo i h p b) as [[] b']; [done|].
  etrans; [exact H|]. apply noteDroppedTo_frame.
Qed.

Lemma deliver_frame h p sender peer b s : frame b (deliver h p sender peer b s).
Proof.
  unfold deliver. repeat case_match; try reflexivity.
  - match goal with H : socket_sendTo _ _ _ _ = _ |- _ => rename H into E end.
    pose proof (socket_sendTo_frame (sub_clientId s) h p b) as F. by rewrite E in F.
  - match goal with H : socket_sendTo _ _ _ _ = _ |- _ => rename H into E end.
    pose proof (socket_sendTo_frame (sub_clientId s) h p b) as F. rewrite E in F. simpl in F.
    etrans; [exact F|]. apply noteDroppedTo_frame.
Qed.

Lemma deliverToSubscribers_frame header h p sender peer b :
  frame b (deliverToSubscribers header h p sender peer b).
Proof.
  unfold deliverToSubscribers.
  transitivity (foldl (deliver h p sender peer) b
    (default [] (subscribersOf (topic header) (m_subscriptions b))));
    apply frame_foldl; [apply deliver_frame|]. intros b' s. case_match; [reflexivity|apply deliver_frame].
Qed.

Lemma broadcastStats_frame pack env b : frame b (broadcastStats pack env b).
Proof.
  unfold broadcastStats. etrans; [apply tap_send_frame|]. apply frame_foldl.
  intros b' s. case_match; [reflexivity|apply send_or_drop_frame].
Qed.

(** ** Interest *)

Context `{!WorkerLaws W}.

Lemma for_each_lookup ho f (peers : gmap string (PeerLink W)) k :
  for_each_peer ho f peers !! k = f <$> peers !! k.
Proof. by rewrite for_each_peer_fmap, lookup_fmap. Qed.

Lemma note_change_peers ho reg t before st k l :
  (noteMeshInterestChange ho reg t before st).2 !! k = Some l →
  ∃ l0, (st.2 : gmap string (PeerLink W)) !! k = Some l0 ∧ pl_linkId l = pl_linkId l0 ∧ pl_address l = pl_address l0.
Proof.
  unfold noteMeshInterestChange, noteTopicSubscribed, noteTopicUnsubscribed.
  case_dec; [eauto|]. destruct (hasMeshSubscriber t reg).
  - destruct (topicSubscribed t st.1) as [i ms]. simpl. rewrite for_each_lookup.
    intros (l0 & ? & ->)%fmap_Some. eauto.
  - destruct (topicUnsubscribed t st.1) as [i ms]. simpl. rewrite for_each_lookup.
    intros (l0 & ? & ->)%fmap_Some. eauto.
Qed.

Lemma note_interest_inv ho t want b :
  broker_inv_want want b →
  broker_inv_want (update want t (hasMeshSubscriber t (m_subscriptions b)))
    (note_interest ho t (want t) b).
Proof.
  intros Hinv. unfold note_interest.
  destruct (noteMeshInterestChange_ok ho (m_subscriptions b) t want (m_interestState b, m_peers b)
    (inv_interest _ _ Hinv) (inv_links _ _ Hinv)) as [H1 H2].
  pose proof (note_change_peers ho (m_subscriptions b) t (want t) (m_interestState b, m_peers b)) as Hp.
  split; simpl; try apply Hinv; try done.
  - intros k l Hl. destruct (Hp k l Hl) as (l0 & H0 & -> & _). by eapply (inv_linkIds _ _ Hinv).
  - intros k1 k2 l1 l2 Hl1 Hl2. destruct (Hp k1 l1 Hl1) as (l1' & H1' & _ & ->).
    destruct (Hp k2 l2 Hl2) as (l2' & H2' & _ & ->). by eapply (inv_addresses _ _ Hinv).
Qed.

(** Carrying a change of several topics, each of which was wanted before. *)
Lemma note_interests_inv ho ts want b :
  broker_inv_want want b → NoDup ts → (∀ t, t ∈ ts → want t = true) →
  broker_inv_want (λ t, if decide (t ∈ ts) then hasMeshSubscriber t (m_subscriptions b) else want t)
    (foldl (λ b t, note_interest ho t true b) b ts).
Proof.
  revert want b; induction ts as [|t ts IH]; intros want b Hinv Hnd Hw.
  - eapply inv_want_ext; [|exact Hinv]. done.
  - apply NoDup_cons in Hnd as [Ht Hnd]. simpl.
    pose proof (note_interest_inv ho t want b Hinv) as H1. rewrite Hw in H1 by left.
    specialize (IH _ _ H1 Hnd). eapply inv_want_ext; [|apply IH].
    + intros t'. simpl. unfold update.
      destruct (decide (t' ∈ ts)) as [Hin|Hin].
      * by rewrite decide_True by (by right).
      * destruct (decide (t' = t)) as [->|Hne]; [by rewrite decide_True by left|].
        rewrite decide_False; [done|]. by intros [?|?]%elem_of_cons.
    + intros t' Ht'. unfold update. rewrite decide_False by (intros ->; done). apply Hw. by right.
Qed.

(** Carrying interest changes only the interest and the links. *)
Lemma note_interests_keep ho ts b :
  let b' := foldl (λ b t, note_interest ho t true b) b ts in
  m_subscriptions b' = m_subscriptions b ∧ m_clients b' = m_clients b ∧
  m_discovery b' = m_discovery b ∧ m_brokerId b' = m_brokerId b ∧ m_socket b' = m_socket b ∧
  m_clientTimeout b' = m_clientTimeout b ∧ m_seen b' = m_seen b ∧ m_clusterName b' = m_clusterName b.
Proof.
  revert b; induction ts as [|t ts IH]; intros b; [done|].
  exact (IH (note_interest ho t true b)).
Qed.

Lemma meshTopics_NoDup c reg : NoDup (meshTopics c reg).
Proof.
  unfold meshTopics. destruct (subscriptionsOf c reg) as [m|]; [|constructor].
  apply NoDup_filter. rewrite (fmap_Permutation fst _ _ (map_entries_perm m)).
  apply NoDup_fst_map_to_list.
Qed.

Lemma meshTopics_wanted c reg t : t ∈ meshTopics c reg → hasMeshSubscriber t reg = true.
Proof.
  unfold meshTopics. destruct (subscriptionsOf c reg); [|by intros ?%not_elem_of_nil].
  by intros [? _]%list_elem_of_filter.
Qed.

(** ** Clients *)

Lemma removeClient_inv env c b : broker_inv b → broker_inv (removeClient env c b).
Proof.
  intros Hinv. unfold removeClient. set (ts := meshTopics c (m_subscriptions b)).
  set (b1 := with_clients _ _).
  assert (broker_inv_want (λ t, hasMeshSubscriber t (m_subscriptions b)) b1) as H1.
  { split; simpl; try apply Hinv.
    - apply removeClient_wf, Hinv.
    - intros c' [m' Hm']. apply clientTopics_remove in Hm' as [Hne Hm'].
      rewrite lookup_delete_ne by done. by eapply (inv_sessions _ _ Hinv), mk_is_Some.
    - intros c' m' Hm'. apply clientTopics_remove in Hm' as [_ Hm']. by eapply (inv_caps _ _ Hinv). }
  pose proof (note_interests_inv (env_order env) ts _ _ H1 (meshTopics_NoDup _ _)
    (meshTopics_wanted c (m_subscriptions b))) as H2.
  destruct (note_interests_keep (env_order env) ts b1) as (E & _).
  unfold broker_inv. rewrite E. eapply inv_want_ext; [|exact H2]. intros t. simpl.
  case_dec as Hin; [done|]. symmetry. apply hasMesh_remove; [apply Hinv|done].
Qed.

Lemma removeClient_clients env c b c' :
  m_clients (removeClient env c b) !! c' = if decide (c = c') then None else m_clients b !! c'.
Proof.
  unfold removeClient. generalize (meshTopics c (m_subscriptions b)). intros ts.
  set (b1 := with_clients _ _). destruct (note_interests_keep (env_order env) ts b1) as (_ & -> & _).
  simpl. apply lookup_delete.
Qed.

Lemma handleSubscribe_inv env t payload c b :
  broker_inv b → is_Some (m_clients b !! c) → broker_inv (handleSubscribe env t payload c b).
Proof.
  intros Hinv Hc. unfold handleSubscribe. case_dec as Hempty; [done|].
  destruct (decide (MAX_TOPIC_LENGTH_BYTES < String.length t)) as [|Hlen]; [by apply (frame_broker_inv b)|].
  destruct (canSubscribe c t b) eqn:Hcan; simpl; [|by apply (frame_broker_inv b)].
  pose proof (inv_registry _ _ Hinv) as Hwf.
  pose proof (subscribe_wf c t (decodeSubscribeScope payload) _ Hwf) as Hwf'.
  pose proof (clientTopics_subscribe c t (decodeSubscribeScope payload) (m_subscriptions b)) as Hct.
  pose proof (λ t', hasMesh_subscribe_ne c t (decodeSubscribeScope payload) (m_subscriptions b) t' Hwf) as Hne.
  destruct (subscribe c t (decodeSubscribeScope payload) (m_subscriptions b)) as [changed reg] eqn:Es.
  simpl in *.
  assert (broker_inv_want (λ t, hasMeshSubscriber t (m_subscriptions b)) (with_subscriptions reg b)) as H1.
  { split; simpl; try apply Hinv; try done.
    - intros c'. rewrite Hct, lookup_insert. case_dec; [by subst|]. apply (inv_sessions _ _ Hinv).
    - intros c' m'. rewrite Hct, lookup_insert. case_dec; [|apply (inv_caps _ _ Hinv)].
      intros [= <-]. subst c'. unfold canSubscribe, subscriptionsOf in Hcan.
      destruct (m_clientTopics (m_subscriptions b) !! c) as [m|] eqn:Em; simpl.
      + destruct (inv_caps _ _ Hinv _ _ Em) as [Hs Ht]. split.
        * apply orb_true_iff in Hcan as [[x Hx]%bool_decide_eq_true|Hlt%bool_decide_eq_true].
          -- rewrite map_size_insert_Some; eauto.
          -- etrans; [apply map_size_insert_le|]. lia.
        * intros t'. rewrite lookup_insert. case_dec; [|apply Ht]. subst t'. intros _.
          split; [|lia]. destruct t; [done|simpl; lia].
      + rewrite map_size_insert_None, map_size_empty by apply lookup_empty. split.
        * pose proof max_subs_pos. lia.
        * intros t'. rewrite lookup_insert. case_dec; [|by rewrite lookup_empty; intros []].
          subst t'. intros _. split; [|lia]. destruct t; [done|simpl; lia]. }
  destruct changed.
  - pose proof (note_interest_inv (env_order env) t _ _ H1) as H2. unfold broker_inv.
    eapply inv_want_ext; [|exact H2]. intros t'. unfold update. simpl.
    destruct (decide (t' = t)) as [->|]; [done|]. symmetry. by apply Hne.
  - unfold subscribe in Es. unfold broker_inv.
    assert (reg = m_subscriptions b) as -> by (repeat case_match; simplify_eq; done). done.
Qed.

Lemma handleUnsubscribe_inv env t c b : broker_inv b → broker_inv (handleUnsubscribe env t c b).
Proof.
  intros Hinv. unfold handleUnsubscribe. pose proof (inv_registry _ _ Hinv) as Hwf.
  pose proof (unsubscribe_wf c t _ Hwf) as Hwf'.
  pose proof (clientTopics_unsubscribe c t (m_subscriptions b)) as Hct.
  pose proof (λ t', hasMesh_unsubscribe_ne c t (m_subscriptions b) t' Hwf) as Hne.
  destruct (unsubscribe c t (m_subscriptions b)) as [changed reg] eqn:Es. simpl in *.
  assert (broker_inv_want (λ t, hasMeshSubscriber t (m_subscriptions b)) (with_subscriptions reg b)) as H1.
  { split; simpl; try apply Hinv; try done.
    - intros c' [m' (m & Hm & _)%Hct]. by eapply (inv_sessions _ _ Hinv), mk_is_Some.
    - intros c' m' (m & Hm & Hsub)%Hct. eapply caps_subseteq; [exact Hsub|].
      by apply (inv_caps _ _ Hinv c'). }
  destruct changed.
  - pose proof (note_interest_inv (env_order env) t _ _ H1) as H2. unfold broker_inv.
    eapply inv_want_ext; [|exact H2]. intros t'. unfold update. simpl.
    destruct (decide (t' = t)) as [->|]; [done|]. symmetry. by apply Hne.
  - unfold unsubscribe in Es. unfold broker_inv.
    assert (reg = m_subscriptions b) as -> by (repeat case_match; simplify_eq; done). done.
Qed.

Lemma unlink_loop_inv env frame_ cs b :
  broker_inv b →
  broker_inv (foldl (λ b c, removeClient env c (socket_sendTo c frame_ EmptyString b).2) b cs).
Proof.
  revert b; induction cs as [|c cs IH]; intros b Hinv; [done|]. simpl. apply IH, removeClient_inv.
  eapply frame_broker_inv; [apply socket_sendTo_frame|done].
Qed.

Lemma unlinkInboundPeers_inv env b : broker_inv b → broker_inv (unlinkInboundPeers env b).
Proof. apply unlink_loop_inv. Qed.

(** ** Links *)

(** Links with the identity and control traffic of those of [P0]. *)
Definition controls_from (P0 peers : gmap string (PeerLink W)) : Prop :=
  ∀ k l, peers !! k = Some l → ∃ l0, P0 !! k = Some l0 ∧
    pl_linkId l = pl_linkId l0 ∧ pl_address l = pl_address l0 ∧
    control_written (pl_worker l) = control_written (pl_worker l0) ∧
    control_refused (pl_worker l) = control_refused (pl_worker l0).

Lemma with_peers_inv (peers : gmap string (PeerLink W)) b :
  broker_inv b → controls_from (m_peers b) peers → broker_inv (with_peers peers b).
Proof.
  intros Hinv Hp. split; simpl; try apply Hinv.
  - intros k l Hl Hr. destruct (Hp k l Hl) as (l0 & H0 & _ & _ & -> & E).
    apply (inv_links _ _ Hinv k l0 H0). congruence.
  - intros k l Hl. destruct (Hp k l Hl) as (l0 & H0 & -> & _). by eapply (inv_linkIds _ _ Hinv).
  - intros k1 k2 l1 l2 Hl1 Hl2. destruct (Hp k1 l1 Hl1) as (l1' & H1' & _ & -> & _).
    destruct (Hp k2 l2 Hl2) as (l2' & H2' & _ & -> & _). by eapply (inv_addresses _ _ Hinv).
Qed.

Lemma removePeer_inv key b : broker_inv b → broker_inv (removePeer key b).
Proof.
  intros Hinv. unfold removePeer. destruct (m_peers b !! key) as [link|] eqn:E; [|done].
  apply (frame_broker_inv (with_peers (delete key (m_peers b)) b)); [by split|].
  apply with_peers_inv; [done|]. intros k l [_ H]%lookup_delete_Some. eauto 10.
Qed.

Lemma new_link_mirrors i linkId cfg :
  control_refused (worker_start (sendInterestTo i linkId (new_worker cfg)) : W) = 0 →
  mirrors i (remote_topics (control_written (worker_start (sendInterestTo i linkId (new_worker cfg)) : W))).
Proof.
  destruct (worker_start_keeps (sendInterestTo i linkId (new_worker cfg) : W)) as (-> & -> & _).
  intros Hr. apply sendInterestTo_ok; [done|]. left.
  destruct (new_worker_blank cfg (W := W)) as (-> & _). done.
Qed.

Lemma addPeer_inv env opens key addr b : broker_inv b → broker_inv (addPeer env opens key addr b).
Proof.
  intros Hinv. unfold addPeer, addPeer_commit, addPeer_prepare. destruct opens; [|done]. simpl.
  case_dec as Hk; [done|]. apply eq_None_not_Some in Hk.
  destruct (existsb _ _) eqn:Hex; [done|].
  assert (∀ k l, m_peers b !! k = Some l → pl_address l ≠ addr) as Haddr.
  { intros k l Hl E. apply (elem_of_entries (env_order env)) in Hl.
    apply not_true_iff_false in Hex. apply Hex, existsb_exists. exists (k, l).
    rewrite <-list_elem_of_In. split; [done|]. by apply bool_decide_true. }
  split; simpl; try apply Hinv.
  - intros k l. rewrite lookup_insert. case_dec; [|apply (inv_links _ _ Hinv)].
    intros [= <-]. apply new_link_mirrors.
  - intros k l. rewrite lookup_insert. case_dec; [|apply (inv_linkIds _ _ Hinv)].
    intros [= <-]. by subst.
  - intros k1 k2 l1 l2. rewrite !lookup_insert. repeat case_dec; subst; try done.
    + intros [= <-] H2 E. simpl in E. by destruct (Haddr _ _ H2).
    + intros H1 [= <-] E. simpl in E. by destruct (Haddr _ _ H1).
    + apply (inv_addresses _ _ Hinv).
Qed.

Lemma peerCallback_inv key m b : broker_inv b → broker_inv (peerCallback key m b).
Proof.
  intros Hinv. unfold peerCallback. destruct (m_peers b !! key) as [link|] eqn:E; [|done].
  case_dec.
  - apply with_peers_inv; [done|]. intros k l. rewrite lookup_insert. case_dec; [|eauto 10].
    intros [= <-]. subst. eauto 10.
  - case_dec; [|by apply (frame_broker_inv b)].
    split; simpl; try apply Hinv.
    + intros k l. rewrite lookup_insert. case_dec; [|apply (inv_links _ _ Hinv)].
      intros [= <-] Hr. simpl in *. subst. apply sendInterestTo_ok; [done|]. right.
      apply (inv_links _ _ Hinv k link E). unfold sendInterestTo in Hr.
      pose proof (write_controls_refused (link_control (pl_linkId link) <$> interestMessages (m_interestState b))
        (pl_worker link)). lia.
    + intros k l. rewrite lookup_insert. case_dec; [|apply (inv_linkIds _ _ Hinv)].
      intros [= <-]. subst. exact (inv_linkIds _ _ Hinv _ _ E).
    + assert (∀ k l, <[key := with_worker (sendInterestTo (m_interestState b) (pl_linkId link) (pl_worker link)) link]>
        (m_peers b) !! k = Some l → ∃ l0, m_peers b !! k = Some l0 ∧ pl_address l = pl_address l0) as Hp.
      { intros k l. rewrite lookup_insert. case_dec; [|eauto]. intros [= <-]. subst. eauto. }
      intros k1 k2 l1 l2 (l1' & H1 & ->)%Hp (l2' & H2 & ->)%Hp. by eapply (inv_addresses _ _ Hinv).
Qed.

Lemma discovery_events_inv env opens es b :
  broker_inv b → broker_inv (foldl (λ b e, discovery_event env opens e b) b es).
Proof.
  revert b; induction es as [|e es IH]; intros b Hinv; [done|]. simpl. apply IH.
  destruct e; simpl; [by apply addPeer_inv|by apply removePeer_inv|done].
Qed.

Lemma handleSetCluster_inv env name b : broker_inv b → broker_inv (handleSetCluster env name b).
Proof.
  intros Hinv. unfold handleSetCluster. destruct (negb _); [done|].
  destruct (m_discovery b); [|done]. case_dec; [done|].
  assert (broker_inv (unlinkInboundPeers env (with_clusterName name b))) as H1.
  { apply unlinkInboundPeers_inv. by apply (frame_broker_inv b). }
  destruct (m_discovery (unlinkInboundPeers _ _)) as [d|]; [|done].
  destruct (setCluster _ _ _) as [evs d']. apply discovery_events_inv.
  by apply (frame_broker_inv (unlinkInboundPeers env (with_clusterName name b))).
Qed.

(** ** Messages *)

Lemma handleClientMessage_inv env header payload sender b :
  broker_inv b → broker_inv (handleClientMessage env header payload sender b).2.
Proof.
  intros Hinv. unfold handleClientMessage. case_dec; [by apply removeClient_inv|].
  set (b1 := with_clients _ b).
  assert (broker_inv b1) as H1.
  { split; simpl; try apply Hinv. intros c Hc. rewrite lookup_insert. case_dec; [done|].
    by apply (inv_sessions _ _ Hinv). }
  assert (is_Some (m_clients b1 !! sender)) as Hs by (simpl; rewrite lookup_insert_eq; eauto).
  clearbody b1. set (b2 := if decide (_ ∧ _) then _ else _).
  assert (broker_inv b2 ∧ is_Some (m_clients b2 !! sender)) as [H2 Hs2].
  { unfold b2. case_dec; [|done].
    pose proof (socket_sendTo_frame sender
      (encodeHeader (makeControlHeader Keys.RESET (m_brokerId b1) EmptyString)) EmptyString b1) as F.
    split; [by eapply frame_broker_inv|]. by apply (frame_clients _ _ F). }
  clearbody b2. repeat case_dec; simpl; try done.
  - eapply frame_broker_inv; [apply socket_sendTo_frame|done].
  - by apply handleSubscribe_inv.
  - by apply handleUnsubscribe_inv.
  - by apply handleSetCluster_inv.
Qed.

Lemma flood_one_controls P0 fwd b k l :
  P0 !! k = Some l → controls_from P0 (m_peers b) →
  controls_from P0 (m_peers (flood_one fwd b (k, l))) ∧
  frame (with_peers (m_peers (flood_one fwd b (k, l))) b) (flood_one fwd b (k, l)).
Proof.
  intros Hk Hp. unfold flood_one. simpl. destruct (pl_active l); simpl; [|by split].
  destruct (writeEncoded fwd (pl_worker l)) as [ok w] eqn:Ew.
  apply writeEncoded_law in Ew as (_ & Hw & Hr).
  assert (controls_from P0 (<[k := with_worker w l]> (m_peers b))) as Hc.
  { intros k' l'. rewrite lookup_insert. case_dec; [|apply Hp]. intros [= <-]. subst k'.
    exists l. done. }
  by destruct ok.
Qed.

Lemma flood_loop_controls P0 fwd es b :
  (∀ k l, (k, l) ∈ es → P0 !! k = Some l) → controls_from P0 (m_peers b) →
  let b' := foldl (flood_one fwd) b es in
  controls_from P0 (m_peers b') ∧ frame (with_peers (m_peers b') b) b'.
Proof.
  revert b; induction es as [|[k l] es IH]; intros b Hes Hp; [by split|]. simpl.
  destruct (flood_one_controls P0 fwd b k l) as [Hp1 F1]; [apply Hes; left|done|].
  destruct (IH (flood_one fwd b (k, l))) as [Hp2 F2]; [intros; apply Hes; by right|done|].
  split; [done|]. etrans; [|exact F2]. destruct F1. by split.
Qed.

Lemma floodPeers_inv env h p b : broker_inv b → broker_inv (floodPeers env h p b).
Proof.
  intros Hinv. unfold floodPeers.
  destruct (flood_loop_controls (m_peers b) (makeWireMessage h p)
    (entries (env_order env) (m_peers b)) b) as [Hp F].
  - intros k l. by rewrite elem_of_entries.
  - intros k l Hl. eauto 10.
  - eapply frame_broker_inv; [exact F|]. by apply with_peers_inv.
Qed.

Lemma processMessage_inv env header payload sender peer b :
  broker_inv b →
  ∃ b', processMessage env header payload sender peer b = Some b' ∧ broker_inv b'.
Proof.
  intros Hinv. unfold processMessage. set (h := stamp env (m_brokerId b) header).
  set (b1 := if peer then _ else _).
  assert (broker_inv b1) as H1 by (unfold b1; destruct peer; [by apply (frame_broker_inv b)|done]).
  clearbody b1. destruct (inv_seen _ _ H1) as [log Hlog].
  destruct (isDuplicate_spec (message_uuid h) _ _ Hlog) as (dup & seen & Hd & _ & Hseen).
  assert (∃ dup seen, (if Keys.isReservedKey (handler_key h) then Some (false, m_seen b1)
    else isDuplicate (message_uuid h) (m_seen b1)) = Some (dup, seen) ∧
    ∃ log, dedup_inv seen log) as (dup' & seen' & -> & Hseen').
  { destruct (Keys.isReservedKey _); eauto 10. }
  simpl. assert (broker_inv (with_seen seen' b1)) as H2 by (split; simpl; try apply H1; done).
  destruct dup'; [eauto|]. set (b3 := tap_send _ _ _).
  assert (broker_inv b3) as H3 by (by apply (frame_broker_inv (with_seen seen' b1))).
  clearbody b3. assert (broker_inv (if peer then (false, b3)
    else handleClientMessage env h payload sender b3).2) as H4.
  { destruct peer; [done|]. by apply handleClientMessage_inv. }
  destruct (if peer then _ else _) as [handled b4]. simpl in H4.
  destruct handled; [eauto|]. destruct (Keys.isReservedKey (handler_key h)); [eauto|].
  eexists. split; [done|]. apply floodPeers_inv.
  eapply frame_broker_inv; [apply deliverToSubscribers_frame|done].
Qed.

(** ** The run loop *)

Lemma sweep_loop_inv env now es n b : broker_inv b → broker_inv (sweep_loop env now es n b).
Proof.
  revert n b; induction es as [|[id c] es IH]; intros n b Hinv; [done|]. simpl.
  case_dec; [|done]. case_dec; [|by apply IH]. apply IH. by apply removeClient_inv.
Qed.

Lemma process_peers_inv envs batch b :
  broker_inv b → ∃ b', process_peers envs batch b = Some b' ∧ broker_inv b'.
Proof.
  revert b; induction batch as [|m batch IH]; intros b Hinv; [by exists b|]. simpl.
  destruct (processMessage_inv (envs (length batch)) (env_header m) (env_payload m) "PEER" true b Hinv)
    as (b1 & -> & H1). simpl. by apply IH.
Qed.

Lemma drain_router_inv {R} `{!ZmqReceiver R} n envs (sock : R) malformed b :
  broker_inv b →
  ∃ sock' malformed' b', drain_router n envs sock malformed b = Some (sock', malformed', b') ∧ broker_inv b'.
Proof.
  revert sock malformed b; induction n as [|n IH]; intros sock malformed b Hinv; simpl; [eauto|].
  destruct (router_recv sock) as [[| | |id h p bytes] sock']; eauto.
  destruct (processMessage_inv (envs n) h p id false (count_received bytes b)) as (b1 & -> & H1);
    [by apply (frame_broker_inv b)|]. simpl. by apply IH.
Qed.

Lemma broker_iteration_inv {R} `{!ZmqReceiver R} pack readable envs peerEnvs env (st : RunState S W R) :
  broker_inv (rs_broker st) →
  ∃ st', broker_iteration pack readable envs peerEnvs env st = Some st' ∧ broker_inv (rs_broker st').
Proof.
  intros Hinv. unfold broker_iteration.
  assert (∃ sock malformed b, (if readable then
      drain_router MaxMessagesPerWake envs (rs_router st) (rs_malformed st) (rs_broker st)
    else Some (rs_router st, rs_malformed st, rs_broker st)) = Some (sock, malformed, b) ∧ broker_inv b)
    as (sock & malformed & b & -> & H1) by (destruct readable; [by apply drain_router_inv|eauto]).
  cbn [mbind option_bind]. unfold drainTo.
  destruct (process_peers_inv peerEnvs (m_queue (m_peerInboundQueue b))
    (with_inbound (mkQueue [] (m_stop (m_peerInboundQueue b)) (m_maxSize (m_peerInboundQueue b))) b))
    as (b2 & -> & H2); [by apply (frame_broker_inv b)|]. cbn [mbind option_bind].
  set (r := if decide _ then _ else _).
  assert (broker_inv r.1) as H3 by (unfold r; case_dec; [by apply sweep_loop_inv|done]).
  destruct r as [b3 lc]. eexists. split; [done|]. simpl in *. case_dec; [|done].
  apply (frame_broker_inv (broadcastStats pack env b3)); [by split|].
  eapply frame_broker_inv; [apply broadcastStats_frame|done].
Qed.

Lemma hasMesh_empty t : hasMeshSubscriber t empty_registry = false.
Proof. unfold hasMeshSubscriber, subscribersOf. simpl. by rewrite lookup_empty. Qed.

Lemma new_broker_inv id timeout (socket tap : S) : broker_inv (new_broker id timeout socket tap : Broker S W).
Proof.
  unfold new_broker. split; simpl.
  - apply empty_registry_wf.
  - eapply tracks_ext; [|apply initial_tracks]. intros t. by rewrite hasMesh_empty.
  - intros k l H. by rewrite lookup_empty in H.
  - intros c [m Hm]. by rewrite lookup_empty in Hm.
  - intros c m H. unfold empty_registry in H. cbn in H. done.
  - intros k l. by rewrite lookup_empty.
  - intros k1 k2 l1 l2. by rewrite lookup_empty.
  - exists []. apply initial_dedup_inv.
Qed.
End invariant.
