(* ===== verification/Delivery.v ===== *)
(** * Delivery

    What [deliverToSubscribers] and [floodPeers] do, against a specification: the list
    of recipients of a message, each offered it exactly once, and what reaches the
    wire. *)

From Stdlib Require Import ZArith Lia.
From S2P Require Import Prelude.
From S2P Require Import MessageKeys.
From S2P Require Import Config.
From S2P Require Import SafeQueue.
From S2P Require Import Wire.
From S2P Require Import Beacon.
From S2P Require Import Discovery.
From S2P Require Import Registry.
From S2P Require Import Dedup.
From S2P Require Import Uuid.
From S2P Require Import Worker.
From S2P Require Import Interest.
From S2P Require Import Broker.
From S2P Require Import BrokerInv.

Section delivery.
Context {S : Type} `{!ZmqSender S} {W : Type} `{!WorkerInterface W} {PB : ProtobufRuntime}.
Implicit Types b : Broker S W.

(** ** Specification *)

(** A subscriber the message is for: not its local sender, in scope, connected. *)
Definition eligible b (senderId : string) (isFromPeer : bool) (s : Subscriber) : Prop :=
  (isFromPeer = true ∨ sub_clientId s ≠ senderId) ∧
  scopeAccepts (sub_scope s) (negb isFromPeer) = true ∧
  is_Some (m_clients b !! sub_clientId s).

#[export] Instance eligible_dec b senderId isFromPeer s : Decision (eligible b senderId isFromPeer s).
Proof. unfold eligible. apply _. Defined.

(** The clients offered a message on [t], in order. *)
Definition recipients b (t senderId : string) (isFromPeer : bool) : list string :=
  let exactSubs := subscribersOf t (m_subscriptions b) in
  let wildcardSubs :=
    if decide (t = Keys.WILDCARD_TOPIC) then None
    else subscribersOf Keys.WILDCARD_TOPIC (m_subscriptions b) in
  sub_clientId <$> filter (eligible b senderId isFromPeer)
    (default [] exactSubs ++
     filter (λ s, servedExactly exactSubs (negb isFromPeer) (sub_clientId s) = false)
       (default [] wildcardSubs)).

(** Offering a message to one client: sent, or counted as dropped. *)
Definition offer (headerBytes payload : string) b (c : string) : Broker S W :=
  let '(ok, b) := socket_sendTo c headerBytes payload b in
  if (ok : bool) then b else noteDroppedTo c b.

Lemma offer_frame h p b c : frame b (offer h p b c).
Proof. apply send_or_drop_frame. Qed.

(** ** deliverToSubscribers offers the message to the recipients *)

Lemma deliver_eligible h p sender peer b s :
  deliver h p sender peer b s =
  if decide (eligible b sender peer s) then offer h p b (sub_clientId s) else b.
Proof.
  unfold deliver, offer. destruct (decide (eligible b sender peer s)) as [(H1 & H2 & H3)|He].
  - assert (negb peer && bool_decide (sub_clientId s = sender) = false) as ->.
    { destruct H1 as [->|H1]; [done|]. rewrite bool_decide_false by done. apply andb_false_r. }
    rewrite H2. simpl. rewrite decide_False; [done|]. by apply not_eq_None_Some.
  - destruct (negb peer && _) eqn:E1; [done|]. destruct (scopeAccepts _ _) eqn:E2; [|done]. simpl.
    case_dec as E3; [done|]. destruct He. split; [|split; [done|by apply not_eq_None_Some]].
    apply andb_false_iff in E1 as [E1|E1]; [left; by destruct peer|right].
    by apply bool_decide_eq_false in E1.
Qed.

Lemma eligible_frame b b' sender peer s :
  frame b b' → eligible b sender peer s ↔ eligible b' sender peer s.
Proof. intros F. unfold eligible. by rewrite (frame_clients _ _ F (sub_clientId s)). Qed.

(** Delivering to a list of subscribers is offering to the eligible ones, eligibility
    as it was at the start. *)
Lemma deliver_loop h p sender peer b0 l b :
  frame b0 b →
  foldl (deliver h p sender peer) b l =
  foldl (offer h p) b (sub_clientId <$> filter (eligible b0 sender peer) l).
Proof.
  revert b; induction l as [|s l IH]; intros b F; [done|]. simpl.
  rewrite deliver_eligible, filter_cons. pose proof (eligible_frame b0 b sender peer s F) as E.
  destruct (decide (eligible b0 sender peer s)) as [H|H].
  - rewrite decide_True by tauto. simpl. apply IH. etrans; [exact F|apply offer_frame].
  - rewrite decide_False by tauto. by apply IH.
Qed.

Lemma skip_loop (f : Broker S W → Subscriber → Broker S W) (q : Subscriber → bool) l b :
  foldl (λ b s, if q s then b else f b s) b l = foldl f b (filter (λ s, q s = false) l).
Proof.
  revert b; induction l as [|s l IH]; intros b; [done|]. simpl. rewrite filter_cons.
  destruct (q s); simpl; apply IH.
Qed.

Lemma deliverToSubscribers_offers header h p sender peer b :
  deliverToSubscribers header h p sender peer b =
  foldl (offer h p) b (recipients b (topic header) sender peer).
Proof.
  unfold deliverToSubscribers, recipients. rewrite skip_loop.
  rewrite <-foldl_app. by apply deliver_loop.
Qed.

(** ** Who the recipients are *)

Lemma servedExactly_true reg t isLocal c :
  registry_wf reg →
  servedExactly (subscribersOf t reg) isLocal c = true ↔
  ∃ s, held reg c t = Some s ∧ scopeAccepts s isLocal = true.
Proof.
  intros Hwf. unfold servedExactly. destruct (subscribersOf t reg) as [l|] eqn:E.
  - destruct (find_client c l) as [[pos [c' s]]|] eqn:Ef.
    + apply find_client_Some in Ef as [Hl Hc]. simpl in Hc. subst c'. simpl.
      apply list_elem_of_lookup_2 in Hl. apply (subscribersOf_Some reg t l) in Hl; [|done..].
      rewrite Hl. split; [eauto|]. naive_solver.
    + split; [done|]. intros (s & Hh & _). apply (subscribersOf_Some reg t l c s Hwf E) in Hh.
      apply find_client_None in Ef. destruct Ef. by apply (list_elem_of_fmap_2 sub_clientId) in Hh.
  - split; [done|]. intros (s & Hh & _).
    by rewrite (proj1 (subscribersOf_None reg t Hwf) E c) in Hh.
Qed.

Lemma elem_of_subs reg t c s :
  registry_wf reg → mkSubscriber c s ∈ default [] (subscribersOf t reg) ↔ held reg c t = Some s.
Proof. intros Hwf. by rewrite (wf_listed _ Hwf), subs_of_subscribersOf. Qed.

(** A client receives a message iff it is connected, is not its local sender, and holds
    a subscription in scope on the topic or (unless the topic is ["*"] itself) on the
    wildcard. *)
Lemma elem_of_recipients b t sender peer c :
  registry_wf (m_subscriptions b) →
  c ∈ recipients b t sender peer ↔
  (peer = true ∨ c ≠ sender) ∧ is_Some (m_clients b !! c) ∧
  ∃ t' s, (t' = t ∨ t' = Keys.WILDCARD_TOPIC) ∧ held (m_subscriptions b) c t' = Some s ∧
          scopeAccepts s (negb peer) = true.
Proof.
  intros Hwf. unfold recipients. rewrite list_elem_of_fmap. setoid_rewrite list_elem_of_filter.
  setoid_rewrite elem_of_app. setoid_rewrite list_elem_of_filter. split.
  - intros ([c' s] & -> & (H1 & H2 & H3) & Hin). simpl in *. split; [done|]. split; [done|].
    destruct Hin as [Hin|[_ Hin]].
    + exists t, s. split; [by left|]. split; [by apply elem_of_subs|done].
    + destruct (decide (t = Keys.WILDCARD_TOPIC)) as [|Hne]; [by apply not_elem_of_nil in Hin|].
      exists Keys.WILDCARD_TOPIC, s. split; [by right|]. split; [by apply elem_of_subs|done].
  - intros (H1 & H2 & t' & s & Ht & Hh & Ha).
    destruct (servedExactly (subscribersOf t (m_subscriptions b)) (negb peer) c) eqn:Es.
    + apply servedExactly_true in Es as (s' & Hs' & Ha'); [|done].
      exists (mkSubscriber c s'). split; [done|]. split; [done|]. left. by apply elem_of_subs.
    + assert (t' ≠ t) as Hne.
      { intros ->. assert (servedExactly (subscribersOf t (m_subscriptions b)) (negb peer) c = true); [|congruence].
        apply servedExactly_true; eauto. }
      destruct Ht as [->| ->]; [done|].
      exists (mkSubscriber c s). split; [done|]. split; [done|]. right. split; [done|].
      rewrite decide_False by done. by apply elem_of_subs.
Qed.

(** Each of them once. *)
Lemma recipients_NoDup b t sender peer :
  registry_wf (m_subscriptions b) → NoDup (recipients b t sender peer).
Proof.
  intros Hwf. unfold recipients. set (ex := subscribersOf t (m_subscriptions b)).
  rewrite filter_app, fmap_app. apply NoDup_app. split_and!.
  - apply NoDup_fmap_filter. unfold ex. rewrite <-subs_of_subscribersOf. apply (wf_once _ Hwf).
  - intros c (s1 & -> & [(_ & Ha & _) Hin1]%list_elem_of_filter)%list_elem_of_fmap
      (s2 & E & [_ [Hns _]%list_elem_of_filter]%list_elem_of_filter)%list_elem_of_fmap.
    assert (servedExactly ex (negb peer) (sub_clientId s1) = true); [|congruence].
    destruct s1 as [c1 sc]. simpl in *. apply servedExactly_true; [done|]. exists sc.
    split; [|done]. by apply elem_of_subs.
  - do 2 apply NoDup_fmap_filter. case_dec; [constructor|]. rewrite <-subs_of_subscribersOf. apply (wf_once _ Hwf).
Qed.

(** ** What reaches the wire *)

Context `{!ZmqSenderLaws S}.

(** The groups of the clients that were sent the message. *)
Definition sent_groups (h p : string) (cs : list string) (oks : list bool) : list (list string) :=
  concat (zip_with (λ c ok, if (ok : bool) then [frames (Some c) h p] else []) cs oks).

Definition refusals (oks : list bool) : nat := length (filter (λ ok, ok = false) oks).

Lemma offer_wire h p b c :
  sock_open (m_socket b) = [] →
  ∃ ok, sock_open (m_socket (offer h p b c)) = [] ∧
    sock_wire (m_socket (offer h p b c)) =
      sock_wire (m_socket b) ++ (if (ok : bool) then [frames (Some c) h p] else []) ∧
    m_totalDropped (offer h p b c) = (if ok then m_totalDropped b else inc64 (m_totalDropped b)).
Proof.
  intros Ho. unfold offer, socket_sendTo, sendTo.
  destruct (sendFrames (m_socket b) (Some c) h p) as [ok s'] eqn:E.
  pose proof (sendFrames_spec _ _ _ _ _ _ Ho E) as [Ho' Hw]. exists ok.
  destruct ok; simpl; [done|]. unfold noteDroppedTo. simpl.
  destruct (m_clients b !! c); done.
Qed.

Lemma offers_wire h p cs b :
  sock_open (m_socket b) = [] →
  ∃ oks, length oks = length cs ∧
    sock_open (m_socket (foldl (offer h p) b cs)) = [] ∧
    sock_wire (m_socket (foldl (offer h p) b cs)) = sock_wire (m_socket b) ++ sent_groups h p cs oks ∧
    m_totalDropped (foldl (offer h p) b cs) = Nat.iter (refusals oks) inc64 (m_totalDropped b).
Proof.
  revert b; induction cs as [|c cs IH]; intros b Ho.
  - exists []. unfold sent_groups. simpl. by rewrite app_nil_r.
  - simpl. destruct (offer_wire h p b c Ho) as (ok & Ho1 & Hw1 & Hd1).
    destruct (IH _ Ho1) as (oks & Hlen & Ho2 & Hw2 & Hd2). exists (ok :: oks).
    split; [simpl; congruence|]. split; [done|]. split.
    + rewrite Hw2, Hw1, <-app_assoc. done.
    + rewrite Hd2, Hd1. unfold refusals. rewrite filter_cons. destruct ok; simpl; [done|].
      by rewrite <-Nat.iter_succ_r.
Qed.

(** ** floodPeers *)

(** What a link becomes: an active one is handed the message, another is left alone. *)
Definition flood_link (fwd : WireMessage) (link : PeerLink W) : PeerLink W :=
  if pl_active link then with_worker (writeEncoded fwd (pl_worker link)).2 link else link.

Definition flood_refused (fwd : WireMessage) (e : string * PeerLink W) : Prop :=
  pl_active e.2 = true ∧ (writeEncoded fwd (pl_worker e.2)).1 = false.

#[export] Instance flood_refused_dec fwd e : Decision (flood_refused fwd e).
Proof. unfold flood_refused. apply _. Defined.

Lemma flood_one_spec fwd b k l :
  m_peers b !! k = Some l →
  m_peers (flood_one fwd b (k, l)) = <[k := flood_link fwd l]> (m_peers b) ∧
  m_totalDropped (flood_one fwd b (k, l)) =
    (if decide (flood_refused fwd (k, l)) then inc64 (m_totalDropped b) else m_totalDropped b) ∧
  m_socket (flood_one fwd b (k, l)) = m_socket b.
Proof.
  intros Hk. assert (flood_refused fwd (k, l) ↔ pl_active l = true ∧
    (writeEncoded fwd (pl_worker l)).1 = false) as Hr by done.
  destruct (decide (flood_refused fwd (k, l))) as [H|H]; rewrite Hr in H; clear Hr;
    unfold flood_one, flood_link; simpl.
  - destruct H as [-> Hw]. simpl. destruct (writeEncoded fwd (pl_worker l)) as [[] w]; done.
  - destruct (pl_active l); simpl; [|by rewrite insert_id].
    destruct (writeEncoded fwd (pl_worker l)) as [[] w]; [done|]. by destruct H.
Qed.

Lemma flood_loop fwd es b :
  NoDup es.*1 → (∀ k l, (k, l) ∈ es → m_peers b !! k = Some l) →
  let b' := foldl (flood_one fwd) b es in
  (∀ k, m_peers b' !! k =
     if decide (k ∈ es.*1) then flood_link fwd <$> m_peers b !! k else m_peers b !! k) ∧
  m_totalDropped b' = Nat.iter (length (filter (flood_refused fwd) es)) inc64 (m_totalDropped b) ∧
  m_socket b' = m_socket b.
Proof.
  revert b; induction es as [|[k l] es IH]; intros b Hnd Hes; [done|].
  cbn [fmap list_fmap] in Hnd. apply NoDup_cons in Hnd as [Hk Hnd]. simpl in Hk.
  assert (m_peers b !! k = Some l) as Hl by (apply Hes; left).
  destruct (flood_one_spec fwd b k l Hl) as (Hp & Hd & Hs).
  destruct (IH (flood_one fwd b (k, l)) Hnd) as (Hp' & Hd' & Hs').
  { intros k' l' Hin. rewrite Hp, lookup_insert_ne; [apply Hes; by right|].
    intros ->. apply Hk. by apply (list_elem_of_fmap_2 fst) in Hin. }
  cbn [foldl]. change ((k, l) :: es).*1 with (k :: es.*1). split; [|split; [|congruence]].
  - intros k'. rewrite Hp', Hp, lookup_insert.
    destruct (decide (k' ∈ es.*1)) as [Hin|Hin].
    + rewrite (decide_True (P := k' ∈ k :: es.*1)) by (by right).
      rewrite decide_False by (by intros ->). done.
    + destruct (decide (k = k')) as [->|Hne].
      * rewrite decide_True by left. by rewrite Hl.
      * rewrite decide_False; [done|]. by intros [?|?]%elem_of_cons.
  - rewrite Hd', Hd, filter_cons. case_dec; [|done]. simpl. by rewrite <-Nat.iter_succ_r.
Qed.

Lemma floodPeers_spec env h p b :
  let fwd := makeWireMessage h p in
  m_peers (floodPeers env h p b) = flood_link fwd <$> m_peers b ∧
  m_totalDropped (floodPeers env h p b) =
    Nat.iter (length (filter (flood_refused fwd) (entries (env_order env) (m_peers b)))) inc64
      (m_totalDropped b) ∧
  m_socket (floodPeers env h p b) = m_socket b.
Proof.
  intros fwd. destruct (flood_loop fwd (entries (env_order env) (m_peers b)) b) as (Hp & Hd & Hs).
  - apply NoDup_entries.
  - intros k l. by rewrite elem_of_entries.
  - split; [|done]. apply map_eq. intros k. unfold floodPeers. fold fwd. rewrite Hp, lookup_fmap.
    case_dec as Hin; [done|]. destruct (m_peers b !! k) as [l|] eqn:E; [|done].
    destruct Hin. apply elem_of_entries_keys. eauto.
Qed.
End delivery.
