(* ===== verification/BrokerSpec.v ===== *)
(** * What the broker guarantees

    The properties of the broker as a whole: its invariant over every run, and the
    contract of each handler (delivery, duplicates, sessions, subscriptions, the sweep,
    cluster swaps, peer links), proved from the lemmas of [BrokerInv] and [Delivery].

    A run is a sequence of [BrokerEvent]s: the handlers the broker thread calls and the
    peer operations other threads perform, each atomic (the state they share is guarded
    by one mutex each; the one place where a handler's two critical sections can be
    separated is treated by [addPeer_lost_subscription]). *)

From Stdlib Require Import ZArith Lia.
From S2P Require Import Prelude.
From S2P Require Import MessageKeys.
From S2P Require Import Config.
From S2P Require Import Logger.
From S2P Require Import SafeQueue.
From S2P Require Import Wire.
From S2P Require Import Beacon.
From S2P Require Import Discovery.
From S2P Require Import Registry.
From S2P Require Import Dedup.
From S2P Require Import Uuid.
From S2P Require Import Worker.
From S2P Require Import Interest.
From S2P Require Import Broker.
From S2P Require Import BrokerInv.
From S2P Require Import Delivery.

(** ** Malformed messages *)

Definition noted (l : MalformedLog) : Z := (foldr Z.add 0 (malformedReports l) + malformedCount l)%Z.

Lemma sum_snoc (ns : list Z) (n : Z) : foldr Z.add 0%Z (ns ++ [n]) = (foldr Z.add 0 ns + n)%Z.
Proof. induction ns as [|m ns IH]; simpl; [lia|]. rewrite IH. lia. Qed.

(** Every malformed message is in one report or in the count of the next one, and the
    reports are those the throttle lets through. *)
Lemma malformed_accounted ts l :
  (0 ≤ malformedCount l)%Z → (malformedCount l + Z.of_nat (length ts) < 2 ^ 64)%Z →
  let l' := foldl (λ l now, noteMalformed now l) l ts in
  noted l' = (noted l + Z.of_nat (length ts))%Z ∧
  length (malformedReports l') = length (malformedReports l) + length (fired ts (malformedThrottle l)).
Proof.
  revert l; induction ts as [|now ts IH]; intros l H0 H1; cbn [foldl fired length].
  { simpl. split; lia. }
  cbn [length] in H1. rewrite Nat2Z.inj_succ in *.
  assert (E : inc64 (malformedCount l) = (malformedCount l + 1)%Z).
  { unfold inc64, wrap. apply Z.mod_small. lia. }
  unfold noteMalformed at 2 4. rewrite E. destruct (ready now (malformedThrottle l)) as [[] t] eqn:Hr.
  - destruct (IH (mkMalformed 0 t (malformedReports l ++ [malformedCount l + 1]%Z))) as [-> ->]; simpl; [lia|lia|].
    unfold noted; simpl. rewrite sum_snoc, length_app. simpl. split; lia.
  - destruct (IH (mkMalformed (malformedCount l + 1) t (malformedReports l))) as [-> ->]; simpl; [lia|lia|].
    unfold noted; simpl. split; lia.
Qed.

(** The first malformed message is reported at once. *)
Lemma malformed_first now : malformedReports (noteMalformed now (new_malformed now)) = [1%Z].
Proof. unfold noteMalformed, ready; simpl. rewrite decide_False by lia. done. Qed.

Section runs.
Context {S : Type} `{!ZmqSender S} {W : Type} `{!WorkerInterface W} {PB : ProtobufRuntime}.
Implicit Types b : Broker S W.

(** ** Runs *)

Inductive BrokerEvent :=
  | EvMessage (env : Env) (header : MessageHeader) (payload senderId : string) (isFromPeer : bool)
  | EvSweep (env : Env) (now : Z)
  | EvStats (pack : SystemStats → Z → Z → Z → string) (env : Env)
  | EvAddPeer (env : Env) (opens : bool) (key address : string)
  | EvRemovePeer (key : string)
  | EvPeerCallback (key : string) (msg : Envelope).

Definition broker_step (ev : BrokerEvent) b : option (Broker S W) :=
  match ev with
  | EvMessage env header payload senderId isFromPeer =>
      processMessage env header payload senderId isFromPeer b
  | EvSweep env now => Some (sweep env now b)
  | EvStats pack env => Some (broadcastStats pack env b)
  | EvAddPeer env opens key address => Some (addPeer env opens key address b)
  | EvRemovePeer key => Some (removePeer key b)
  | EvPeerCallback key msg => Some (peerCallback key msg b)
  end.

Fixpoint broker_run (evs : list BrokerEvent) b : option (Broker S W) :=
  match evs with
  | [] => Some b
  | ev :: evs => b ← broker_step ev b; broker_run evs b
  end.

(** What a client that speaks first is answered: the keys of the control messages. *)
Definition session_replies (known : bool) (key : string) : list string :=
  (if known || bool_decide (key = Keys.CONNECT) then [] else [Keys.RESET]) ++
  (if decide (key = Keys.HEARTBEAT) then [Keys.HEARTBEAT_ACK] else []).

(** ** Lemmas *)

Context `{!WorkerLaws W}.

Lemma broker_step_inv ev b : broker_inv b → ∃ b', broker_step ev b = Some b' ∧ broker_inv b'.
Proof.
  intros Hinv. destruct ev; simpl.
  - by apply processMessage_inv.
  - eexists. split; [done|]. by apply sweep_loop_inv.
  - eexists. split; [done|]. by eapply frame_broker_inv; [apply broadcastStats_frame|].
  - eexists. split; [done|]. by apply addPeer_inv.
  - eexists. split; [done|]. by apply removePeer_inv.
  - eexists. split; [done|]. by apply peerCallback_inv.
Qed.

Lemma broker_run_inv evs b : broker_inv b → ∃ b', broker_run evs b = Some b' ∧ broker_inv b'.
Proof.
  revert b; induction evs as [|ev evs IH]; intros b Hinv; [by exists b|]. simpl.
  destruct (broker_step_inv ev b Hinv) as (b1 & -> & H1). simpl. by apply IH.
Qed.

(** *** What the handlers leave alone *)

(** Same duplicates, and links that were handed no data. *)
Record no_data b b' : Prop := {
  nd_seen : m_seen b' = m_seen b;
  nd_links : ∀ k l', m_peers b' !! k = Some l' →
    ∃ l, m_peers b !! k = Some l ∧ encoded_written (pl_worker l') = encoded_written (pl_worker l)
}.

#[export] Instance no_data_refl : Reflexive no_data.
Proof. split; eauto. Qed.

#[export] Instance no_data_trans : Transitive no_data.
Proof.
  intros b1 b2 b3 [E1 L1] [E2 L2]. split; [congruence|]. intros k l3 H3.
  destruct (L2 k l3 H3) as (l2 & H2 & ->). destruct (L1 k l2 H2) as (l1 & H1 & ->). eauto.
Qed.

Lemma no_data_frame b b' : frame b b' → no_data b b'.
Proof. intros F. split; [apply F|]. rewrite (frame_peers _ _ F). eauto. Qed.

Lemma no_data_foldl {A} (f : Broker S W → A → Broker S W) l b :
  (∀ b x, no_data b (f b x)) → no_data b (foldl f b l).
Proof.
  intros Hf. revert b; induction l as [|x l IH]; intros b; simpl; [reflexivity|].
  etrans; [apply Hf|apply IH].
Qed.

Lemma tell_no_data ho ms (peers : gmap string (PeerLink W)) k l' :
  for_each_peer ho (tell ms) peers !! k = Some l' →
  ∃ l, peers !! k = Some l ∧ encoded_written (pl_worker l') = encoded_written (pl_worker l).
Proof.
  rewrite for_each_lookup. intros (l & Hl & ->)%fmap_Some. exists l. split; [done|].
  unfold tell. simpl. apply write_controls_encoded.
Qed.

Lemma note_interest_no_data ho t w b : no_data b (note_interest ho t w b).
Proof.
  split; [done|]. intros k l'. unfold note_interest, noteMeshInterestChange. simpl.
  case_dec; [eauto|]. unfold noteTopicSubscribed, noteTopicUnsubscribed. simpl.
  destruct (hasMeshSubscriber t (m_subscriptions b)).
  - destruct (topicSubscribed t (m_interestState b)). apply tell_no_data.
  - destruct (topicUnsubscribed t (m_interestState b)). apply tell_no_data.
Qed.

Lemma removeClient_no_data env c b : no_data b (removeClient env c b).
Proof.
  unfold removeClient. etrans; [|apply no_data_foldl; intros; apply note_interest_no_data].
  split; [done|]. eauto.
Qed.

Lemma unlinkInboundPeers_no_data env b : no_data b (unlinkInboundPeers env b).
Proof.
  unfold unlinkInboundPeers. apply no_data_foldl. intros b1 c.
  etrans; [apply no_data_frame, socket_sendTo_frame|apply removeClient_no_data].
Qed.

Lemma removePeer_no_data key b : no_data b (removePeer key b).
Proof.
  unfold removePeer. destruct (m_peers b !! key); [|reflexivity]. split; [done|]. simpl.
  intros k l [_ H]%lookup_delete_Some. eauto.
Qed.

Lemma setCluster_only_drops ho name d e : e ∈ (setCluster ho name d).1 → ∃ u, e = Drop u.
Proof.
  unfold setCluster. case_dec; simpl; [by intros ?%not_elem_of_nil|].
  intros (u & -> & _)%list_elem_of_fmap. eauto.
Qed.

Lemma drops_no_data env evs b :
  (∀ e, e ∈ evs → ∃ u, e = Drop u) →
  no_data b (foldl (λ b e, discovery_event env true e b) b evs).
Proof.
  revert b; induction evs as [|e evs IH]; intros b Hd; simpl; [reflexivity|].
  destruct (Hd e) as [u ->]; [left|]. etrans; [apply removePeer_no_data|].
  apply IH. intros. apply Hd. by right.
Qed.

Lemma handleSetCluster_no_data env name b : no_data b (handleSetCluster env name b).
Proof.
  unfold handleSetCluster. destruct (negb _); [reflexivity|].
  destruct (m_discovery b); [|reflexivity]. case_dec; [reflexivity|].
  transitivity (unlinkInboundPeers env (with_clusterName name b)).
  - etrans; [|apply unlinkInboundPeers_no_data]. split; [done|]. eauto.
  - destruct (m_discovery _) as [d|]; [|reflexivity].
    pose proof (setCluster_only_drops (env_order env) name d) as Hd.
    destruct (setCluster _ _ _) as [evs d']. etrans; [|by apply drops_no_data].
    split; [done|]. eauto.
Qed.

Lemma handleClientMessage_no_data env header payload sender b :
  no_data b (handleClientMessage env header payload sender b).2.
Proof.
  unfold handleClientMessage. case_dec; [apply removeClient_no_data|].
  set (b1 := with_clients _ b). assert (no_data b b1) as H1 by (split; [done|]; eauto).
  clearbody b1. set (b2 := if decide (_ ∧ _) then _ else _).
  assert (no_data b b2) as H2.
  { unfold b2. case_dec; [|done]. etrans; [exact H1|]. apply no_data_frame, socket_sendTo_frame. }
  clearbody b2. etrans; [exact H2|]. repeat case_dec; simpl; try reflexivity.
  - apply no_data_frame, socket_sendTo_frame.
  - unfold handleSubscribe. repeat case_dec; try reflexivity; try (by apply no_data_frame).
    case_match; [by apply no_data_frame|]. destruct (subscribe _ _ _ _) as [[] reg].
    + etrans; [|apply note_interest_no_data]. split; [done|]. eauto.
    + split; [done|]. eauto.
  - unfold handleUnsubscribe. destruct (unsubscribe _ _ _) as [[] reg].
    + etrans; [|apply note_interest_no_data]. split; [done|]. eauto.
    + split; [done|]. eauto.
  - apply handleSetCluster_no_data.
Qed.

Lemma stamp_uuid env id h : message_uuid h ≠ EmptyString → stamp env id h = h.
Proof. intros. unfold stamp. by rewrite decide_False. Qed.

Lemma stamp_key env id h : handler_key (stamp env id h) = handler_key h.
Proof. unfold stamp. by case_dec. Qed.

Lemma with_seen_id b : with_seen (m_seen b) b = b.
Proof. by destruct b. Qed.

Lemma isDuplicate_remembered uuid st log :
  dedup_inv st log → dedup_id uuid ∈ remembered log → isDuplicate uuid st = Some (true, st).
Proof.
  intros Hinv Hin. destruct (isDuplicate_spec uuid st log Hinv) as (dup & st' & E & Hd & _).
  rewrite bool_decide_true in Hd by done. subst dup. by rewrite (isDuplicate_true _ _ _ E) in E.
Qed.

(** A remembered message is dropped: only the receive counters change. *)
Lemma duplicate_dropped env h payload sender peer b log :
  dedup_inv (m_seen b) log → Keys.isReservedKey (handler_key h) = false →
  message_uuid h ≠ EmptyString → dedup_id (message_uuid h) ∈ remembered log →
  processMessage env h payload sender peer b =
  Some (if peer then count_received (String.length (encodeHeader h) + String.length payload) b else b).
Proof.
  intros Hlog Hr Hu Hin. unfold processMessage. rewrite stamp_uuid, Hr by done.
  destruct peer; simpl; rewrite (isDuplicate_remembered _ _ _ Hlog Hin); simpl.
  - done.
  - by rewrite with_seen_id.
Qed.

Lemma floodPeers_seen env h p b : m_seen (floodPeers env h p b) = m_seen b.
Proof.
  unfold floodPeers. generalize (entries (env_order env) (m_peers b)). intros es.
  revert b; induction es as [|e es IH]; intros b; [done|]. simpl. rewrite IH.
  unfold flood_one. destruct (negb _); [done|]. by destruct (writeEncoded _ _) as [[] w].
Qed.

(** What processing a fresh message records. *)
Lemma processMessage_seen env h payload sender peer b b' log :
  dedup_inv (m_seen b) log → Keys.isReservedKey (handler_key h) = false →
  message_uuid h ≠ EmptyString →
  processMessage env h payload sender peer b = Some b' →
  ∃ log', dedup_inv (m_seen b') log' ∧ dedup_id (message_uuid h) ∈ remembered log'.
Proof.
  intros Hlog Hr Hu. unfold processMessage. rewrite stamp_uuid, Hr by done.
  set (b1 := if peer then _ else _).
  assert (m_seen b1 = m_seen b) as E1 by (unfold b1; by destruct peer).
  rewrite E1. destruct (isDuplicate_spec (message_uuid h) _ _ Hlog) as (dup & seen & -> & Hd & Hseen).
  simpl. destruct dup.
  - intros [= <-]. exists log. split; [done|]. symmetry in Hd. by apply bool_decide_eq_true in Hd.
  - set (b2 := tap_send _ _ (with_seen seen b1)). assert (m_seen b2 = seen) as E2 by done.
    clearbody b2. intros Hb. exists (dedup_id (message_uuid h) :: log).
    assert (m_seen b' = seen) as ->.
    { pose proof (handleClientMessage_no_data env h payload sender b2) as Hnd.
      destruct peer.
      - injection Hb as <-. rewrite floodPeers_seen.
        by rewrite (frame_seen _ _ (deliverToSubscribers_frame _ _ _ _ _ _)).
      - destruct (handleClientMessage env h payload sender b2) as [[] b3]; simpl in Hnd;
          injection Hb as <-; rewrite ?floodPeers_seen,
            ?(frame_seen _ _ (deliverToSubscribers_frame _ _ _ _ _ _)), (nd_seen _ _ Hnd); done. }
    split; [done|]. apply remembered_recent.
    pose proof history_bounds as [Hpos _]. destruct MaxHistorySize; [lia|]. left.
Qed.

(** *** Replies *)

Definition control_frame b (key : string) : string :=
  encodeHeader (makeControlHeader key (m_brokerId b) EmptyString).

(** The groups of the replies that were accepted. *)
Definition sent_replies b (sender : string) (keys : list string) (oks : list bool) : list (list string) :=
  concat (zip_with (λ key ok, if (ok : bool) then [frames (Some sender) (control_frame b key) EmptyString]
                              else []) keys oks).

Lemma socket_sendTo_wire `{!ZmqSenderLaws S} c h p b :
  sock_open (m_socket b) = [] →
  ∃ ok, sock_open (m_socket (socket_sendTo c h p b).2) = [] ∧
    sock_wire (m_socket (socket_sendTo c h p b).2) =
    sock_wire (m_socket b) ++ (if (ok : bool) then [frames (Some c) h p] else []).
Proof.
  intros Ho. unfold socket_sendTo, sendTo.
  destruct (sendFrames (m_socket b) (Some c) h p) as [ok s'] eqn:E. exists ok. simpl.
  by apply sendFrames_spec in E.
Qed.

Lemma socket_sendTo_keeps c h p b :
  m_clients (socket_sendTo c h p b).2 = m_clients b ∧
  m_subscriptions (socket_sendTo c h p b).2 = m_subscriptions b ∧
  m_brokerId (socket_sendTo c h p b).2 = m_brokerId b ∧
  m_discovery (socket_sendTo c h p b).2 = m_discovery b ∧
  m_clientTimeout (socket_sendTo c h p b).2 = m_clientTimeout b.
Proof. unfold socket_sendTo. by destruct (sendTo _ _ _ _). Qed.

(** A reply to [sender], and the client's entry refreshed. *)
Definition reply (sender : string) b (key : string) : Broker S W :=
  (socket_sendTo sender (control_frame b key) EmptyString b).2.

Definition touch (env : Env) (sender : string) b : Broker S W :=
  with_clients (<[sender := mkClient (env_now env)
    (default 0%Z (droppedMessages <$> m_clients b !! sender))]> (m_clients b)) b.

Lemma reply_keeps sender b key :
  m_clients (reply sender b key) = m_clients b ∧
  m_subscriptions (reply sender b key) = m_subscriptions b ∧
  m_brokerId (reply sender b key) = m_brokerId b.
Proof. unfold reply, socket_sendTo. by destruct (sendTo _ _ _ _). Qed.

Lemma replies_wire `{!ZmqSenderLaws S} sender keys b :
  sock_open (m_socket b) = [] →
  ∃ oks, length oks = length keys ∧
    sock_wire (m_socket (foldl (reply sender) b keys)) =
      sock_wire (m_socket b) ++ sent_replies b sender keys oks ∧
    m_clients (foldl (reply sender) b keys) = m_clients b ∧
    m_subscriptions (foldl (reply sender) b keys) = m_subscriptions b.
Proof.
  revert b; induction keys as [|key keys IH]; intros b Ho.
  - exists []. unfold sent_replies. simpl. by rewrite app_nil_r.
  - destruct (socket_sendTo_wire sender (control_frame b key) EmptyString b Ho) as (ok & Ho1 & Hw1).
    destruct (reply_keeps sender b key) as (Ec & Er & Eb).
    destruct (IH (reply sender b key) Ho1) as (oks & Hlen & Hw & Hc & Hr).
    exists (ok :: oks). split; [simpl; congruence|]. cbn [foldl]. split; [|by rewrite Hc, Hr].
    rewrite Hw. unfold reply at 1. rewrite Hw1, <-app_assoc. unfold sent_replies, control_frame.
    by rewrite Eb.
Qed.

Lemma handleClientMessage_session env h payload sender b :
  handler_key h ∉ [Keys.DISCONNECT; Keys.SUBSCRIBE; Keys.UNSUBSCRIBE; Keys.SET_CLUSTER] →
  handleClientMessage env h payload sender b =
  (bool_decide (handler_key h = Keys.CONNECT ∨ handler_key h = Keys.HEARTBEAT),
   foldl (reply sender) (touch env sender b)
     (session_replies (bool_decide (is_Some (m_clients b !! sender))) (handler_key h))).
Proof.
  intros Hk. rewrite !not_elem_of_cons in Hk. destruct Hk as (H1 & H2 & H3 & H4 & _).
  unfold handleClientMessage, session_replies. rewrite (decide_False (P := handler_key h = _)) by done.
  fold (touch env sender b). set (b1 := touch env sender b).
  set (r := if decide (_ ∧ _) then _ else _).
  assert (r = foldl (reply sender) b1 (if bool_decide (is_Some (m_clients b !! sender)) ||
    bool_decide (handler_key h = Keys.CONNECT) then [] else [Keys.RESET])) as ->.
  { unfold r. destruct (m_clients b !! sender) as [st|].
    - rewrite decide_False by naive_solver. done.
    - rewrite (bool_decide_false (is_Some None)) by (by intros []). simpl.
      case_dec as Hc; [rewrite bool_decide_false by tauto; done|].
      rewrite bool_decide_true; [done|]. destruct (decide (handler_key h = Keys.CONNECT)); tauto. }
  rewrite foldl_app. set (b2 := foldl _ b1 _).
  destruct (decide (handler_key h = Keys.CONNECT)) as [E|E].
  { rewrite bool_decide_true by tauto. rewrite decide_False; [done|]. by rewrite E. }
  destruct (decide (handler_key h = Keys.HEARTBEAT)) as [E'|E'].
  { by rewrite bool_decide_true by tauto. }
  rewrite !decide_False by done. by rewrite bool_decide_false by tauto.
Qed.

(** *** Removing clients *)

Lemma removeClient_held env c b c' t :
  held (m_subscriptions (removeClient env c b)) c' t =
  if decide (c = c') then None else held (m_subscriptions b) c' t.
Proof.
  unfold removeClient. generalize (meshTopics c (m_subscriptions b)). intros ts.
  set (b1 := with_clients _ _). destruct (note_interests_keep (env_order env) ts b1) as (-> & _).
  apply held_removeClient.
Qed.

Lemma removeClient_keeps env c b :
  m_discovery (removeClient env c b) = m_discovery b ∧
  m_brokerId (removeClient env c b) = m_brokerId b ∧
  m_clientTimeout (removeClient env c b) = m_clientTimeout b ∧
  m_clusterName (removeClient env c b) = m_clusterName b.
Proof.
  unfold removeClient. generalize (meshTopics c (m_subscriptions b)). intros ts.
  set (b1 := with_clients _ _).
  destruct (note_interests_keep (env_order env) ts b1) as (_ & _ & -> & -> & _ & -> & _ & ->). done.
Qed.

Definition expired (now timeout : Z) (e : string * ClientState) : Prop :=
  (now - lastSeen e.2 > timeout)%Z.

#[export] Instance expired_dec now timeout e : Decision (expired now timeout e).
Proof. unfold expired. apply _. Defined.

Lemma sweep_loop_spec env now es n b :
  n ≤ MaxRemovalsPerSweep →
  let rs := take (MaxRemovalsPerSweep - n) (filter (expired now (m_clientTimeout b)) es).*1 in
  let b' := sweep_loop env now es n b in
  (∀ c, m_clients b' !! c = if decide (c ∈ rs) then None else m_clients b !! c) ∧
  (∀ c t, held (m_subscriptions b') c t =
     if decide (c ∈ rs) then None else held (m_subscriptions b) c t).
Proof.
  revert n b; induction es as [|[id st] es IH]; intros n b Hn.
  - simpl. rewrite take_nil. done.
  - cbn [sweep_loop]. destruct (decide (n < MaxRemovalsPerSweep)) as [Hlt|Hge].
    + destruct (decide (expired now (m_clientTimeout b) (id, st))) as [He|He].
      * rewrite filter_cons_True, decide_True by done. destruct (removeClient_keeps env id b) as (_ & _ & Et & _).
        destruct (IH (Datatypes.S n) (removeClient env id b)) as [Hc Hh]; [lia|]. rewrite Et in Hc, Hh.
        replace (MaxRemovalsPerSweep - n) with (Datatypes.S (MaxRemovalsPerSweep - Datatypes.S n)) by lia.
        rewrite fmap_cons. cbn [take fst]. split.
        -- intros c. rewrite Hc, removeClient_clients.
           destruct (decide (c ∈ take _ _)) as [Hin|Hin];
             [by rewrite decide_True by (by right)|].
           destruct (decide (id = c)) as [->|Hne]; [by rewrite decide_True by left|].
           rewrite decide_False; [done|]. by intros [?|?]%elem_of_cons.
        -- intros c t. rewrite Hh, removeClient_held.
           destruct (decide (c ∈ take _ _)) as [Hin|Hin];
             [by rewrite decide_True by (by right)|].
           destruct (decide (id = c)) as [->|Hne]; [by rewrite decide_True by left|].
           rewrite decide_False; [done|]. by intros [?|?]%elem_of_cons.
      * rewrite filter_cons_False, decide_False by done. by apply IH.
    + replace (MaxRemovalsPerSweep - n) with 0 by lia. done.
Qed.

Lemma canSubscribe_spec c t b :
  canSubscribe c t b = true ↔
  is_Some (held (m_subscriptions b) c t) ∨
  size (default ∅ (m_clientTopics (m_subscriptions b) !! c)) < MAX_SUBSCRIPTIONS_PER_CLIENT.
Proof.
  unfold canSubscribe, subscriptionsOf, held.
  destruct (m_clientTopics (m_subscriptions b) !! c) as [m|]; simpl.
  - by rewrite orb_true_iff, !bool_decide_eq_true.
  - split; [intros _|done]. right. rewrite map_size_empty. apply max_subs_pos.
Qed.

Lemma stats_loop hb payload l b :
  foldl (λ b s,
      if negb (scopeAccepts (sub_scope s) true) then b
      else
        let '(ok, b) := socket_sendTo (sub_clientId s) hb payload b in
        if (ok : bool) then b else noteDroppedTo (sub_clientId s) b) b l =
  foldl (offer hb payload) b (sub_clientId <$> filter (λ s, scopeAccepts (sub_scope s) true = true) l).
Proof.
  revert b; induction l as [|s l IH]; intros b; [done|]. simpl. rewrite IH, filter_cons.
  destruct (scopeAccepts (sub_scope s) true); done.
Qed.

(** *** Leaving a cluster *)

Lemma unlink_loop_clients env f cs b c :
  m_clients (foldl (λ b c, removeClient env c (socket_sendTo c f EmptyString b).2) b cs) !! c =
  if decide (c ∈ cs) then None else m_clients b !! c.
Proof.
  revert b; induction cs as [|c0 cs IH]; intros b.
  - done.
  - cbn [foldl]. rewrite IH, removeClient_clients.
    destruct (socket_sendTo_keeps c0 f EmptyString b) as (-> & _).
    destruct (decide (c ∈ cs)) as [Hin|Hin]; [by rewrite decide_True by (by right)|].
    destruct (decide (c0 = c)) as [->|Hne]; [by rewrite decide_True by left|].
    rewrite decide_False; [done|]. by intros [?|?]%elem_of_cons.
Qed.

Lemma unlink_loop_keeps env f cs b :
  let b' := foldl (λ b c, removeClient env c (socket_sendTo c f EmptyString b).2) b cs in
  m_discovery b' = m_discovery b ∧ m_clusterName b' = m_clusterName b.
Proof.
  revert b; induction cs as [|c cs IH]; intros b; [done|].
  destruct (IH (removeClient env c (socket_sendTo c f EmptyString b).2)) as [Hd Hc].
  destruct (removeClient_keeps env c (socket_sendTo c f EmptyString b).2) as (Hd' & _ & _ & Hc').
  simpl. rewrite Hd, Hc, Hd', Hc'. unfold socket_sendTo. by destruct (sendTo _ _ _ _).
Qed.

Lemma unlinkInboundPeers_clients env b c :
  m_clients (unlinkInboundPeers env b) !! c = if isInboundLink c then None else m_clients b !! c.
Proof.
  unfold unlinkInboundPeers. rewrite unlink_loop_clients.
  destruct (isInboundLink c) eqn:E; case_dec as Hin; try done.
  - destruct (m_clients b !! c) as [st|] eqn:Ec; [|done]. destruct Hin.
    apply list_elem_of_filter. split; [done|]. apply elem_of_entries_keys. eauto.
  - apply list_elem_of_filter in Hin as [? _]. congruence.
Qed.

Lemma removePeer_spec key b k :
  m_peers (removePeer key b) !! k = (if decide (key = k) then None else m_peers b !! k) ∧
  m_clients (removePeer key b) = m_clients b ∧ m_discovery (removePeer key b) = m_discovery b ∧
  m_clusterName (removePeer key b) = m_clusterName b.
Proof.
  unfold removePeer. destruct (m_peers b !! key) as [l|] eqn:E; simpl.
  - rewrite lookup_delete. done.
  - case_dec; [|done]. by subst.
Qed.

Lemma drops_spec env us b :
  let b' := foldl (λ b e, discovery_event env true e b) b (Drop <$> us) in
  (∀ k, m_peers b' !! k = if decide (k ∈ us) then None else m_peers b !! k) ∧
  m_clients b' = m_clients b ∧ m_discovery b' = m_discovery b ∧ m_clusterName b' = m_clusterName b.
Proof.
  revert b; induction us as [|u us IH]; intros b; [done|].
  destruct (IH (removePeer u b)) as (Hp & Hc & Hd & Hn).
  destruct (removePeer_spec u b u) as (_ & Hc' & Hd' & Hn').
  cbn [fmap list_fmap foldl discovery_event]. split; [|rewrite Hc, Hd, Hn; done].
  intros k. rewrite Hp. destruct (removePeer_spec u b k) as (-> & _).
  destruct (decide (k ∈ us)) as [Hin|Hin]; [by rewrite decide_True by (by right)|].
  destruct (decide (u = k)) as [->|Hne]; [by rewrite decide_True by left|].
  rewrite decide_False; [done|]. by intros [?|?]%elem_of_cons.
Qed.
End runs.

Lemma peerLinkId_inbound brokerId key : isInboundLink (peerLinkId brokerId key) = true.
Proof. unfold isInboundLink, peerLinkId. apply starts_with_app. Qed.

(** ** Properties *)

Section properties.
Context {S : Type} `{!ZmqSender S} {W : Type} `{!WorkerInterface W} {PB : ProtobufRuntime}.
Context `{!WorkerLaws W}.
Implicit Types b : Broker S W.



(** C6: a message is delivered to exactly its recipients, each once.  The recipients of a
    message are the connected clients, its own local sender apart, that hold a
    subscription accepting its origin (local or mesh) on its topic or on the wildcard;
    none is listed twice, each is offered the message once, and each offer either puts
    the whole group on the wire or is counted as a drop. *)
Theorem delivery_exactly_once `{!ZmqSenderLaws S} b (header : MessageHeader)
    (headerBytes payload senderId : string) (isFromPeer : bool) :
  broker_inv b → sock_open (m_socket b) = [] →
  let cs := recipients b (topic header) senderId isFromPeer in
  let b' := deliverToSubscribers header headerBytes payload senderId isFromPeer b in
  NoDup cs ∧
  (∀ c, c ∈ cs ↔
     (isFromPeer = true ∨ c ≠ senderId) ∧ is_Some (m_clients b !! c) ∧
     ∃ t s, (t = topic header ∨ t = Keys.WILDCARD_TOPIC) ∧ held (m_subscriptions b) c t = Some s ∧
            scopeAccepts s (negb isFromPeer) = true) ∧
  ∃ oks, length oks = length cs ∧
    sock_wire (m_socket b') = sock_wire (m_socket b) ++ sent_groups headerBytes payload cs oks ∧
    m_totalDropped b' = Nat.iter (refusals oks) inc64 (m_totalDropped b).
Proof.
  intros Hinv Ho cs b'. pose proof (inv_registry _ _ Hinv) as Hwf. split_and!.
  - by apply recipients_NoDup.
  - intros c. by apply elem_of_recipients.
  - unfold b'. rewrite deliverToSubscribers_offers.
    destruct (offers_wire headerBytes payload cs b Ho) as (oks & ? & _ & ? & ?). by exists oks.
Qed.


(** Control traffic is never routed.  Processing a message with a reserved key hands
    no data to any peer link; from a peer it touches neither clients nor subscriptions
    nor the ROUTER socket. *)
Theorem reserved_never_routed (env : Env) (h : MessageHeader) (payload senderId : string)
    (isFromPeer : bool) b b' :
  Keys.isReservedKey (handler_key h) = true →
  processMessage env h payload senderId isFromPeer b = Some b' →
  (∀ k l', m_peers b' !! k = Some l' →
     ∃ l, m_peers b !! k = Some l ∧ encoded_written (pl_worker l') = encoded_written (pl_worker l)) ∧
  (isFromPeer = true → m_socket b' = m_socket b ∧ m_clients b' = m_clients b ∧
     m_subscriptions b' = m_subscriptions b ∧ m_peers b' = m_peers b).
Proof.
  intros Hr. unfold processMessage. rewrite stamp_key, Hr. simpl.
  destruct isFromPeer; simpl.
  - intros [= <-]. split; [eauto|done].
  - set (b1 := tap_send _ _ _).
    pose proof (handleClientMessage_no_data env (stamp env (m_brokerId b) h) payload senderId b1) as [_ Hl].
    destruct (handleClientMessage _ _ _ _ b1) as [[] b2]; intros [= <-]; (split; [|done]);
      intros k l' (l & ? & ?)%Hl; eauto.
Qed.

(** The session handshake.  A message from a client other than the (un)subscribe,
    disconnect and cluster keys registers the sender with the current time and draws
    exactly these replies, in order: RESET when the broker did not know the sender and
    it does not lead with CONNECT, then HEARTBEAT_ACK when it is a heartbeat.  CONNECT
    and heartbeats are handled here, anything else is left to routing. *)
Theorem session_handshake `{!ZmqSenderLaws S} (env : Env) (h : MessageHeader)
    (payload senderId : string) b :
  sock_open (m_socket b) = [] →
  handler_key h ∉ [Keys.DISCONNECT; Keys.SUBSCRIBE; Keys.UNSUBSCRIBE; Keys.SET_CLUSTER] →
  let '(handled, b') := handleClientMessage env h payload senderId b in
  let replies := session_replies (bool_decide (is_Some (m_clients b !! senderId))) (handler_key h) in
  handled = bool_decide (handler_key h = Keys.CONNECT ∨ handler_key h = Keys.HEARTBEAT) ∧
  (lastSeen <$> m_clients b' !! senderId) = Some (env_now env) ∧
  m_subscriptions b' = m_subscriptions b ∧
  ∃ oks, length oks = length replies ∧
    sock_wire (m_socket b') = sock_wire (m_socket b) ++ sent_replies b senderId replies oks.
Proof.
  intros Ho Hk. rewrite handleClientMessage_session by done.
  set (replies := session_replies _ _).
  destruct (replies_wire senderId replies (touch env senderId b)) as (oks & H1 & H2 & H3 & H4); [done|].
  split; [done|]. rewrite H3, H4. simpl. rewrite lookup_insert_eq. split; [done|]. split; [done|].
  by exists oks.
Qed.

(** The caps on subscriptions.  A SUBSCRIBE is recorded, with the scope of its
    payload, iff its topic has 1 to 512 bytes and the client holds it already or holds
    fewer than 10000; otherwise no part of the routing state changes, and unless the
    topic was empty the rejection is counted. *)
Theorem handleSubscribe_contract (env : Env) (t payload c : string) b :
  let b' := handleSubscribe env t payload c b in
  let accepted := 0 < String.length t ≤ 512 ∧
    (is_Some (held (m_subscriptions b) c t) ∨
     size (default ∅ (m_clientTopics (m_subscriptions b) !! c)) < MAX_SUBSCRIPTIONS_PER_CLIENT) in
  (accepted →
     abs_registry (m_subscriptions b') =
       <[(c, t) := decodeSubscribeScope payload]> (abs_registry (m_subscriptions b)) ∧
     m_rejectedSubscriptions b' = m_rejectedSubscriptions b) ∧
  (¬ accepted →
     m_subscriptions b' = m_subscriptions b ∧ m_interestState b' = m_interestState b ∧
     m_peers b' = m_peers b ∧
     m_rejectedSubscriptions b' =
       if decide (t = EmptyString) then m_rejectedSubscriptions b else inc64 (m_rejectedSubscriptions b)).
Proof.
  intros b' accepted. unfold b', handleSubscribe.
  destruct (decide (t = EmptyString)) as [->|Ht].
  { split; [intros [? _]; simpl in *; lia|done]. }
  assert (0 < String.length t) as Hpos by (destruct t; [done|simpl; lia]).
  destruct (decide (MAX_TOPIC_LENGTH_BYTES < String.length t)) as [Hlen|Hlen].
  { split; [|done]. intros [[_ H] _]. unfold MAX_TOPIC_LENGTH_BYTES in Hlen. lia. }
  assert (canSubscribe c t b = true ↔ accepted) as Hcan.
  { unfold accepted. rewrite canSubscribe_spec. unfold MAX_TOPIC_LENGTH_BYTES in Hlen.
    split; [|tauto]. intros. split; [lia|done]. }
  destruct (canSubscribe c t b) eqn:Ec; simpl.
  - split; [intros _|intros []; tauto].
    destruct (subscribe_refines c t (decodeSubscribeScope payload) (m_subscriptions b)) as [Hr _].
    destruct (subscribe _ _ _ _) as [[] reg]; done.
  - split; [|done]. intros H. apply Hcan in H. done.
Qed.

(** DISCONNECT forgets the client and nobody else: its session and every subscription
    of it are gone, the other clients' are unchanged. *)
Theorem disconnect_forgets_client (env : Env) (h : MessageHeader) (payload senderId : string) b :
  handler_key h = Keys.DISCONNECT →
  let '(handled, b') := handleClientMessage env h payload senderId b in
  handled = true ∧
  (∀ c, m_clients b' !! c = if decide (senderId = c) then None else m_clients b !! c) ∧
  (∀ c t, held (m_subscriptions b') c t =
     if decide (senderId = c) then None else held (m_subscriptions b) c t).
Proof.
  intros Hk. unfold handleClientMessage. rewrite decide_True by done. split; [done|].
  split; [intros c; apply removeClient_clients|intros c t; apply removeClient_held].
Qed.

(** C26: the zombie sweep.  It removes only clients silent for longer than the timeout, at
    most [MaxRemovalsPerSweep] of them, and all of them when there are no more than
    that; a removed client loses its session and its subscriptions, every other client
    keeps both. *)
Theorem sweep_removes_expired (env : Env) (now : Z) b :
  ∃ removed,
    NoDup removed ∧ length removed ≤ MaxRemovalsPerSweep ∧
    (∀ c, c ∈ removed → ∃ st, m_clients b !! c = Some st ∧ (now - lastSeen st > m_clientTimeout b)%Z) ∧
    (length removed < MaxRemovalsPerSweep →
       ∀ c st, m_clients b !! c = Some st → (now - lastSeen st > m_clientTimeout b)%Z → c ∈ removed) ∧
    (∀ c, m_clients (sweep env now b) !! c = if decide (c ∈ removed) then None else m_clients b !! c) ∧
    (∀ c t, held (m_subscriptions (sweep env now b)) c t =
       if decide (c ∈ removed) then None else held (m_subscriptions b) c t).
Proof.
  set (ex := (filter (expired now (m_clientTimeout b)) (entries (env_order env) (m_clients b))).*1).
  exists (take MaxRemovalsPerSweep ex).
  assert (NoDup ex) as Hnd by (apply NoDup_fmap_filter, NoDup_entries).
  assert (∀ c, c ∈ ex ↔ ∃ st, m_clients b !! c = Some st ∧ (now - lastSeen st > m_clientTimeout b)%Z) as Hex.
  { intros c. unfold ex. rewrite list_elem_of_fmap. setoid_rewrite list_elem_of_filter. split.
    - intros ([c' st] & -> & He & Hin%elem_of_entries). eauto.
    - intros (st & Hin%(elem_of_entries (env_order env)) & He). by exists (c, st). }
  destruct (sweep_loop_spec env now (entries (env_order env) (m_clients b)) 0 b) as [Hc Hh]; [lia|].
  rewrite Nat.sub_0_r in Hc, Hh. split_and!; try done.
  - rewrite <-(take_drop MaxRemovalsPerSweep ex) in Hnd. by apply NoDup_app in Hnd as [? _].
  - rewrite length_take. lia.
  - intros c (i & Hi & _)%elem_of_take. apply Hex. by eapply list_elem_of_lookup_2.
  - rewrite length_take. intros Hlt c st Hst He.
    rewrite take_ge by lia. apply Hex. eauto.
Qed.

(** C25: a cluster swap cuts the old mesh.  SET_CLUSTER with a new valid name, on a broker
    with discovery, leaves no client whose identity is a peer link's (every identity
    [peerLinkId] makes is one), keeps all other clients, closes every link discovery
    had dialed and empties its table, and switches both names. *)
Theorem cluster_swap_unlinks (env : Env) (name : string) b d :
  isValidClusterName name = true → m_discovery b = Some d →
  name ≠ m_clusterName b → name ≠ m_cluster d →
  let b' := handleSetCluster env name b in
  (∀ id key, m_clients b' !! peerLinkId id key = None) ∧
  (∀ c, isInboundLink c = false → m_clients b' !! c = m_clients b !! c) ∧
  (∀ uuid, is_Some (m_dialed d !! uuid) → m_peers b' !! uuid = None) ∧
  m_clusterName b' = name ∧
  ∃ d', m_discovery b' = Some d' ∧ m_cluster d' = name ∧ m_dialed d' = ∅.
Proof.
  intros Hv Hd Hn Hn'. unfold handleSetCluster. rewrite Hv, Hd. simpl. rewrite decide_False by done.
  set (b1 := unlinkInboundPeers env (with_clusterName name b)).
  destruct (unlink_loop_keeps env (encodeHeader (makeControlHeader Keys.UNLINK (m_brokerId b) EmptyString))
    (filter (λ c, isInboundLink c = true) (entries (env_order env) (m_clients b)).*1)
    (with_clusterName name b)) as [Ed Ec].
  change (m_discovery b1 = m_discovery b) in Ed. change (m_clusterName b1 = name) in Ec.
  rewrite Ed, Hd. unfold setCluster. rewrite decide_False by done.
  destruct (drops_spec env (entries (env_order env) (m_dialed d)).*1
    (with_discovery (Some (with_dialed ∅ (with_cluster name d))) b1)) as (Hp & Hc & Hd' & Hn2).
  rewrite Hc, Hd', Hn2. simpl.
  assert (∀ c, m_clients b1 !! c = if isInboundLink c then None else m_clients b !! c) as Hcl.
  { intros c. apply (unlinkInboundPeers_clients env (with_clusterName name b)). }
  split_and!.
  - intros id key. by rewrite Hcl, peerLinkId_inbound.
  - intros c E. by rewrite Hcl, E.
  - intros uuid Hu. rewrite Hp, decide_True; [done|]. by apply elem_of_entries_keys.
  - done.
  - eexists. done.
Qed.

(** A message is flooded to every active link once.  Each active link is handed the
    encoded message exactly once (appended to what its worker took, or refused and
    counted as a drop), a link told to unlink is handed nothing, and no link is added,
    lost or given control traffic. *)
Theorem flood_each_link_once (env : Env) (headerBytes payload : string) b :
  let fwd := makeWireMessage headerBytes payload in
  let b' := floodPeers env headerBytes payload b in
  dom (m_peers b') = dom (m_peers b) ∧
  (∀ k link, m_peers b !! k = Some link → ∃ link', m_peers b' !! k = Some link' ∧
     encoded_written (pl_worker link') = encoded_written (pl_worker link) ++
       (if decide (pl_active link = true ∧ (writeEncoded fwd (pl_worker link)).1 = true) then [fwd] else []) ∧
     control_written (pl_worker link') = control_written (pl_worker link)) ∧
  m_totalDropped b' = Nat.iter (length (filter (flood_refused fwd) (entries (env_order env) (m_peers b))))
    inc64 (m_totalDropped b).
Proof.
  intros fwd b'. destruct (floodPeers_spec env headerBytes payload b) as (Hp & Hd & _).
  fold b' fwd in Hp, Hd. split; [rewrite Hp; apply dom_fmap_L|]. split; [|done].
  intros k link Hl. rewrite Hp, lookup_fmap, Hl. eexists. split; [done|].
  unfold flood_link. destruct (pl_active link) eqn:Ha.
  - destruct (writeEncoded fwd (pl_worker link)) as [ok w] eqn:E. simpl.
    apply writeEncoded_law in E as (-> & -> & _).
    destruct ok; [by rewrite decide_True|by rewrite decide_False by naive_solver].
  - rewrite decide_False by naive_solver. by rewrite app_nil_r.
Qed.

(** RESET recovery.  When a remote answers RESET, the link re-sends the whole interest
    and nothing else, and those messages alone make a remote that had forgotten
    everything mirror the interest again. *)
Theorem reset_resends_interest (key : string) (msg : Envelope) b (link : PeerLink W) :
  m_peers b !! key = Some link → handler_key (env_header msg) = Keys.RESET →
  ∃ link', m_peers (peerCallback key msg b) !! key = Some link' ∧
    (control_refused (pl_worker link') = 0 →
     control_written (pl_worker link') = control_written (pl_worker link) ++
       (link_control (pl_linkId link) <$> interestMessages (m_interestState b))) ∧
    mirrors (m_interestState b)
      (remote_topics (link_control (pl_linkId link) <$> interestMessages (m_interestState b))).
Proof.
  intros Hl Hk. unfold peerCallback. rewrite Hl, decide_False by (by rewrite Hk).
  rewrite decide_True by done. simpl. rewrite lookup_insert_eq. eexists. split; [done|]. split.
  - simpl. apply write_controls_written.
  - unfold remote_topics. rewrite remote_foldl. apply interestMessages_mirrors. by left.
Qed.


(** Stats stay on this broker.  A stats broadcast offers the report once to each
    client that subscribes to the stats key by name with a scope that includes local
    traffic, and to nobody else: a wildcard subscription, a peer link's included, never
    draws it.  The report lists every client once, with at most
    [MaxListedSubscriptions] of its topics and their true number. *)
Theorem stats_to_local_subscribers (pack : SystemStats → Z → Z → Z → string) (env : Env) b :
  broker_inv b →
  let hb := encodeHeader (makeControlHeader Keys.SYS_STATS "BROKER_SYSTEM" Keys.SYS_STATS) in
  let payload := pack (systemStats env b) (m_msgsInterval b) (m_bytesInterval b)
                   (env_now env - m_lastStatsTime b)%Z in
  ∃ cs, NoDup cs ∧
    (∀ c, c ∈ cs ↔ ∃ s, held (m_subscriptions b) c Keys.SYS_STATS = Some s ∧ scopeAccepts s true = true) ∧
    broadcastStats pack env b = foldl (offer hb payload) (tap_send hb payload b) cs ∧
    (ci_id <$> st_connected_clients (systemStats env b)) ≡ₚ (map_to_list (m_clients b)).*1 ∧
    (∀ ci, ci ∈ st_connected_clients (systemStats env b) →
       length (ci_subscriptions ci) ≤ MaxListedSubscriptions ∧
       ci_subscription_count ci =
         wrap 32 (Z.of_nat (size (default ∅ (m_clientTopics (m_subscriptions b) !! ci_id ci))))).
Proof.
  intros Hinv hb payload. pose proof (inv_registry _ _ Hinv) as Hwf.
  exists (sub_clientId <$> filter (λ s, scopeAccepts (sub_scope s) true = true)
            (default [] (subscribersOf Keys.SYS_STATS (m_subscriptions b)))).
  split_and!.
  - apply NoDup_fmap_filter. rewrite <-subs_of_subscribersOf. apply (wf_once _ Hwf).
  - intros c. rewrite list_elem_of_fmap. setoid_rewrite list_elem_of_filter. split.
    + intros ([c' s] & -> & Ha & Hin). exists s. split; [by apply elem_of_subs|done].
    + intros (s & Hh & Ha). exists (mkSubscriber c s). split; [done|]. split; [done|]. by apply elem_of_subs.
  - unfold broadcastStats. fold hb payload. apply stats_loop.
  - unfold systemStats. simpl. rewrite <-list_fmap_compose.
    rewrite (list_fmap_ext _ fst); [by rewrite entries_perm|].
    intros i [c st] _. unfold clientInfo. simpl. by destruct (subscriptionsOf c _).
  - intros ci Hci. unfold systemStats in Hci. simpl in Hci.
    apply list_elem_of_fmap in Hci as ([c st] & -> & _). unfold clientInfo, subscriptionsOf. simpl.
    destruct (m_clientTopics (m_subscriptions b) !! c) as [m|] eqn:E; simpl; rewrite ?E; simpl.
    + split; [rewrite length_take; lia|done].
    + split; [unfold MaxListedSubscriptions; lia|done].
Qed.
End properties.

Section loop_properties.
Context {S : Type} `{!ZmqSender S} {W : Type} `{!WorkerInterface W} {PB : ProtobufRuntime}.
Context {R : Type} `{!ZmqReceiver R}.

(** The broker loop never gets stuck and keeps the invariant: one pass over the
    sockets, the peer queue, the sweep and the stats always completes, whatever
    arrives. *)
Theorem broker_iteration_total `{!WorkerLaws W} (pack : SystemStats → Z → Z → Z → string)
    (readable : bool) (envs peerEnvs : nat → Env) (env : Env) (st : RunState S W R) :
  broker_inv (rs_broker st) →
  ∃ st', broker_iteration pack readable envs peerEnvs env st = Some st' ∧ broker_inv (rs_broker st').
Proof. apply broker_iteration_inv. Qed.

(** The ROUTER socket stays aligned on message boundaries.  Whatever group a client
    sent (a lone identity frame, a header that does not decode, frames past the
    payload), reading it consumes exactly that group; a well-formed one is received
    with its identity, header and payload. *)
Theorem router_recv_aligned `{!ProtobufLaws} `{!ZmqReceiverLaws R} (sock : R) (identity : string)
    (rest : list string) (q : list (list string)) :
  sock_rest sock = [] → sock_queue sock = (identity :: rest) :: q →
  ∃ input sock', router_recv sock = (input, sock') ∧
    sock_rest sock' = [] ∧ sock_queue sock' = q ∧
    match rest with
    | [] => input = Malformed
    | headerFrame :: more =>
        match decodeHeaderFrame headerFrame with
        | None => input = Malformed
        | Some h => input = Received identity h (default EmptyString (head more))
                      (String.length headerFrame + String.length (default EmptyString (head more)))
        end
    end.
Proof.
  intros Hr Hq. unfold router_recv. destruct (zmq_recv_next _ _ _ _ Hr Hq) as (s1 & -> & Hr1 & Hq1).
  rewrite zmq_more, Hr1. destruct rest as [|headerFrame more].
  - rewrite bool_decide_true by done. simpl. by exists Malformed, s1.
  - rewrite bool_decide_false by done. simpl.
    destruct (zmq_recv_rest _ _ _ Hr1) as (s2 & -> & Hr2 & Hq2).
    destruct (decodeHeaderFrame headerFrame) as [h|].
    + destruct (recvPayload_spec s2) as (Hp & Hr3 & Hq3). rewrite Hr2 in Hp.
      destruct (recvPayload s2) as [p s3]. simpl in *. subst p. eexists _, s3. split; [done|].
      split; [done|]. split; [congruence|done].
    + destruct (drainMultipart_spec (length (sock_rest s2)) s2) as [? Hq3]; [lia|].
      eexists _, _. split; [done|]. split; [done|]. split; [congruence|done].
Qed.
(** A message with a string that is not UTF-8 never arrives: the client's library serializes
    it like any other, and the broker takes it off its socket as malformed, before routing. *)
Theorem non_utf8_dropped `{!ProtobufLaws} `{!ZmqReceiverLaws R} (sock : R) (identity payload : string) (h : MessageHeader)
    (q : list (list string)) :
  pb_sized h → header_utf8 h = false → sock_rest sock = [] → sock_queue sock = frames (Some identity) (encodeHeader h) payload :: q →
  ∃ sock', router_recv sock = (Malformed, sock') ∧ sock_rest sock' = [] ∧ sock_queue sock' = q.
Proof.
  intros Hs Hu Hr Hq. destruct (router_recv_aligned sock identity (encodeHeader h :: if bool_decide (0 < String.length payload) then [payload] else []) q Hr Hq) as (input & sock' & E & H1 & H2 & Hm).
  rewrite decode_encodeHeader_refused in Hm by done. subst input. by exists sock'.
Qed.
End loop_properties.

(** ** Witnesses

    The properties at concrete inputs, with the demonstration instances of [Wire] and
    [Worker]. *)

#[local] Existing Instance demo_runtime.
#[local] Existing Instance demo_runtime_laws.
#[local] Existing Instance demo_sender.
#[local] Existing Instance demo_sender_laws.
#[local] Existing Instance demo_receiver.
#[local] Existing Instance demo_receiver_laws.

Definition demo_env : Env := mkEnv 100 some_order 1 2.

Definition demo_broker : Broker DemoSender DemoWorker :=
  new_broker "3f2a77c0-broker" 10000 (mkDemoSender (Some ["alice"%string; "bob"%string]) 10 [] [])
    (mkDemoSender None 10 [] []).

(** alice is connected and subscribed to "news". *)
Definition demo_subscribed : Broker DemoSender DemoWorker :=
  handleSubscribe demo_env "news" "" "alice"
    (with_clients {[ "alice" := mkClient 90 0 ]} demo_broker).

Lemma demo_broker_inv : broker_inv demo_broker.
Proof. apply new_broker_inv. Qed.

Lemma demo_subscribed_inv : broker_inv demo_subscribed.
Proof.
  apply handleSubscribe_inv; [|by eexists]. pose proof demo_broker_inv as Hinv.
  split; try apply Hinv. intros c [m Hm].
  change ((∅ : gmap string (gmap string Origin)) !! c = Some m) in Hm. by rewrite lookup_empty in Hm.
Qed.

Definition demo_events : list BrokerEvent :=
  [EvAddPeer demo_env true "k" "tcp://10.0.0.2:5555";
   EvMessage demo_env (makeControlHeader Keys.SUBSCRIBE "alice" "news") EmptyString "alice" false].



Lemma delivery_exactly_once_witness :
  NoDup (recipients demo_subscribed "news" "bob" false) ∧
  "alice"%string ∈ recipients demo_subscribed "news" "bob" false.
Proof.
  destruct (delivery_exactly_once demo_subscribed (mkHeader "k" "bob" "news" "" "u" "") "H" "P" "bob" false)
    as (Hnd & Hin & _).
  - apply demo_subscribed_inv.
  - reflexivity.
  - split; [exact Hnd|]. apply Hin. split; [right; discriminate|]. split; [by eexists|].
    exists "news"%string, Origins.Any. split; [left; reflexivity|]. split; reflexivity.
Defined.


Lemma reserved_never_routed_witness :
  ∃ b', processMessage demo_env (makeControlHeader "__FUTURE__" "x" "news") "P" "PEER" true demo_subscribed = Some b' ∧
    m_clients b' = m_clients demo_subscribed.
Proof.
  destruct (processMessage_inv demo_env (makeControlHeader "__FUTURE__" "x" "news") "P" "PEER" true
    demo_subscribed demo_subscribed_inv) as (b1 & E & _).
  exists b1. split; [exact E|].
  apply (reserved_never_routed demo_env (makeControlHeader "__FUTURE__" "x" "news") "P" "PEER" true
    demo_subscribed b1); [reflexivity|exact E|reflexivity].
Defined.

Lemma session_handshake_witness :
  let '(handled, b') := handleClientMessage demo_env (makeControlHeader Keys.HEARTBEAT "bob" "") "" "bob" demo_broker in
  handled = true.
Proof.
  pose proof (session_handshake demo_env (makeControlHeader Keys.HEARTBEAT "bob" "") "" "bob" demo_broker) as H.
  destruct (handleClientMessage _ _ _ _ _) as [handled b']. apply H.
  - reflexivity.
  - apply (bool_decide_unpack _). reflexivity.
Defined.

Lemma handleSubscribe_contract_witness :
  abs_registry (m_subscriptions (handleSubscribe demo_env "news" "" "alice" demo_broker)) =
  <[("alice", "news")%string := Origins.Any]> (abs_registry (m_subscriptions demo_broker)).
Proof.
  apply (handleSubscribe_contract demo_env "news" "" "alice" demo_broker). split; [simpl; lia|].
  right. apply max_subs_pos.
Defined.

Lemma disconnect_forgets_client_witness :
  m_clients (handleClientMessage demo_env (makeControlHeader Keys.DISCONNECT "alice" "") "" "alice"
    demo_subscribed).2 !! "alice"%string = None.
Proof.
  pose proof (disconnect_forgets_client demo_env (makeControlHeader Keys.DISCONNECT "alice" "") "" "alice"
    demo_subscribed eq_refl) as H.
  destruct (handleClientMessage _ _ _ _ _) as [handled b']. destruct H as (_ & Hc & _).
  simpl. rewrite Hc. reflexivity.
Defined.

Lemma cluster_swap_unlinks_witness :
  m_clusterName (handleSetCluster demo_env "blue"
    (with_discovery (Some (new_discovery "red" "3f2a77c0-broker" 5555 0)) (with_clusterName "red" demo_broker)))
  = "blue"%string.
Proof.
  apply (cluster_swap_unlinks demo_env "blue"
    (with_discovery (Some (new_discovery "red" "3f2a77c0-broker" 5555 0)) (with_clusterName "red" demo_broker))
    (new_discovery "red" "3f2a77c0-broker" 5555 0)); [reflexivity|reflexivity|discriminate|discriminate].
Defined.

Definition demo_linked : Broker DemoSender DemoWorker :=
  addPeer demo_env true "k" "tcp://10.0.0.2:5555" demo_broker.

Lemma flood_each_link_once_witness :
  dom (m_peers (floodPeers demo_env "H" "P" demo_linked)) = dom (m_peers demo_linked).
Proof. apply (flood_each_link_once demo_env "H" "P" demo_linked). Defined.

Lemma reset_resends_interest_witness :
  ∃ link', m_peers (peerCallback "k" (makeControl Keys.RESET "remote" "") demo_linked) !! "k"%string = Some link'.
Proof.
  destruct (reset_resends_interest "k" (makeControl Keys.RESET "remote" "") demo_linked
    (mkPeerLink "tcp://10.0.0.2:5555" (peerLinkId "3f2a77c0-broker" "k") (mkDemoWorker 8 [] 0 [] []) true))
    as (link' & H & _); [reflexivity|reflexivity|]. by exists link'.
Defined.


Lemma stats_to_local_subscribers_witness :
  ∃ cs, NoDup cs ∧ broadcastStats (λ _ _ _ _, "any"%string) demo_env demo_subscribed =
    foldl (offer (encodeHeader (makeControlHeader Keys.SYS_STATS "BROKER_SYSTEM" Keys.SYS_STATS)) "any")
      (tap_send (encodeHeader (makeControlHeader Keys.SYS_STATS "BROKER_SYSTEM" Keys.SYS_STATS)) "any"
         demo_subscribed) cs.
Proof.
  destruct (stats_to_local_subscribers (λ _ _ _ _, "any"%string) demo_env demo_subscribed demo_subscribed_inv)
    as (cs & H1 & _ & H2 & _). exists cs. split; [exact H1|exact H2].
Defined.

Lemma broker_iteration_total_witness :
  ∃ st', broker_iteration (λ _ _ _ _, EmptyString) true (λ _, demo_env) (λ _, demo_env) demo_env
    (mkRunState demo_subscribed (mkDemoReceiver [] [["bob"%string]]) 0 (new_malformed 0)) = Some st' ∧ broker_inv (rs_broker st').
Proof.
  apply (broker_iteration_total (λ _ _ _ _, EmptyString) true (λ _, demo_env) (λ _, demo_env) demo_env
    (mkRunState demo_subscribed (mkDemoReceiver [] [["bob"%string]]) 0 (new_malformed 0))).
  apply demo_subscribed_inv.
Defined.

Lemma router_recv_aligned_witness :
  ∃ input sock', router_recv (mkDemoReceiver [] [["bob"%string; "?"%string; "x"%string]]) = (input, sock') ∧
    sock_rest sock' = [] ∧ sock_queue sock' = [].
Proof.
  destruct (router_recv_aligned (mkDemoReceiver [] [["bob"%string; "?"%string; "x"%string]]) "bob"
    ["?"%string; "x"%string] []) as (i & s & H1 & H2 & H3 & _); [reflexivity|reflexivity|].
  by exists i, s.
Defined.
