(* ===== verification/Mesh.v ===== *)
(** * A mesh of brokers

    Composes the brokers of [Broker] over their links.  A link is dialed by one broker and
    arrives at another's ROUTER ([server/broker.cpp], [addPeer] and [run]): what the dialing
    side's worker is handed by [floodPeers] arrives there as a client's message, and what the
    other side sends to the link's identity arrives at the dialing side's [peerCallback], which
    queues it for [run] to drain.  A [Mesh] is the brokers and the packets in flight; its steps
    run the brokers' own handlers and collect what they emit.

    The lemmas say what one broker makes of one message: either it has seen it, and nothing
    leaves, or it records it, hands it to every active link and sends it once to everyone
    subscribed ([process_data], [process_advance]). *)

From Stdlib Require Import ZArith Lia.
From S2P Require Import Prelude.
From S2P Require Import MessageKeys.
From S2P Require Import Config.
From S2P Require Import SafeQueue.
From S2P Require Import Wire.
From S2P Require Import Registry.
From S2P Require Import Dedup.
From S2P Require Import Worker.
From S2P Require Import Interest.
From S2P Require Import Broker.
From S2P Require Import BrokerInv.
From S2P Require Import Delivery.
From S2P Require Import BrokerSpec.

(** A counter that has not moved has counted nothing. *)
Lemma iter_inc64 n z : (0 < n)%nat → Nat.iter n inc64 z = wrap 64 (z + Z.of_nat n).
Proof.
  induction n as [|n IH]; [lia|]. intros _. destruct n as [|n]; [done|].
  rewrite Nat.iter_succ, IH by lia. unfold inc64, wrap. rewrite Zplus_mod_idemp_l. f_equal. lia.
Qed.

Lemma iter_inc64_fix n z : (Z.of_nat n < 2 ^ 64)%Z → Nat.iter n inc64 z = z → n = 0.
Proof.
  intros Hn E. destruct n as [|n]; [done|]. rewrite iter_inc64 in E by lia. unfold wrap in E.
  pose proof (Z.mod_pos_bound (z + Z.of_nat (Datatypes.S n)) (2 ^ 64) eq_refl).
  pose proof (Z.div_mod (z + Z.of_nat (Datatypes.S n)) (2 ^ 64) ltac:(done)) as Hdiv. rewrite E in Hdiv. lia.
Qed.

Section node.
Context {S : Type} `{!ZmqSender S} `{!ZmqSenderLaws S} {W : Type} `{!WorkerInterface W} `{!WorkerLaws W} {PB : ProtobufRuntime}.
Implicit Types b : Broker S W.

(** The ids in the two windows of the duplicate filter. *)
Definition known b : gset MessageId :=
  set_ids (m_seenCurrent (m_seen b)) ∪ set_ids (m_seenPrevious (m_seen b)).

Lemma elem_of_known b log x : dedup_inv (m_seen b) log → x ∈ known b ↔ x ∈ remembered log.
Proof. intros Hlog. unfold known. by rewrite elem_of_union, (remembered_windows _ _ Hlog). Qed.

(** What a data message leaves as it was. *)
Record kept b b' : Prop := {
  kept_subs : m_subscriptions b' = m_subscriptions b;
  kept_id : m_brokerId b' = m_brokerId b;
  kept_queue : m_peerInboundQueue b' = m_peerInboundQueue b;
  kept_clients : ∀ c, is_Some (m_clients b !! c) → is_Some (m_clients b' !! c)
}.

#[export] Instance kept_refl : Reflexive kept.
Proof. by split. Qed.

#[export] Instance kept_trans : Transitive kept.
Proof. intros b1 b2 b3 [] []. split; [congruence..|auto]. Qed.

Lemma kept_foldl {A} (f : Broker S W → A → Broker S W) l b : (∀ b x, kept b (f b x)) → kept b (foldl f b l).
Proof. intros Hf. revert b; induction l as [|x l IH]; intros b; [done|]. simpl. etrans; [apply Hf|apply IH]. Qed.

Lemma offer_kept h p b c : kept b (offer h p b c).
Proof.
  unfold offer, socket_sendTo. destruct (sendTo _ _ _ _) as [[] s]; [done|]. unfold noteDroppedTo. simpl.
  destruct (m_clients b !! c); split; try done. intros c' Hc'. simpl. rewrite lookup_insert. by case_decide.
Qed.

Lemma floodPeers_kept env h p b : kept b (floodPeers env h p b).
Proof.
  unfold floodPeers. apply kept_foldl. intros b1 e. unfold flood_one. destruct (negb _); [done|].
  by destruct (writeEncoded _ _) as [[] w].
Qed.

(** A connected client's data message before it is routed: its session is refreshed. *)
Lemma handle_data env h payload sender b :
  Keys.isReservedKey (handler_key h) = false → is_Some (m_clients b !! sender) →
  handleClientMessage env h payload sender b = (false, touch env sender b).
Proof.
  intros Hr Hs. assert (∀ key, Keys.isReservedKey key = true → handler_key h ≠ key) as Hne by (intros key Hk E; congruence).
  rewrite handleClientMessage_session.
  2: { rewrite !not_elem_of_cons. split_and!; try (by apply Hne). apply not_elem_of_nil. }
  rewrite bool_decide_false by (intros [E|E]; by apply (Hne _) in E).
  unfold session_replies. rewrite (bool_decide_false (handler_key h = _)), orb_false_r, decide_False by (by apply Hne).
  by rewrite bool_decide_true.
Qed.

Lemma touch_kept env sender b : kept b (touch env sender b).
Proof. split; try done. intros c Hc. simpl. rewrite lookup_insert. by case_decide. Qed.

(** A message for client [c] of a broker: a subscription in scope, and not its own. *)
Definition subscribed b (h : MessageHeader) (sender : string) (peer : bool) (c : string) : Prop :=
  (peer = true ∨ c ≠ sender) ∧
  ∃ t s, (t = topic h ∨ t = Keys.WILDCARD_TOPIC) ∧ held (m_subscriptions b) c t = Some s ∧ scopeAccepts s (negb peer) = true.

Lemma subscribed_bound b h sender peer cs :
  NoDup cs → (∀ c, c ∈ cs → subscribed b h sender peer c) → length cs ≤ size (m_clientTopics (m_subscriptions b)).
Proof.
  intros Hnd Hcs. rewrite <-size_dom, <-(size_list_to_set (C := gset string) cs) by done. apply subseteq_size.
  intros c (_ & t & s & _ & Hh & _)%(elem_of_list_to_set (C := gset string))%Hcs. apply elem_of_dom.
  unfold held in Hh. destruct (m_clientTopics _ !! c); [eauto|done].
Qed.

Lemma refusals_bound oks : refusals oks ≤ length oks.
Proof. apply length_filter. Qed.

(** A copy that is not new: nothing leaves the broker. *)
Record ignored b b' : Prop := {
  ig_seen : m_seen b' = m_seen b;
  ig_peers : m_peers b' = m_peers b;
  ig_wire : sock_wire (m_socket b') = sock_wire (m_socket b);
  ig_dropped : m_totalDropped b' = m_totalDropped b
}.

(** How many copies of [h] the broker could not hand on: a client's socket refused it, or
    a link's worker did. *)
Definition link_refusals (fwd : WireMessage) (ps : gmap string (PeerLink W)) : nat :=
  length (filter (flood_refused fwd) (map_to_list ps)).

Lemma link_refusals_bound fwd ps : link_refusals fwd ps ≤ size ps.
Proof. unfold link_refusals. etrans; [apply length_filter|]. by rewrite length_map_to_list. Qed.

(** A message that is new: recorded, handed to every link, and sent once to every client
    subscribed, with the sockets' answers [oks]. *)
Record routed (h : MessageHeader) (payload sender : string) (peer : bool) b b' : Prop := {
  rt_log : ∀ log, dedup_inv (m_seen b) log → dedup_inv (m_seen b') (dedup_id (message_uuid h) :: log);
  rt_peers : m_peers b' = flood_link (makeWireMessage (encodeHeader h) payload) <$> m_peers b;
  rt_sent : ∃ cs oks, length oks = length cs ∧ NoDup cs ∧
    (∀ c, c ∈ cs ↔ subscribed b h sender peer c) ∧
    sock_wire (m_socket b') = sock_wire (m_socket b) ++ sent_groups (encodeHeader h) payload cs oks ∧
    m_totalDropped b' = Nat.iter (link_refusals (makeWireMessage (encodeHeader h) payload) (m_peers b) + refusals oks)
      inc64 (m_totalDropped b)
}.

(** Routing what has passed the filter. *)
Lemma route_data env h payload sender peer b :
  broker_inv b → sock_open (m_socket b) = [] →
  let b' := floodPeers env (encodeHeader h) payload (deliverToSubscribers h (encodeHeader h) payload sender peer b) in
  kept b b' ∧ m_seen b' = m_seen b ∧ sock_open (m_socket b') = [] ∧
  m_peers b' = flood_link (makeWireMessage (encodeHeader h) payload) <$> m_peers b ∧
  ∃ cs oks, length oks = length cs ∧ NoDup cs ∧ (∀ c, c ∈ cs ↔ subscribed b h sender peer c) ∧
    sock_wire (m_socket b') = sock_wire (m_socket b) ++ sent_groups (encodeHeader h) payload cs oks ∧
    m_totalDropped b' = Nat.iter (link_refusals (makeWireMessage (encodeHeader h) payload) (m_peers b) + refusals oks)
      inc64 (m_totalDropped b).
Proof.
  intros Hinv Ho. pose proof (inv_registry _ _ Hinv) as Hwf.
  rewrite deliverToSubscribers_offers. set (cs := recipients b (topic h) sender peer).
  set (b1 := foldl _ b cs).
  assert (frame b b1) as F by (apply frame_foldl; intros; apply offer_frame).
  destruct (offers_wire (encodeHeader h) payload cs b Ho) as (oks & Hlen & Ho1 & Hw1 & Hd1). fold b1 in Ho1, Hw1, Hd1.
  destruct (floodPeers_spec env (encodeHeader h) payload b1) as (Hp & Hd & Hs). simpl. split_and!.
  - etrans; [|apply floodPeers_kept]. apply kept_foldl. intros. apply offer_kept.
  - by rewrite floodPeers_seen, (frame_seen _ _ F).
  - by rewrite Hs.
  - by rewrite Hp, (frame_peers _ _ F).
  - exists cs, oks. split_and!; [done|by apply recipients_NoDup| |by rewrite Hs|].
    + intros c. unfold cs. rewrite elem_of_recipients by done. unfold subscribed. split; [naive_solver|].
      intros [H1 (t & s & Ht & Hh & Hs')]. split_and!; [done| |by exists t, s].
      apply (inv_sessions _ _ Hinv). unfold held in Hh. destruct (m_clientTopics _ !! c); [eauto|done].
    + rewrite Hd, Hd1, Nat.iter_add, (frame_peers _ _ F). f_equal.
      apply Permutation_length, filter_Permutation, entries_perm.
Qed.

Lemma isDuplicate_new b uuid :
  dedup_id uuid ∉ known b → (∃ log, dedup_inv (m_seen b) log) →
  ∃ seen, isDuplicate uuid (m_seen b) = Some (false, seen) ∧
    ∀ log, dedup_inv (m_seen b) log → dedup_inv seen (dedup_id uuid :: log).
Proof.
  intros Hk [log Hlog].
  assert (∀ l, dedup_inv (m_seen b) l → ∃ seen, isDuplicate uuid (m_seen b) = Some (false, seen) ∧ dedup_inv seen (dedup_id uuid :: l)) as H.
  { intros l Hl. destruct (isDuplicate_spec uuid _ _ Hl) as (dup & seen & E & Hd & Hs).
    rewrite bool_decide_false in Hd by (by rewrite <-(elem_of_known b l)). subst dup. eauto. }
  destruct (H log Hlog) as (seen & E & _). exists seen. split; [done|]. intros l Hl.
  destruct (H l Hl) as (seen' & E' & Hs). rewrite E in E'. by injection E' as ->.
Qed.

(** What a broker makes of one data message, whoever sent it. *)
Lemma process_data env h payload sender peer b :
  broker_inv b → sock_open (m_socket b) = [] →
  Keys.isReservedKey (handler_key h) = false → message_uuid h ≠ EmptyString →
  (peer = false → is_Some (m_clients b !! sender)) →
  ∃ b', processMessage env h payload sender peer b = Some b' ∧ broker_inv b' ∧ kept b b' ∧ sock_open (m_socket b') = [] ∧
    if decide (dedup_id (message_uuid h) ∈ known b) then ignored b b' else routed h payload sender peer b b'.
Proof.
  intros Hinv Ho Hr Hu Hses. destruct (processMessage_inv env h payload sender peer b Hinv) as (b' & E & Hinv').
  exists b'. split; [done|]. split; [done|]. destruct (inv_seen _ _ Hinv) as [log Hlog].
  destruct (decide (dedup_id (message_uuid h) ∈ known b)) as [Hk|Hk].
  - apply (elem_of_known b log _ Hlog) in Hk. rewrite (duplicate_dropped env h payload sender peer b log) in E by done.
    injection E as <-. by destruct peer.
  - revert E. unfold processMessage. rewrite stamp_uuid, Hr by done. set (b1 := if peer then _ else _).
    assert (frame b b1 ∧ m_socket b1 = m_socket b ∧ m_totalDropped b1 = m_totalDropped b ∧ kept b b1) as (F1 & E1 & D1 & K1)
      by (unfold b1; by destruct peer).
    rewrite (frame_seen _ _ F1). destruct (isDuplicate_new b (message_uuid h) Hk) as (seen & Ed & Hnew); [eauto|].
    pose proof (Hnew _ Hlog) as Hseen. rewrite Ed. simpl. intros E.
    set (b2 := tap_send _ _ (with_seen seen b1)) in E.
    set (b3 := if peer then b2 else touch env sender b2).
    assert ((if peer then (false, b2) else handleClientMessage env h payload sender b2) = (false, b3)) as E3.
    { unfold b3. destruct peer; [done|]. apply handle_data; [done|]. apply (kept_clients _ _ K1). by apply Hses. }
    assert (kept b1 b2) as K2 by (split; [done..|auto]).
    assert (kept b b3) as K3.
    { etrans; [exact K1|]. etrans; [exact K2|]. unfold b3. destruct peer; [done|apply touch_kept]. }
    assert (broker_inv b3) as I3.
    { assert (broker_inv b2) as I2.
      { apply (frame_broker_inv (with_seen seen b1)); [done|]. pose proof (frame_broker_inv _ _ F1 Hinv) as I1.
        split; simpl; try apply I1. eauto. }
      pose proof (handleClientMessage_inv env h payload sender b2 I2) as Hi. unfold b3.
      destruct peer; [done|]. by rewrite E3 in Hi. }
    rewrite E3 in E. simpl in E. injection E as <-.
    assert (m_seen b3 = seen ∧ m_socket b3 = m_socket b ∧ m_peers b3 = m_peers b ∧ m_totalDropped b3 = m_totalDropped b)
      as (S3 & O3 & P3 & D3) by (unfold b3; pose proof (frame_peers _ _ F1); by destruct peer).
    clearbody b3. destruct (route_data env h payload sender peer b3 I3) as (K4 & S4 & O4 & P4 & cs & oks & Hlen & Hnd & Hcs & W4 & D4).
    { by rewrite O3. }
    split; [by etrans|]. split; [done|]. split.
    + intros l Hl. rewrite S4, S3. by apply Hnew.
    + by rewrite P4, P3.
    + exists cs, oks. rewrite <-D3, <-P3, <-O3. split_and!; try done.
      intros c. rewrite Hcs. unfold subscribed. by rewrite (kept_subs _ _ K3).
Qed.
End node.

(** ** The mesh *)

(** A multipart message on its way: [Up] from a link to the ROUTER of broker [node], where it
    arrives under the link's identity; [Down] from a ROUTER to the link [key] of broker
    [node]. [group] is the header frame and the payload frame, if any. *)
Inductive Packet :=
  | Up (node identity : string) (group : list string)
  | Down (node key : string) (group : list string).

Definition packet_node (p : Packet) : string := match p with Up i _ _ | Down i _ _ => i end.
Definition packet_group (p : Packet) : list string := match p with Up _ _ g | Down _ _ g => g end.

(** What the receiving side makes of it; a header that does not decode is dropped. *)
Definition packet_envelope {PB : ProtobufRuntime} (g : list string) : option (Envelope * nat) :=
  match g with
  | [] => None
  | hdr :: rest =>
      let payload := default EmptyString (head rest) in
      (λ h, (mkEnvelope h payload, String.length hdr + String.length payload)) <$> decodeHeaderFrame hdr
  end.

Inductive MeshEvent :=
  | Publish (node sender : string) (env : Env) (msg : Envelope)
  | Deliver (n : nat) (env : Env)
  | Drain (node : string) (envs : nat → Env)
  | Lose (n : nat).

(** Where the links lead: [remote i k] is the broker link [k] of broker [i] dials, [owner j c]
    the link behind identity [c] at the ROUTER of [j]. *)
Class Network := {
  remote : string → string → option string;
  owner : string → string → option (string * string)
}.

Section mesh.
Context {S : Type} `{!ZmqSender S} {W : Type} `{!WorkerInterface W} {PB : ProtobufRuntime} {Net : Network}.
Implicit Types b : Broker S W.

Record Mesh := mkMesh { mesh_brokers : gmap string (Broker S W); mesh_flight : list Packet }.

(** What the worker of link [k] was handed since. *)
Definition link_ups (i : string) b b' (k : string) : list Packet :=
  match remote i k, m_peers b !! k, m_peers b' !! k with
  | Some j, Some l, Some l' =>
      (λ w, Up j (pl_linkId l') (frames None (headerBytes w) (wire_payload w))) <$>
      drop (length (encoded_written (pl_worker l))) (encoded_written (pl_worker l'))
  | _, _, _ => []
  end.

Definition group_down (j : string) (g : list string) : option Packet :=
  match g with
  | [] => None
  | c :: rest => (λ o, Down o.1 o.2 rest) <$> owner j c
  end.

(** What left broker [i] between two of its states: what its links' workers were handed, and
    what its ROUTER sent to identities that are links. *)
Definition emitted (i : string) b b' : list Packet :=
  (elements (dom (m_peers b')) ≫= link_ups i b b') ++
  omap (group_down i) (drop (length (sock_wire (m_socket b))) (sock_wire (m_socket b'))).

(** Run a handler of broker [i]; what it emits joins the packets in flight. *)
Definition at_node (i : string) (f : Broker S W → option (Broker S W)) (m : Mesh) : option Mesh :=
  match mesh_brokers m !! i with
  | None => Some m
  | Some b => b' ← f b; Some (mkMesh (<[i := b']> (mesh_brokers m)) (mesh_flight m ++ emitted i b b'))
  end.

(** A message read from the ROUTER. *)
Definition from_router (env : Env) (identity : string) (e : Envelope) (bytes : nat) b : option (Broker S W) :=
  processMessage env (env_header e) (env_payload e) identity false (count_received bytes b).

(** The links' inbound messages. *)
Definition drain_peers (envs : nat → Env) b : option (Broker S W) :=
  let '(batch, q) := drainTo (m_peerInboundQueue b) in process_peers envs batch (with_inbound q b).

Definition take_flight (n : nat) (m : Mesh) : option (Packet * Mesh) :=
  p ← mesh_flight m !! n; Some (p, mkMesh (mesh_brokers m) (delete n (mesh_flight m))).

Definition arrive (env : Env) (p : Packet) (m : Mesh) : option Mesh :=
  match packet_envelope (packet_group p) with
  | None => Some m
  | Some (e, bytes) =>
      match p with
      | Up j c _ => at_node j (from_router env c e bytes) m
      | Down i k _ => at_node i (λ b, Some (peerCallback k e b)) m
      end
  end.

(** One step of the mesh, with the number of messages it took from the network or from a
    broker's inbound queue. *)
Definition mesh_step (ev : MeshEvent) (m : Mesh) : option (nat * Mesh) :=
  match ev with
  | Publish i sender env e =>
      m' ← at_node i (from_router env sender e (String.length (encodeHeader (env_header e)) + String.length (env_payload e))) m;
      Some (0, m')
  | Deliver n env =>
      match take_flight n m with
      | None => Some (0, m)
      | Some (p, m) => m' ← arrive env p m; Some (1, m')
      end
  | Drain i envs =>
      m' ← at_node i (drain_peers envs) m;
      Some (length (from_option (λ b, m_queue (m_peerInboundQueue b)) [] (mesh_brokers m !! i)), m')
  | Lose n =>
      match take_flight n m with
      | None => Some (0, m)
      | Some (_, m) => Some (1, m)
      end
  end.

Fixpoint mesh_run (evs : list MeshEvent) (m : Mesh) : option (nat * Mesh) :=
  match evs with
  | [] => Some (0, m)
  | ev :: evs =>
      '(n, m) ← mesh_step ev m;
      '(n', m) ← mesh_run evs m;
      Some (n + n', m)
  end.

(** ** What a run is measured against *)

(** The messages of a run, by id. *)
Context (M : gmap MessageId Envelope).

Definition msg_id (e : Envelope) : MessageId := dedup_id (message_uuid (env_header e)).

Definition member (e : Envelope) : Prop := M !! msg_id e = Some e.

Record data_message (e : Envelope) : Prop := {
  dm_data : Keys.isReservedKey (handler_key (env_header e)) = false;
  dm_uuid : message_uuid (env_header e) ≠ EmptyString;
  dm_sized : pb_sized (env_header e);
  dm_utf8 : header_utf8 (env_header e) = true
}.

(** As few as one window of the duplicate filter. *)
Definition messages_ok : Prop :=
  size M ≤ MaxHistorySize ∧ ∀ x e, M !! x = Some e → x = msg_id e ∧ data_message e.

(** Identities and links name each other. *)
Record network_ok (m : Mesh) : Prop := {
  net_owned : ∀ j c i k, owner j c = Some (i, k) →
    ∃ b l, mesh_brokers m !! i = Some b ∧ m_peers b !! k = Some l;
  net_remote : ∀ i k j b l, mesh_brokers m !! i = Some b → m_peers b !! k = Some l → remote i k = Some j →
    owner j (pl_linkId l) = Some (i, k)
}.

(** How often broker [b] sent message [e] to [c]. *)
Definition copies (c : string) (e : Envelope) b : nat :=
  length (filter (.= frames (Some c) (encodeHeader (env_header e)) (env_payload e)) (sock_wire (m_socket b))).

Record node_ok (i : string) b : Prop := {
  nd_inv : broker_inv b;
  nd_open : sock_open (m_socket b) = [];
  nd_log : ∃ log, dedup_inv (m_seen b) log ∧ NoDup log ∧ ∀ x, x ∈ log → x ∈ dom M;
  nd_queue : Forall member (m_queue (m_peerInboundQueue b));
  nd_sessions : ∀ c o, owner i c = Some o → is_Some (m_clients b !! c);
  nd_once : ∀ c e, member e → copies c e b ≤ (if decide (msg_id e ∈ known b) then 1 else 0)
}.

Definition knows (m : Mesh) (i : string) (e : Envelope) : Prop :=
  ∃ b, mesh_brokers m !! i = Some b ∧ msg_id e ∈ known b.

Definition carries (p : Packet) (e : Envelope) : Prop :=
  packet_group p = frames None (encodeHeader (env_header e)) (env_payload e).

Definition packet_ok (m : Mesh) (p : Packet) : Prop :=
  ∃ e, member e ∧ carries p e ∧
  match p with
  | Up j c _ => ∃ i k, owner j c = Some (i, k) ∧ knows m i e
  | Down i k _ => ∃ b l, mesh_brokers m !! i = Some b ∧ m_peers b !! k = Some l
  end.

Record mesh_ok (m : Mesh) : Prop := {
  mo_nodes : map_Forall node_ok (mesh_brokers m);
  mo_flight : Forall (packet_ok m) (mesh_flight m);
  mo_network : network_ok m
}.

(** The most packets a broker can make of one message. *)
Definition fanout b : nat := size (m_peers b) + size (m_clientTopics (m_subscriptions b)).

(** What a broker can still cost the mesh: its inbound queue, and its fan-out, twice, for
    every message it has not seen. *)
Definition debt b : nat :=
  length (m_queue (m_peerInboundQueue b)) + 2 * fanout b * (size M - size (known b)).

Definition potential (m : Mesh) : nat :=
  2 * length (mesh_flight m) + sum_list (debt <$> (map_to_list (mesh_brokers m)).*2).
End mesh.

Section node_lemmas.
Context {S : Type} `{!ZmqSender S} `{!ZmqSenderLaws S} {W : Type} `{!WorkerInterface W} `{!WorkerLaws W} {PB : ProtobufRuntime} {PBL : @ProtobufLaws PB} {Net : Network}.
Context (M : gmap MessageId Envelope) (HM : messages_ok M).
Implicit Types b : Broker S W.

(** *** Frames and packets *)

Lemma frames_inj c c' h h' p p' : frames (Some c) h p = frames (Some c') h' p' → c = c' ∧ h = h' ∧ p = p'.
Proof.
  unfold frames. simpl. intros [= -> -> H]. split_and!; [done..|].
  repeat case_bool_decide; simplify_eq; [done|]. assert (String.length p = 0) as ->%str_length_zero by lia.
  symmetry. apply str_length_zero. lia.
Qed.

Lemma member_data e : member M e → data_message e.
Proof. intros H. by apply HM in H as [_ ?]. Qed.

Lemma packet_frames e :
  pb_sized (env_header e) → header_utf8 (env_header e) = true →
  packet_envelope (frames None (encodeHeader (env_header e)) (env_payload e)) =
    Some (e, String.length (encodeHeader (env_header e)) + String.length (env_payload e)).
Proof.
  intros Hs Hu. unfold frames. simpl. rewrite decode_encodeHeader by done. simpl.
  destruct e as [h p]. simpl. case_bool_decide; [done|]. simpl. assert (String.length p = 0) as ->%str_length_zero by lia. done.
Qed.

Lemma packet_envelope_frames e :
  member M e → packet_envelope (frames None (encodeHeader (env_header e)) (env_payload e)) =
    Some (e, String.length (encodeHeader (env_header e)) + String.length (env_payload e)).
Proof. intros [_ _ Hs Hu]%member_data. by apply packet_frames. Qed.

(** Different messages of the run have different header frames. *)
Lemma member_frame_inj e e' :
  member M e → member M e' → encodeHeader (env_header e) = encodeHeader (env_header e') → e = e'.
Proof.
  intros He He' E. pose proof (member_data _ He) as [_ _ Hs Hu]. pose proof (member_data _ He') as [_ _ Hs' Hu'].
  apply (f_equal decodeHeaderFrame) in E. rewrite !decode_encodeHeader in E by done. injection E as E.
  unfold member, msg_id in *. congruence.
Qed.

(** *** The ids a broker knows *)

Lemma log_known b log :
  dedup_inv (m_seen b) log → NoDup log → (∀ x, x ∈ log → x ∈ dom M) → known b = list_to_set log.
Proof.
  intros Hlog Hnd Hsub. apply set_eq. intros x. rewrite elem_of_list_to_set, (elem_of_known b log x Hlog).
  split; [apply remembered_old|]. intros Hx. apply remembered_recent. rewrite take_ge; [done|].
  destruct HM as [Hsize _]. etrans; [|exact Hsize]. rewrite <-(size_list_to_set (C := gset MessageId)) by done.
  rewrite <-size_dom. apply subseteq_size. intros y Hy. by apply Hsub, (elem_of_list_to_set (C := gset MessageId)).
Qed.

(** *** What leaves a broker *)

(** A later state of a broker: its links are the same, and have been handed more. *)
Record grows b b' : Prop := {
  gr_wire : ∃ sent, sock_wire (m_socket b') = sock_wire (m_socket b) ++ sent;
  gr_links : ∀ k, option_Forall2 (λ l l', pl_linkId l' = pl_linkId l ∧ pl_active l' = pl_active l ∧
    ∃ ws, encoded_written (pl_worker l') = encoded_written (pl_worker l) ++ ws) (m_peers b !! k) (m_peers b' !! k)
}.

#[export] Instance grows_refl : Reflexive grows.
Proof.
  intros b. split; [exists []; by rewrite app_nil_r|]. intros k. destruct (m_peers b !! k); constructor.
  split_and!; [done..|]. exists []. by rewrite app_nil_r.
Qed.

#[export] Instance grows_trans : Transitive grows.
Proof.
  intros b1 b2 b3 [[s1 E1] L1] [[s2 E2] L2]. split; [exists (s1 ++ s2); by rewrite E2, E1, app_assoc|].
  intros k. specialize (L1 k). specialize (L2 k). destruct L1 as [l1 l2 (I1 & A1 & w1 & W1)|]; inversion L2 as [? l3 (I2 & A2 & w2 & W2)|];
    subst; constructor. split_and!; [congruence..|]. exists (w1 ++ w2). by rewrite W2, W1, app_assoc.
Qed.

Lemma grows_dom b b' : grows b b' → dom (m_peers b') = dom (m_peers b).
Proof.
  intros [_ L]. apply set_eq. intros k. rewrite !elem_of_dom. specialize (L k). destruct L; [|done].
  split; intros _; eauto.
Qed.

Lemma link_ups_trans i b1 b2 b3 k :
  grows b1 b2 → grows b2 b3 → link_ups i b1 b3 k = link_ups i b1 b2 k ++ link_ups i b2 b3 k.
Proof.
  intros [_ L1] [_ L2]. specialize (L1 k). specialize (L2 k). unfold link_ups.
  destruct (remote i k); [|done]. destruct L1 as [l1 l2 (I1 & A1 & w1 & W1)|]; inversion L2 as [? l3 (I2 & A2 & w2 & W2)|];
    subst; [|done]. rewrite W2, W1, (drop_app_length (_ ++ w1)), <-app_assoc, !drop_app_length, I2. by rewrite fmap_app.
Qed.

Lemma bind_nil_all {A B} (f : A → list B) l : (∀ x, f x = []) → l ≫= f = [].
Proof. intros Hf. induction l as [|x l IH]; [done|]. by rewrite bind_cons, Hf, IH. Qed.

Lemma bind_app_perm {A B} (f g : A → list B) l : (l ≫= λ x, f x ++ g x) ≡ₚ (l ≫= f) ++ (l ≫= g).
Proof.
  induction l as [|x l IH]; [done|]. rewrite !bind_cons, IH. rewrite <-!app_assoc. apply Permutation_app_head.
  by rewrite !app_assoc, (Permutation_app_comm (g x)).
Qed.

Lemma emitted_trans i b1 b2 b3 :
  grows b1 b2 → grows b2 b3 → emitted i b1 b3 ≡ₚ emitted i b1 b2 ++ emitted i b2 b3.
Proof.
  intros G1 G2. unfold emitted. rewrite (grows_dom _ _ G2).
  rewrite (list_bind_ext _ (λ k, link_ups i b1 b2 k ++ link_ups i b2 b3 k) _ (elements (dom (m_peers b2)))) by
    (try done; intros; by apply link_ups_trans).
  rewrite bind_app_perm. destruct (gr_wire _ _ G1) as [s1 E1], (gr_wire _ _ G2) as [s2 E2].
  rewrite E2, E1, (drop_app_length (_ ++ s1)), <-(app_assoc _ s1 s2), !drop_app_length, omap_app.
  rewrite <-!app_assoc. apply Permutation_app_head. by rewrite !app_assoc, (Permutation_app_comm (omap _ s1)).
Qed.

Lemma sent_groups_cons h p c cs ok oks :
  sent_groups h p (c :: cs) (ok :: oks) = (if (ok : bool) then [frames (Some c) h p] else []) ++ sent_groups h p cs oks.
Proof. done. Qed.

Lemma refusals_cons ok oks : refusals (ok :: oks) = (if ok then 0 else 1) + refusals oks.
Proof. unfold refusals. rewrite filter_cons. by destruct ok. Qed.

(** The groups sent: to each recipient at most one, and exactly one when none was refused. *)
Lemma sent_groups_count h p cs oks :
  length oks = length cs → NoDup cs →
  length (sent_groups h p cs oks) ≤ length cs ∧ refusals oks ≤ length cs ∧
  (∀ g, g ∈ sent_groups h p cs oks → ∃ c, c ∈ cs ∧ g = frames (Some c) h p) ∧
  ∀ c, length (filter (.= frames (Some c) h p) (sent_groups h p cs oks)) ≤ (if decide (c ∈ cs) then 1 else 0) ∧
    (refusals oks = 0 → c ∈ cs → frames (Some c) h p ∈ sent_groups h p cs oks).
Proof.
  revert oks; induction cs as [|c cs IH]; intros [|ok oks] Hlen Hnd; try discriminate Hlen.
  - split_and!; [done..| |]; [intros g Hg; by apply not_elem_of_nil in Hg|]. intros c. split; [simpl; lia|]. intros _ Hc.
    by apply not_elem_of_nil in Hc.
  - apply NoDup_cons in Hnd as [Hc Hnd]. injection Hlen as Hlen. destruct (IH oks Hlen Hnd) as (I1 & I2 & I3 & I4).
    rewrite sent_groups_cons, refusals_cons, length_app. split_and!.
    + destruct ok; simpl; lia.
    + destruct ok; simpl; lia.
    + intros g [Hg|Hg]%elem_of_app; [|destruct (I3 _ Hg) as (c' & ? & ?); exists c'; split; [by right|done]].
      destruct ok; [|by apply not_elem_of_nil in Hg]. apply list_elem_of_singleton in Hg. exists c. split; [by left|done].
    + intros c'. destruct (I4 c') as [J1 J2]. rewrite filter_app, length_app. destruct (decide (c' = c)) as [->|Hne].
      * rewrite (decide_False (P := c ∈ cs)) in J1 by done. rewrite decide_True by left.
        split; [destruct ok; [rewrite filter_cons_True by done|]; simpl; lia|].
        intros Hr _. destruct ok; [|simpl in Hr; lia]. by left.
      * assert (length (filter (.= frames (Some c') h p) (if ok then [frames (Some c) h p] else [])) = 0) as ->.
        { destruct ok; [|done]. rewrite filter_cons_False; [done|]. intros (-> & _)%frames_inj. done. }
        split.
        -- etrans; [exact J1|]. repeat case_decide; try lia. destruct H0. by right.
        -- intros Hr [?|Hin]%elem_of_cons; [done|]. apply elem_of_app. right. apply J2; [|done]. destruct ok; simpl in Hr; lia.
Qed.

Definition group_of (e : Envelope) (o : option string) : list string :=
  frames o (encodeHeader (env_header e)) (env_payload e).

Lemma flood_link_spec fwd (l : PeerLink W) :
  pl_linkId (flood_link fwd l) = pl_linkId l ∧ pl_active (flood_link fwd l) = pl_active l ∧
  encoded_written (pl_worker (flood_link fwd l)) =
    encoded_written (pl_worker l) ++ (if pl_active l && (writeEncoded fwd (pl_worker l)).1 then [fwd] else []).
Proof.
  unfold flood_link. destruct (pl_active l) eqn:Ha; simpl; [|by rewrite app_nil_r].
  destruct (writeEncoded fwd (pl_worker l)) as [ok w] eqn:E. simpl.
  by apply writeEncoded_law in E as (-> & _).
Qed.

Lemma ignored_grows b b' : ignored b b' → grows b b'.
Proof.
  intros [_ Hp Hw _]. pose proof (grows_refl b) as [Gw Gl]. split; [by rewrite Hw|]. intros k. rewrite Hp. apply Gl.
Qed.

Lemma ignored_emitted i b b' : ignored b b' → emitted i b b' = [].
Proof.
  intros [_ Hp Hw _]. unfold emitted. rewrite Hp, Hw, drop_all. simpl. rewrite app_nil_r. apply bind_nil_all.
  intros k. unfold link_ups. rewrite Hp. destruct (remote i k), (m_peers b !! k); try done. by rewrite drop_all.
Qed.

Lemma routed_grows h p s peer b b' : routed h p s peer b b' → grows b b'.
Proof.
  intros [_ Hp (cs & oks & _ & _ & _ & Hw & _)]. split; [eauto|]. intros k. rewrite Hp, lookup_fmap.
  destruct (m_peers b !! k) as [l|]; simpl; constructor.
  destruct (flood_link_spec (makeWireMessage (encodeHeader h) p) l) as (? & ? & ?). eauto.
Qed.

Lemma routed_link_ups i e s peer b b' k :
  routed (env_header e) (env_payload e) s peer b b' →
  link_ups i b b' k =
  match remote i k, m_peers b !! k with
  | Some j, Some l =>
      if pl_active l && (writeEncoded (makeWireMessage (encodeHeader (env_header e)) (env_payload e)) (pl_worker l)).1
      then [Up j (pl_linkId l) (group_of e None)] else []
  | _, _ => []
  end.
Proof.
  intros [_ Hp _]. unfold link_ups. rewrite Hp, lookup_fmap. destruct (remote i k) as [j|]; [|done].
  destruct (m_peers b !! k) as [l|]; [|done]. simpl. set (fwd := makeWireMessage _ _).
  destruct (flood_link_spec fwd l) as (-> & _ & ->). rewrite drop_app_length. by destruct (_ && _).
Qed.

(** [c] wants [e] from anywhere. *)
Definition wants (reg : SubscriptionRegistry) (c : string) (e : Envelope) : Prop :=
  ∃ t, (t = topic (env_header e) ∨ t = Keys.WILDCARD_TOPIC) ∧ held reg c t = Some Origins.Any.

(** What a broker owes the mesh for a message it has just learnt: a packet on every active
    link, and a copy to everyone else who wants it, a packet where that is a link. *)
Record passed_on (i : string) (e : Envelope) (sender : string) (peer : bool) b b' : Prop := {
  po_links : ∀ k l j, m_peers b !! k = Some l → pl_active l = true → remote i k = Some j →
    Up j (pl_linkId l) (group_of e None) ∈ emitted i b b';
  po_clients : ∀ c, wants (m_subscriptions b) c e → peer = true ∨ c ≠ sender →
    1 ≤ copies c e b' ∧ ∀ i' k, owner i c = Some (i', k) → Down i' k (group_of e None) ∈ emitted i b b'
}.

(** Broker [i] deals with a copy of [e]. *)
Record advance (i : string) (e : Envelope) (sender : string) (peer : bool) b b' : Prop := {
  ad_node : node_ok M i b';
  ad_subs : m_subscriptions b' = m_subscriptions b;
  ad_grows : grows b b';
  ad_known : known b' = {[msg_id e]} ∪ known b;
  ad_copies : ∀ c e', copies c e' b ≤ copies c e' b';
  ad_packets : ∀ p, p ∈ emitted i b b' → carries p e ∧
    match p with
    | Up j c _ => ∃ k l, m_peers b !! k = Some l ∧ remote i k = Some j ∧ c = pl_linkId l
    | Down i' k _ => ∃ c, owner i c = Some (i', k)
    end;
  ad_count : length (emitted i b b') + fanout b * (size M - size (known b')) ≤ fanout b * (size M - size (known b));
  ad_drops : ∃ n, m_totalDropped b' = Nat.iter n inc64 (m_totalDropped b) ∧
    n + fanout b * (size M - size (known b')) ≤ fanout b * (size M - size (known b)) ∧
    (n = 0 → msg_id e ∉ known b → passed_on i e sender peer b b')
}.

Lemma ignored_known b b' : ignored b b' → known b' = known b.
Proof. intros [Hs _ _ _]. unfold known. by rewrite Hs. Qed.

Lemma ignored_advance i e sender peer b b' :
  node_ok M i b → broker_inv b' → kept b b' → sock_open (m_socket b') = [] → msg_id e ∈ known b →
  ignored b b' → advance i e sender peer b b'.
Proof.
  intros Hn Hinv' K Ho' Hin Hi. pose proof (ignored_known _ _ Hi) as Hk. pose proof (ignored_emitted i _ _ Hi) as He.
  assert (∀ c e', copies c e' b' = copies c e' b) as Hc by (intros; unfold copies; by rewrite (ig_wire _ _ Hi)).
  split; rewrite ?Hk, ?He; try done.
  - split; try done; [rewrite (ig_seen _ _ Hi); apply Hn|rewrite (kept_queue _ _ K); apply Hn| |].
    + intros c o Ho. apply (kept_clients _ _ K). by apply (nd_sessions _ _ _ Hn _ _ Ho).
    + intros c e' He'. rewrite Hc, Hk. by apply Hn.
  - apply K.
  - by apply ignored_grows.
  - set_solver.
  - intros. by rewrite Hc.
  - intros p Hp. by apply not_elem_of_nil in Hp.
  - exists 0. split_and!; [apply Hi|done|done].
Qed.

Section routed.
Context (i : string) (e : Envelope) (sender : string) (peer : bool) (b b' : Broker S W).
Context (Hn : node_ok M i b) (He : member M e) (Hnew : msg_id e ∉ known b).
Context (Hr : routed (env_header e) (env_payload e) sender peer b b').

Lemma routed_known :
  known b' = {[msg_id e]} ∪ known b ∧ size (known b') = Datatypes.S (size (known b)) ∧ size (known b') ≤ size M ∧
  ∃ log, dedup_inv (m_seen b') log ∧ NoDup log ∧ ∀ x, x ∈ log → x ∈ dom M.
Proof.
  destruct (nd_log _ _ _ Hn) as (log & Hlog & Hnd & Hsub). pose proof (log_known _ _ Hlog Hnd Hsub) as Hk.
  pose proof (rt_log _ _ _ _ _ _ Hr _ Hlog) as Hlog'. fold (msg_id e) in Hlog'.
  assert (NoDup (msg_id e :: log)) as Hnd'.
  { apply NoDup_cons. split; [|done]. intros Hin. apply Hnew. rewrite Hk. by apply elem_of_list_to_set. }
  assert (∀ x, x ∈ msg_id e :: log → x ∈ dom M) as Hsub'.
  { intros x [->|Hx]%elem_of_cons; [|auto]. apply elem_of_dom. by exists e. }
  pose proof (log_known _ _ Hlog' Hnd' Hsub') as Hk'. assert (known b' = {[msg_id e]} ∪ known b) as E by (rewrite Hk, Hk'; done).
  split_and!; [done| | |by exists (msg_id e :: log)].
  - rewrite E, size_union, size_singleton; [done|]. set_solver.
  - rewrite <-size_dom, Hk'. apply subseteq_size. intros x Hx%(elem_of_list_to_set (C := gset MessageId)). auto.
Qed.

Lemma routed_sent :
  ∃ cs oks, length oks = length cs ∧ NoDup cs ∧ (∀ c, c ∈ cs ↔ subscribed b (env_header e) sender peer c) ∧
    drop (length (sock_wire (m_socket b))) (sock_wire (m_socket b')) =
      sent_groups (encodeHeader (env_header e)) (env_payload e) cs oks ∧
    (∀ c e', copies c e' b' = copies c e' b +
       length (filter (.= group_of e' (Some c)) (sent_groups (encodeHeader (env_header e)) (env_payload e) cs oks))) ∧
    m_totalDropped b' = Nat.iter (link_refusals (makeWireMessage (encodeHeader (env_header e)) (env_payload e)) (m_peers b) +
      refusals oks) inc64 (m_totalDropped b) ∧
    length cs ≤ size (m_clientTopics (m_subscriptions b)).
Proof.
  destruct (rt_sent _ _ _ _ _ _ Hr) as (cs & oks & Hlen & Hnd & Hcs & Hw & Hd). exists cs, oks. split_and!; try done.
  - by rewrite Hw, drop_app_length.
  - intros c e'. unfold copies. by rewrite Hw, filter_app, length_app.
  - apply (subscribed_bound b (env_header e) sender peer); [done|]. intros c. by rewrite Hcs.
Qed.

Lemma routed_once c e' :
  member M e' → copies c e' b' ≤ (if decide (msg_id e' ∈ known b') then 1 else 0).
Proof.
  intros He'. destruct routed_known as (Hk & _). destruct routed_sent as (cs & oks & Hlen & Hnd & _ & _ & Hc & _).
  pose proof (nd_once _ _ _ Hn c e' He') as H1. rewrite Hc.
  destruct (sent_groups_count (encodeHeader (env_header e)) (env_payload e) cs oks Hlen Hnd) as (_ & _ & Hg & Hn').
  destruct (decide (e' = e)) as [->|Hne].
  - rewrite decide_True by set_solver. rewrite decide_False in H1 by done.
    destruct (Hn' c) as [H2 _]. unfold group_of. destruct (decide (c ∈ cs)); lia.
  - assert (filter (.= group_of e' (Some c)) (sent_groups (encodeHeader (env_header e)) (env_payload e) cs oks) = []) as ->.
    { apply elem_of_nil_inv. intros g [-> (c' & _ & (_ & E & _)%frames_inj)%Hg]%list_elem_of_filter. by apply Hne, member_frame_inj. }
    simpl. rewrite Nat.add_0_r. etrans; [exact H1|]. rewrite Hk. repeat case_decide; try lia. set_solver.
Qed.

Lemma elem_of_emitted p :
  p ∈ emitted i b b' ↔
  (∃ k l j, m_peers b !! k = Some l ∧ remote i k = Some j ∧ pl_active l = true ∧
     (writeEncoded (makeWireMessage (encodeHeader (env_header e)) (env_payload e)) (pl_worker l)).1 = true ∧
     p = Up j (pl_linkId l) (group_of e None)) ∨
  (∃ g, g ∈ drop (length (sock_wire (m_socket b))) (sock_wire (m_socket b')) ∧ group_down i g = Some p).
Proof.
  unfold emitted. rewrite elem_of_app, list_elem_of_omap. apply or_iff_compat_r. rewrite list_elem_of_bind. split.
  - intros (k & Hp & _). rewrite (routed_link_ups i e sender peer) in Hp by done.
    destruct (remote i k) as [j|] eqn:Er; [|by apply not_elem_of_nil in Hp].
    destruct (m_peers b !! k) as [l|] eqn:El; [|by apply not_elem_of_nil in Hp].
    destruct (pl_active l) eqn:Ea; [|by apply not_elem_of_nil in Hp]. simpl in Hp.
    destruct (writeEncoded _ _).1 eqn:Ew; [|by apply not_elem_of_nil in Hp].
    apply list_elem_of_singleton in Hp. by exists k, l, j.
  - intros (k & l & j & Hl & Hj & Ha & Hw & ->). exists k. rewrite (routed_link_ups i e sender peer), Hj, Hl, Ha, Hw by done.
    split; [by left|]. apply elem_of_elements. rewrite (grows_dom _ _ (routed_grows _ _ _ _ _ _ Hr)). apply elem_of_dom. eauto.
Qed.

Lemma bind_length_le {A B} (f : A → list B) l : (∀ x, length (f x) ≤ 1) → length (l ≫= f) ≤ length l.
Proof. intros Hf. induction l as [|x l IH]; [done|]. rewrite bind_cons, length_app. specialize (Hf x). cbn [length]. lia. Qed.

Lemma omap_length_le {A B} (f : A → option B) l : length (omap f l) ≤ length l.
Proof.
  induction l as [|x l IH]; [done|]. change (length (match f x with Some y => y :: omap f l | None => omap f l end) ≤ Datatypes.S (length l)).
  destruct (f x); cbn [length]; lia.
Qed.

Lemma routed_fanout : length (emitted i b b') ≤ fanout b.
Proof.
  destruct routed_sent as (cs & oks & Hlen & Hnd & _ & Hw & _ & _ & Hcs). unfold emitted, fanout. rewrite length_app, Hw.
  apply Nat.add_le_mono.
  - rewrite (grows_dom _ _ (routed_grows _ _ _ _ _ _ Hr)), <-size_dom. apply bind_length_le. intros k.
    rewrite (routed_link_ups i e sender peer) by done. destruct (remote i k), (m_peers b !! k); simpl; try lia.
    destruct (_ && _); simpl; lia.
  - etrans; [apply omap_length_le|]. etrans; [|exact Hcs]. by apply sent_groups_count.
Qed.

Lemma routed_packets p : p ∈ emitted i b b' → carries p e ∧
  match p with
  | Up j c _ => ∃ k l, m_peers b !! k = Some l ∧ remote i k = Some j ∧ c = pl_linkId l
  | Down i' k _ => ∃ c, owner i c = Some (i', k)
  end.
Proof.
  destruct routed_sent as (cs & oks & Hlen & Hnd & _ & Hw & _). rewrite elem_of_emitted, Hw.
  intros [(k & l & j & Hl & Hj & _ & _ & ->)|(g & Hg & Hd)]; [split; [done|by exists k, l]|].
  apply sent_groups_count in Hg as (c & _ & ->); [|done..]. simpl in Hd.
  destruct (owner i c) as [[i' k]|] eqn:Ho; [|done]. injection Hd as <-. split; [done|by exists c].
Qed.

Lemma routed_drops :
  ∃ n, m_totalDropped b' = Nat.iter n inc64 (m_totalDropped b) ∧ n ≤ fanout b ∧ (n = 0 → passed_on i e sender peer b b').
Proof.
  destruct routed_sent as (cs & oks & Hlen & Hnd & Hcs & Hw & Hc & Hd & Hsize). eexists. split; [exact Hd|].
  destruct (sent_groups_count (encodeHeader (env_header e)) (env_payload e) cs oks Hlen Hnd) as (_ & Hro & _ & Hg). split.
  - unfold fanout. apply Nat.add_le_mono; [apply link_refusals_bound|lia].
  - intros [Hl Ho]%Nat.eq_add_0. apply length_zero_iff_nil in Hl. split.
    + intros k l j Hk Ha Hj. apply elem_of_emitted. left. exists k, l, j. split_and!; try done.
      destruct (writeEncoded _ _).1 eqn:Ew; [done|]. apply (filter_nil_not_elem_of _ _ (k, l)) in Hl; [|done].
      by destruct Hl; apply elem_of_map_to_list.
    + intros c (t & Ht & Hh) Hs. assert (c ∈ cs) as Hin.
      { apply Hcs. split; [done|]. exists t, Origins.Any. split_and!; [done..|by destruct peer]. }
      destruct (Hg c) as [_ Hin']. specialize (Hin' Ho Hin). split.
      * rewrite Hc. assert (group_of e (Some c) ∈ filter (.= group_of e (Some c))
          (sent_groups (encodeHeader (env_header e)) (env_payload e) cs oks)) as Hf by (by apply list_elem_of_filter).
        apply list_elem_of_split in Hf as (l1 & l2 & ->). rewrite length_app. simpl. lia.
      * intros i' k Hown. apply elem_of_emitted. right. rewrite Hw. eexists. split; [exact Hin'|].
        simpl. by rewrite Hown.
Qed.

Lemma routed_advance : broker_inv b' → kept b b' → sock_open (m_socket b') = [] → advance i e sender peer b b'.
Proof.
  intros Hinv' K Ho'. destruct routed_known as (Hk & Hs & Hle & Hlog). pose proof routed_fanout as Hf.
  destruct routed_drops as (n & Hd & Hn' & Hp).
  assert (∀ x, x ≤ fanout b → x + fanout b * (size M - size (known b')) ≤ fanout b * (size M - size (known b))) as Hpay.
  { intros x Hx. replace (size M - size (known b)) with (Datatypes.S (size M - size (known b'))) by lia. lia. }
  split; try done.
  - split; try done; [rewrite (kept_queue _ _ K); apply Hn| |apply routed_once].
    intros c o Hc. apply (kept_clients _ _ K). by apply (nd_sessions _ _ _ Hn _ _ Hc).
  - apply K.
  - by eapply routed_grows.
  - intros c e'. destruct routed_sent as (cs & oks & _ & _ & _ & _ & Hc & _). rewrite Hc. lia.
  - apply routed_packets.
  - by apply Hpay.
  - exists n. split_and!; auto.
Qed.
End routed.

Lemma emitted_refl i b : emitted i b b = [].
Proof. by apply ignored_emitted. Qed.

(** The inbound queue and the counters of received messages play no part in it. *)
Lemma node_ok_inbound i q b : node_ok M i b → Forall (member M) (m_queue q) → node_ok M i (with_inbound q b).
Proof. intros [Hinv ? ? ? ? ?] Hq. split; try done. by apply (frame_broker_inv b). Qed.

Lemma node_ok_count i n b : node_ok M i b → node_ok M i (count_received n b).
Proof. intros [Hinv ? ? ? ? ?]. split; try done. by apply (frame_broker_inv b). Qed.

Lemma advance_inbound i e sender peer b b' q q' :
  advance i e sender peer b b' → Forall (member M) (m_queue q') →
  advance i e sender peer (with_inbound q b) (with_inbound q' b').
Proof.
  intros [Hn Hs [Hw Hl] Hk Hc Hp Hct (n & Hd & Hn' & Hpo)] Hq. split; try done; [by apply node_ok_inbound|].
  exists n. split_and!; [done..|]. intros Hz Hnew. destruct (Hpo Hz Hnew). by split.
Qed.

Lemma advance_count i e sender peer n b b' :
  advance i e sender peer (count_received n b) b' → advance i e sender peer b b'.
Proof.
  intros [Hn Hs [Hw Hl] Hk Hc Hp Hct (n' & Hd & Hn' & Hpo)]. split; try done.
  exists n'. split_and!; [done..|]. intros Hz Hnew. destruct (Hpo Hz Hnew). by split.
Qed.

(** Every copy of a message of the run is dealt with. *)
Lemma process_advance env i e sender peer b :
  node_ok M i b → member M e → (peer = false → is_Some (m_clients b !! sender)) →
  ∃ b', processMessage env (env_header e) (env_payload e) sender peer b = Some b' ∧ kept b b' ∧ advance i e sender peer b b'.
Proof.
  intros Hn He Hs. destruct (member_data _ He) as [Hr Hu _ _].
  destruct (process_data env (env_header e) (env_payload e) sender peer b) as (b' & E & Hinv' & K & Ho' & Hb');
    [apply Hn..|done|done|done|]. exists b'. split_and!; [done..|]. fold (msg_id e) in Hb'.
  destruct (decide (msg_id e ∈ known b)); [by apply ignored_advance|by apply routed_advance].
Qed.
End node_lemmas.
