(* ===== verification/MeshSpec.v ===== *)
(** * The mesh's properties

    That a mesh of brokers neither storms nor loses messages ([mesh_no_storm],
    [mesh_delivers]), however its links run in circles.  A run is any interleaving of clients
    publishing, packets arriving or being lost, and inbound queues being drained; its messages
    [M] are as many as one window of the duplicate filter, so that none is forgotten.  The
    proofs carry an invariant of the run ([run_inv]): wherever a message is known it is known,
    or on its way, next door, unless a broker has counted a drop. *)

From Stdlib Require Import ZArith Lia.
From S2P Require Import Prelude.
From S2P Require Import MessageKeys.
From S2P Require Import Config.
From S2P Require Import SafeQueue.
From S2P Require Import Wire.
From S2P Require Import Registry.
From S2P Require Import Dedup.
From S2P Require Import Worker.
From S2P Require Import Interest.
From S2P Require Import Broker.
From S2P Require Import BrokerInv.
From S2P Require Import Delivery.
From S2P Require Import BrokerSpec.
From S2P Require Import Mesh.

Section mesh_steps.
Context {S : Type} `{!ZmqSender S} `{!ZmqSenderLaws S} {W : Type} `{!WorkerInterface W} `{!WorkerLaws W} {PB : ProtobufRuntime} {PBL : @ProtobufLaws PB} {Net : Network}.
Context (M : gmap MessageId Envelope) (HM : messages_ok M).
Implicit Types (b : Broker S W) (m : Mesh (S := S) (W := W)).

(** ** The graph a message spreads over *)

(** Broker [i] hands [e] to broker [j]: over a link it dials, or to a link of [j] that
    subscribed at [i]. *)
Definition edge m (e : Envelope) (i j : string) : Prop :=
  (∃ b k l, mesh_brokers m !! i = Some b ∧ m_peers b !! k = Some l ∧ pl_active l = true ∧ remote i k = Some j ∧
     is_Some (mesh_brokers m !! j)) ∨
  (∃ b c k, mesh_brokers m !! i = Some b ∧ owner i c = Some (j, k) ∧ wants (m_subscriptions b) c e).

(** A copy of [e] that broker [j] will still read. *)
Definition coming m (j : string) (e : Envelope) : Prop :=
  (∃ p, p ∈ mesh_flight m ∧ packet_node p = j ∧ carries p e) ∨
  (∃ b, mesh_brokers m !! j = Some b ∧ e ∈ m_queue (m_peerInboundQueue b)).

(** Wherever a message is known, it is known, or about to be, next door; [owed] is the copy
    just taken from the network, if any. *)
Definition spreading (owed : option (string * Envelope)) m : Prop :=
  ∀ e i j, member M e → knows m i e → edge m e i j → knows m j e ∨ coming m j e ∨ owed = Some (j, e).

(** [quiet i c]: client [c] of broker [i] publishes nothing itself. *)
Context (quiet : string → string → Prop).

Definition served m : Prop :=
  ∀ e i b c, member M e → mesh_brokers m !! i = Some b → msg_id e ∈ known b → wants (m_subscriptions b) c e →
    owner i c = None → quiet i c → 1 ≤ copies c e b.

(** The sender of a copy of [e] at broker [i] is a link whose broker knows it, or a client
    that publishes. *)
Definition sender_ok m (i : string) (e : Envelope) (sender : string) (peer : bool) : Prop :=
  peer = true ∨ match owner i sender with Some (i', _) => knows m i' e | None => ¬ quiet i sender end.

(** What data leaves of a broker: subscriptions, links, the capacity of its inbound queue;
    sessions and ids only come. *)
Record same_node b b' : Prop := {
  sn_subs : m_subscriptions b' = m_subscriptions b;
  sn_links : ∀ k, option_Forall2 (λ l l', pl_linkId l' = pl_linkId l ∧ pl_active l' = pl_active l) (m_peers b !! k) (m_peers b' !! k);
  sn_clients : ∀ c, is_Some (m_clients b !! c) → is_Some (m_clients b' !! c);
  sn_stop : m_stop (m_peerInboundQueue b') = m_stop (m_peerInboundQueue b);
  sn_room : m_maxSize (m_peerInboundQueue b') = m_maxSize (m_peerInboundQueue b);
  sn_known : known b ⊆ known b'
}.

Definition same_mesh m m' : Prop := ∀ n, option_Forall2 same_node (mesh_brokers m !! n) (mesh_brokers m' !! n).

#[export] Instance same_node_refl : Reflexive same_node.
Proof. intros b. split; try done. intros k. by destruct (m_peers b !! k); constructor. Qed.

#[export] Instance same_node_trans : Transitive same_node.
Proof.
  intros b1 b2 b3 [] []. split; try congruence; [|auto|by etrans]. intros k. specialize (sn_links0 k). specialize (sn_links1 k).
  destruct sn_links0 as [l1 l2 []|]; inversion sn_links1 as [? l3 []|]; subst; constructor. split; congruence.
Qed.

#[export] Instance same_mesh_refl : Reflexive same_mesh.
Proof. intros m n. by destruct (mesh_brokers m !! n); constructor. Qed.

#[export] Instance same_mesh_trans : Transitive same_mesh.
Proof.
  intros m1 m2 m3 H1 H2 n. specialize (H1 n). specialize (H2 n).
  destruct H1; inversion H2; subst; constructor. by etrans.
Qed.

Lemma same_mesh_back m m' n b' :
  same_mesh m m' → mesh_brokers m' !! n = Some b' → ∃ b, mesh_brokers m !! n = Some b ∧ same_node b b'.
Proof. intros Hs E. specialize (Hs n). rewrite E in Hs. inversion Hs; subst; eauto. Qed.

Lemma same_mesh_forth m m' n b :
  same_mesh m m' → mesh_brokers m !! n = Some b → ∃ b', mesh_brokers m' !! n = Some b' ∧ same_node b b'.
Proof. intros Hs E. specialize (Hs n). rewrite E in Hs. inversion Hs; subst; eauto. Qed.

Lemma same_node_link_back b b' k l' :
  same_node b b' → m_peers b' !! k = Some l' →
  ∃ l, m_peers b !! k = Some l ∧ pl_linkId l' = pl_linkId l ∧ pl_active l' = pl_active l.
Proof. intros [_ Hl _ _ _ _] E. specialize (Hl k). rewrite E in Hl. inversion Hl; subst; eauto. Qed.

Lemma same_node_link_forth b b' k l :
  same_node b b' → m_peers b !! k = Some l → ∃ l', m_peers b' !! k = Some l'.
Proof. intros [_ Hl _ _ _ _] E. specialize (Hl k). rewrite E in Hl. inversion Hl; subst; eauto. Qed.

Lemma same_mesh_knows m m' i e : same_mesh m m' → knows m i e → knows m' i e.
Proof.
  intros Hs (b & Hb & Hk). destruct (same_mesh_forth _ _ _ _ Hs Hb) as (b' & Hb' & Hn). exists b'. split; [done|].
  by apply (sn_known _ _ Hn).
Qed.

Lemma same_mesh_edge m m' e i j : same_mesh m m' → edge m' e i j → edge m e i j.
Proof.
  intros Hs [(b' & k & l' & Hb & Hl & Ha & Hr & [bj Hj])|(b' & c & k & Hb & Ho & Hw)];
    destruct (same_mesh_back _ _ _ _ Hs Hb) as (b & Eb & Hn).
  - destruct (same_mesh_back _ _ _ _ Hs Hj) as (bj0 & Ej & _).
    destruct (same_node_link_back _ _ _ _ Hn Hl) as (l & El & _ & Ea). left. exists b, k, l. split_and!; eauto; congruence.
  - right. exists b, c, k. by rewrite <-(sn_subs _ _ Hn).
Qed.

Lemma same_mesh_edge_forth m m' e i j : same_mesh m m' → edge m e i j → edge m' e i j.
Proof.
  intros Hs [(b & k & l & Hb & Hl & Ha & Hr & [bj Hj])|(b & c & k & Hb & Ho & Hw)];
    destruct (same_mesh_forth _ _ _ _ Hs Hb) as (b' & Eb & Hn).
  - destruct (same_mesh_forth _ _ _ _ Hs Hj) as (bj' & Ej & _).
    destruct (same_node_link_forth _ _ _ _ Hn Hl) as [l' El]. left. exists b', k, l'. split_and!; eauto.
    destruct (same_node_link_back _ _ _ _ Hn El) as (l1 & Hl1 & _ & Ea). congruence.
  - right. exists b', c, k. by rewrite (sn_subs _ _ Hn).
Qed.

Lemma same_mesh_network m m' : same_mesh m m' → network_ok m → network_ok m'.
Proof.
  intros Hs [Ho Hr]. split.
  - intros j c i k (b & l & Hb & Hl)%Ho. destruct (same_mesh_forth _ _ _ _ Hs Hb) as (b' & Hb' & Hn).
    destruct (same_node_link_forth _ _ _ _ Hn Hl) as [l' Hl']. eauto.
  - intros i k j b' l' Hb' Hl' Hk. destruct (same_mesh_back _ _ _ _ Hs Hb') as (b & Hb & Hn).
    destruct (same_node_link_back _ _ _ _ Hn Hl') as (l & Hl & -> & _). eauto.
Qed.

Lemma fanout_same b b' : same_node b b' → fanout b' = fanout b.
Proof.
  intros [Hs Hl _ _ _ _]. unfold fanout. rewrite Hs. f_equal. rewrite <-!size_dom. f_equal. apply set_eq. intros k.
  rewrite !elem_of_dom. specialize (Hl k). destruct Hl; [|done]. split; intros _; eauto.
Qed.

(** ** Costs *)

Lemma sum_brokers (bs : gmap string (Broker S W)) i b :
  bs !! i = Some b →
  sum_list (debt M <$> (map_to_list bs).*2) = debt M b + sum_list (debt M <$> (map_to_list (delete i bs)).*2).
Proof.
  intros Hi. rewrite <-(map_to_list_delete bs i b Hi). done.
Qed.

Lemma potential_update m i b b' fl :
  mesh_brokers m !! i = Some b →
  potential M (mkMesh (<[i := b']> (mesh_brokers m)) fl) + 2 * length (mesh_flight m) + debt M b =
  potential M m + 2 * length fl + debt M b'.
Proof.
  intros Hi. unfold potential. simpl. rewrite (sum_brokers _ _ _ Hi).
  rewrite (sum_brokers (<[i := b']> (mesh_brokers m)) i b') by apply lookup_insert_eq. rewrite delete_insert_eq. lia.
Qed.

(** ** One broker moves *)

Definition update (i : string) b' (fl : list Packet) m : Mesh := mkMesh (<[i := b']> (mesh_brokers m)) fl.

Section update.
Context (m : Mesh (S := S) (W := W)) (i : string) (b b' : Broker S W) (fl : list Packet).
Context (Hi : mesh_brokers m !! i = Some b) (Hsame : same_node b b').

Lemma update_same : same_mesh m (update i b' fl m).
Proof.
  intros n. simpl. rewrite lookup_insert. case_decide; [subst; rewrite Hi; by constructor|].
  by destruct (mesh_brokers m !! n); constructor.
Qed.

Lemma update_knows n e : knows m n e → knows (update i b' fl m) n e.
Proof.
  intros (bn & Hn & Hk). unfold knows. simpl. setoid_rewrite lookup_insert.
  case_decide; [|eauto]. subst. exists b'. split; [done|]. simplify_eq. by apply (sn_known _ _ Hsame).
Qed.

Lemma update_knows_inv n e : knows (update i b' fl m) n e → knows m n e ∨ (n = i ∧ msg_id e ∈ known b').
Proof.
  clear Hi Hsame b. intros (bn & Hn & Hk). simpl in Hn. rewrite lookup_insert in Hn. case_decide; [|left; by exists bn].
  simplify_eq. auto.
Qed.

Lemma update_ok : mesh_ok M m → node_ok M i b' → Forall (packet_ok M (update i b' fl m)) fl → mesh_ok M (update i b' fl m).
Proof.
  intros [Hn Hf Hnet] Hn' Hf'. split; [|done|]; [|apply (same_mesh_network m); [apply update_same|done]].
  simpl. by apply map_Forall_insert_2.
Qed.

Lemma update_packet p : packet_ok M m p → packet_ok M (update i b' fl m) p.
Proof.
  intros (e & He & Hc & Hp). exists e. split_and!; [done..|]. destruct p as [j c g|j k g].
  - destruct Hp as (i' & k & Ho & Hk). exists i', k. split; [done|]. by apply update_knows.
  - destruct Hp as (bj & l & Hb & Hl). destruct (same_mesh_forth _ _ _ _ update_same Hb) as (b1 & Hb1 & Hs).
    destruct (same_node_link_forth _ _ _ _ Hs Hl) as [l' Hl']. by exists b1, l'.
Qed.
End update.

(** ** The invariant of a run *)

Context (m0 : Mesh (S := S) (W := W)) (lossless : Prop).

(** [N i] counts what broker [i] has dropped since [m0]. *)
Record tally (N : string → nat) m : Prop := {
  ta_none : ∀ i, mesh_brokers m !! i = None → N i = 0;
  ta_some : ∀ i b0 b, mesh_brokers m0 !! i = Some b0 → mesh_brokers m !! i = Some b →
    m_totalDropped b = Nat.iter (N i) inc64 (m_totalDropped b0) ∧
    N i + fanout b * (size M - size (known b)) ≤ fanout b0 * size M
}.

Record run_inv (owed : option (string * Envelope)) m : Prop := {
  ri_ok : mesh_ok M m;
  ri_same : same_mesh m0 m;
  ri_tally : ∃ N, tally N m ∧ ((∀ i, N i = 0) → lossless → spreading owed m ∧ served m)
}.

Lemma member_inj e e' : member M e → member M e' → msg_id e = msg_id e' → e = e'.
Proof. unfold member. congruence. Qed.

Section advance.
Context (owed : option (string * Envelope)) (m : Mesh (S := S) (W := W)) (i : string) (b b' : Broker S W).
Context (e : Envelope) (sender : string) (peer : bool).
Context (Howed : owed = None ∨ owed = Some (i, e)) (Hi : mesh_brokers m !! i = Some b).
Context (Ha : advance M i e sender peer b b') (Hsame : same_node b b') (He : member M e).
Context (Hq : m_queue (m_peerInboundQueue b') = m_queue (m_peerInboundQueue b) ∨
  m_queue (m_peerInboundQueue b) = e :: m_queue (m_peerInboundQueue b')).

Let m' := update i b' (mesh_flight m ++ emitted i b b') m.

Lemma advance_ok : mesh_ok M m → mesh_ok M m'.
Proof.
  intros Hok. apply (update_ok m i b); [done..|apply Ha|]. apply Forall_app. split.
  - eapply Forall_impl; [apply Hok|]. intros p. by apply (update_packet m i b).
  - apply Forall_forall. intros p Hp. destruct (ad_packets _ _ _ _ _ _ _ Ha p Hp) as [Hc Hp']. exists e. split_and!; [done..|].
    destruct p as [j c g|j k g].
    + destruct Hp' as (k & l & Hl & Hr & ->). exists i, k.
      split; [by apply (net_remote _ (mo_network _ _ Hok) i k j b)|]. exists b'. split; [apply lookup_insert_eq|].
      rewrite (ad_known _ _ _ _ _ _ _ Ha). set_solver.
    + destruct Hp' as (c & Ho). pose proof (update_same m i b b' (mesh_flight m ++ emitted i b b') Hi Hsame) as Hs.
      by apply (net_owned _ (same_mesh_network _ _ Hs (mo_network _ _ Hok)) i c).
Qed.

Lemma advance_cost :
  potential M m' + length (m_queue (m_peerInboundQueue b)) ≤ potential M m + length (m_queue (m_peerInboundQueue b')).
Proof.
  pose proof (potential_update m i b b' (mesh_flight m ++ emitted i b b') Hi) as E. fold (update i b' (mesh_flight m ++ emitted i b b') m) in E.
  fold m' in E. rewrite length_app in E. unfold debt in E. rewrite (fanout_same _ _ Hsame) in E.
  pose proof (ad_count _ _ _ _ _ _ _ Ha). nia.
Qed.

Lemma advance_edge : msg_id e ∉ known b → passed_on i e sender peer b b' → sender_ok m i e sender peer →
  ∀ j, edge m e i j → knows m' j e ∨ coming m' j e.
Proof.
  intros Hnew [Hl Hc] Hs j [(b1 & k & l & Hb & Hk & Hact & Hr & _)|(b1 & c & k & Hb & Ho & Hw)]; simplify_eq.
  - right. left. eexists. split; [apply elem_of_app; right; by apply (Hl k l j)|]. done.
  - destruct (decide (peer = true ∨ c ≠ sender)) as [Hp|Hp].
    + destruct (Hc c Hw Hp) as [_ Hd]. right. left. eexists. split; [apply elem_of_app; right; by apply (Hd j k)|]. done.
    + left. apply (update_knows m i b); [done..|]. destruct Hs as [?|Hs]; [by destruct Hp; left|].
      destruct (decide (c = sender)) as [->|]; [|by destruct Hp; right]. by rewrite Ho in Hs.
Qed.

Lemma advance_spreading :
  spreading owed m → (msg_id e ∉ known b → passed_on i e sender peer b b') → sender_ok m i e sender peer → spreading None m'.
Proof.
  intros Hsp Hpass Hs e1 i1 j1 He1 Hk Hedge. apply (same_mesh_edge m) in Hedge; [|by apply (update_same m i b)].
  pose proof (update_knows m i b b' (mesh_flight m ++ emitted i b b') Hi Hsame) as Hup. fold m' in Hup.
  assert (knows m' i e) as Hie.
  { exists b'. split; [apply lookup_insert_eq|]. rewrite (ad_known _ _ _ _ _ _ _ Ha). set_solver. }
  assert (knows m i1 e1 ∨ (i1 = i ∧ e1 = e ∧ msg_id e ∉ known b)) as [Hk'|(-> & -> & Hnew)].
  { apply update_knows_inv in Hk as [?|[-> Hk']]; [by left|]. rewrite (ad_known _ _ _ _ _ _ _ Ha) in Hk'.
    destruct (decide (msg_id e1 ∈ known b)); [left; by exists b|]. right. assert (msg_id e1 = msg_id e) as E by set_solver.
    assert (e1 = e) as -> by (by apply member_inj). done. }
  - destruct (Hsp e1 i1 j1 He1 Hk' Hedge) as [Hj|[[(p & Hp & Hj & Hc)|(bj & Hj & Hq1)]|Ho]]; [by left; apply Hup| | |].
    + right. left. left. exists p. split_and!; [|done..]. apply elem_of_app. by left.
    + destruct (decide (j1 = i)) as [->|Hne].
      * simplify_eq. assert (e1 = e ∨ e1 ∈ m_queue (m_peerInboundQueue b')) as [->|Hin]; [|by left|].
        { destruct Hq as [Eq|Eq]; [right; by rewrite Eq|]. rewrite Eq in Hq1. by apply elem_of_cons in Hq1. }
        right. left. right. exists b'. split; [apply lookup_insert_eq|done].
      * right. left. right. exists bj. split; [by apply lookup_insert_Some; right|done].
    + destruct Howed; simplify_eq. by left.
  - destruct (advance_edge Hnew (Hpass Hnew) Hs j1 Hedge); auto.
Qed.

Lemma advance_served :
  served m → (msg_id e ∉ known b → passed_on i e sender peer b b') → sender_ok m i e sender peer → served m'.
Proof.
  intros Hsv Hpass Hs e1 i1 b1 c He1 Hb1 Hk Hw Ho Hqt. simpl in Hb1. apply lookup_insert_Some in Hb1 as [[<- <-]|[Hne Hb1]]; [|by eapply Hsv].
  rewrite (sn_subs _ _ Hsame) in Hw. destruct (decide (msg_id e1 ∈ known b)) as [Hin|Hnew].
  - etrans; [by apply (Hsv e1 i b c)|apply Ha].
  - rewrite (ad_known _ _ _ _ _ _ _ Ha) in Hk. assert (msg_id e1 = msg_id e) as E by set_solver.
    apply member_inj in E as ->; [|done..]. apply (po_clients _ _ _ _ _ _ (Hpass Hnew)); [done|].
    destruct Hs as [?|Hs]; [by left|]. right. intros ->. by rewrite Ho in Hs.
Qed.

(** Broker [i] deals with a copy of [e]. *)
Lemma advance_run : run_inv owed m → sender_ok m i e sender peer → run_inv None m'.
Proof.
  intros [Hok Hsm (N & HN & Hz)] Hs. split; [by apply advance_ok|etrans; [done|by apply (update_same m i b)]|].
  destruct (ad_drops _ _ _ _ _ _ _ Ha) as (n & Hd & Hn & Hpass).
  exists (λ x, if decide (x = i) then N i + n else N x). split.
  - split; intros x; simpl; rewrite lookup_insert.
    + case_decide; [done|]. rewrite decide_False by congruence. apply HN.
    + intros b0 b1 Hb0 Hb1. destruct (decide (i = x)) as [->|Hne]; [|rewrite decide_False by congruence; by apply HN].
      rewrite decide_True by done. simplify_eq. destruct (ta_some _ _ HN x b0 b Hb0 Hi) as [Hd0 Hc].
      rewrite Nat.add_comm, Nat.iter_add, <-Hd0. split; [done|]. rewrite (fanout_same b b1) by done. lia.
  - intros Hz' Hl. assert (n = 0 ∧ ∀ x, N x = 0) as [-> Hz0].
    { pose proof (Hz' i) as Hzi. rewrite decide_True in Hzi by done. split; [lia|]. intros x. specialize (Hz' x).
      destruct (decide (x = i)); [subst; lia|done]. }
    destruct (Hz Hz0 Hl) as [Hsp Hsv]. split; [apply advance_spreading|apply advance_served]; auto.
Qed.
End advance.

(** ** The steps *)

Lemma run_inv_perm owed m fl :
  run_inv owed m → mesh_flight m ≡ₚ fl →
  run_inv owed (mkMesh (mesh_brokers m) fl) ∧ potential M (mkMesh (mesh_brokers m) fl) = potential M m.
Proof.
  intros [[Hn Hf Hnet] Hs (N & [HN1 HN2] & Hz)] Hp. split; [|unfold potential; simpl; by rewrite Hp].
  split; [split; [done| |by destruct Hnet]|done|].
  - apply Forall_forall. intros p Hin. simpl in Hin. rewrite <-Hp in Hin. by apply (proj1 (Forall_forall _ _) Hf p).
  - exists N. split; [by split|]. intros HN Hl. destruct (Hz HN Hl) as [Hsp Hsv]. split; [|done].
    intros e i j He Hk Hedge. destruct (Hsp e i j He Hk Hedge) as [?|[[(p & Hin & Hpn & Hc)|?]|?]]; [by left| | |by right; right].
    + right. left. left. rewrite Hp in Hin. by exists p.
    + right. left. by right.
Qed.

Lemma take_flight_same n m p m' : take_flight n m = Some (p, m') → same_mesh m m'.
Proof. unfold take_flight. destruct (_ !! n); [|done]. intros [= _ <-]. apply (same_mesh_refl m). Qed.

(** A packet taken from the network. *)
Lemma take_run n m p m' :
  run_inv None m → take_flight n m = Some (p, m') →
  ∃ e, member M e ∧ carries p e ∧ run_inv (Some (packet_node p, e)) m' ∧ packet_ok M m' p ∧ potential M m' + 2 = potential M m.
Proof.
  intros [[Hn Hf Hnet] Hs (N & [HN1 HN2] & Hz)] Ht. unfold take_flight in Ht.
  destruct (mesh_flight m !! n) as [p'|] eqn:Hp; [|done]. simpl in Ht. injection Ht as -> <-.
  pose proof (proj1 (Forall_lookup _ _) Hf n p Hp) as Hok. destruct Hok as (e & He & Hc & Hrest).
  pose proof (delete_Permutation _ _ _ Hp) as Hperm. exists e. split_and!; [done..| | |].
  - split; [split; [done| |by destruct Hnet]|done|].
    + simpl. by apply Forall_delete.
    + exists N. split; [by split|]. intros HN Hl. destruct (Hz HN Hl) as [Hsp Hsv]. split; [|done].
      intros e1 i j He1 Hk Hedge. destruct (Hsp e1 i j He1 Hk Hedge) as [?|[[(p1 & Hin & Hpn & Hc1)|?]|?]]; [by left| | |done].
      * rewrite Hperm in Hin. apply elem_of_cons in Hin as [->|Hin]; [|right; left; left; by exists p1].
        right. right. subst j. assert (e1 = e) as ->; [|done]. unfold carries, frames in *. rewrite Hc in Hc1.
        apply (member_frame_inj M HM); [done..|]. by injection Hc1.
      * right. left. by right.
  - by exists e.
  - unfold potential. simpl. apply Permutation_length in Hperm. simpl in Hperm. lia.
Qed.

(** What is lost does not harm what is left. *)
Lemma owed_run owed m : run_inv owed m → (lossless → ∃ i e, owed = Some (i, e) ∧ mesh_brokers m !! i = None) → run_inv None m.
Proof.
  intros [Hok Hs (N & HN & Hz)] Ho. split; [done..|]. exists N. split; [done|]. intros HN0 Hl. destruct (Hz HN0 Hl) as [Hsp Hsv].
  split; [|done]. intros e i j He Hk Hedge. destruct (Hsp e i j He Hk Hedge) as [?|[?|E]]; [by left|by right; left|].
  destruct (Ho Hl) as (i' & e' & -> & Hnone). injection E as -> ->. exfalso.
  destruct Hedge as [(? & ? & ? & _ & _ & _ & _ & [? ?])|(? & c & k & _ & Hown & _)]; [congruence|].
  apply (net_owned _ (mo_network _ _ Hok)) in Hown as (? & ? & ? & _). congruence.
Qed.

Lemma push_shape (e : Envelope) q :
  ∃ l, (push_timed e q).2 = mkQueue (m_queue q ++ l) (m_stop q) (m_maxSize q) ∧ (l = [] ∨ l = [e]) ∧
    (m_stop q = false ∧ length (m_queue q) < m_maxSize q → l = [e]).
Proof.
  unfold push_timed, hasRoom, push_ready. destruct q as [q [] mx]; simpl.
  - exists []. rewrite app_nil_r, orb_true_r. split_and!; [done|by left|]. by intros [? _].
  - rewrite orb_false_r. case_bool_decide; [exists [e]; eauto|]. exists []. rewrite app_nil_r.
    split_and!; [done|by left|]. intros [_ ?]. lia.
Qed.

(** A message from a link joins the broker's inbound queue. *)
Lemma enqueue_run m i b e :
  run_inv (Some (i, e)) m → member M e → mesh_brokers m !! i = Some b →
  (lossless → m_stop (m_peerInboundQueue b) = false ∧ length (m_queue (m_peerInboundQueue b)) < m_maxSize (m_peerInboundQueue b)) →
  let b' := with_inbound (push_timed e (m_peerInboundQueue b)).2 b in
  run_inv None (update i b' (mesh_flight m) m) ∧ potential M (update i b' (mesh_flight m) m) ≤ potential M m + 1 ∧
  same_mesh m (update i b' (mesh_flight m) m).
Proof.
  intros [Hok Hs (N & [HN1 HN2] & Hz)] He Hi Hroom b'. pose proof (mo_nodes _ _ Hok i b Hi) as Hn.
  destruct (push_shape e (m_peerInboundQueue b)) as (l & El & Hl & Hl').
  assert (same_node b b') as Hsame.
  { split; try done; [intros k; change (m_peers b') with (m_peers b); by destruct (m_peers b !! k); constructor|simpl; by rewrite El..]. }
  assert (node_ok M i b') as Hn'.
  { apply node_ok_inbound; [done|]. rewrite El. apply Forall_app. split; [apply Hn|]. destruct Hl as [->| ->]; by repeat constructor. }
  pose proof (update_same m i b b' (mesh_flight m) Hi Hsame) as Hsm. split_and!; [| |done].
  - split; [|by etrans|].
    + apply (update_ok m i b); [done..|]. eapply Forall_impl; [apply Hok|]. intros p. by apply (update_packet m i b).
    + exists N. split.
      * split; intros x; simpl; rewrite lookup_insert; case_decide; try done; try apply HN1; try apply HN2.
        subst. intros b0 b1 Hb0 [= <-]. by apply (HN2 x b0 b).
      * intros HN Hls. destruct (Hz HN Hls) as [Hsp Hsv]. rewrite Hl' in El by (by apply Hroom). split.
        -- intros e1 i1 j1 He1 Hk Hedge. apply (same_mesh_edge m) in Hedge; [|done].
           assert (knows m i1 e1) as Hk'. { apply update_knows_inv in Hk as [?|[-> ?]]; [done|by exists b]. }
           assert (∀ e1, e1 ∈ m_queue (m_peerInboundQueue b) ++ [e] → coming (update i b' (mesh_flight m) m) i e1) as Hcom.
           { intros e2 Hin. right. exists b'. split; [apply lookup_insert_eq|]. simpl. by rewrite El. }
           destruct (Hsp e1 i1 j1 He1 Hk' Hedge) as [?|[[?|(bj & Hj & Hin)]|[= <- <-]]].
           ++ left. by apply (update_knows m i b).
           ++ right. left. by left.
           ++ right. left. destruct (decide (j1 = i)) as [->|]; [simplify_eq; apply Hcom, elem_of_app; by left|].
              right. exists bj. split; [by apply lookup_insert_Some; right|done].
           ++ right. left. apply Hcom, elem_of_app. right. by left.
        -- intros e1 i1 b1 c He1 Hb1. simpl in Hb1. apply lookup_insert_Some in Hb1 as [[<- <-]|[_ Hb1]]; [|by apply Hsv].
           by apply (Hsv e1 i b c).
  - pose proof (potential_update m i b b' (mesh_flight m) Hi) as E. fold (update i b' (mesh_flight m) m) in E. unfold debt in E.
    rewrite (fanout_same _ _ Hsame) in E. change (known b') with (known b) in E. change (m_peerInboundQueue b') with (push_timed e (m_peerInboundQueue b)).2 in E.
    rewrite El in E. simpl in E. rewrite length_app in E.
    destruct Hl as [->| ->]; simpl in E; lia.
Qed.

Lemma kept_same i e sender peer b b' : kept b b' → advance M i e sender peer b b' → same_node b b'.
Proof.
  intros [Hs _ Hq Hc] [_ _ [_ Hl] Hk _ _ _ _]. split; try done; [|by rewrite Hq..|rewrite Hk; set_solver]. intros k. specialize (Hl k).
  destruct Hl as [l l' (? & ? & _)|]; by constructor.
Qed.

(** A message read from the ROUTER. *)
Lemma router_run env m i b c e n owed :
  run_inv owed m → owed = None ∨ owed = Some (i, e) → member M e → mesh_brokers m !! i = Some b →
  is_Some (m_clients b !! c) → sender_ok m i e c false →
  ∃ b', from_router env c e n b = Some b' ∧
    run_inv None (update i b' (mesh_flight m ++ emitted i b b') m) ∧
    potential M (update i b' (mesh_flight m ++ emitted i b b') m) ≤ potential M m ∧
    same_node b b' ∧ msg_id e ∈ known b'.
Proof.
  intros Hr Ho He Hi Hc Hs. pose proof (mo_nodes _ _ (ri_ok _ _ Hr) i b Hi) as Hn.
  destruct (process_advance M HM env i e c false (count_received n b)) as (b' & E & K & Ha); [by apply node_ok_count|done..|].
  apply advance_count in Ha. exists b'. split; [done|].
  assert (same_node b b') as Hsame. { apply (kept_same i e c false); [|done]. by destruct K. }
  split; [apply (advance_run owed m i b b' e c false); auto; left; by rewrite (kept_queue _ _ K)|].
  pose proof (advance_cost m i b b' e c false Hi Ha Hsame) as Hcost. rewrite (kept_queue _ _ K) in Hcost. simpl in Hcost.
  split; [lia|]. split; [done|]. rewrite (ad_known _ _ _ _ _ _ _ Ha). set_solver.
Qed.

(** The inbound queue is worked through. *)
Lemma drain_run envs i st mx batch m b :
  run_inv None m → mesh_brokers m !! i = Some (with_inbound (mkQueue batch st mx) b) →
  m_peerInboundQueue b = mkQueue [] st mx →
  ∃ b', process_peers envs batch b = Some b' ∧ grows b b' ∧ same_node b b' ∧
    run_inv None (update i b' (mesh_flight m ++ emitted i b b') m) ∧
    potential M (update i b' (mesh_flight m ++ emitted i b b') m) + length batch ≤ potential M m.
Proof.
  revert m b. induction batch as [|e batch IH]; intros m b Hr Hi Hq.
  - exists b. split; [done|]. split; [done|]. split; [done|]. replace (with_inbound (mkQueue [] st mx) b) with b in Hi by (rewrite <-Hq; by destruct b).
    rewrite emitted_refl, app_nil_r. unfold update. rewrite insert_id by done. destruct m. simpl. split; [done|lia].
  - pose proof (mo_nodes _ _ (ri_ok _ _ Hr) i _ Hi) as Hn. pose proof (nd_queue _ _ _ Hn) as Hqs. simpl in Hqs.
    apply Forall_cons in Hqs as [He Hqs].
    assert (node_ok M i b) as Hn0.
    { replace b with (with_inbound (mkQueue [] st mx) (with_inbound (mkQueue (e :: batch) st mx) b)) by (rewrite <-Hq; by destruct b).
      by apply node_ok_inbound. }
    destruct (process_advance M HM (envs (length batch)) i e "PEER" true b Hn0 He) as (b1 & E & K & Ha); [done|].
    pose proof (ad_grows _ _ _ _ _ _ _ Ha) as G1.
    pose proof (advance_inbound M i e "PEER" true b b1 (mkQueue (e :: batch) st mx) (mkQueue batch st mx) Ha Hqs) as Ha'.
    assert (same_node (with_inbound (mkQueue (e :: batch) st mx) b) (with_inbound (mkQueue batch st mx) b1)) as Hsame.
    { destruct (kept_same _ _ _ _ _ _ K Ha). by split. }
    set (m1 := update i (with_inbound (mkQueue batch st mx) b1) (mesh_flight m ++ emitted i b b1) m).
    assert (run_inv None m1) as Hr1.
    { refine (advance_run None m i _ _ e "PEER" true _ Hi Ha' Hsame He _ Hr _); [by left|by right|by left]. }
    pose proof (advance_cost m i _ _ e "PEER" true Hi Ha' Hsame) as Hc1. simpl in Hc1.
    destruct (IH m1 b1 Hr1) as (b' & E' & G2 & S2 & Hr2 & Hc2); [apply lookup_insert_eq|by rewrite (kept_queue _ _ K)|].
    exists b'. simpl. rewrite E. simpl. split; [done|]. split; [by etrans|].
    split; [etrans; [by apply (kept_same i e "PEER" true)|done]|].
    destruct (run_inv_perm None _ (mesh_flight m ++ emitted i b b') Hr2) as [Hr3 Hc3].
    { simpl. rewrite (emitted_trans i b b1 b') by done. by rewrite app_assoc. }
    unfold update in Hr3, Hc3, Hc2 |- *. simpl in Hr3, Hc3, Hc2. rewrite insert_insert_eq in *.
    split; [done|]. unfold m1, update in Hc2. simpl in Hc2. change (emitted i (with_inbound _ b) (with_inbound _ b1)) with (emitted i b b1) in Hc1.
    unfold update in Hc1. lia.
Qed.

(** What the events of a run may be. *)
Definition event_ok (ev : MeshEvent) : Prop :=
  match ev with
  | Publish i sender _ e => member M e ∧ owner i sender = None ∧ ¬ quiet i sender ∧
      ∀ b, mesh_brokers m0 !! i = Some b → is_Some (m_clients b !! sender)
  | Lose _ => ¬ lossless
  | _ => True
  end.

(** Every inbound queue has room for all that can be under way. *)
Definition roomy : Prop :=
  ∀ i b, mesh_brokers m0 !! i = Some b →
    m_stop (m_peerInboundQueue b) = false ∧ potential M m0 ≤ m_maxSize (m_peerInboundQueue b).

Context (Hroomy : lossless → roomy).

Lemma potential_broker m i b : mesh_brokers m !! i = Some b → debt M b ≤ potential M m.
Proof. intros Hi. unfold potential. rewrite (sum_brokers _ _ _ Hi). lia. Qed.

Lemma potential_queue m i b :
  mesh_brokers m !! i = Some b → length (m_queue (m_peerInboundQueue b)) ≤ potential M m.
Proof. intros Hi. etrans; [|by apply (potential_broker m i b)]. apply Nat.le_add_r. Qed.

Lemma arrive_run env p m e :
  run_inv (Some (packet_node p, e)) m → member M e → carries p e → packet_ok M m p → potential M m + 2 ≤ potential M m0 →
  ∃ m', arrive env p m = Some m' ∧ run_inv None m' ∧ potential M m' ≤ potential M m + 1 ∧ same_mesh m m'.
Proof.
  intros Hr He Hc (e' & He' & Hc' & Hp) Hcost. unfold arrive. assert (e' = e) as ->.
  { apply (member_frame_inj M HM); [done..|]. unfold carries, frames in *. rewrite Hc in Hc'. by injection Hc'. }
  rewrite Hc, (packet_envelope_frames M HM e He). destruct p as [j c g|i k g]; simpl in *; unfold at_node.
  - destruct Hp as (i & k & Ho & Hk). destruct (mesh_brokers m !! j) as [b|] eqn:Hj.
    2: { exists m. split; [done|]. split; [|split; [lia|done]]. eapply owed_run; [exact Hr|]. eauto. }
    destruct (router_run env m j b c e (String.length (encodeHeader (env_header e)) + String.length (env_payload e)) _ Hr)
      as (b' & E & Hr' & Hc2 & Hsn & _); [by right|done|done| | |].
    + by apply (nd_sessions _ _ _ (mo_nodes _ _ (ri_ok _ _ Hr) j b Hj) c (i, k)).
    + right. by rewrite Ho.
    + rewrite E. simpl. eexists. split; [done|]. split; [exact Hr'|]. split; [unfold update in Hc2; lia|].
      by apply (update_same m j b).
  - destruct Hp as (b & l & Hi & Hl). rewrite Hi. simpl. eexists. split; [done|]. unfold peerCallback. rewrite Hl.
    destruct (member_data M HM e He) as [Hres _ _ _]. rewrite !decide_False by (intros E; by rewrite E in Hres).
    change (emitted i b (with_inbound _ b)) with (emitted i b b). rewrite emitted_refl, app_nil_r.
    apply enqueue_run; [done..|]. intros Hls. destruct (same_mesh_back _ _ _ _ (ri_same _ _ Hr) Hi) as (b0 & Hb0 & Hsn).
    destruct (Hroomy Hls i b0 Hb0) as [Hst Hmx]. rewrite (sn_stop _ _ Hsn), (sn_room _ _ Hsn). split; [done|].
    pose proof (potential_queue m i b Hi). lia.
Qed.

Lemma mesh_step_run ev m :
  run_inv None m → potential M m ≤ potential M m0 → event_ok ev →
  ∃ n m', mesh_step ev m = Some (n, m') ∧ run_inv None m' ∧ n + potential M m' ≤ potential M m ∧ same_mesh m m' ∧
    ∀ i sender env e, ev = Publish i sender env e → is_Some (mesh_brokers m !! i) → knows m' i e.
Proof.
  intros Hr Hc Hev. destruct ev as [i sender env e|n env|i envs|n]; simpl.
  - destruct Hev as (He & Ho & Hqt & Hses). unfold at_node. destruct (mesh_brokers m !! i) as [b|] eqn:Hi.
    2: { exists 0, m. split_and!; try done. intros ? ? ? ? [= <- <- <- <-] Hs. rewrite Hi in Hs. by destruct Hs. }
    destruct (same_mesh_back _ _ _ _ (ri_same _ _ Hr) Hi) as (b0 & Hb0 & Hsn).
    destruct (router_run env m i b sender e (String.length (encodeHeader (env_header e)) + String.length (env_payload e)) None Hr)
      as (b' & E & Hr' & Hc2 & Hsame & Hin); [by left|done|done|by apply (sn_clients _ _ Hsn), Hses|right; by rewrite Ho|].
    rewrite E. simpl. eexists _, _. split; [done|]. split; [exact Hr'|]. split; [exact Hc2|].
    split; [by apply (update_same m i b)|]. intros ? ? ? ? [= <- <- <- <-] _. exists b'. split; [apply lookup_insert_eq|done].
  - destruct (take_flight n m) as [[p m1]|] eqn:Ht; [|exists 0, m; by split_and!].
    destruct (take_run n m p m1 Hr Ht) as (e & He & Hcar & Hr1 & Hp & Hc1).
    destruct (arrive_run env p m1 e Hr1 He Hcar Hp) as (m' & -> & Hr' & Hc' & Hsm); [lia|]. simpl.
    eexists _, _. split; [done|]. split; [done|]. split; [lia|]. split; [|done]. etrans; [by eapply take_flight_same|done].
  - unfold at_node. destruct (mesh_brokers m !! i) as [b|] eqn:Hi; [|exists 0, m; by split_and!]. simpl.
    destruct (drain_run envs i (m_stop (m_peerInboundQueue b)) (m_maxSize (m_peerInboundQueue b)) (m_queue (m_peerInboundQueue b)) m
      (with_inbound (drainTo (m_peerInboundQueue b)).2 b) Hr) as (b' & E & G & Hsn & Hr' & Hc'); [|done|].
    { rewrite Hi. f_equal. by destruct b as [????????? [] ]; destruct m_peerInboundQueue. }
    unfold drain_peers, drainTo. simpl in E. rewrite E. simpl. eexists _, _. split; [done|]. split; [exact Hr'|].
    change (emitted i (with_inbound _ b) b') with (emitted i b b') in Hc'. unfold update in Hc'. split; [lia|]. split; [|done].
    apply (update_same m i b); [done|]. by destruct Hsn.
  - destruct (take_flight n m) as [[p m1]|] eqn:Ht; [|exists 0, m; by split_and!].
    destruct (take_run n m p m1 Hr Ht) as (e & He & Hcar & Hr1 & Hp & Hc1).
    exists 1, m1. split; [done|]. split; [by apply (owed_run _ _ Hr1)|]. split; [lia|]. split; [|done].
    by eapply take_flight_same.
Qed.

Lemma mesh_run_inv evs m :
  run_inv None m → potential M m ≤ potential M m0 → Forall event_ok evs →
  ∃ n m', mesh_run evs m = Some (n, m') ∧ run_inv None m' ∧ n + potential M m' ≤ potential M m ∧ same_mesh m m' ∧
    ∀ i sender env e, Publish i sender env e ∈ evs → is_Some (mesh_brokers m !! i) → knows m' i e.
Proof.
  intros Hr Hc Hevs. revert m Hr Hc. induction Hevs as [|ev evs Hev _ IH]; intros m Hr Hc; simpl.
  { exists 0, m. split_and!; try done. intros ???? H. by apply not_elem_of_nil in H. }
  destruct (mesh_step_run ev m Hr Hc Hev) as (n1 & m1 & -> & Hr1 & Hc1 & Hs1 & Hk1). simpl.
  destruct (IH m1 Hr1) as (n2 & m2 & -> & Hr2 & Hc2 & Hs2 & Hk2); [lia|]. simpl. eexists _, _.
  split; [done|]. split; [done|]. split; [lia|]. split; [by etrans|]. intros i sender env e [<-|Hin]%elem_of_cons Hi.
  - by apply (same_mesh_knows m1), (Hk1 i sender env e).
  - eapply Hk2; [done|]. destruct Hi as [b Hb]. by destruct (same_mesh_forth _ _ _ _ Hs1 Hb) as (b' & ? & _); exists b'.
Qed.
End mesh_steps.

(** ** The mesh's properties *)

Section mesh_properties.
Context {S : Type} `{!ZmqSender S} `{!ZmqSenderLaws S} {W : Type} `{!WorkerInterface W} `{!WorkerLaws W} {PB : ProtobufRuntime} {PBL : @ProtobufLaws PB} {Net : Network}.
Context (M : gmap MessageId Envelope).
Implicit Types (b : Broker S W) (m : Mesh (S := S) (W := W)).

(** What clients publish: messages of the run, each from a session of its broker. *)
Definition publish_ok m (ev : MeshEvent) : Prop :=
  match ev with
  | Publish i sender _ e => member M e ∧ owner i sender = None ∧
      ∀ b, mesh_brokers m !! i = Some b → is_Some (m_clients b !! sender)
  | _ => True
  end.

Definition is_receive (ev : MeshEvent) : Prop :=
  match ev with Deliver _ _ | Drain _ _ => True | _ => False end.

Definition quiescent m : Prop :=
  mesh_flight m = [] ∧ ∀ i b, mesh_brokers m !! i = Some b → m_queue (m_peerInboundQueue b) = [].

(** No message of the run has been published yet. *)
Definition fresh m : Prop := quiescent m ∧ ∀ i b, mesh_brokers m !! i = Some b → known b = ∅.

#[export] Instance quiescent_dec m : Decision (quiescent m).
Proof.
  unfold quiescent. apply and_dec; [destruct (mesh_flight m); [by left|by right]|].
  refine (cast_if (decide (map_Forall (λ _ b, m_queue (m_peerInboundQueue b) = []) (mesh_brokers m)))); done.
Defined.

Lemma not_quiescent m : ¬ quiescent m →
  0 < length (mesh_flight m) ∨ ∃ i b, mesh_brokers m !! i = Some b ∧ 0 < length (m_queue (m_peerInboundQueue b)).
Proof.
  intros Hq. destruct (mesh_flight m) eqn:E; [|left; simpl; lia]. right.
  destruct (decide (map_Forall (λ _ b, m_queue (m_peerInboundQueue b) = []) (mesh_brokers m))) as [Hf|Hf].
  - by destruct Hq.
  - apply map_not_Forall in Hf as (i & b & Hi & Hb); [|apply _]. exists i, b. split; [done|].
    destruct (m_queue _); [done|]. simpl. lia.
Qed.

(** From any state the mesh comes to rest. *)
Lemma mesh_settles (HM : messages_ok M) (env : Env) m :
  mesh_ok M m → ∃ evs n m', Forall is_receive evs ∧ length evs ≤ potential M m ∧ mesh_run evs m = Some (n, m') ∧ quiescent m'.
Proof.
  remember (potential M m) as x eqn:Ex. assert (potential M m ≤ x) as Hx by lia. clear Ex. revert m Hx.
  induction x as [x IH] using lt_wf_ind; intros m Hx Hok.
  destruct (decide (quiescent m)) as [Hq|Hq]; [exists [], 0, m; split_and!; [done|simpl; lia|done|done]|].
  assert (∃ ev, is_receive ev ∧ ∃ m', mesh_ok M m' ∧ potential M m' < potential M m ∧ ∃ n, mesh_step ev m = Some (n, m'))
    as (ev & Hev & m' & Hok' & Hlt & n & E).
  { assert (run_inv M (λ _ _, False) m False None m) as Hr.
    { split; [done|done|]. exists (λ _, 0). split; [|done]. split; [done|]. intros i b0 b ? ?. simplify_eq. split; [done|]. simpl. nia. }
    assert (∃ ev, is_receive ev ∧ event_ok M (λ _ _, False) m False ev ∧ ∀ n m', mesh_step ev m = Some (n, m') → 0 < n)
      as (ev & Hev & Hok' & Hpos).
    { apply not_quiescent in Hq as [Hf|(i & b & Hi & Hf)].
      - exists (Deliver 0 env). split_and!; [done..|]. intros n m'. simpl. unfold take_flight.
        destruct (mesh_flight m); [simpl in Hf; lia|]. simpl. intros E%bind_Some. destruct E as (? & _ & [= <- _]). lia.
      - exists (Drain i (λ _, env)). split_and!; [done..|]. intros n m'. simpl. rewrite Hi. simpl.
        intros E%bind_Some. destruct E as (? & _ & [= <- _]). lia. }
    destruct (mesh_step_run M HM (λ _ _, False) m False (λ f, match f with end) ev m Hr) as (n & m' & E & Hr' & Hc & _); [done..|].
    exists ev. split; [done|]. exists m'. split; [apply Hr'|]. specialize (Hpos n m' E). split; [lia|eauto]. }
  destruct (IH (potential M m') ltac:(lia) m' ltac:(lia) Hok') as (evs & n' & m2 & Hevs & Hlen & E2 & Hq2).
  exists (ev :: evs), (n + n'), m2. split_and!; [by constructor|simpl; lia| |done]. simpl. by rewrite E; simpl; rewrite E2.
Qed.

Lemma run_inv_start quiet lossless m :
  mesh_ok M m → (lossless → fresh m) → run_inv M quiet m lossless None m.
Proof.
  intros Hok Hfresh. split; [done|done|]. exists (λ _, 0). split.
  - split; [done|]. intros i b0 b ? ?. simplify_eq. split; [done|]. simpl. nia.
  - intros _ [_ Hk]%Hfresh. split.
    + intros e i j _ (b & Hb & Hin). by rewrite (Hk i b Hb) in Hin.
    + intros e i b c _ Hb Hin. by rewrite (Hk i b Hb) in Hin.
Qed.


End mesh_properties.

(** ** Witnesses

    Three brokers in a ring, each dialing the next; "alice" and "bob" are clients of each,
    and "alice" and the link of the broker before want "news". *)

#[local] Existing Instance demo_runtime.
#[local] Existing Instance demo_runtime_laws.
#[local] Existing Instance demo_sender.
#[local] Existing Instance demo_sender_laws.

Definition ring_next (i : string) : option string :=
  if decide (i = "A") then Some "B" else if decide (i = "B") then Some "C" else if decide (i = "C") then Some "A" else None.

Definition ring_prev (i : string) : option string :=
  if decide (i = "A") then Some "C" else if decide (i = "B") then Some "A" else if decide (i = "C") then Some "B" else None.

Definition ring_link (i : string) : string := peerLinkId i "next".

#[local] Instance ring : Network := {|
  remote := λ i k, if decide (k = "next") then ring_next i else None;
  owner := λ j c, i ← ring_prev j; if decide (c = ring_link i) then Some (i, "next") else None
|}.

Definition ring_node (i prev : string) : Broker DemoSender DemoWorker :=
  handleSubscribe demo_env "news" EmptyString (ring_link prev)
    (handleSubscribe demo_env "news" EmptyString "alice"
      (with_clients (<[ring_link prev := mkClient 90 0]> {[ "alice" := mkClient 90 0; "bob" := mkClient 90 0 ]})
        (addPeer demo_env true "next" "tcp://10.0.0.2:5555"
          (new_broker i 10000 (mkDemoSender (Some ["alice"; ring_link prev]) 10 [] []) (mkDemoSender None 10 [] []))))).

Definition ring_mesh : Mesh (S := DemoSender) (W := DemoWorker) :=
  mkMesh {[ "A" := ring_node "A" "C"; "B" := ring_node "B" "A"; "C" := ring_node "C" "B" ]} [].

Definition ring_message : Envelope := mkEnvelope (mkHeader "k" "bob" "news" EmptyString "u1" EmptyString) "hello".

Definition ring_messages : gmap MessageId Envelope := {[ msg_id ring_message := ring_message ]}.

Definition ring_events : list MeshEvent :=
  [Publish "B" "bob" demo_env ring_message; Deliver 0 demo_env; Deliver 0 demo_env; Drain "A" (λ _, demo_env);
   Deliver 0 demo_env; Deliver 0 demo_env; Deliver 0 demo_env; Deliver 0 demo_env; Deliver 0 demo_env;
   Drain "A" (λ _, demo_env); Drain "B" (λ _, demo_env); Drain "C" (λ _, demo_env)].

Definition ring_end : nat * Mesh := default (0, ring_mesh) (mesh_run ring_events ring_mesh).

Lemma ring_prev_some i p : ring_prev i = Some p → (i = "A" ∧ p = "C") ∨ (i = "B" ∧ p = "A") ∨ (i = "C" ∧ p = "B").
Proof. unfold ring_prev. repeat case_decide; intros; simplify_eq; auto. Qed.

Lemma ring_lookup i b : mesh_brokers ring_mesh !! i = Some b → ∃ p, ring_prev i = Some p ∧ b = ring_node i p.
Proof.
  simpl. rewrite !lookup_insert, lookup_singleton. repeat case_decide; intros; simplify_eq; by eexists.
Qed.

Lemma ring_node_inv i p : ring_prev i = Some p → broker_inv (ring_node i p).
Proof.
  intros Hp. apply handleSubscribe_inv; [apply handleSubscribe_inv|].
  - set (b0 := new_broker i 10000 _ _). pose proof (addPeer_inv demo_env true "next" "tcp://10.0.0.2:5555" b0 (new_broker_inv _ _ _ _)) as Hinv.
    split; try apply Hinv. intros c [x Hx]. change ((∅ : gmap string (gmap string Origin)) !! c = Some x) in Hx. by rewrite lookup_empty in Hx.
  - apply ring_prev_some in Hp as [[-> ->]|[[-> ->]|[-> ->]]]; by_evaluation.
  - apply ring_prev_some in Hp as [[-> ->]|[[-> ->]|[-> ->]]]; by_evaluation.
Qed.

Lemma ring_node_ok i p : ring_prev i = Some p → node_ok ring_messages i (ring_node i p).
Proof.
  intros Hp. split.
  - by apply ring_node_inv.
  - apply ring_prev_some in Hp as [[-> ->]|[[-> ->]|[-> ->]]]; by_evaluation.
  - exists []. split_and!; [|constructor|intros x Hx; by apply not_elem_of_nil in Hx].
    apply ring_prev_some in Hp as [[-> ->]|[[-> ->]|[-> ->]]]; apply initial_dedup_inv.
  - apply ring_prev_some in Hp as [[-> ->]|[[-> ->]|[-> ->]]]; constructor.
  - intros c o. simpl. rewrite Hp. simpl. case_decide; [|done]. subst. intros _.
    apply ring_prev_some in Hp as [[-> ->]|[[-> ->]|[-> ->]]]; by_evaluation.
  - intros c e _. assert (copies c e (ring_node i p) = 0) as ->; [|lia]. unfold copies.
    apply ring_prev_some in Hp as [[-> ->]|[[-> ->]|[-> ->]]]; done.
Qed.

Lemma ring_ok : mesh_ok ring_messages ring_mesh.
Proof.
  split; [|constructor|split].
  - intros i b (p & Hp & ->)%ring_lookup. by apply ring_node_ok.
  - intros j c i k. simpl. destruct (ring_prev j) as [p|] eqn:Hp; [|done]. simpl. case_decide; [|done]. intros [= <- <-].
    apply ring_prev_some in Hp as [[-> ->]|[[-> ->]|[-> ->]]]; eexists _, _; (split; [reflexivity|vm_compute; reflexivity]).
  - intros i k j b l (p & Hp & ->)%ring_lookup Hl Hr. simpl in Hr. case_decide; [subst|done].
    pose proof (inv_linkIds _ _ (ring_node_inv i p Hp) "next" l Hl) as E.
    apply ring_prev_some in Hp as [[-> ->]|[[-> ->]|[-> ->]]]; injection Hr as <-; rewrite E; vm_compute; reflexivity.
Qed.

Lemma ring_messages_ok : messages_ok ring_messages.
Proof.
  split; [by_evaluation|]. intros x e Hx. unfold ring_messages in Hx. apply lookup_singleton_Some in Hx as [<- <-]. split; [done|]. split; try by_evaluation. unfold pb_sized. by_evaluation.
Qed.

Lemma ring_publish_ok : Forall (publish_ok ring_messages ring_mesh) ring_events.
Proof.
  repeat constructor. intros b (p & Hp & ->)%ring_lookup. injection Hp as <-. by_evaluation.
Qed.


Lemma ring_run : mesh_run ring_events ring_mesh = Some ring_end.
Proof.
  unfold ring_end. assert (is_Some (mesh_run ring_events ring_mesh)) as [x ->]; [|done]. by_evaluation.
Qed.

Lemma ring_reach : rtc (edge ring_mesh ring_message) "B" "A".
Proof.
  assert (∀ i p j, ring_prev i = Some p → ring_next i = Some j → edge ring_mesh ring_message i j) as H.
  { intros i p j Hp Hj. left. exists (ring_node i p), "next".
    apply ring_prev_some in Hp as [[-> ->]|[[-> ->]|[-> ->]]]; injection Hj as <-; eexists; split_and!;
      try reflexivity; try (vm_compute; reflexivity); by_evaluation. }
  apply (rtc_l _ _ "C"); [by apply (H _ "A")|]. by apply rtc_once, (H _ "B").
Qed.

