(* ===== verification/BrokerMain.v ===== *)
(** * The broker's program

    Models [server/main.cpp] - the arguments, the environment, the order in which the broker
    is configured, started, given its seed peers and stopped - and the part of
    [Broker::run] of [server/broker.cpp] before its loop, which opens the taps and binds the
    router.  Whether an endpoint binds, whether another process serves a path and whether a
    worker opens are the system's, and parameters. *)

From Stdlib Require Import ZArith Lia.
From S2P Require Import Prelude.
From S2P Require Import MessageKeys.
From S2P Require Import Config.
From S2P Require Import Logger.
From S2P Require Import SafeQueue.
From S2P Require Import Wire.
From S2P Require Import Beacon.
From S2P Require Import Discovery.
From S2P Require Import Worker.
From S2P Require Import Interest.
From S2P Require Import Broker.

(** ** Arguments *)

(** A double quote. *)
Definition dquote : string := String (chr 34) EmptyString.

Definition usage_text (program : string) : string :=
  "Usage: " +:+ program +:+ " [--inspector-port PORT] [endpoint ...]" +:+ newline +:+ newline +:+
  "Runs a Wisp broker bound to the given ZeroMQ endpoints, e.g.:" +:+ newline +:+
  "  " +:+ program +:+ " tcp://*:6666 ipc:///tmp/my_broker.sock" +:+ newline +:+ newline +:+
  "With no arguments it binds tcp://*:5555 and ipc:///tmp/broker.sock." +:+ newline +:+ newline +:+
  "Options:" +:+ newline +:+
  "  --inspector-port N  also expose the inspector tap on tcp://*:N and" +:+ newline +:+
  "                      advertise it in this broker's beacons, so an" +:+ newline +:+
  "                      inspector elsewhere on the network can attach." +:+ newline +:+
  "                      Off by default: the tap carries every message," +:+ newline +:+
  "                      payloads included, with no access control." +:+ newline +:+ newline +:+
  "Environment:" +:+ newline +:+
  "  WISP_CLUSTER        discovery cluster name (default " +:+ dquote +:+ "default" +:+ dquote +:+ ")" +:+ newline +:+
  "  WISP_NO_DISCOVERY   set to disable LAN auto-discovery" +:+ newline +:+
  "  WISP_PEERS          comma-separated peer broker endpoints to dial directly," +:+ newline +:+
  "                      for networks UDP discovery can't reach (subnets," +:+ newline +:+
  "                      containers, k8s), e.g. tcp://10.0.0.2:5555,tcp://10.0.0.3:5555" +:+ newline +:+
  "  WISP_LOG_LEVEL      minimum log severity: debug, info, warn, error" +:+ newline +:+
  "  WISP_INSPECTOR_SOCK local inspector tap endpoint (default" +:+ newline +:+
  "                      ipc:///tmp/broker_inspector.sock). Give each broker on" +:+ newline +:+
  "                      a host its own, or they take the tap from each other." +:+ newline.

(** [std::strtol(text, nullptr, 10)] with a 64-bit [long]: no digits is zero, a value that
    does not fit is the nearest that does. *)
Definition strtol (text : string) : Z :=
  let '(neg, s) := take_sign (ltrim text) in
  let v := dec_value (digit_prefix s) 0 in
  let v := if neg : bool then (- v)%Z else v in
  Z.max (- 2 ^ 63) (Z.min (2 ^ 63 - 1) v).

Inductive Parsed :=
  | ShowUsage
  | Refused (message : string)
  | Serve (bindings : list string) (inspectorPort : Z).

Definition default_bindings : list string := ["tcp://*:5555"%string; "ipc:///tmp/broker.sock"%string].

(** The loop over the arguments behind the program's name. *)
Fixpoint parse_args (args : list string) (bindings : list string) (inspectorPort : Z) : Parsed :=
  match args with
  | [] => Serve (if decide (bindings = []) then default_bindings else bindings) inspectorPort
  | arg :: rest =>
      if decide (arg = "--help"%string ∨ arg = "-h"%string) then ShowUsage
      else if decide (arg = "--inspector-port"%string) then
        match rest with
        | [] => Refused ("error: --inspector-port needs a port number" +:+ newline)
        | value :: rest =>
            let port := strtol value in
            if decide (port < 1 ∨ port > 65535)%Z
            then Refused ("error: --inspector-port must be between 1 and 65535" +:+ newline)
            else parse_args rest bindings port
        end
      else parse_args rest (bindings ++ [arg]) inspectorPort
  end.

(** ** The process *)

(** The environment; [None] is an unset variable. *)
Record Environment := mkEnvironment {
  WISP_NO_DISCOVERY : option string;
  WISP_CLUSTER : option string;
  WISP_INSPECTOR_SOCK : option string;
  WISP_PEERS : option string
}.

Section main.
Context {S : Type} `{!ZmqSender S} {W : Type} `{!WorkerInterface W} {PB : ProtobufRuntime}.
Implicit Types (b : Broker S W).

Definition configure (penv : Environment) (inspectorPort : Z) b : Broker S W :=
  let b := match WISP_NO_DISCOVERY penv with
           | None => enableDiscovery (default "default"%string (WISP_CLUSTER penv)) DEFAULT_PORT b
           | Some _ => b
           end in
  let b := match WISP_INSPECTOR_SOCK penv with Some tap => setInspectorEndpoint tap b | None => b end in
  if decide (inspectorPort ≠ 0%Z) then enableRemoteInspector (wrap 16 inspectorPort) b else b.

(** The seeds, one after the other. *)
Definition dial_seeds (env : Env) (opens : string → bool) (addresses : list string) b : Broker S W :=
  foldl (λ b address, connectToPeer env (opens address) address b) b addresses.

Definition seed_addresses (penv : Environment) : list string :=
  match WISP_PEERS penv with Some peers => default [] (parsePeerList peers) | None => [] end.

(** The exit status and what was written to standard output and error, or the broker in
    service: it runs until a signal, then [broker_stop] and status zero. *)
Inductive MainOutcome :=
  | Exits (status : Z) (out err : string)
  | Serves (bindings : list string) (b : Broker S W).

Definition broker_main (program : string) (args : list string) (penv : Environment) (now : Z) (env : Env) (opens : string → bool) b
    : MainOutcome :=
  match parse_args args [] 0 with
  | ShowUsage => Exits 0 (usage_text (c_str program)) EmptyString
  | Refused message => Exits 1 EmptyString message
  | Serve bindings inspectorPort =>
      let b := broker_start now bindings (configure penv inspectorPort b) in
      Serves bindings (dial_seeds env opens (seed_addresses penv) b)
  end.

(** ** Opening the sockets *)

(** [sizeof(sockaddr_un::sun_path)] on Linux. *)
Definition SUN_PATH : nat := 108.

(** [connects] is whether [connect] to the path succeeds. *)
Definition ipcEndpointIsServed (connects : string → bool) (endpoint : string) : bool :=
  if negb (starts_with "ipc://" endpoint) then false
  else
    let path := str_drop 6 endpoint in
    if decide (path = EmptyString ∨ SUN_PATH ≤ String.length path) then false else connects path.

(** The endpoints the inspector's socket is bound to. *)
Definition tap_endpoints b : list string :=
  m_inspectorEndpoint b :: if decide (m_inspectorTcpPort b ≠ 0%Z) then ["tcp://*:" +:+ to_string (m_inspectorTcpPort b)] else [].

(** [why] is the text of the exception of a bind that failed. *)
Definition bind_log (binds : string → bool) (why : string) (addr : string) : Level * string :=
  if binds addr then (Info, "Bound to: " +:+ addr) else (Error, "Failed to bind to " +:+ addr +:+ " : " +:+ why).

Definition unreachable_log (count : nat) : Level * string :=
  (Error, "No endpoints bound (all " +:+ to_string (Z.of_nat count) +:+
     " failed) - this broker is unreachable. Is another process already using the address?").

Definition takeover_log (endpoint : string) : Level * string :=
  (Warning, "Another process is already serving the inspector tap at " +:+ endpoint +:+
     " - taking it over, so that broker's traffic will no longer be visible there. Give each broker its own tap " +:+
     "(WISP_INSPECTOR_SOCK) to run several on one host.").

(** What [run] logs before its loop, and the addresses that are bound. *)
Definition open_sockets (connects binds : string → bool) (why : string) (addresses : list string) b : list (Level * string) * list string :=
  let tap := m_inspectorEndpoint b in
  let remoteTap := "tcp://*:" +:+ to_string (m_inspectorTcpPort b) in
  let bound := filter (λ a, binds a = true) addresses in
  ((if ipcEndpointIsServed connects tap then [takeover_log tap] else []) ++
   [if binds tap then (Info, "Inspector socket active on " +:+ tap) else (Error, "Failed to bind to " +:+ tap +:+ ": " +:+ why)] ++
   (if decide (m_inspectorTcpPort b ≠ 0%Z) then
      [if binds remoteTap
       then (Warning, "Remote inspector tap active on " +:+ remoteTap +:+ " - all broker traffic is readable there")
       else (Error, "Failed to bind the remote inspector tap to " +:+ remoteTap +:+ ": " +:+ why)]
    else []) ++
   (bind_log binds why <$> addresses) ++
   (if decide (length bound = 0 ∧ addresses ≠ []) then [unreachable_log (length addresses)] else []), bound).
End main.

Arguments MainOutcome S W : clear implicits.

(** ** Lemmas *)

Definition option_word (arg : string) : Prop := arg ∈ ["--help"%string; "-h"%string; "--inspector-port"%string].

#[export] Instance option_word_dec arg : Decision (option_word arg).
Proof. unfold option_word. apply _. Defined.

(** The arguments that are neither the option nor its value. *)
Fixpoint endpoints_of (args : list string) : list string :=
  match args with
  | [] => []
  | arg :: rest =>
      if decide (arg = "--inspector-port"%string) then match rest with [] => [] | _ :: rest => endpoints_of rest end
      else arg :: endpoints_of rest
  end.

(** No word of an option reads as a port. *)
Lemma option_word_port arg : option_word arg → strtol arg = 0%Z.
Proof. intros H. repeat (apply elem_of_cons in H as [->|H]; [by vm_compute|]). by apply not_elem_of_nil in H. Qed.

Lemma parse_args_serve n args bindings port bs p :
  length args ≤ n → parse_args args bindings port = Serve bs p →
  bs = (if decide (bindings ++ endpoints_of args = []) then default_bindings else bindings ++ endpoints_of args) ∧
  "--help"%string ∉ args ∧ "-h"%string ∉ args ∧
  (("--inspector-port"%string ∉ args ∧ p = port) ∨ ("--inspector-port"%string ∈ args ∧ (1 ≤ p ≤ 65535)%Z)).
Proof.
  revert args bindings port. induction n as [|n IH]; intros [|arg args] bindings port; cbn [length]; try lia.
  1, 2: intros _; cbn [parse_args endpoints_of]; rewrite app_nil_r; intros [= <- <-]; split_and!; try done; try apply not_elem_of_nil;
    left; (split; [apply not_elem_of_nil|done]).
  intros Hl. cbn [parse_args endpoints_of]. case_decide as Hh; [done|]. case_decide as Hi.
  - destruct args as [|value args]; [done|]. case_decide as Hp; [done|]. intros Hs.
    assert (¬ option_word value) as Hv by (intros Hv%option_word_port; lia).
    destruct (IH args bindings (strtol value)) as (Hb & H1 & H2 & H3); [cbn in Hl; lia|done|].
    assert (∀ w, option_word w → w ∉ args → w ∉ [arg; value] → w ∉ arg :: value :: args) as Hnot by (intros; set_solver).
    assert (∀ w, option_word w → w ≠ arg → w ∉ args → w ∉ arg :: value :: args) as Hnot'.
    { intros w Hw Hne Hin [?|[->|?]%elem_of_cons]%elem_of_cons; done. }
    split_and!; [done|apply Hnot'; [by left|by intros <-; subst|done]|apply Hnot'; [by right; left|by intros <-; subst|done]|].
    right. split; [subst arg; by left|]. destruct H3 as [[_ ->]|[_ H3]]; lia.
  - intros Hs. destruct (IH args (bindings ++ [arg]) port) as (Hb & H1 & H2 & H3); [lia|done|].
    rewrite <-app_assoc in Hb. split_and!; [done|set_solver|set_solver|]. destruct H3 as [[H3 ->]|[H3 H4]]; [left|right]; set_solver.
Qed.

(** The words that make the program end. *)
Lemma parse_args_total args bindings port :
  (∃ bs p, parse_args args bindings port = Serve bs p) ∨ parse_args args bindings port = ShowUsage ∨
  ∃ message, parse_args args bindings port = Refused message ∧ message ≠ EmptyString.
Proof.
  destruct (parse_args args bindings port) as [|message|bs p] eqn:E; [by right; left| |by left; eexists _, _].
  right. right. exists message. split; [done|]. revert E. assert (length args ≤ length args) as Hl by lia. revert Hl.
  generalize (length args) at 2. intros n. revert args bindings port.
  induction n as [|n IH]; intros [|arg args] bindings port Hl; cbn in Hl; try lia; cbn [parse_args]; [done..|].
  case_decide; [done|]. case_decide; [|apply IH; lia]. destruct args as [|value args]; [by intros [= <-]|].
  case_decide; [by intros [= <-]|]. apply IH. cbn in Hl. lia.
Qed.

Section lemmas.
Context {S : Type} `{!ZmqSender S} {W : Type} `{!WorkerInterface W} {PB : ProtobufRuntime}.
Implicit Types (b : Broker S W).

(** Links dialed by address. *)
Definition dialed_by_address b : Prop := ∀ key link, m_peers b !! key = Some link → pl_address link = key.

Definition linked (address : string) b : Prop := ∃ link, m_peers b !! address = Some link ∧ pl_address link = address.

(** What dialing a seed leaves alone. *)
Definition same_service b b' : Prop :=
  m_inspectorTcpPort b' = m_inspectorTcpPort b ∧ m_inspectorEndpoint b' = m_inspectorEndpoint b ∧
  m_discoveryEnabled b' = m_discoveryEnabled b ∧ m_discovery b' = m_discovery b ∧ m_brokerId b' = m_brokerId b.

Lemma connectToPeer_spec env opens address b :
  dialed_by_address b →
  let b' := connectToPeer env opens address b in
  dialed_by_address b' ∧ same_service b b' ∧ (∀ a, linked a b → linked a b') ∧ (opens = true → linked address b').
Proof.
  intros Hd. cbv zeta. unfold connectToPeer, addPeer. destruct opens; cbn [negb]; [|by split_and!].
  unfold addPeer_commit. case_dec as Hk.
  { split_and!; try done. intros _. destruct Hk as [link Hl]. exists link. split; [done|]. by apply Hd. }
  destruct (existsb _ _) eqn:Ex.
  - exfalso. apply Hk. apply existsb_exists in Ex as ([key link] & Hin & Ha%bool_decide_eq_true).
    apply list_elem_of_In, elem_of_entries in Hin. cbn in Ha. rewrite <-Ha, (Hd _ _ Hin). by eexists.
  - split_and!; try done.
    + intros key link. cbn. rewrite lookup_insert. case_decide as Hkey; [by intros [= <-]; subst|]. apply Hd.
    + intros a (link & Hl & Ha). exists link. split; [|done]. cbn. rewrite lookup_insert_ne; [done|].
      intros ->. apply Hk. by eexists.
    + intros _. eexists. cbn. rewrite lookup_insert_eq. by split.
Qed.

Lemma dial_seeds_spec env opens addresses b :
  dialed_by_address b →
  let b' := dial_seeds env opens addresses b in
  same_service b b' ∧ (∀ a, linked a b → linked a b') ∧ (∀ a, a ∈ addresses → opens a = true → linked a b').
Proof.
  revert b. induction addresses as [|x addresses IH]; intros b Hd; cbn zeta.
  { split_and!; [by split_and!|done|by intros a ?%not_elem_of_nil]. }
  destruct (connectToPeer_spec env (opens x) x b Hd) as (Hd1 & (E1 & E2 & E3 & E4 & E5) & Hk1 & Ho1).
  cbn [dial_seeds foldl]. fold (dial_seeds env opens addresses (connectToPeer env (opens x) x b)).
  destruct (IH _ Hd1) as ((F1 & F2 & F3 & F4 & F5) & Hk2 & Ho2). split_and!; [by split_and!; etrans|by auto|].
  intros a [->|Hin]%elem_of_cons Ha; [apply Hk2; auto|by apply Ho2].
Qed.
(** The broker as [configure] leaves it. *)
Lemma configure_spec penv port brokerId timeout (socket tap : S) :
  (0 ≤ port ≤ 65535)%Z →
  let b := configure penv port (new_broker (W := W) brokerId timeout socket tap) in
  let cluster := default "default"%string (WISP_CLUSTER penv) in
  m_peers b = ∅ ∧ m_discovery b = None ∧ m_brokerId b = brokerId ∧ m_inspectorTcpPort b = port ∧
  m_discoveryEnabled b = bool_decide (WISP_NO_DISCOVERY penv = None ∧ isValidClusterName cluster = true) ∧
  (m_discoveryEnabled b = true → m_clusterName b = cluster).
Proof.
  intros Hp. cbv zeta. unfold configure, enableDiscovery, setInspectorEndpoint, enableRemoteInspector.
  assert (wrap 16 port = port) as Hw by (unfold wrap; apply Z.mod_small; lia). set (cluster := default _ _).
  assert (∀ b b1 : Broker S W, m_inspectorTcpPort b = 0%Z → b1 = (if decide (port ≠ 0%Z) then with_inspector (wrap 16 port) (m_inspectorEndpoint b) b else b) →
    m_peers b1 = m_peers b ∧ m_discovery b1 = m_discovery b ∧ m_brokerId b1 = m_brokerId b ∧ m_inspectorTcpPort b1 = port ∧
    m_discoveryEnabled b1 = m_discoveryEnabled b ∧ m_clusterName b1 = m_clusterName b) as Hport.
  { intros b b1 H0 ->. case_decide as Hne; [cbn; by rewrite Hw|]. split_and!; try done. rewrite H0. lia. }
  match goal with |- context [if decide (port ≠ 0%Z) then with_inspector _ _ ?x else _] => set (b := x) end.
  assert (m_peers b = ∅ ∧ m_discovery b = None ∧ m_brokerId b = brokerId ∧ m_inspectorTcpPort b = 0%Z ∧
    m_discoveryEnabled b = bool_decide (WISP_NO_DISCOVERY penv = None ∧ isValidClusterName cluster = true) ∧
    (m_discoveryEnabled b = true → m_clusterName b = cluster)) as (E1 & E2 & E3 & E4 & E5 & E6).
  { clear Hport. unfold b. destruct (WISP_NO_DISCOVERY penv); [|destruct (isValidClusterName cluster)];
      (destruct (WISP_INSPECTOR_SOCK penv); [case_decide|]); cbn; split_and!; try done;
      symmetry; (apply bool_decide_eq_true + apply bool_decide_eq_false); naive_solver. }
  clearbody b. destruct (Hport b _ E4 eq_refl) as (-> & -> & -> & -> & -> & ->). by split_and!.
Qed.
End lemmas.

(** ** Properties *)


(** A broker that cannot be reached says so: the line is logged exactly when there are addresses
    and none of them was bound. *)
Theorem unreachable_reported {S} `{!ZmqSender S} {W} `{!WorkerInterface W} connects binds why addresses (b : Broker S W) :
  unreachable_log (length addresses) ∈ (open_sockets connects binds why addresses b).1 ↔
  addresses ≠ [] ∧ Forall (λ a, binds a = false) addresses.
Proof.
  assert (length (filter (λ a, binds a = true) addresses) = 0 ↔ Forall (λ a, binds a = false) addresses) as Hb.
  { induction addresses as [|a addresses IH]; [by split|]. rewrite filter_cons, Forall_cons, <-IH. case_decide as Ha; cbn [length].
    - rewrite Ha. split; [lia|by intros [? _]].
    - apply not_true_is_false in Ha. tauto. }
  rewrite <-Hb. unfold open_sockets. cbn [fst]. rewrite !elem_of_app. split.
  - intros [H|[H|[H|[H|H]]]].
    + destruct (ipcEndpointIsServed _ _); [apply list_elem_of_singleton in H as [=]|by apply not_elem_of_nil in H].
    + apply list_elem_of_singleton in H. by destruct (binds _).
    + case_decide; [|by apply not_elem_of_nil in H]. apply list_elem_of_singleton in H. by destruct (binds _).
    + apply list_elem_of_fmap in H as (a & H & _). unfold bind_log in H. by destruct (binds a).
    + case_decide as Hd; [tauto|by apply not_elem_of_nil in H].
  - intros [H1 H2]. do 4 right. rewrite decide_True by done. by apply list_elem_of_singleton.
Qed.
