(* ===== verification/ZmqWorker.v ===== *)
(** * The connection worker

    Models [common/zmqworker.cpp] and [common/zmqworker.h]: the worker thread behind
    every client connection and every peer link of the broker.

    The worker's state is one record: the members the threads share, the locals of
    [runLoop], where the one [sync] caller admitted by [m_syncCallMutex] stands, and
    the observations the theorems speak of.  The loop is cut where it touches what
    other threads touch too: each [Pc] is a place between two such points and
    [loop_step] runs from one to the next, so the events of other threads
    ([writeMessage], [sync], [stop], ...) can fall anywhere in between.  [wstep] is
    one event, [None] when the event cannot happen there.

    The socket is any [ZmqSender]; what the network brings is an event that replaces
    the receiving side.  [didWork] and the poll timeout only pace the loop, the
    throttled warnings only write to the log; neither is in the model.

    Observations ([Obs]): the messages the worker accepted, with for each data message
    the number of control messages accepted before it ([o_control], [o_data],
    [o_encoded]); what became of each message, in order ([o_done]: sent, or given up);
    where the current session's part of that starts ([o_base]); status callbacks;
    messages handed to the callback; for [sync], how much had been accepted when the
    loop started its checks ([o_mark]), when it started those behind the current
    target ([o_target]) and when the call began ([o_call]), and the answers. *)

From Stdlib Require Import ZArith Lia.
From S2P Require Import Prelude.
From S2P Require Import MessageKeys.
From S2P Require Import Config.
From S2P Require Import SafeQueue.
From S2P Require Import Wire.
From S2P Require Import Worker.

(** ** State *)

Definition CONTROL_BACKLOG_LIMIT : nat := MAX_SUBSCRIPTIONS_PER_CLIENT + Z.to_nat 1024.

Definition DATA_BACKLOG_LIMIT : nat := Z.to_nat 5000.

(** Places of the run loop. *)
Inductive Pc :=
  | NotStarted          (* no thread *)
  | AtPoll              (* the loop condition, the poll and the receive *)
  | AtDispatch          (* a message received, not yet passed on *)
  | AtControl           (* draining the control queue *)
  | AtDrainData         (* draining the outbound queue *)
  | AtCheckControl      (* data in hand, looking for control ahead of it *)
  | AtSendBatch         (* sending the data in hand *)
  | AtBacklog           (* looking at the data held back *)
  | AtSendBacklog       (* sending it *)
  | AtEncodedCheck      (* looking for control ahead of pre-encoded data *)
  | AtEncodedDrain      (* draining it *)
  | AtSendEncoded       (* sending it *)
  | AtSyncControl       (* the three queue checks before a sync heartbeat *)
  | AtSyncOutbound
  | AtSyncEncoded
  | AtSyncRequest       (* taking the request *)
  | AtSyncSend          (* sending its heartbeat *)
  | AtSyncTarget        (* reporting its index *)
  | AtTimers            (* periodic heartbeat and silence check *)
  | Finished.           (* the thread ended, not joined yet *)

(** Places of the caller inside [sync]. *)
Inductive SyncPc := SyncIdle | SyncWaitTarget | SyncWaitAck (target : Z).

(** What became of a message: put on the wire, or given up. *)
Inductive Done :=
  | DoneConnect (ok : bool)
  | DoneControl (m : Envelope) (ok : bool)
  | DoneData (m : Envelope) (ok : bool)
  | DoneEncoded (m : WireMessage) (ok : bool)
  | DoneHeartbeat (ok : bool).

(** How many control, data and pre-encoded messages. *)
Definition Counts : Type := nat * nat * nat.

Record Obs := mkObs {
  o_control : list Envelope;
  o_refused : nat;
  o_data : list (Envelope * nat);
  o_encoded : list WireMessage;
  o_done : list Done;
  o_base : nat;
  o_status : list bool;
  o_delivered : list Envelope;
  o_mark : Counts;
  o_target : Counts;
  o_call : Counts;
  o_results : list bool
}.

Definition obs_control (v : list Envelope) (o : Obs) : Obs :=
  mkObs v (o_refused o) (o_data o) (o_encoded o) (o_done o) (o_base o) (o_status o)
    (o_delivered o) (o_mark o) (o_target o) (o_call o) (o_results o).

Definition obs_refused (v : nat) (o : Obs) : Obs :=
  mkObs (o_control o) v (o_data o) (o_encoded o) (o_done o) (o_base o) (o_status o)
    (o_delivered o) (o_mark o) (o_target o) (o_call o) (o_results o).

Definition obs_data (v : list (Envelope * nat)) (o : Obs) : Obs :=
  mkObs (o_control o) (o_refused o) v (o_encoded o) (o_done o) (o_base o) (o_status o)
    (o_delivered o) (o_mark o) (o_target o) (o_call o) (o_results o).

Definition obs_encoded (v : list WireMessage) (o : Obs) : Obs :=
  mkObs (o_control o) (o_refused o) (o_data o) v (o_done o) (o_base o) (o_status o)
    (o_delivered o) (o_mark o) (o_target o) (o_call o) (o_results o).

Definition obs_done (v : list Done) (o : Obs) : Obs :=
  mkObs (o_control o) (o_refused o) (o_data o) (o_encoded o) v (o_base o) (o_status o)
    (o_delivered o) (o_mark o) (o_target o) (o_call o) (o_results o).

Definition obs_base (v : nat) (o : Obs) : Obs :=
  mkObs (o_control o) (o_refused o) (o_data o) (o_encoded o) (o_done o) v (o_status o)
    (o_delivered o) (o_mark o) (o_target o) (o_call o) (o_results o).

Definition obs_status (v : list bool) (o : Obs) : Obs :=
  mkObs (o_control o) (o_refused o) (o_data o) (o_encoded o) (o_done o) (o_base o) v
    (o_delivered o) (o_mark o) (o_target o) (o_call o) (o_results o).

Definition obs_delivered (v : list Envelope) (o : Obs) : Obs :=
  mkObs (o_control o) (o_refused o) (o_data o) (o_encoded o) (o_done o) (o_base o) (o_status o)
    v (o_mark o) (o_target o) (o_call o) (o_results o).

Definition obs_mark (v : Counts) (o : Obs) : Obs :=
  mkObs (o_control o) (o_refused o) (o_data o) (o_encoded o) (o_done o) (o_base o) (o_status o)
    (o_delivered o) v (o_target o) (o_call o) (o_results o).

Definition obs_target (v : Counts) (o : Obs) : Obs :=
  mkObs (o_control o) (o_refused o) (o_data o) (o_encoded o) (o_done o) (o_base o) (o_status o)
    (o_delivered o) (o_mark o) v (o_call o) (o_results o).

Definition obs_call (v : Counts) (o : Obs) : Obs :=
  mkObs (o_control o) (o_refused o) (o_data o) (o_encoded o) (o_done o) (o_base o) (o_status o)
    (o_delivered o) (o_mark o) (o_target o) v (o_results o).

Definition obs_results (v : list bool) (o : Obs) : Obs :=
  mkObs (o_control o) (o_refused o) (o_data o) (o_encoded o) (o_done o) (o_base o) (o_status o)
    (o_delivered o) (o_mark o) (o_target o) (o_call o) v.

Definition empty_obs : Obs :=
  mkObs [] 0 [] [] [] 0 [] [] (0, 0, 0) (0, 0, 0) (0, 0, 0) [].

Section worker.
Context {S R : Type} `{!ZmqSender S} `{!ZmqReceiver R} {PB : ProtobufRuntime}.

Record Worker := mkWorker {
  m_config : ConnectionConfig;
  m_pInboundQueue : option (SafeQueue Envelope);
  m_messageCallback : bool;
  m_running : bool;
  m_controlQueue : SafeQueue Envelope;
  m_outboundQueue : SafeQueue Envelope;
  m_encodedQueue : SafeQueue WireMessage;
  m_hasEncoded : bool;
  m_brokerId : string;
  m_droppedSends : Z;
  m_heartbeatsSent : Z;
  m_acksReceived : Z;
  m_syncRequested : bool;
  m_syncTarget : Z;
  pc : Pc;
  socket : S;
  incoming : R;
  batch : list Envelope;
  encodedBatch : list WireMessage;
  controlBacklog : list Envelope;
  dataBacklog : list Envelope;
  inbound : Envelope;
  isOnline : bool;
  lastHeartbeat : Z;
  lastRxTime : Z;
  syncing : SyncPc;
  obs : Obs
}.

Definition with_inboundQueue (v : option (SafeQueue Envelope)) (w : Worker) : Worker :=
  mkWorker (m_config w) v (m_messageCallback w) (m_running w) (m_controlQueue w)
    (m_outboundQueue w) (m_encodedQueue w) (m_hasEncoded w) (m_brokerId w) (m_droppedSends w)
    (m_heartbeatsSent w) (m_acksReceived w) (m_syncRequested w) (m_syncTarget w) (pc w)
    (socket w) (incoming w) (batch w) (encodedBatch w) (controlBacklog w) (dataBacklog w)
    (inbound w) (isOnline w) (lastHeartbeat w) (lastRxTime w) (syncing w) (obs w).

Definition with_running (v : bool) (w : Worker) : Worker :=
  mkWorker (m_config w) (m_pInboundQueue w) (m_messageCallback w) v (m_controlQueue w)
    (m_outboundQueue w) (m_encodedQueue w) (m_hasEncoded w) (m_brokerId w) (m_droppedSends w)
    (m_heartbeatsSent w) (m_acksReceived w) (m_syncRequested w) (m_syncTarget w) (pc w)
    (socket w) (incoming w) (batch w) (encodedBatch w) (controlBacklog w) (dataBacklog w)
    (inbound w) (isOnline w) (lastHeartbeat w) (lastRxTime w) (syncing w) (obs w).

Definition with_controlQueue (v : SafeQueue Envelope) (w : Worker) : Worker :=
  mkWorker (m_config w) (m_pInboundQueue w) (m_messageCallback w) (m_running w) v
    (m_outboundQueue w) (m_encodedQueue w) (m_hasEncoded w) (m_brokerId w) (m_droppedSends w)
    (m_heartbeatsSent w) (m_acksReceived w) (m_syncRequested w) (m_syncTarget w) (pc w)
    (socket w) (incoming w) (batch w) (encodedBatch w) (controlBacklog w) (dataBacklog w)
    (inbound w) (isOnline w) (lastHeartbeat w) (lastRxTime w) (syncing w) (obs w).

Definition with_outboundQueue (v : SafeQueue Envelope) (w : Worker) : Worker :=
  mkWorker (m_config w) (m_pInboundQueue w) (m_messageCallback w) (m_running w)
    (m_controlQueue w) v (m_encodedQueue w) (m_hasEncoded w) (m_brokerId w) (m_droppedSends w)
    (m_heartbeatsSent w) (m_acksReceived w) (m_syncRequested w) (m_syncTarget w) (pc w)
    (socket w) (incoming w) (batch w) (encodedBatch w) (controlBacklog w) (dataBacklog w)
    (inbound w) (isOnline w) (lastHeartbeat w) (lastRxTime w) (syncing w) (obs w).

Definition with_encodedQueue (v : SafeQueue WireMessage) (w : Worker) : Worker :=
  mkWorker (m_config w) (m_pInboundQueue w) (m_messageCallback w) (m_running w)
    (m_controlQueue w) (m_outboundQueue w) v (m_hasEncoded w) (m_brokerId w) (m_droppedSends w)
    (m_heartbeatsSent w) (m_acksReceived w) (m_syncRequested w) (m_syncTarget w) (pc w)
    (socket w) (incoming w) (batch w) (encodedBatch w) (controlBacklog w) (dataBacklog w)
    (inbound w) (isOnline w) (lastHeartbeat w) (lastRxTime w) (syncing w) (obs w).

Definition with_hasEncoded (v : bool) (w : Worker) : Worker :=
  mkWorker (m_config w) (m_pInboundQueue w) (m_messageCallback w) (m_running w)
    (m_controlQueue w) (m_outboundQueue w) (m_encodedQueue w) v (m_brokerId w)
    (m_droppedSends w) (m_heartbeatsSent w) (m_acksReceived w) (m_syncRequested w)
    (m_syncTarget w) (pc w) (socket w) (incoming w) (batch w) (encodedBatch w)
    (controlBacklog w) (dataBacklog w) (inbound w) (isOnline w) (lastHeartbeat w) (lastRxTime w)
    (syncing w) (obs w).

Definition with_brokerId (v : string) (w : Worker) : Worker :=
  mkWorker (m_config w) (m_pInboundQueue w) (m_messageCallback w) (m_running w)
    (m_controlQueue w) (m_outboundQueue w) (m_encodedQueue w) (m_hasEncoded w) v
    (m_droppedSends w) (m_heartbeatsSent w) (m_acksReceived w) (m_syncRequested w)
    (m_syncTarget w) (pc w) (socket w) (incoming w) (batch w) (encodedBatch w)
    (controlBacklog w) (dataBacklog w) (inbound w) (isOnline w) (lastHeartbeat w) (lastRxTime w)
    (syncing w) (obs w).

Definition with_droppedSends (v : Z) (w : Worker) : Worker :=
  mkWorker (m_config w) (m_pInboundQueue w) (m_messageCallback w) (m_running w)
    (m_controlQueue w) (m_outboundQueue w) (m_encodedQueue w) (m_hasEncoded w) (m_brokerId w) v
    (m_heartbeatsSent w) (m_acksReceived w) (m_syncRequested w) (m_syncTarget w) (pc w)
    (socket w) (incoming w) (batch w) (encodedBatch w) (controlBacklog w) (dataBacklog w)
    (inbound w) (isOnline w) (lastHeartbeat w) (lastRxTime w) (syncing w) (obs w).

Definition with_heartbeatsSent (v : Z) (w : Worker) : Worker :=
  mkWorker (m_config w) (m_pInboundQueue w) (m_messageCallback w) (m_running w)
    (m_controlQueue w) (m_outboundQueue w) (m_encodedQueue w) (m_hasEncoded w) (m_brokerId w)
    (m_droppedSends w) v (m_acksReceived w) (m_syncRequested w) (m_syncTarget w) (pc w)
    (socket w) (incoming w) (batch w) (encodedBatch w) (controlBacklog w) (dataBacklog w)
    (inbound w) (isOnline w) (lastHeartbeat w) (lastRxTime w) (syncing w) (obs w).

Definition with_acksReceived (v : Z) (w : Worker) : Worker :=
  mkWorker (m_config w) (m_pInboundQueue w) (m_messageCallback w) (m_running w)
    (m_controlQueue w) (m_outboundQueue w) (m_encodedQueue w) (m_hasEncoded w) (m_brokerId w)
    (m_droppedSends w) (m_heartbeatsSent w) v (m_syncRequested w) (m_syncTarget w) (pc w)
    (socket w) (incoming w) (batch w) (encodedBatch w) (controlBacklog w) (dataBacklog w)
    (inbound w) (isOnline w) (lastHeartbeat w) (lastRxTime w) (syncing w) (obs w).

Definition with_sync (v0 : bool) (v1 : Z) (w : Worker) : Worker :=
  mkWorker (m_config w) (m_pInboundQueue w) (m_messageCallback w) (m_running w)
    (m_controlQueue w) (m_outboundQueue w) (m_encodedQueue w) (m_hasEncoded w) (m_brokerId w)
    (m_droppedSends w) (m_heartbeatsSent w) (m_acksReceived w) v0 v1 (pc w) (socket w)
    (incoming w) (batch w) (encodedBatch w) (controlBacklog w) (dataBacklog w) (inbound w)
    (isOnline w) (lastHeartbeat w) (lastRxTime w) (syncing w) (obs w).

Definition with_pc (v : Pc) (w : Worker) : Worker :=
  mkWorker (m_config w) (m_pInboundQueue w) (m_messageCallback w) (m_running w)
    (m_controlQueue w) (m_outboundQueue w) (m_encodedQueue w) (m_hasEncoded w) (m_brokerId w)
    (m_droppedSends w) (m_heartbeatsSent w) (m_acksReceived w) (m_syncRequested w)
    (m_syncTarget w) v (socket w) (incoming w) (batch w) (encodedBatch w) (controlBacklog w)
    (dataBacklog w) (inbound w) (isOnline w) (lastHeartbeat w) (lastRxTime w) (syncing w)
    (obs w).

Definition with_socket (v : S) (w : Worker) : Worker :=
  mkWorker (m_config w) (m_pInboundQueue w) (m_messageCallback w) (m_running w)
    (m_controlQueue w) (m_outboundQueue w) (m_encodedQueue w) (m_hasEncoded w) (m_brokerId w)
    (m_droppedSends w) (m_heartbeatsSent w) (m_acksReceived w) (m_syncRequested w)
    (m_syncTarget w) (pc w) v (incoming w) (batch w) (encodedBatch w) (controlBacklog w)
    (dataBacklog w) (inbound w) (isOnline w) (lastHeartbeat w) (lastRxTime w) (syncing w)
    (obs w).

Definition with_incoming (v : R) (w : Worker) : Worker :=
  mkWorker (m_config w) (m_pInboundQueue w) (m_messageCallback w) (m_running w)
    (m_controlQueue w) (m_outboundQueue w) (m_encodedQueue w) (m_hasEncoded w) (m_brokerId w)
    (m_droppedSends w) (m_heartbeatsSent w) (m_acksReceived w) (m_syncRequested w)
    (m_syncTarget w) (pc w) (socket w) v (batch w) (encodedBatch w) (controlBacklog w)
    (dataBacklog w) (inbound w) (isOnline w) (lastHeartbeat w) (lastRxTime w) (syncing w)
    (obs w).

Definition with_batch (v : list Envelope) (w : Worker) : Worker :=
  mkWorker (m_config w) (m_pInboundQueue w) (m_messageCallback w) (m_running w)
    (m_controlQueue w) (m_outboundQueue w) (m_encodedQueue w) (m_hasEncoded w) (m_brokerId w)
    (m_droppedSends w) (m_heartbeatsSent w) (m_acksReceived w) (m_syncRequested w)
    (m_syncTarget w) (pc w) (socket w) (incoming w) v (encodedBatch w) (controlBacklog w)
    (dataBacklog w) (inbound w) (isOnline w) (lastHeartbeat w) (lastRxTime w) (syncing w)
    (obs w).

Definition with_encodedBatch (v : list WireMessage) (w : Worker) : Worker :=
  mkWorker (m_config w) (m_pInboundQueue w) (m_messageCallback w) (m_running w)
    (m_controlQueue w) (m_outboundQueue w) (m_encodedQueue w) (m_hasEncoded w) (m_brokerId w)
    (m_droppedSends w) (m_heartbeatsSent w) (m_acksReceived w) (m_syncRequested w)
    (m_syncTarget w) (pc w) (socket w) (incoming w) (batch w) v (controlBacklog w)
    (dataBacklog w) (inbound w) (isOnline w) (lastHeartbeat w) (lastRxTime w) (syncing w)
    (obs w).

Definition with_controlBacklog (v : list Envelope) (w : Worker) : Worker :=
  mkWorker (m_config w) (m_pInboundQueue w) (m_messageCallback w) (m_running w)
    (m_controlQueue w) (m_outboundQueue w) (m_encodedQueue w) (m_hasEncoded w) (m_brokerId w)
    (m_droppedSends w) (m_heartbeatsSent w) (m_acksReceived w) (m_syncRequested w)
    (m_syncTarget w) (pc w) (socket w) (incoming w) (batch w) (encodedBatch w) v (dataBacklog w)
    (inbound w) (isOnline w) (lastHeartbeat w) (lastRxTime w) (syncing w) (obs w).

Definition with_dataBacklog (v : list Envelope) (w : Worker) : Worker :=
  mkWorker (m_config w) (m_pInboundQueue w) (m_messageCallback w) (m_running w)
    (m_controlQueue w) (m_outboundQueue w) (m_encodedQueue w) (m_hasEncoded w) (m_brokerId w)
    (m_droppedSends w) (m_heartbeatsSent w) (m_acksReceived w) (m_syncRequested w)
    (m_syncTarget w) (pc w) (socket w) (incoming w) (batch w) (encodedBatch w)
    (controlBacklog w) v (inbound w) (isOnline w) (lastHeartbeat w) (lastRxTime w) (syncing w)
    (obs w).

Definition with_inbound (v : Envelope) (w : Worker) : Worker :=
  mkWorker (m_config w) (m_pInboundQueue w) (m_messageCallback w) (m_running w)
    (m_controlQueue w) (m_outboundQueue w) (m_encodedQueue w) (m_hasEncoded w) (m_brokerId w)
    (m_droppedSends w) (m_heartbeatsSent w) (m_acksReceived w) (m_syncRequested w)
    (m_syncTarget w) (pc w) (socket w) (incoming w) (batch w) (encodedBatch w)
    (controlBacklog w) (dataBacklog w) v (isOnline w) (lastHeartbeat w) (lastRxTime w)
    (syncing w) (obs w).

Definition with_isOnline (v : bool) (w : Worker) : Worker :=
  mkWorker (m_config w) (m_pInboundQueue w) (m_messageCallback w) (m_running w)
    (m_controlQueue w) (m_outboundQueue w) (m_encodedQueue w) (m_hasEncoded w) (m_brokerId w)
    (m_droppedSends w) (m_heartbeatsSent w) (m_acksReceived w) (m_syncRequested w)
    (m_syncTarget w) (pc w) (socket w) (incoming w) (batch w) (encodedBatch w)
    (controlBacklog w) (dataBacklog w) (inbound w) v (lastHeartbeat w) (lastRxTime w)
    (syncing w) (obs w).

Definition with_lastHeartbeat (v : Z) (w : Worker) : Worker :=
  mkWorker (m_config w) (m_pInboundQueue w) (m_messageCallback w) (m_running w)
    (m_controlQueue w) (m_outboundQueue w) (m_encodedQueue w) (m_hasEncoded w) (m_brokerId w)
    (m_droppedSends w) (m_heartbeatsSent w) (m_acksReceived w) (m_syncRequested w)
    (m_syncTarget w) (pc w) (socket w) (incoming w) (batch w) (encodedBatch w)
    (controlBacklog w) (dataBacklog w) (inbound w) (isOnline w) v (lastRxTime w) (syncing w)
    (obs w).

Definition with_lastRxTime (v : Z) (w : Worker) : Worker :=
  mkWorker (m_config w) (m_pInboundQueue w) (m_messageCallback w) (m_running w)
    (m_controlQueue w) (m_outboundQueue w) (m_encodedQueue w) (m_hasEncoded w) (m_brokerId w)
    (m_droppedSends w) (m_heartbeatsSent w) (m_acksReceived w) (m_syncRequested w)
    (m_syncTarget w) (pc w) (socket w) (incoming w) (batch w) (encodedBatch w)
    (controlBacklog w) (dataBacklog w) (inbound w) (isOnline w) (lastHeartbeat w) v (syncing w)
    (obs w).

Definition with_syncing (v : SyncPc) (w : Worker) : Worker :=
  mkWorker (m_config w) (m_pInboundQueue w) (m_messageCallback w) (m_running w)
    (m_controlQueue w) (m_outboundQueue w) (m_encodedQueue w) (m_hasEncoded w) (m_brokerId w)
    (m_droppedSends w) (m_heartbeatsSent w) (m_acksReceived w) (m_syncRequested w)
    (m_syncTarget w) (pc w) (socket w) (incoming w) (batch w) (encodedBatch w)
    (controlBacklog w) (dataBacklog w) (inbound w) (isOnline w) (lastHeartbeat w) (lastRxTime w)
    v (obs w).

Definition with_obs (v : Obs) (w : Worker) : Worker :=
  mkWorker (m_config w) (m_pInboundQueue w) (m_messageCallback w) (m_running w)
    (m_controlQueue w) (m_outboundQueue w) (m_encodedQueue w) (m_hasEncoded w) (m_brokerId w)
    (m_droppedSends w) (m_heartbeatsSent w) (m_acksReceived w) (m_syncRequested w)
    (m_syncTarget w) (pc w) (socket w) (incoming w) (batch w) (encodedBatch w)
    (controlBacklog w) (dataBacklog w) (inbound w) (isOnline w) (lastHeartbeat w) (lastRxTime w)
    (syncing w) v.

(** The constructor: [fresh] and [silent] stand for sockets that do not exist yet. *)
Definition new_zmq_worker (config : ConnectionConfig) (inboundQueue : option (SafeQueue Envelope))
    (callback : bool) (fresh : S) (silent : R) : Worker :=
  mkWorker config inboundQueue callback false
    (new_queue CONTROL_BACKLOG_LIMIT) (new_queue DefaultQueueSize) (new_queue DefaultQueueSize) false
    EmptyString 0 0 0 false 0
    NotStarted fresh silent [] [] [] [] (mkEnvelope empty_header EmptyString) false 0 0
    SyncIdle empty_obs.

(** ** What the threads share *)

Definition note (d : Done) (w : Worker) : Worker :=
  with_obs (obs_done (o_done (obs w) ++ [d]) (obs w)) w.

Definition noteDroppedSend (w : Worker) : Worker :=
  with_droppedSends (wrap 64 (m_droppedSends w + 1)) w.

Definition noteBrokerId (brokerId : string) (w : Worker) : Worker :=
  if decide (brokerId = EmptyString) then w else with_brokerId brokerId w.

Definition accepted (w : Worker) : Counts :=
  (length (o_control (obs w)), length (o_data (obs w)), length (o_encoded (obs w))).

(** The three ways in: [enqueue] on the queue, and what was accepted.  The wake-up
    ping of [enqueue] is in SafeQueue.v. *)
Definition zmq_writeMessage (msg : Envelope) (w : Worker) : bool * Worker :=
  let '(ok, _, q) := push_timed msg (m_outboundQueue w) in
  let w := with_outboundQueue q w in
  if ok then (true, with_obs (obs_data (o_data (obs w) ++ [(msg, length (o_control (obs w)))]) (obs w)) w)
  else (false, w).

Definition zmq_writeControlMessage (msg : Envelope) (w : Worker) : bool * Worker :=
  let '(ok, _, q) := push_timed msg (m_controlQueue w) in
  let w := with_controlQueue q w in
  if ok then (true, with_obs (obs_control (o_control (obs w) ++ [msg]) (obs w)) w)
  else (false, with_obs (obs_refused (Datatypes.S (o_refused (obs w))) (obs w)) w).

Definition zmq_writeEncoded (msg : WireMessage) (w : Worker) : bool * Worker :=
  let w := with_hasEncoded true w in
  let '(ok, _, q) := push_timed msg (m_encodedQueue w) in
  let w := with_encodedQueue q w in
  if ok then (true, with_obs (obs_encoded (o_encoded (obs w) ++ [msg]) (obs w)) w)
  else (false, w).

(** ** The run loop *)

Definition heartbeatInterval (c : ConnectionConfig) : Z :=
  if decide (0 < cfg_keepAliveTime c)%Z then cfg_keepAliveTime c else 3000.

Definition serverTimeout (c : ConnectionConfig) : Z :=
  let timeout := (if decide (0 < cfg_keepAliveTimeout c)%Z then cfg_keepAliveTimeout c else 10000)%Z in
  if decide (timeout ≤ heartbeatInterval c)%Z then (heartbeatInterval c * 3)%Z else timeout.

Definition notifyStatus (online : bool) (w : Worker) : Worker :=
  with_obs (obs_status (o_status (obs w) ++ [online]) (obs w)) w.

(** Sends one header without payload: CONNECT and the heartbeats. *)
Definition send_key (key : string) (w : Worker) : bool * Worker :=
  let '(ok, s) := send_envelope (socket w) (makeControl key (cfg_clientId (m_config w)) EmptyString) in
  (ok, with_socket s w).

Definition sendHeartbeat (w : Worker) : Worker :=
  let '(ok, w) := send_key Keys.HEARTBEAT w in
  with_heartbeatsSent (wrap 64 (m_heartbeatsSent w + 1)) (note (DoneHeartbeat ok) w).

(** [runLoop] up to its loop, on a fresh socket. *)
Definition loop_setup (fresh : S) (now : Z) (w : Worker) : Worker :=
  let w := with_obs (obs_base (length (o_done (obs w))) (obs w)) (with_socket fresh w) in
  let '(ok, w) := send_key Keys.CONNECT w in
  let w := note (DoneConnect ok) w in
  let w := with_lastHeartbeat (now - heartbeatInterval (m_config w)) w in
  let w := with_lastRxTime now (with_isOnline false w) in
  let w := with_controlBacklog [] (with_dataBacklog [] (with_batch [] (with_encodedBatch [] w))) in
  with_pc AtPoll (notifyStatus false w).

(** [flushControl]: true once the backlog is empty. *)
Fixpoint flushControl (backlog : list Envelope) (w : Worker) : bool * Worker :=
  match backlog with
  | [] => (true, w)
  | m :: rest =>
      let '(ok, s) := send_envelope (socket w) m in
      let w := with_socket s w in
      if ok then flushControl rest (with_controlBacklog rest (note (DoneControl m true) w))
      else (false, w)
  end.

(** The oldest go first while a backlog is over its limit. *)
Fixpoint trimBacklog (limit : nat) (lost : Envelope → Done) (backlog : list Envelope) (w : Worker)
    : list Envelope * Worker :=
  match backlog with
  | [] => ([], w)
  | m :: rest =>
      if decide (limit < length backlog) then trimBacklog limit lost rest (noteDroppedSend (note (lost m) w))
      else (backlog, w)
  end.

Definition controlGone (m : Envelope) : Done := DoneControl m false.
Definition dataGone (m : Envelope) : Done := DoneData m false.

(** One message of [sendBatch]. *)
Definition sendOne (w : Worker) (sent : bool * S) (done : bool → Done) : Worker :=
  let w := note (done sent.1) (with_socket sent.2 w) in
  if sent.1 then w else noteDroppedSend w.

(** The receive at the top of an iteration. *)
Definition receive_section (readable : bool) (now : Z) (w : Worker) : Worker :=
  if readable then
    match recv (incoming w) with
    | (None, r) => with_pc AtControl (with_incoming r w)
    | (Some (env, _), r) =>
        let w := with_lastRxTime now (with_inbound env (with_incoming r w)) in
        let key := handler_key (env_header env) in
        let w := if decide (key = Keys.HEARTBEAT_ACK ∨ key = Keys.RESET)
                 then noteBrokerId (sender_id (env_header env)) w else w in
        let w := if isOnline w then w else notifyStatus true (with_isOnline true w) in
        with_pc AtDispatch w
    end
  else with_pc AtControl w.

Definition dispatch_section (w : Worker) : Worker :=
  with_pc AtControl
    (if decide (handler_key (env_header (inbound w)) = Keys.HEARTBEAT_ACK)
     then with_acksReceived (wrap 64 (m_acksReceived w + 1)) w
     else match m_pInboundQueue w with
          | Some q => with_inboundQueue (Some (push_timed (inbound w) q).2) w
          | None =>
              if m_messageCallback w
              then with_obs (obs_delivered (o_delivered (obs w) ++ [inbound w]) (obs w)) w else w
          end).

Definition take_control (w : Worker) : Worker :=
  let '(b, q) := drainTo (m_controlQueue w) in
  with_controlBacklog (controlBacklog w ++ b) (with_controlQueue q w).

Definition control_section (w : Worker) : Worker :=
  let w := take_control w in
  let '(kept, w) := trimBacklog CONTROL_BACKLOG_LIMIT controlGone (controlBacklog w) w in
  with_pc AtDrainData (flushControl kept (with_controlBacklog kept w)).2.

Definition drain_section (w : Worker) : Worker :=
  if isOnline w then
    let '(b, q) := drainTo (m_outboundQueue w) in
    with_pc (if decide (b = []) then AtBacklog else AtCheckControl) (with_batch b (with_outboundQueue q w))
  else with_pc AtBacklog w.

(** No control message is waiting, in the backlog or in the queue. *)
Definition noControl (w : Worker) : bool :=
  bool_decide (controlBacklog w = []) && queue_empty (m_controlQueue w).

Definition check_section (w : Worker) : Worker :=
  if bool_decide (dataBacklog w = []) && noControl w then with_pc AtSendBatch w
  else
    let '(kept, w) := trimBacklog DATA_BACKLOG_LIMIT dataGone (dataBacklog w ++ batch w) w in
    with_pc AtBacklog (with_dataBacklog kept (with_batch [] w)).

Definition send_batch_section (w : Worker) : Worker :=
  match batch w with
  | [] => with_pc AtBacklog w
  | m :: rest => with_batch rest (sendOne w (send_envelope (socket w) m) (DoneData m))
  end.

Definition backlog_section (w : Worker) : Worker :=
  with_pc (if negb (bool_decide (dataBacklog w = [])) && noControl w then AtSendBacklog else AtEncodedCheck) w.

Definition send_backlog_section (w : Worker) : Worker :=
  match dataBacklog w with
  | [] => with_pc AtEncodedCheck w
  | m :: rest => with_dataBacklog rest (sendOne w (send_envelope (socket w) m) (DoneData m))
  end.

Definition encoded_check_section (w : Worker) : Worker :=
  with_pc (if isOnline w && noControl w && m_hasEncoded w then AtEncodedDrain else AtSyncControl) w.

Definition encoded_drain_section (w : Worker) : Worker :=
  let '(b, q) := drainTo (m_encodedQueue w) in
  with_pc AtSendEncoded (with_encodedBatch b (with_encodedQueue q w)).

Definition send_encoded_section (w : Worker) : Worker :=
  match encodedBatch w with
  | [] => with_pc AtSyncControl w
  | m :: rest => with_encodedBatch rest (sendOne w (send_encoded (socket w) m) (DoneEncoded m))
  end.

Definition sync_control_section (w : Worker) : Worker :=
  if isOnline w && bool_decide (dataBacklog w = []) && noControl w
  then with_pc AtSyncOutbound (with_obs (obs_mark (accepted w) (obs w)) w)
  else with_pc AtTimers w.

Definition sync_request_section (w : Worker) : Worker :=
  if m_syncRequested w then with_pc AtSyncSend (with_sync false (m_syncTarget w) w)
  else with_pc AtTimers w.

Definition sync_send_section (now : Z) (w : Worker) : Worker :=
  with_pc AtSyncTarget (with_lastHeartbeat now (sendHeartbeat w)).

Definition sync_target_section (w : Worker) : Worker :=
  with_pc AtTimers
    (with_obs (obs_target (o_mark (obs w)) (obs w)) (with_sync (m_syncRequested w) (m_heartbeatsSent w) w)).

Definition timers_section (now : Z) (w : Worker) : Worker :=
  let w := if decide (now - lastHeartbeat w > heartbeatInterval (m_config w))%Z
           then with_lastHeartbeat now (sendHeartbeat w) else w in
  let w := if decide (isOnline w = true ∧ (now - lastRxTime w > serverTimeout (m_config w))%Z)
           then notifyStatus false (with_isOnline false w) else w in
  with_pc AtPoll w.

(** Up to a hundred attempts to flush before the socket closes. *)
Fixpoint flushAttempts (attempts : nat) (w : Worker) : Worker :=
  match attempts with
  | O => w
  | Datatypes.S n =>
      let '(done, w) := flushControl (controlBacklog w) w in
      if done then w else flushAttempts n w
  end.

(** After the loop.  What is left of the locals goes with them. *)
Definition shutdown_section (w : Worker) : Worker :=
  let w := flushAttempts 100 (take_control w) in
  let w := foldl (λ w m, note (controlGone m) w) w (controlBacklog w) in
  let w := foldl (λ w m, note (dataGone m) w) w (dataBacklog w) in
  with_pc Finished (with_controlBacklog [] (with_dataBacklog [] w)).

(** From one place to the next; [readable] is the poll's answer for the socket, [now]
    what the clock reads. *)
Definition loop_step (readable : bool) (now : Z) (w : Worker) : option Worker :=
  match pc w with
  | NotStarted | Finished => None
  | AtPoll => Some (if m_running w then receive_section readable now w else shutdown_section w)
  | AtDispatch => Some (dispatch_section w)
  | AtControl => Some (control_section w)
  | AtDrainData => Some (drain_section w)
  | AtCheckControl => Some (check_section w)
  | AtSendBatch => Some (send_batch_section w)
  | AtBacklog => Some (backlog_section w)
  | AtSendBacklog => Some (send_backlog_section w)
  | AtEncodedCheck => Some (encoded_check_section w)
  | AtEncodedDrain => Some (encoded_drain_section w)
  | AtSendEncoded => Some (send_encoded_section w)
  | AtSyncControl => Some (sync_control_section w)
  | AtSyncOutbound =>
      Some (with_pc (if queue_empty (m_outboundQueue w) then AtSyncEncoded else AtTimers) w)
  | AtSyncEncoded =>
      Some (with_pc (if queue_empty (m_encodedQueue w) then AtSyncRequest else AtTimers) w)
  | AtSyncRequest => Some (sync_request_section w)
  | AtSyncSend => Some (sync_send_section now w)
  | AtSyncTarget => Some (sync_target_section w)
  | AtTimers => Some (timers_section now w)
  end.

(** ** sync, start, stop *)

Definition answer (result : bool) (w : Worker) : Worker :=
  with_syncing SyncIdle (with_obs (obs_results (o_results (obs w) ++ [result]) (obs w)) w).

Definition sync_call (w : Worker) : Worker :=
  if m_running w then
    with_syncing SyncWaitTarget (with_sync true 0 (with_obs (obs_call (accepted w) (obs w)) w))
  else answer false w.

(** The end of [sync]'s first wait: with a target, or by the deadline or a stop. *)
Definition sync_after_target (w : Worker) : Worker :=
  if decide (m_syncTarget w = 0%Z) then answer false (with_sync false (m_syncTarget w) w)
  else with_syncing (SyncWaitAck (m_syncTarget w)) w.

(** The end of its second wait. *)
Definition sync_after_ack (target : Z) (w : Worker) : Worker :=
  answer (bool_decide (target ≤ m_acksReceived w)%Z) w.

(** [run()]: the loop on a fresh socket; [None] is a set-up that threw, which is reported
    as being offline before the thread ends. *)
Definition zmq_run (fresh : option S) (now : Z) (w : Worker) : Worker :=
  match fresh with
  | Some s => loop_setup s now w
  | None => with_pc Finished (notifyStatus false w)
  end.

(** [start()], the thread's first steps included. *)
Definition zmq_start (fresh : option S) (now : Z) (w : Worker) : Worker :=
  zmq_run fresh now (with_running true w).

(** [stop()] up to the join, which is [EvJoin]; what it owes a waiting [sync] is modelled
    lock by lock in the file on waiting. *)
Definition zmq_stop (w : Worker) : Worker := with_running false w.

Definition zmq_brokerId (w : Worker) : string := m_brokerId w.

Inductive WEvent :=
  | EvWriteMessage (m : Envelope)
  | EvWriteControl (m : Envelope)
  | EvWriteEncoded (m : WireMessage)
  | EvNetwork (r : R)
  | EvConsume
  | EvStart (fresh : option S) (now : Z)
  | EvStop
  | EvJoin
  | EvLoop (readable : bool) (now : Z)
  | EvSyncCall
  | EvSyncWake.

(** A socket just made: nothing sent on it. *)
Definition fresh_socket (s : S) : bool := bool_decide (sock_open s = [] ∧ sock_wire s = []).

(** One event of some thread. *)
Definition wstep (e : WEvent) (w : Worker) : option Worker :=
  match e with
  | EvWriteMessage m => Some (zmq_writeMessage m w).2
  | EvWriteControl m => Some (zmq_writeControlMessage m w).2
  | EvWriteEncoded m => Some (zmq_writeEncoded m w).2
  | EvNetwork r => Some (with_incoming r w)
  | EvConsume =>
      match m_pInboundQueue w with
      | Some q => Some (with_inboundQueue (Some (try_pop q).2) w)
      | None => None
      end
  | EvStart fresh now =>
      match pc w with
      | NotStarted =>
          match fresh with
          | Some s => if fresh_socket s then Some (zmq_start fresh now w) else None
          | None => Some (zmq_start None now w)
          end
      | _ => None
      end
  | EvStop => Some (zmq_stop w)
  | EvJoin => match pc w with Finished => Some (with_pc NotStarted w) | _ => None end
  | EvLoop readable now => loop_step readable now w
  | EvSyncCall => match syncing w with SyncIdle => Some (sync_call w) | _ => None end
  | EvSyncWake =>
      match syncing w with
      | SyncIdle => None
      | SyncWaitTarget => Some (sync_after_target w)
      | SyncWaitAck target => Some (sync_after_ack target w)
      end
  end.

Fixpoint wrun (es : list WEvent) (w : Worker) : option Worker :=
  match es with
  | [] => Some w
  | e :: es => match wstep e w with Some w' => wrun es w' | None => None end
  end.
End worker.
