(* ===== verification/ZmqWorkerInv.v ===== *)
(** * Invariants of the connection worker

    What holds of a worker at every point of every interleaving of its loop with the
    threads that use it: [queue_inv] accounts for every message accepted and for the
    order of what was sent, [sock_ok] says what is on the wire.  Both are kept by every
    event ([wstep_queue_inv], [wstep_sock_ok]). *)

From Stdlib Require Import ZArith Lia.
From S2P Require Import Prelude.
From S2P Require Import MessageKeys.
From S2P Require Import Config.
From S2P Require Import SafeQueue.
From S2P Require Import Wire.
From S2P Require Import Worker.
From S2P Require Import ZmqWorker.

(** ** Reading the list of outcomes *)

Definition ctls (ds : list Done) : list Envelope :=
  omap (λ d, match d with DoneControl m _ => Some m | _ => None end) ds.

Definition datas (ds : list Done) : list Envelope :=
  omap (λ d, match d with DoneData m _ => Some m | _ => None end) ds.

Definition encs (ds : list Done) : list WireMessage :=
  omap (λ d, match d with DoneEncoded m _ => Some m | _ => None end) ds.

(** Every data message that went out is the next one accepted, and at least as many
    control messages as had been accepted before it were dealt with by then. *)
Definition ordered (accepted_data : list (Envelope * nat)) (ds : list Done) : Prop :=
  ∀ pre m post, ds = pre ++ DoneData m true :: post →
    ∃ n, accepted_data !! length (datas pre) = Some (m, n) ∧ n ≤ length (ctls pre).

Definition counts_le (a b : Counts) : Prop := a.1.1 ≤ b.1.1 ∧ a.1.2 ≤ b.1.2 ∧ a.2 ≤ b.2.

Lemma ctls_app a b : ctls (a ++ b) = ctls a ++ ctls b.
Proof. apply omap_app. Qed.

Lemma datas_app a b : datas (a ++ b) = datas a ++ datas b.
Proof. apply omap_app. Qed.

Lemma encs_app a b : encs (a ++ b) = encs a ++ encs b.
Proof. apply omap_app. Qed.

Create Rewrite HintDb done.
#[export] Hint Rewrite ctls_app datas_app encs_app : done.

Lemma ordered_more od x ds : ordered od ds → ordered (od ++ [x]) ds.
Proof.
  intros H pre m post E. destruct (H pre m post E) as (n & Hn & Hle).
  exists n. split; [|done]. by apply lookup_app_l_Some.
Qed.

Lemma ordered_done od ds d :
  ordered od ds →
  (∀ m, d = DoneData m true → ∃ n, od !! length (datas ds) = Some (m, n) ∧ n ≤ length (ctls ds)) →
  ordered od (ds ++ [d]).
Proof.
  intros H Hd pre m post E.
  destruct post as [|y post _] using rev_ind.
  - apply app_inj_tail in E as [-> E]. by apply Hd.
  - rewrite app_comm_cons, app_assoc in E. apply app_inj_tail in E as [E _]. by apply (H pre m post).
Qed.

Lemma ordered_dones od ds ds' :
  ordered od ds → (∀ m, DoneData m true ∉ ds') → ordered od (ds ++ ds').
Proof.
  revert ds. induction ds' as [|d ds' IH]; intros ds H Hd; [by rewrite app_nil_r|].
  rewrite cons_middle, app_assoc. apply IH; [|set_solver].
  apply ordered_done; [done|]. intros m ->. destruct (Hd m). left.
Qed.

Section accounting.
Context {S R : Type} `{!ZmqSender S} `{!ZmqReceiver R} {PB : ProtobufRuntime}.
Notation Worker := (@Worker S R).
Implicit Types w : Worker.

Definition done w : list Done := o_done (obs w).

Definition handled w : Counts :=
  (length (ctls (done w)), length (datas (done w)), length (encs (done w))).

(** The data in hand had no control ahead of it that is not dealt with. *)
Definition inflight w : Prop :=
  ∀ i x, o_data (obs w) !! i = Some x →
    i < length (datas (done w)) + length (dataBacklog w ++ batch w) → x.2 ≤ length (ctls (done w)).

Definition pc_inv w : Prop :=
  match pc w with
  | NotStarted | Finished =>
      batch w = [] ∧ encodedBatch w = [] ∧ controlBacklog w = [] ∧ dataBacklog w = []
  | AtCheckControl => encodedBatch w = []
  | AtSendBatch => encodedBatch w = [] ∧ dataBacklog w = [] ∧ inflight w
  | AtSendBacklog => batch w = [] ∧ encodedBatch w = [] ∧ inflight w
  | AtSendEncoded => batch w = []
  | AtSyncOutbound =>
      batch w = [] ∧ encodedBatch w = [] ∧ dataBacklog w = [] ∧
      (o_mark (obs w)).1.1 ≤ length (ctls (done w))
  | AtSyncEncoded =>
      batch w = [] ∧ encodedBatch w = [] ∧
      (o_mark (obs w)).1.1 ≤ length (ctls (done w)) ∧ (o_mark (obs w)).1.2 ≤ length (datas (done w))
  | AtSyncRequest | AtSyncSend | AtSyncTarget =>
      batch w = [] ∧ encodedBatch w = [] ∧ counts_le (o_mark (obs w)) (handled w)
  | _ => batch w = [] ∧ encodedBatch w = []
  end.

Record queue_inv w : Prop := {
  qi_control : o_control (obs w) = ctls (done w) ++ controlBacklog w ++ m_queue (m_controlQueue w);
  qi_data : (o_data (obs w)).*1 = datas (done w) ++ dataBacklog w ++ batch w ++ m_queue (m_outboundQueue w);
  qi_encoded : o_encoded (obs w) = encs (done w) ++ encodedBatch w ++ m_queue (m_encodedQueue w);
  qi_stamps : ∀ i x, o_data (obs w) !! i = Some x → x.2 ≤ length (o_control (obs w));
  qi_ordered : ordered (o_data (obs w)) (done w);
  qi_pc : pc_inv w;
  qi_mark : counts_le (o_mark (obs w)) (accepted w);
  qi_target : counts_le (o_target (obs w)) (handled w)
}.

(** Backlogs and queues within their limits. *)
Record bounded w : Prop := {
  bd_controlBacklog : length (controlBacklog w) ≤ CONTROL_BACKLOG_LIMIT;
  bd_dataBacklog : length (dataBacklog w) ≤ DATA_BACKLOG_LIMIT;
  bd_control : length (m_queue (m_controlQueue w)) ≤ CONTROL_BACKLOG_LIMIT ∧
    m_maxSize (m_controlQueue w) = CONTROL_BACKLOG_LIMIT;
  bd_outbound : length (m_queue (m_outboundQueue w)) ≤ DefaultQueueSize ∧
    m_maxSize (m_outboundQueue w) = DefaultQueueSize;
  bd_encoded : length (m_queue (m_encodedQueue w)) ≤ DefaultQueueSize ∧
    m_maxSize (m_encodedQueue w) = DefaultQueueSize
}.

(** ** The loops over a backlog *)

(** A worker after some sends: new socket, new outcomes, another drop count. *)
Definition after (s : S) (ds : list Done) (drops : Z) w : Worker :=
  with_droppedSends drops (with_socket s (with_obs (obs_done (done w ++ ds) (obs w)) w)).

Lemma after_after s1 ds1 n1 s2 ds2 n2 w :
  after s2 ds2 n2 (after s1 ds1 n1 w) = after s2 (ds1 ++ ds2) n2 w.
Proof. unfold after, done. simpl. by rewrite <-app_assoc. Qed.

Lemma after_nil w : after (socket w) [] (m_droppedSends w) w = w.
Proof. unfold after, done. destruct w as [????????????????????????? ? o]; destruct o. simpl. by rewrite app_nil_r. Qed.

Lemma flushControl_spec bl w :
  controlBacklog w = bl →
  ∃ k s, (flushControl bl w).2 =
    with_controlBacklog (drop k bl) (after s ((λ m, DoneControl m true) <$> take k bl) (m_droppedSends w) w) ∧
    ((flushControl bl w).1 = true → drop k bl = []).
Proof.
  revert w; induction bl as [|m bl IH]; intros w E; simpl.
  - exists 0, (socket w). simpl. rewrite after_nil. split; [|done].
    destruct w. simpl in *. by subst.
  - destruct (send_envelope (socket w) m) as [[] s] eqn:Es.
    + destruct (IH (with_controlBacklog bl (note (DoneControl m true) (with_socket s w)))) as (k & s' & Hf & Ht);
        [done|]. exists (Datatypes.S k), s'. simpl. rewrite Hf. split; [|done].
      unfold after, note, done. simpl. by rewrite <-app_assoc.
    + exists 0, s. simpl. split; [|done]. unfold after, done. simpl. rewrite app_nil_r.
      destruct w as [????????????????????????? ? o]; destruct o. simpl in *. by subst.
Qed.

Lemma trimBacklog_spec limit lost bl w :
  ∃ drops, trimBacklog limit lost bl w =
    (drop (length bl - limit) bl, after (socket w) (lost <$> take (length bl - limit) bl) drops w).
Proof.
  revert w; induction bl as [|m bl IH]; intros w; simpl.
  - exists (m_droppedSends w). by rewrite after_nil.
  - case_decide.
    + destruct (IH (noteDroppedSend (note (lost m) w))) as (n & ->). exists n.
      replace (Datatypes.S (length bl) - limit) with (Datatypes.S (length bl - limit)) by lia. simpl.
      f_equal. unfold after, note, noteDroppedSend, done. simpl. by rewrite <-app_assoc.
    + replace (Datatypes.S (length bl) - limit) with 0 by lia. simpl.
      exists (m_droppedSends w). by rewrite after_nil.
Qed.

Lemma flushAttempts_spec n w :
  ∃ k s, flushAttempts n w =
    with_controlBacklog (drop k (controlBacklog w))
      (after s ((λ m, DoneControl m true) <$> take k (controlBacklog w)) (m_droppedSends w) w).
Proof.
  revert w; induction n as [|n IH]; intros w; simpl.
  - exists 0, (socket w). rewrite after_nil. by destruct w.
  - destruct (flushControl_spec _ w eq_refl) as (k & s & Hf & _).
    destruct (flushControl (controlBacklog w) w) as [[] w'] eqn:E; simpl in *; subst; [by eauto|].
    destruct (IH (with_controlBacklog (drop k (controlBacklog w))
      (after s ((λ m, DoneControl m true) <$> take k (controlBacklog w)) (m_droppedSends w) w)))
      as (k' & s' & ->). simpl.
    exists (k + k'), s'. rewrite drop_drop.
    unfold after, done. simpl. rewrite <-app_assoc, <-fmap_app, take_take_drop. done.
Qed.

Lemma notes_spec (lost : Envelope → Done) (ms : list Envelope) w :
  foldl (λ w m, note (lost m) w) w ms = after (socket w) (lost <$> ms) (m_droppedSends w) w.
Proof.
  revert w; induction ms as [|m ms IH]; intros w; simpl; [by rewrite after_nil|].
  rewrite IH. unfold after, note, done. simpl. by rewrite <-app_assoc.
Qed.

(** ** Every event keeps the accounts *)

Lemma counts_le_mono a b c : counts_le a b → counts_le b c → counts_le a c.
Proof. unfold counts_le. lia. Qed.

(** Places where nothing is in hand and no sync check is under way. *)
Definition plain (p : Pc) : bool :=
  match p with
  | NotStarted | Finished | AtCheckControl | AtSendBatch | AtSendBacklog | AtSendEncoded
  | AtSyncOutbound | AtSyncEncoded | AtSyncRequest | AtSyncSend | AtSyncTarget => false
  | _ => true
  end.

Lemma plain_pc w : plain (pc w) = true → pc_inv w ↔ batch w = [] ∧ encodedBatch w = [].
Proof. unfold pc_inv. by destruct (pc w). Qed.

(** The general step: control and data leave the backlogs for [ds], the control queue
    may be drained, and the loop moves on to a plain place. *)
Lemma queue_inv_leave w w' ds :
  queue_inv w → batch w = [] → encodedBatch w = [] → pc_inv w' →
  batch w' = [] → encodedBatch w' = [] →
  o_control (obs w') = o_control (obs w) → o_data (obs w') = o_data (obs w) →
  o_encoded (obs w') = o_encoded (obs w) → o_mark (obs w') = o_mark (obs w) →
  o_target (obs w') = o_target (obs w) →
  m_outboundQueue w' = m_outboundQueue w → m_encodedQueue w' = m_encodedQueue w →
  done w' = done w ++ ds →
  ctls ds ++ controlBacklog w' ++ m_queue (m_controlQueue w') =
    controlBacklog w ++ m_queue (m_controlQueue w) →
  datas ds ++ dataBacklog w' = dataBacklog w → encs ds = [] → (∀ m, DoneData m true ∉ ds) →
  queue_inv w'.
Proof.
  intros [] Hb He Hp Hb' He' Ec Ed Een Em Et Eo Eq Edn Hc Hd Hen Hds.
  split; rewrite ?Ec, ?Ed, ?Een, ?Em, ?Et, ?Eo, ?Eq, ?Edn; autorewrite with done.
  - by rewrite <-app_assoc, Hc.
  - rewrite Hb', <-!app_assoc, (app_assoc (datas ds)), Hd. by rewrite qi_data0, Hb.
  - by rewrite He', Hen, app_nil_r, qi_encoded0, He.
  - done.
  - by apply ordered_dones.
  - done.
  - unfold accepted in *. by rewrite Ec, Ed, Een.
  - eapply counts_le_mono; [done|]. unfold counts_le, handled. rewrite Edn. autorewrite with done.
    simpl. rewrite !length_app. lia.
Qed.

(** Nothing leaves: the same with no outcome. *)
Lemma queue_inv_same w w' :
  queue_inv w → plain (pc w) = true → plain (pc w') = true →
  batch w' = batch w → encodedBatch w' = encodedBatch w →
  (o_control (obs w'), o_data (obs w'), o_encoded (obs w'), o_mark (obs w'), o_target (obs w'), done w') =
  (o_control (obs w), o_data (obs w), o_encoded (obs w), o_mark (obs w), o_target (obs w), done w) →
  (m_controlQueue w', m_outboundQueue w', m_encodedQueue w', controlBacklog w', dataBacklog w') =
  (m_controlQueue w, m_outboundQueue w, m_encodedQueue w, controlBacklog w, dataBacklog w) →
  queue_inv w'.
Proof.
  intros H Hp Hp' Hb He E1 E2. pose proof (qi_pc _ H) as Hpc. apply plain_pc in Hpc as [Eb Ee]; [|done].
  simplify_eq. apply (queue_inv_leave w w' []); try congruence; simpl; rewrite ?app_nil_r; try congruence.
  - apply plain_pc; [done|]. split; congruence.
  - intros m. apply not_elem_of_nil.
Qed.

(** Nothing the accounts look at changes. *)
Lemma queue_inv_ext w w' :
  queue_inv w → pc w' = pc w → batch w' = batch w → encodedBatch w' = encodedBatch w →
  (o_control (obs w'), o_data (obs w'), o_encoded (obs w'), o_mark (obs w'), o_target (obs w'), done w') =
  (o_control (obs w), o_data (obs w), o_encoded (obs w), o_mark (obs w), o_target (obs w), done w) →
  (m_controlQueue w', m_outboundQueue w', m_encodedQueue w', controlBacklog w', dataBacklog w') =
  (m_controlQueue w, m_outboundQueue w, m_encodedQueue w, controlBacklog w, dataBacklog w) →
  queue_inv w'.
Proof.
  intros [] Hp Hb He [= E1 E2 E3 E4 E5 E6] [= Q1 Q2 Q3 Q4 Q5].
  split; unfold pc_inv, inflight, accepted, handled in *;
    by rewrite ?Hp, ?Hb, ?He, ?E1, ?E2, ?E3, ?E4, ?E5, ?E6, ?Q1, ?Q2, ?Q3, ?Q4, ?Q5.
Qed.

Lemma ctls_controls b (ms : list Envelope) : ctls ((λ m, DoneControl m b) <$> ms) = ms.
Proof. induction ms as [|m ms IH]; [done|]. simpl. by f_equal. Qed.

Lemma datas_controls b (ms : list Envelope) : datas ((λ m, DoneControl m b) <$> ms) = [].
Proof. by induction ms. Qed.

Lemma encs_controls b (ms : list Envelope) : encs ((λ m, DoneControl m b) <$> ms) = [].
Proof. by induction ms. Qed.

Lemma ctls_datas b (ms : list Envelope) : ctls ((λ m, DoneData m b) <$> ms) = [].
Proof. by induction ms. Qed.

Lemma datas_datas b (ms : list Envelope) : datas ((λ m, DoneData m b) <$> ms) = ms.
Proof. induction ms as [|m ms IH]; [done|]. simpl. by f_equal. Qed.

Lemma encs_datas b (ms : list Envelope) : encs ((λ m, DoneData m b) <$> ms) = [].
Proof. by induction ms. Qed.

Lemma no_data_controls b (ms : list Envelope) m : DoneData m true ∉ ((λ m, DoneControl m b) <$> ms).
Proof. intros (? & ? & ?)%list_elem_of_fmap. done. Qed.

Lemma no_data_lost (ms : list Envelope) m : DoneData m true ∉ ((λ m, DoneData m false) <$> ms).
Proof. intros (? & ? & ?)%list_elem_of_fmap. done. Qed.

Lemma take_control_eq w :
  take_control w = with_controlBacklog (controlBacklog w ++ m_queue (m_controlQueue w))
    (with_controlQueue (mkQueue [] (m_stop (m_controlQueue w)) (m_maxSize (m_controlQueue w))) w).
Proof. done. Qed.

Lemma control_section_inv w : queue_inv w → pc w = AtControl → queue_inv (control_section w).
Proof.
  intros H Hp. pose proof (qi_pc _ H) as Hpc. apply plain_pc in Hpc as [Eb Ee]; [|by rewrite Hp].
  unfold control_section. rewrite take_control_eq.
  set (w1 := with_controlBacklog _ _).
  destruct (trimBacklog_spec CONTROL_BACKLOG_LIMIT controlGone (controlBacklog w1) w1) as (n & ->).
  match goal with |- context [flushControl ?bl ?x] =>
    destruct (flushControl_spec bl x eq_refl) as (k & s & -> & _) end.
  set (t := length _ - _).
  eapply (queue_inv_leave w _ ((controlGone <$> take t (controlBacklog w1)) ++
    ((λ m, DoneControl m true) <$> take k (drop t (controlBacklog w1))))); try done.
  - unfold after, done. simpl. by rewrite <-app_assoc.
  - unfold controlGone. autorewrite with done. rewrite !ctls_controls. simpl.
    rewrite app_nil_r, <-!app_assoc, take_drop, take_drop. done.
  - unfold controlGone. autorewrite with done. by rewrite !datas_controls.
  - unfold controlGone. autorewrite with done. by rewrite !encs_controls.
  - intros m. rewrite elem_of_app. intros [?|?]; by eapply no_data_controls.
Qed.

Lemma shutdown_section_inv w : queue_inv w → pc w = AtPoll → queue_inv (shutdown_section w).
Proof.
  intros H Hp. pose proof (qi_pc _ H) as Hpc. apply plain_pc in Hpc as [Eb Ee]; [|by rewrite Hp].
  unfold shutdown_section. rewrite take_control_eq. set (w1 := with_controlBacklog (_ ++ _) _).
  destruct (flushAttempts_spec 100 w1) as (k & s & ->). rewrite !notes_spec.
  eapply (queue_inv_leave w _ (((λ m, DoneControl m true) <$> take k (controlBacklog w1)) ++
    (controlGone <$> drop k (controlBacklog w1)) ++ (dataGone <$> dataBacklog w))); try done.
  - unfold after, done. simpl. by rewrite <-!app_assoc.
  - unfold controlGone, dataGone. autorewrite with done. rewrite !ctls_controls, ctls_datas. simpl.
    by rewrite !app_nil_r, take_drop.
  - unfold controlGone, dataGone. autorewrite with done. rewrite !datas_controls, datas_datas. simpl.
    by rewrite app_nil_r.
  - unfold controlGone, dataGone. autorewrite with done. by rewrite !encs_controls, encs_datas.
  - intros m. rewrite !elem_of_app.
    intros [?|[?|?]]; [by eapply no_data_controls|by eapply no_data_controls|by eapply no_data_lost].
Qed.

Lemma sendHeartbeat_spec w :
  ∃ ok s, sendHeartbeat w =
    with_heartbeatsSent (wrap 64 (m_heartbeatsSent w + 1)) (after s [DoneHeartbeat ok] (m_droppedSends w) w).
Proof.
  unfold sendHeartbeat, send_key. destruct (send_envelope _ _) as [ok s]. by exists ok, s.
Qed.

Lemma sendOne_spec w sent d :
  ∃ n, sendOne w sent d = after sent.2 [d sent.1] n w.
Proof. unfold sendOne. destruct sent as [[] s]; by eexists. Qed.

Lemma receive_section_inv readable now w :
  queue_inv w → pc w = AtPoll → queue_inv (receive_section readable now w).
Proof.
  intros H Hp. unfold receive_section, noteBrokerId, notifyStatus.
  destruct readable; [destruct (recv (incoming w)) as [[[env n]|] r]|].
  - repeat case_decide; simpl; destruct (isOnline w); eapply queue_inv_same; try done; by rewrite Hp.
  - eapply queue_inv_same; try done; by rewrite Hp.
  - eapply queue_inv_same; try done; by rewrite Hp.
Qed.

Lemma dispatch_section_inv w : queue_inv w → pc w = AtDispatch → queue_inv (dispatch_section w).
Proof.
  intros H Hp. unfold dispatch_section. case_decide; [|destruct (m_pInboundQueue w); [|destruct (m_messageCallback w)]];
    eapply queue_inv_same; try done; by rewrite Hp.
Qed.

Lemma drain_section_inv w : queue_inv w → pc w = AtDrainData → queue_inv (drain_section w).
Proof.
  intros H Hp. unfold drain_section, drainTo. destruct (isOnline w); [|eapply queue_inv_same; try done; by rewrite Hp].
  pose proof (qi_pc _ H) as Hpc. apply plain_pc in Hpc as [Eb Ee]; [|by rewrite Hp].
  destruct H. case_decide; split; try done; simpl; by rewrite qi_data0, Eb, app_nil_r.
Qed.

Lemma noControl_spec w :
  noControl w = true ↔ controlBacklog w = [] ∧ m_queue (m_controlQueue w) = [].
Proof. unfold noControl, queue_empty. by rewrite andb_true_iff, !bool_decide_eq_true. Qed.

(** With no control waiting, all of it is dealt with. *)
Lemma noControl_done w : queue_inv w → noControl w = true → ctls (done w) = o_control (obs w).
Proof. intros H [E1 E2]%noControl_spec. by rewrite (qi_control _ H), E1, E2, app_nil_r. Qed.

Lemma noControl_inflight w : queue_inv w → noControl w = true → inflight w.
Proof. intros H Hn i x Hx _. rewrite (noControl_done w H Hn). by eapply qi_stamps. Qed.

Lemma check_section_inv w : queue_inv w → pc w = AtCheckControl → queue_inv (check_section w).
Proof.
  intros H Hp. pose proof (qi_pc _ H) as Hpc. unfold pc_inv in Hpc. rewrite Hp in Hpc.
  unfold check_section. destruct (_ && _) eqn:E.
  - apply andb_true_iff in E as [E1%bool_decide_eq_true E2].
    pose proof (noControl_inflight w H E2). by destruct H; split.
  - destruct (trimBacklog_spec DATA_BACKLOG_LIMIT dataGone (dataBacklog w ++ batch w) w) as (n & ->).
    set (t := length _ - _). destruct H.
    unfold dataGone.
    split; unfold after, pc_inv, handled, done in *; simpl; autorewrite with done;
      rewrite ?ctls_datas, ?datas_datas, ?encs_datas, ?app_nil_r; try done.
    + by rewrite <-!app_assoc, (app_assoc (take t _)), take_drop, <-app_assoc.
    + apply ordered_dones; [done|]. intros m. apply no_data_lost.
    + eapply counts_le_mono; [done|]. unfold counts_le. simpl. rewrite length_app. lia.
Qed.

(** The message at the front of what is in hand goes out. *)
Lemma inflight_front w m rest :
  queue_inv w → inflight w → dataBacklog w ++ batch w = m :: rest →
  ∃ n, o_data (obs w) !! length (datas (done w)) = Some (m, n) ∧ n ≤ length (ctls (done w)).
Proof.
  intros H Hi E. pose proof (qi_data _ H) as Hd. rewrite (app_assoc (dataBacklog w)), E in Hd.
  assert ((o_data (obs w)).*1 !! length (datas (done w)) = Some m) as Hm.
  { rewrite Hd, lookup_app_r, Nat.sub_diag by lia. done. }
  rewrite list_lookup_fmap in Hm. destruct (o_data (obs w) !! _) as [[m' n]|] eqn:Ex; simplify_eq/=.
  exists n. split; [done|]. apply (Hi _ _ Ex). rewrite E. simpl. lia.
Qed.

Lemma send_batch_section_inv w : queue_inv w → pc w = AtSendBatch → queue_inv (send_batch_section w).
Proof.
  intros H Hp. pose proof (qi_pc _ H) as Hpc. unfold pc_inv in Hpc. rewrite Hp in Hpc.
  destruct Hpc as (He & Hdb & Hi). unfold send_batch_section. destruct (batch w) as [|m rest] eqn:Eb.
  - by destruct H; split.
  - destruct (sendOne_spec w (send_envelope (socket w) m) (DoneData m)) as (n & ->).
    destruct (inflight_front w m rest H Hi) as (c & Hc & Hcl); [by rewrite Hdb, Eb|]. destruct H.
    split; unfold after, pc_inv, handled, inflight, done in *; simpl; autorewrite with done; simpl;
      rewrite ?app_nil_r; try done.
    + rewrite qi_data0, Hdb, Eb. by rewrite <-!app_assoc.
    + apply ordered_done; [done|]. intros m' [= <- _]. by exists c.
    + rewrite Hp. split_and!; [done..|]. intros i x Hx Hlt. apply (Hi i x Hx).
      rewrite Hdb, Eb in *. rewrite length_app in Hlt. simpl in *. lia.
    + eapply counts_le_mono; [done|]. unfold counts_le. simpl. rewrite length_app. lia.
Qed.

Lemma backlog_section_inv w : queue_inv w → pc w = AtBacklog → queue_inv (backlog_section w).
Proof.
  intros H Hp. pose proof (qi_pc _ H) as Hpc. apply plain_pc in Hpc as [Eb Ee]; [|by rewrite Hp].
  unfold backlog_section. destruct (_ && _) eqn:E; [|eapply queue_inv_same; try done; by rewrite Hp].
  apply andb_true_iff in E as [_ E2]. pose proof (noControl_inflight w H E2). by destruct H; split.
Qed.

Lemma send_backlog_section_inv w :
  queue_inv w → pc w = AtSendBacklog → queue_inv (send_backlog_section w).
Proof.
  intros H Hp. pose proof (qi_pc _ H) as Hpc. unfold pc_inv in Hpc. rewrite Hp in Hpc.
  destruct Hpc as (Hb & He & Hi). unfold send_backlog_section. destruct (dataBacklog w) as [|m rest] eqn:Ed.
  - by destruct H; split.
  - destruct (sendOne_spec w (send_envelope (socket w) m) (DoneData m)) as (n & ->).
    destruct (inflight_front w m rest H Hi) as (c & Hc & Hcl); [by rewrite Hb, Ed, app_nil_r|]. destruct H.
    split; unfold after, pc_inv, handled, inflight, done in *; simpl; autorewrite with done; simpl;
      rewrite ?app_nil_r; try done.
    + rewrite qi_data0, Ed. by rewrite <-!app_assoc.
    + apply ordered_done; [done|]. intros m' [= <- _]. by exists c.
    + rewrite Hp. split_and!; [done..|]. intros i x Hx Hlt. apply (Hi i x Hx).
      rewrite Hb, Ed in *. rewrite !length_app in *. simpl in *. lia.
    + eapply counts_le_mono; [done|]. unfold counts_le. simpl. rewrite length_app. lia.
Qed.

Lemma encoded_check_section_inv w :
  queue_inv w → pc w = AtEncodedCheck → queue_inv (encoded_check_section w).
Proof.
  intros H Hp. unfold encoded_check_section.
  destruct (_ && _); eapply queue_inv_same; try done; by rewrite Hp.
Qed.

Lemma encoded_drain_section_inv w :
  queue_inv w → pc w = AtEncodedDrain → queue_inv (encoded_drain_section w).
Proof.
  intros H Hp. pose proof (qi_pc _ H) as Hpc. apply plain_pc in Hpc as [Eb Ee]; [|by rewrite Hp].
  destruct H. split; try done. simpl. by rewrite qi_encoded0, Ee, app_nil_r.
Qed.

Lemma send_encoded_section_inv w :
  queue_inv w → pc w = AtSendEncoded → queue_inv (send_encoded_section w).
Proof.
  intros H Hp. pose proof (qi_pc _ H) as Hpc. unfold pc_inv in Hpc. rewrite Hp in Hpc.
  unfold send_encoded_section. destruct (encodedBatch w) as [|m rest] eqn:Ee.
  - by destruct H; split.
  - destruct (sendOne_spec w (send_encoded (socket w) m) (DoneEncoded m)) as (n & ->). destruct H.
    split; unfold after, pc_inv, handled, done in *; simpl; autorewrite with done; simpl;
      rewrite ?app_nil_r; try done.
    + rewrite qi_encoded0, Ee. by rewrite <-!app_assoc.
    + by apply ordered_done.
    + by rewrite Hp.
    + eapply counts_le_mono; [done|]. unfold counts_le. simpl. rewrite length_app. lia.
Qed.

Lemma sync_control_section_inv w :
  queue_inv w → pc w = AtSyncControl → queue_inv (sync_control_section w).
Proof.
  intros H Hp. pose proof (qi_pc _ H) as Hpc. apply plain_pc in Hpc as [Eb Ee]; [|by rewrite Hp].
  unfold sync_control_section. destruct (_ && _) eqn:E; [|eapply queue_inv_same; try done; by rewrite Hp].
  apply andb_true_iff in E as [[_ Ed%bool_decide_eq_true]%andb_true_iff En].
  pose proof (noControl_done w H En) as Hc. destruct H. split; try done.
  unfold pc_inv, done in *. simpl. rewrite Hc. done.
Qed.

Lemma queue_empty_spec {T} (q : SafeQueue T) : queue_empty q = true ↔ m_queue q = [].
Proof. unfold queue_empty. by rewrite bool_decide_eq_true. Qed.

Lemma sync_outbound_inv w p :
  queue_inv w → pc w = AtSyncOutbound →
  p = (if queue_empty (m_outboundQueue w) then AtSyncEncoded else AtTimers) → queue_inv (with_pc p w).
Proof.
  intros H Hp ->. pose proof (qi_pc _ H) as Hpc. unfold pc_inv in Hpc. rewrite Hp in Hpc.
  destruct Hpc as (Hb & He & Hd & Hm). destruct H, (queue_empty (m_outboundQueue w)) eqn:E; split; try done.
  apply queue_empty_spec in E. unfold pc_inv. simpl. split_and!; [done..|].
  rewrite Hd, Hb, E, !app_nil_r in qi_data0. apply (f_equal length) in qi_data0. rewrite length_fmap in qi_data0.
  destruct qi_mark0 as (_ & Hdm & _). simpl in Hdm. rewrite qi_data0 in Hdm. exact Hdm.
Qed.

Lemma sync_encoded_inv w p :
  queue_inv w → pc w = AtSyncEncoded →
  p = (if queue_empty (m_encodedQueue w) then AtSyncRequest else AtTimers) → queue_inv (with_pc p w).
Proof.
  intros H Hp ->. pose proof (qi_pc _ H) as Hpc. unfold pc_inv in Hpc. rewrite Hp in Hpc.
  destruct Hpc as (Hb & He & Hm1 & Hm2). destruct H, (queue_empty (m_encodedQueue w)) eqn:E; split; try done.
  apply queue_empty_spec in E. unfold pc_inv. simpl. split_and!; [done..|].
  rewrite He, E, !app_nil_r in qi_encoded0. apply (f_equal length) in qi_encoded0.
  destruct qi_mark0 as (_ & _ & Hdm). simpl in Hdm. rewrite qi_encoded0 in Hdm. done.
Qed.

Lemma sync_request_section_inv w :
  queue_inv w → pc w = AtSyncRequest → queue_inv (sync_request_section w).
Proof.
  intros H Hp. pose proof (qi_pc _ H) as Hpc. unfold pc_inv in Hpc. rewrite Hp in Hpc.
  unfold sync_request_section. destruct (m_syncRequested w), H, Hpc as (? & ? & ?); by split.
Qed.

(** A heartbeat goes out: an outcome that is no message's. *)
Lemma counts_le_heartbeat a ds ok :
  counts_le a (length (ctls ds), length (datas ds), length (encs ds)) →
  counts_le a (length (ctls (ds ++ [DoneHeartbeat ok])), length (datas (ds ++ [DoneHeartbeat ok])),
    length (encs (ds ++ [DoneHeartbeat ok]))).
Proof. autorewrite with done. simpl. by rewrite !app_nil_r. Qed.

Lemma sync_send_section_inv now w :
  queue_inv w → pc w = AtSyncSend → queue_inv (sync_send_section now w).
Proof.
  intros H Hp. pose proof (qi_pc _ H) as Hpc. unfold pc_inv in Hpc. rewrite Hp in Hpc.
  destruct Hpc as (Hb & He & Hm). unfold sync_send_section.
  destruct (sendHeartbeat_spec w) as (ok & s & ->). destruct H.
  split; unfold after, pc_inv, handled, done in *; simpl; try apply counts_le_heartbeat; try done.
  - autorewrite with done. simpl. by rewrite app_nil_r.
  - autorewrite with done. simpl. by rewrite app_nil_r.
  - autorewrite with done. simpl. by rewrite app_nil_r.
  - by apply ordered_done.
  - split_and!; [done..|]. by apply counts_le_heartbeat.
Qed.

Lemma sync_target_section_inv w :
  queue_inv w → pc w = AtSyncTarget → queue_inv (sync_target_section w).
Proof.
  intros H Hp. pose proof (qi_pc _ H) as Hpc. unfold pc_inv in Hpc. rewrite Hp in Hpc.
  destruct H, Hpc as (? & ? & ?). by split.
Qed.

Lemma timers_section_inv now w : queue_inv w → pc w = AtTimers → queue_inv (timers_section now w).
Proof.
  intros H Hp. pose proof (qi_pc _ H) as Hpc. apply plain_pc in Hpc as [Eb Ee]; [|by rewrite Hp].
  unfold timers_section, notifyStatus. destruct (sendHeartbeat_spec w) as (ok & s & ->).
  repeat case_decide;
    first [ eapply (queue_inv_leave w _ [DoneHeartbeat ok]); try done; set_solver
          | eapply queue_inv_same; try done; by rewrite Hp ].
Qed.

(** Accepting a message at the end of a queue. *)
Lemma inflight_old w x n :
  queue_inv w → inflight w →
  ∀ i y, (o_data (obs w) ++ [(x, n)]) !! i = Some y →
    i < length (datas (done w)) + length (dataBacklog w ++ batch w) → y.2 ≤ length (ctls (done w)).
Proof.
  intros H Hi i y Hy Hlt. apply (Hi i y); [|done]. pose proof (f_equal length (qi_data _ H)) as Hl.
  rewrite length_fmap, !length_app in Hl. rewrite length_app in Hlt.
  rewrite lookup_app_l in Hy by lia. done.
Qed.

Lemma writeMessage_inv m w : queue_inv w → queue_inv (zmq_writeMessage m w).2.
Proof.
  intros H. unfold zmq_writeMessage. rewrite push_timed_spec. destruct (_ && _); [|by eapply queue_inv_ext].
  pose proof (inflight_old w m (length (o_control (obs w))) H) as Hold.
  destruct H; split; unfold pc_inv, inflight, handled, accepted, done in *; simpl in *; try done.
  - by rewrite fmap_app, qi_data0, <-!app_assoc.
  - intros i x [Hx|[_ Hx]]%lookup_app_Some; [by eapply qi_stamps0|].
    apply list_lookup_singleton_Some in Hx as [_ <-]. done.
  - by apply ordered_more.
  - destruct (pc w); try done; naive_solver.
  - unfold counts_le in *. simpl in *. rewrite length_app. lia.
Qed.

Lemma writeControlMessage_inv m w : queue_inv w → queue_inv (zmq_writeControlMessage m w).2.
Proof.
  intros H. unfold zmq_writeControlMessage. rewrite push_timed_spec. destruct (_ && _); [|by eapply queue_inv_ext].
  destruct H; split; unfold pc_inv, inflight, handled, accepted, done in *; simpl in *; try done.
  - by rewrite qi_control0, <-!app_assoc.
  - intros i x Hx. rewrite length_app. apply qi_stamps0 in Hx. lia.
  - unfold counts_le in *. simpl in *. rewrite length_app. lia.
Qed.

Lemma writeEncoded_inv m w : queue_inv w → queue_inv (zmq_writeEncoded m w).2.
Proof.
  intros H. unfold zmq_writeEncoded. rewrite push_timed_spec. destruct (_ && _); [|by eapply queue_inv_ext].
  destruct H; split; unfold pc_inv, inflight, handled, accepted, done in *; simpl in *; try done.
  - by rewrite qi_encoded0, <-!app_assoc.
  - unfold counts_le in *. simpl in *. rewrite length_app. lia.
Qed.

Lemma loop_setup_inv s now w : queue_inv w → pc w = NotStarted → queue_inv (loop_setup s now w).
Proof.
  intros H Hp. pose proof (qi_pc _ H) as Hpc. unfold pc_inv in Hpc. rewrite Hp in Hpc.
  destruct Hpc as (Hb & He & Hc & Hd). unfold loop_setup, send_key. simpl.
  destruct (send_envelope s _) as [ok s'].
  eapply (queue_inv_leave w _ [DoneConnect ok]); try done; simpl; [by rewrite Hc|set_solver].
Qed.

Lemma loop_step_inv readable now w w' :
  queue_inv w → loop_step readable now w = Some w' → queue_inv w'.
Proof.
  intros H. unfold loop_step. destruct (pc w) eqn:Hp; intros; simplify_eq; try done.
  - destruct (m_running w); [by apply receive_section_inv|by apply shutdown_section_inv].
  - by apply dispatch_section_inv.
  - by apply control_section_inv.
  - by apply drain_section_inv.
  - by apply check_section_inv.
  - by apply send_batch_section_inv.
  - by apply backlog_section_inv.
  - by apply send_backlog_section_inv.
  - by apply encoded_check_section_inv.
  - by apply encoded_drain_section_inv.
  - by apply send_encoded_section_inv.
  - by apply sync_control_section_inv.
  - by apply sync_outbound_inv.
  - by apply sync_encoded_inv.
  - by apply sync_request_section_inv.
  - by apply sync_send_section_inv.
  - by apply sync_target_section_inv.
  - by apply timers_section_inv.
Qed.

Lemma wstep_queue_inv e w w' : queue_inv w → wstep e w = Some w' → queue_inv w'.
Proof.
  intros H. destruct e; simpl; intros E; simplify_eq.
  - by apply writeMessage_inv.
  - by apply writeControlMessage_inv.
  - by apply writeEncoded_inv.
  - by eapply queue_inv_ext.
  - destruct (m_pInboundQueue w); simplify_eq. by eapply queue_inv_ext.
  - destruct (pc w) eqn:Hp; try done. destruct fresh as [s|]; [destruct (fresh_socket s)|]; simplify_eq.
    + apply loop_setup_inv; [|done]. by eapply queue_inv_ext.
    + pose proof (qi_pc _ H) as Hpc. unfold pc_inv in Hpc. rewrite Hp in Hpc.
      destruct H. by split.
  - by eapply queue_inv_ext.
  - destruct (pc w) eqn:Hp; simplify_eq. pose proof (qi_pc _ H) as Hpc. unfold pc_inv in Hpc. rewrite Hp in Hpc.
    destruct H. by split.
  - by eapply loop_step_inv.
  - destruct (syncing w); simplify_eq. unfold sync_call, answer. destruct (m_running w); by eapply queue_inv_ext.
  - destruct (syncing w); simplify_eq; unfold sync_after_target, sync_after_ack, answer;
      repeat case_decide; by eapply queue_inv_ext.
Qed.

Lemma wrun_queue_inv es w w' : queue_inv w → wrun es w = Some w' → queue_inv w'.
Proof.
  revert w; induction es as [|e es IH]; intros w H; simpl; [by intros [= <-]|].
  destruct (wstep e w) as [w1|] eqn:E; [|done]. apply IH. by eapply wstep_queue_inv.
Qed.

Lemma new_worker_queue_inv config q cb s r : queue_inv (new_zmq_worker config q cb s r).
Proof. split; unfold counts_le; simpl; try done. by intros []. Qed.
End accounting.

(** ** Bounds *)

Section bounds.
Context {S R : Type} `{!ZmqSender S} `{!ZmqReceiver R} {PB : ProtobufRuntime}.
Notation Worker := (@Worker S R).
Implicit Types w : Worker.

Ltac sent_one :=
  match goal with |- context [sendOne ?w ?x ?d] => destruct (sendOne_spec w x d) as (? & ->) end.

Lemma push_bounded {T} (v : T) q limit :
  length (m_queue q) ≤ limit ∧ m_maxSize q = limit →
  length (m_queue (push_timed v q).2) ≤ limit ∧ m_maxSize (push_timed v q).2 = limit.
Proof.
  intros [Hl Hm]. rewrite push_timed_spec. destruct (_ && _) eqn:E; [|done].
  apply andb_true_iff in E as [E%bool_decide_eq_true _]. simpl. rewrite length_app. simpl. lia.
Qed.

Lemma control_section_bounded w : bounded w → bounded (control_section w).
Proof.
  intros []. unfold control_section. rewrite take_control_eq.
  set (w1 := with_controlBacklog _ _).
  destruct (trimBacklog_spec CONTROL_BACKLOG_LIMIT controlGone (controlBacklog w1) w1) as (n & ->).
  match goal with |- context [flushControl ?bl ?x] =>
    destruct (flushControl_spec bl x eq_refl) as (k & s & -> & _) end.
  split; simpl; [|done| |done..].
  - rewrite !length_drop. lia.
  - split; [apply Nat.le_0_l|]. apply bd_control0.
Qed.

Lemma check_section_bounded w : bounded w → bounded (check_section w).
Proof.
  intros H. unfold check_section. destruct (_ && _); [by destruct H; split|].
  destruct (trimBacklog_spec DATA_BACKLOG_LIMIT dataGone (dataBacklog w ++ batch w) w) as (n & ->).
  destruct H. split; simpl; try done. rewrite length_drop. lia.
Qed.

Lemma shutdown_section_bounded w : bounded w → bounded (shutdown_section w).
Proof.
  intros []. unfold shutdown_section. rewrite take_control_eq. set (w1 := with_controlBacklog (_ ++ _) _).
  destruct (flushAttempts_spec 100 w1) as (k & s & ->). rewrite !notes_spec.
  split; simpl; try done; try apply Nat.le_0_l. split; [apply Nat.le_0_l|]. apply bd_control0.
Qed.

Lemma drained_bounded {T} (q : SafeQueue T) limit :
  length (m_queue q) ≤ limit ∧ m_maxSize q = limit →
  length (@nil T) ≤ limit ∧ m_maxSize (drainTo q).2 = limit.
Proof. intros [_ ?]. split; [apply Nat.le_0_l|done]. Qed.

Lemma loop_step_bounded readable now w w' :
  bounded w → loop_step readable now w = Some w' → bounded w'.
Proof.
  intros H. unfold loop_step. destruct (pc w) eqn:Hp; intros E; simplify_eq; try by destruct H; split.
  - destruct (m_running w); [|by apply shutdown_section_bounded].
    unfold receive_section, noteBrokerId, notifyStatus.
    destruct readable; [destruct (recv (incoming w)) as [[[env n]|] r]|]; repeat case_decide; simpl;
      try destruct (isOnline w); destruct H; by split.
  - unfold dispatch_section. case_decide; [|destruct (m_pInboundQueue w); [|destruct (m_messageCallback w)]];
      destruct H; by split.
  - by apply control_section_bounded.
  - unfold drain_section, drainTo. destruct (isOnline w); [|by destruct H; split].
    destruct H; case_decide; split; try done; by apply (drained_bounded (m_outboundQueue w)).
  - by apply check_section_bounded.
  - unfold send_batch_section. destruct (batch w); [by destruct H; split|].
    sent_one. by destruct H; split.
  - unfold send_backlog_section. destruct (dataBacklog w) eqn:E; [by destruct H; split|].
    sent_one. destruct H; split; try done. rewrite E in *. simpl in *. lia.
  - destruct H; split; try done. by apply (drained_bounded (m_encodedQueue w)).
  - unfold send_encoded_section. destruct (encodedBatch w); [by destruct H; split|].
    sent_one. by destruct H; split.
  - unfold sync_control_section. destruct (_ && _); by destruct H; split.
  - unfold sync_request_section. destruct (m_syncRequested w); by destruct H; split.
  - unfold sync_send_section. destruct (sendHeartbeat_spec w) as (ok & s & ->). by destruct H; split.
  - unfold timers_section, notifyStatus. destruct (sendHeartbeat_spec w) as (ok & s & ->).
    repeat case_decide; by destruct H; split.
Qed.

Lemma wstep_bounded e w w' : bounded w → wstep e w = Some w' → bounded w'.
Proof.
  intros H. destruct e; simpl; intros E; simplify_eq; try by destruct H; split.
  - pose proof (push_bounded m _ _ (bd_outbound _ H)). unfold zmq_writeMessage.
    destruct (push_timed _ _) as [[[] ?] ?]; by destruct H; split.
  - pose proof (push_bounded m _ _ (bd_control _ H)). unfold zmq_writeControlMessage.
    destruct (push_timed _ _) as [[[] ?] ?]; by destruct H; split.
  - pose proof (push_bounded m _ _ (bd_encoded _ H)). unfold zmq_writeEncoded. simpl.
    destruct (push_timed _ _) as [[[] ?] ?]; by destruct H; split.
  - destruct (m_pInboundQueue w); simplify_eq. by destruct H; split.
  - destruct (pc w); try done. destruct fresh as [s|]; [destruct (fresh_socket s)|]; simplify_eq;
      [|by destruct H; split].
    unfold zmq_start, zmq_run, loop_setup, send_key. simpl. destruct (send_envelope s _) as [ok s'].
    destruct H; split; simpl; done || apply Nat.le_0_l.
  - destruct (pc w); simplify_eq. by destruct H; split.
  - by eapply loop_step_bounded.
  - destruct (syncing w); simplify_eq. unfold sync_call, answer. destruct (m_running w); by destruct H; split.
  - destruct (syncing w); simplify_eq; unfold sync_after_target, sync_after_ack, answer;
      repeat case_decide; by destruct H; split.
Qed.

Lemma wrun_bounded es w w' : bounded w → wrun es w = Some w' → bounded w'.
Proof.
  revert w; induction es as [|e es IH]; intros w H; simpl; [by intros [= <-]|].
  destruct (wstep e w) as [w1|] eqn:E; [|done]. apply IH. by eapply wstep_bounded.
Qed.

Lemma new_worker_bounded config q cb (s : S) (r : R) : bounded (new_zmq_worker config q cb s r).
Proof. split; simpl; try split; done || apply Nat.le_0_l. Qed.
End bounds.

(** ** What is on the wire *)

Section wire.
Context {S R : Type} `{!ZmqSender S} `{!ZmqSenderLaws S} `{!ZmqReceiver R} {PB : ProtobufRuntime}.
Notation Worker := (@Worker S R).
Implicit Types w : Worker.

(** The group an outcome left on the wire. *)
Definition wire_of (c : ConnectionConfig) (d : Done) : list (list string) :=
  match d with
  | DoneConnect true => [frames None (encodeHeader (makeControlHeader Keys.CONNECT (cfg_clientId c) EmptyString)) EmptyString]
  | DoneHeartbeat true =>
      [frames None (encodeHeader (makeControlHeader Keys.HEARTBEAT (cfg_clientId c) EmptyString)) EmptyString]
  | DoneControl m true | DoneData m true => [frames None (encodeHeader (env_header m)) (env_payload m)]
  | DoneEncoded m true => [frames None (headerBytes m) (wire_payload m)]
  | _ => []
  end.

(** The outcomes of the current session. *)
Definition session w : list Done := drop (o_base (obs w)) (done w).

Record sock_ok w : Prop := {
  so_open : sock_open (socket w) = [];
  so_base : o_base (obs w) ≤ length (done w);
  so_wire : sock_wire (socket w) = concat (wire_of (m_config w) <$> session w)
}.

Lemma sock_ok_ext w w' :
  sock_ok w → socket w' = socket w → o_base (obs w') = o_base (obs w) → done w' = done w →
  m_config w' = m_config w → sock_ok w'.
Proof. intros [] E1 E2 E3 E4. split; unfold session in *; by rewrite ?E1, ?E2, ?E3, ?E4. Qed.

Lemma sock_ok_done w w' s d :
  sock_ok w → sock_open s = [] → sock_wire s = sock_wire (socket w) ++ wire_of (m_config w) d →
  socket w' = s → o_base (obs w') = o_base (obs w) → done w' = done w ++ [d] →
  m_config w' = m_config w → sock_ok w'.
Proof.
  intros [] Ho Hw E1 E2 E3 E4. split; unfold session in *; rewrite ?E1, ?E2, ?E3, ?E4; [done| |].
  - rewrite length_app. lia.
  - by rewrite Hw, so_wire0, drop_app_le, fmap_app, concat_app by lia; simpl; rewrite app_nil_r.
Qed.

Lemma send_envelope_wire s m ok s' :
  sock_open s = [] → send_envelope s m = (ok, s') →
  sock_open s' = [] ∧
  sock_wire s' = sock_wire s ++ (if ok then [frames None (encodeHeader (env_header m)) (env_payload m)] else []).
Proof. intros Ho E. by apply sendFrames_spec. Qed.

Lemma sock_ok_flush bl w : sock_ok w → sock_ok (flushControl bl w).2.
Proof.
  revert w; induction bl as [|m bl IH]; intros w H; simpl; [done|].
  destruct (send_envelope (socket w) m) as [ok s] eqn:E.
  apply send_envelope_wire in E as [Ho Hw]; [|apply H]. destruct ok.
  - apply IH. by apply (sock_ok_done w _ s (DoneControl m true)).
  - destruct H. split; simpl; [done|done|]. by rewrite Hw, app_nil_r.
Qed.

Lemma sock_ok_lost w w' ds :
  sock_ok w → socket w' = socket w → o_base (obs w') = o_base (obs w) → done w' = done w ++ ds →
  m_config w' = m_config w → (∀ d, d ∈ ds → wire_of (m_config w) d = []) → sock_ok w'.
Proof.
  intros [] E1 E2 E3 E4 Hds. split; unfold session in *; rewrite ?E1, ?E2, ?E3, ?E4; [done| |].
  - rewrite length_app. lia.
  - rewrite so_wire0, drop_app_le, fmap_app, concat_app by lia.
    replace (concat (wire_of (m_config w) <$> ds)) with (@nil (list string)); [by rewrite app_nil_r|].
    clear -Hds. induction ds as [|d ds IH]; [done|]. simpl. rewrite Hds by left. apply IH.
    intros d' ?. apply Hds. by right.
Qed.

Lemma sock_ok_trim limit lost bl w kept w' :
  (∀ m, wire_of (m_config w) (lost m) = []) →
  sock_ok w → trimBacklog limit lost bl w = (kept, w') → sock_ok w'.
Proof.
  intros Hl H. destruct (trimBacklog_spec limit lost bl w) as (n & ->). intros [= <- <-].
  eapply (sock_ok_lost w _ (lost <$> _)); try done. intros d (m & -> & _)%list_elem_of_fmap. apply Hl.
Qed.

Lemma sock_ok_attempts n w : sock_ok w → sock_ok (flushAttempts n w).
Proof.
  revert w; induction n as [|n IH]; intros w H; simpl; [done|].
  pose proof (sock_ok_flush (controlBacklog w) w H) as Hf.
  destruct (flushControl (controlBacklog w) w) as [[] w']; [done|by apply IH].
Qed.

Lemma sock_ok_notes (lost : Envelope → Done) ms w :
  (∀ m, wire_of (m_config w) (lost m) = []) → sock_ok w → sock_ok (foldl (λ w m, note (lost m) w) w ms).
Proof.
  intros Hl H. rewrite notes_spec. eapply (sock_ok_lost w _ (lost <$> ms)); try done.
  intros d (m & -> & _)%list_elem_of_fmap. apply Hl.
Qed.

Lemma sock_ok_key key w :
  sock_ok w →
  sock_open (send_key key w).2.(socket) = [] ∧
  sock_wire (send_key key w).2.(socket) = sock_wire (socket w) ++
    (if (send_key key w).1
     then [frames None (encodeHeader (makeControlHeader key (cfg_clientId (m_config w)) EmptyString)) EmptyString]
     else []).
Proof.
  intros H. unfold send_key. destruct (send_envelope (socket w) _) as [ok s] eqn:E.
  apply send_envelope_wire in E; [done|apply H].
Qed.

Lemma sock_ok_heartbeat w : sock_ok w → sock_ok (sendHeartbeat w).
Proof.
  intros H. unfold sendHeartbeat. pose proof (sock_ok_key Keys.HEARTBEAT w H) as [Ho Hw].
  unfold send_key in *. destruct (send_envelope (socket w) _) as [ok s] eqn:E. simpl in *.
  by apply (sock_ok_done w _ s (DoneHeartbeat ok)).
Qed.

Lemma sock_ok_sendOne w (sent : bool * S) d g :
  sock_ok w → sock_open sent.2 = [] →
  sock_wire sent.2 = sock_wire (socket w) ++ (if sent.1 then [g] else []) →
  (∀ b : bool, wire_of (m_config w) (d b) = if b then [g] else []) →
  sock_ok (sendOne w sent d).
Proof.
  intros H Ho Hw Hd. destruct (sendOne_spec w sent d) as (n & ->).
  apply (sock_ok_done w _ sent.2 (d sent.1)); try done. by rewrite Hd.
Qed.

Lemma sock_ok_data w m : sock_ok w → sock_ok (sendOne w (send_envelope (socket w) m) (DoneData m)).
Proof.
  intros H. destruct (send_envelope (socket w) m) as [ok s] eqn:E.
  apply send_envelope_wire in E as [Ho Hw]; [|apply H].
  by apply (sock_ok_sendOne w (ok, s) _ (frames None (encodeHeader (env_header m)) (env_payload m))).
Qed.

Lemma sock_ok_encoded w m : sock_ok w → sock_ok (sendOne w (send_encoded (socket w) m) (DoneEncoded m)).
Proof.
  intros H. unfold send_encoded. destruct (sendFrames (socket w) None _ _) as [ok s] eqn:E.
  apply sendFrames_spec in E as [Ho Hw]; [|apply H].
  by apply (sock_ok_sendOne w (ok, s) _ (frames None (headerBytes m) (wire_payload m))).
Qed.

Lemma control_section_sock w : sock_ok w → sock_ok (control_section w).
Proof.
  intros H. unfold control_section. destruct (trimBacklog _ _ _ _) as [kept w'] eqn:E.
  apply sock_ok_trim in E; [|done|by apply (sock_ok_ext w)].
  apply (sock_ok_ext (flushControl kept (with_controlBacklog kept w')).2); [|done..].
  apply sock_ok_flush. by apply (sock_ok_ext w').
Qed.

Lemma check_section_sock w : sock_ok w → sock_ok (check_section w).
Proof.
  intros H. unfold check_section. destruct (_ && _); [by apply (sock_ok_ext w)|].
  destruct (trimBacklog _ _ _ _) as [kept w'] eqn:E.
  apply sock_ok_trim in E; [|done|done]. by apply (sock_ok_ext w').
Qed.

Lemma shutdown_section_sock w : sock_ok w → sock_ok (shutdown_section w).
Proof.
  intros H. unfold shutdown_section.
  match goal with |- sock_ok (with_pc _ (with_controlBacklog _ (with_dataBacklog _ ?x))) =>
    apply (sock_ok_ext x); [|done..] end.
  apply sock_ok_notes; [done|]. apply sock_ok_notes; [done|].
  apply sock_ok_attempts. by apply (sock_ok_ext w).
Qed.

Lemma timers_section_sock now w : sock_ok w → sock_ok (timers_section now w).
Proof.
  intros H. pose proof (sock_ok_heartbeat w H) as Hh. unfold timers_section, notifyStatus.
  repeat case_decide; first [by apply (sock_ok_ext w)|by apply (sock_ok_ext (sendHeartbeat w))].
Qed.

Lemma loop_step_sock_ok readable now w w' :
  sock_ok w → loop_step readable now w = Some w' → sock_ok w'.
Proof.
  intros H. unfold loop_step. destruct (pc w); intros E; simplify_eq; try by apply (sock_ok_ext w).
  - destruct (m_running w); [|by apply shutdown_section_sock].
    unfold receive_section, noteBrokerId, notifyStatus.
    destruct readable; [destruct (recv (incoming w)) as [[[env n]|] r]|]; repeat case_decide; simpl;
      try destruct (isOnline w); by apply (sock_ok_ext w).
  - unfold dispatch_section. case_decide; [|destruct (m_pInboundQueue w); [|destruct (m_messageCallback w)]];
      by apply (sock_ok_ext w).
  - by apply control_section_sock.
  - unfold drain_section, drainTo. destruct (isOnline w); by apply (sock_ok_ext w).
  - by apply check_section_sock.
  - unfold send_batch_section. destruct (batch w) as [|m rest]; [by apply (sock_ok_ext w)|].
    eapply sock_ok_ext; [by apply (sock_ok_data w m)|done..].
  - unfold send_backlog_section. destruct (dataBacklog w) as [|m rest]; [by apply (sock_ok_ext w)|].
    eapply sock_ok_ext; [by apply (sock_ok_data w m)|done..].
  - unfold send_encoded_section. destruct (encodedBatch w) as [|m rest]; [by apply (sock_ok_ext w)|].
    eapply sock_ok_ext; [by apply (sock_ok_encoded w m)|done..].
  - unfold sync_control_section. destruct (_ && _); by apply (sock_ok_ext w).
  - unfold sync_request_section. destruct (m_syncRequested w); by apply (sock_ok_ext w).
  - eapply sock_ok_ext; [by apply (sock_ok_heartbeat w)|done..].
  - by apply timers_section_sock.
Qed.

Lemma loop_setup_sock s now w : fresh_socket s = true → sock_ok (loop_setup s now w).
Proof.
  intros [Ho Hw]%bool_decide_eq_true. unfold loop_setup.
  set (w1 := with_obs _ _). assert (sock_ok w1) as H.
  { split; simpl; [done|done|]. unfold session, done. simpl. by rewrite drop_all. }
  pose proof (sock_ok_key Keys.CONNECT w1 H) as [Ho' Hw'].
  unfold send_key in *. destruct (send_envelope (socket w1) _) as [ok s'].
  by apply (sock_ok_done w1 _ s' (DoneConnect ok)).
Qed.

Lemma wstep_sock_ok e w w' : sock_ok w → wstep e w = Some w' → sock_ok w'.
Proof.
  intros H. destruct e; simpl; intros E; simplify_eq; try by apply (sock_ok_ext w).
  - unfold zmq_writeMessage. destruct (push_timed _ _) as [[[] ?] ?]; by apply (sock_ok_ext w).
  - unfold zmq_writeControlMessage. destruct (push_timed _ _) as [[[] ?] ?]; by apply (sock_ok_ext w).
  - unfold zmq_writeEncoded. simpl. destruct (push_timed _ _) as [[[] ?] ?]; by apply (sock_ok_ext w).
  - destruct (m_pInboundQueue w); simplify_eq. by apply (sock_ok_ext w).
  - destruct (pc w); try done. destruct fresh as [s|]; [destruct (fresh_socket s) eqn:Ef|]; simplify_eq.
    + by apply loop_setup_sock.
    + by apply (sock_ok_ext w).
  - destruct (pc w); simplify_eq. by apply (sock_ok_ext w).
  - by eapply loop_step_sock_ok.
  - destruct (syncing w); simplify_eq. unfold sync_call, answer. destruct (m_running w); by apply (sock_ok_ext w).
  - destruct (syncing w); simplify_eq; unfold sync_after_target, sync_after_ack, answer;
      repeat case_decide; by apply (sock_ok_ext w).
Qed.

Lemma wrun_sock_ok es w w' : sock_ok w → wrun es w = Some w' → sock_ok w'.
Proof.
  revert w; induction es as [|e es IH]; intros w H; simpl; [by intros [= <-]|].
  destruct (wstep e w) as [w1|] eqn:E; [|done]. apply IH. by eapply wstep_sock_ok.
Qed.

Lemma new_worker_sock_ok config q cb (s : S) (r : R) :
  fresh_socket s = true → sock_ok (new_zmq_worker config q cb s r).
Proof. intros [Ho Hw]%bool_decide_eq_true. by split. Qed.
End wire.
