(* ===== verification/ZmqWorkerSpec.v ===== *)
(** * The connection worker is correct

    The ZMQ worker as an instance of the worker interface the broker is verified
    against, and the properties of [common/zmqworker.cpp]: every message is accounted
    for, control goes out ahead of the data queued behind it, what a [sync] that
    answers true stands for, and where that falls short. *)

From Stdlib Require Import ZArith Lia.
From S2P Require Import Prelude.
From S2P Require Import MessageKeys.
From S2P Require Import Config.
From S2P Require Import SafeQueue.
From S2P Require Import Wire.
From S2P Require Import Worker.
From S2P Require Import ZmqWorker.
From S2P Require Import ZmqWorkerInv.

(** ** The worker interface *)

Section interface.
Context {S R : Type} `{!ZmqSender S} `{!ZmqReceiver R} {PB : ProtobufRuntime}.
Variables (fresh : S) (silent : R) (clock : Z).

(** The worker as the broker's peer links use it: no inbound queue, a callback. *)
Definition zmq_worker : WorkerInterface (@ZmqWorker.Worker S R) := {|
  new_worker := λ config, new_zmq_worker config None true fresh silent;
  worker_start := λ w, match pc w with NotStarted => zmq_start (Some fresh) clock w | _ => w end;
  worker_stop := zmq_stop;
  writeMessage := zmq_writeMessage;
  writeControlMessage := zmq_writeControlMessage;
  writeEncoded := zmq_writeEncoded;
  control_written := λ w, o_control (obs w);
  control_refused := λ w, o_refused (obs w);
  data_written := λ w, (o_data (obs w)).*1;
  encoded_written := λ w, o_encoded (obs w)
|}.

Lemma zmq_worker_laws : @WorkerLaws _ zmq_worker.
Proof.
  split; simpl.
  - done.
  - intros w. destruct (pc w); try done. unfold zmq_start, zmq_run, loop_setup, send_key. simpl.
    by destruct (send_envelope _ _).
  - intros m w ok w'. unfold zmq_writeControlMessage. destruct (push_timed _ _) as [[[] ?] ?];
      intros [= <- <-]; simpl; by rewrite ?app_nil_r.
  - intros m w ok w'. unfold zmq_writeEncoded. simpl. destruct (push_timed _ _) as [[[] ?] ?];
      intros [= <- <-]; simpl; by rewrite ?app_nil_r.
  - intros m w ok w'. unfold zmq_writeMessage. destruct (push_timed _ _) as [[[] ?] ?];
      intros [= <- <-]; simpl; by rewrite ?fmap_app, ?app_nil_r.
  - intros m w. unfold zmq_writeControlMessage. by destruct (push_timed _ _) as [[[] ?] ?].
Qed.
End interface.

(** ** Lemmas *)

Lemma heartbeatInterval_pos c : (0 < heartbeatInterval c)%Z.
Proof. unfold heartbeatInterval. case_decide; lia. Qed.

(** The first [n] of each kind accepted have been dealt with. *)
Definition flushed {S R} (n : Counts) (w : @ZmqWorker.Worker S R) : Prop :=
  take n.1.1 (o_control (obs w)) `prefix_of` ctls (done w) ∧
  take n.1.2 (o_data (obs w)).*1 `prefix_of` datas (done w) ∧
  take n.2 (o_encoded (obs w)) `prefix_of` encs (done w).

Lemma take_prefix {A} n (l h rest : list A) :
  l = h ++ rest → n ≤ length h → take n l `prefix_of` h.
Proof. intros -> Hn. rewrite take_app_le by done. exists (drop n h). by rewrite take_drop. Qed.

Lemma handled_flushed {S R} n (w : @ZmqWorker.Worker S R) :
  queue_inv w → counts_le n (handled w) → flushed n w.
Proof.
  intros [] (H1 & H2 & H3). simpl in *.
  split_and!; eapply take_prefix; eauto.
Qed.

Section properties.
Context {S R : Type} `{!ZmqSender S} `{!ZmqSenderLaws S} `{!ZmqReceiver R} {PB : ProtobufRuntime}.
Variables (config : ConnectionConfig) (q : option (SafeQueue Envelope)) (cb : bool) (fresh : S) (silent : R).


(** C10: Control goes out ahead of the data queued behind it.  In every interleaving,
    when a data message goes out it is the next one accepted, and every control
    message accepted before it has already been sent or given up: a request's
    subscription always precedes the request. *)
Theorem control_before_data (es : list WEvent) (w : @ZmqWorker.Worker S R) pre m post :
  wrun es (new_zmq_worker config q cb fresh silent) = Some w →
  done w = pre ++ DoneData m true :: post →
  ∃ n, o_data (obs w) !! length (datas pre) = Some (m, n) ∧
       take n (o_control (obs w)) `prefix_of` ctls pre.
Proof.
  intros Hr E. pose proof (wrun_queue_inv _ _ _ (new_worker_queue_inv config q cb fresh silent) Hr) as [].
  destruct (qi_ordered pre m post E) as (n & Hn & Hle). exists n. split; [done|].
  rewrite E in qi_control. autorewrite with done in qi_control. rewrite <-!app_assoc in qi_control.
  by eapply take_prefix.
Qed.

(** C23: What a sync heartbeat vouches for.  When the loop sends one, every message
    accepted before the loop began the queue checks ahead of it has been sent or given
    up; and a [sync] waiting for its ack that was called before those checks began has
    had everything accepted before the call sent or given up.  It then answers true
    only if the ack has come. *)
Theorem sync_flushed (es : list WEvent) (w : @ZmqWorker.Worker S R) :
  wrun es (new_zmq_worker config q cb fresh silent) = Some w →
  (pc w = AtSyncSend → flushed (o_mark (obs w)) w) ∧
  (∀ target, syncing w = SyncWaitAck target →
    (counts_le (o_call (obs w)) (o_target (obs w)) → flushed (o_call (obs w)) w) ∧
    (wstep EvSyncWake w = Some (answer true w) → (target ≤ m_acksReceived w)%Z)).
Proof.
  intros Hr. pose proof (wrun_queue_inv _ _ _ (new_worker_queue_inv config q cb fresh silent) Hr) as H.
  split.
  - intros Hp. apply handled_flushed; [done|]. pose proof (qi_pc _ H) as Hpc. unfold pc_inv in Hpc.
    rewrite Hp in Hpc. apply Hpc.
  - intros target Hs. split.
    + intros Hc. apply handled_flushed; [done|]. eapply counts_le_mono; [done|]. apply H.
    + simpl. rewrite Hs. unfold sync_after_ack, answer. intros [= E]. apply app_inj_2 in E as [_ [= E]]; [|done].
      by apply bool_decide_eq_true in E.
Qed.
End properties.

Section overtaken.
Context {S R : Type} `{!ZmqSender S} `{!ZmqReceiver R} {PB : ProtobufRuntime}.

Implicit Types w : @ZmqWorker.Worker S R.
Local Arguments shutdown_section : simpl never.
Local Arguments receive_section : simpl never.
Local Arguments dispatch_section : simpl never.

(** Right after a heartbeat the timers at most report the link offline. *)
Lemma timers_quiet now w :
  lastHeartbeat w = now →
  ∃ online st, timers_section now w = with_pc AtPoll (with_isOnline online (with_obs (obs_status st (obs w)) w)).
Proof.
  intros <-. pose proof (heartbeatInterval_pos (m_config w)). unfold timers_section.
  rewrite (decide_False (P := (lastHeartbeat w - lastHeartbeat w > _)%Z)) by lia. case_decide.
  - by exists false, (o_status (obs w) ++ [false]).
  - exists (isOnline w), (o_status (obs w)). by destruct w as [????????????????????????? ? []].
Qed.

Lemma receive_message now w env n r :
  recv (incoming w) = (Some (env, n), r) →
  ∃ id st, receive_section true now w = with_pc AtDispatch (with_isOnline true (with_brokerId id
    (with_obs (obs_status st (obs w)) (with_lastRxTime now (with_inbound env (with_incoming r w)))))).
Proof.
  intros E. unfold receive_section. rewrite E. unfold noteBrokerId, notifyStatus.
  exists (if decide (handler_key (env_header env) = Keys.HEARTBEAT_ACK ∨ handler_key (env_header env) = Keys.RESET)
          then if decide (sender_id (env_header env) = EmptyString) then m_brokerId w else sender_id (env_header env)
          else m_brokerId w),
    (if isOnline w then o_status (obs w) else o_status (obs w) ++ [true]).
  destruct w as [?????????????????????? online ?? ? o]; destruct o. simpl.
  by repeat case_decide; destruct online.
Qed.

Lemma wrun_cons e es w w' : wstep e w = Some w' → wrun (e :: es) w = wrun es w'.
Proof. simpl. by intros ->. Qed.

(** The ack of the awaited heartbeat comes in before the loop gets to its queues. *)
Definition ack_arrives (r : R) (now : Z) : list (@WEvent S R) :=
  [EvNetwork r; EvLoop false now; EvLoop true now; EvLoop false now; EvSyncWake].

Lemma ack_counted w r now ack n r' target :
  pc w = AtTimers → m_running w = true → syncing w = SyncWaitAck target → lastHeartbeat w = now →
  recv r = (Some (ack, n), r') → handler_key (env_header ack) = Keys.HEARTBEAT_ACK →
  ∃ w', wrun (ack_arrives r now) w = Some w' ∧
    o_results (obs w') = o_results (obs w) ++ [bool_decide (target ≤ wrap 64 (m_acksReceived w + 1))%Z] ∧
    m_acksReceived w' = wrap 64 (m_acksReceived w + 1) ∧
    m_outboundQueue w' = m_outboundQueue w ∧ done w' = done w.
Proof.
  intros Hp Hrun Hs Hh Hrecv Hk. unfold ack_arrives.
  destruct (timers_quiet now (with_incoming r w) Hh) as (online & st & Et).
  rewrite (wrun_cons _ _ _ (with_incoming r w)) by done.
  erewrite wrun_cons by (simpl; unfold loop_step; simpl; by rewrite Hp, Et).
  set (w1 := with_pc AtPoll _).
  destruct (receive_message now w1 ack n r' Hrecv) as (id & st' & Er).
  rewrite (wrun_cons _ _ _ (receive_section true now w1)), Er.
  2: { simpl. unfold loop_step. simpl. by rewrite Hrun. }
  set (w2 := with_pc AtDispatch _).
  assert (dispatch_section w2 = with_pc AtControl (with_acksReceived (wrap 64 (m_acksReceived w + 1)) w2)) as Ed.
  { unfold dispatch_section. rewrite decide_True by exact Hk. reflexivity. }
  rewrite (wrun_cons _ _ _ (dispatch_section w2)), Ed by done.
  simpl. rewrite Hs. eexists. split; [reflexivity|]. split_and!; reflexivity.
Qed.

Lemma ack_answers w r now ack n r' target :
  pc w = AtTimers → m_running w = true → syncing w = SyncWaitAck target → lastHeartbeat w = now →
  (target ≤ wrap 64 (m_acksReceived w + 1))%Z →
  recv r = (Some (ack, n), r') → handler_key (env_header ack) = Keys.HEARTBEAT_ACK →
  ∃ w', wrun (ack_arrives r now) w = Some w' ∧ o_results (obs w') = o_results (obs w) ++ [true] ∧
    m_outboundQueue w' = m_outboundQueue w ∧ done w' = done w.
Proof.
  intros Hp Hrun Hs Hh Ht Hrecv Hk.
  destruct (ack_counted w r now ack n r' target Hp Hrun Hs Hh Hrecv Hk) as (w' & E & Hres & _ & Hq & Hd).
  exists w'. rewrite bool_decide_true in Hres by exact Ht. done.
Qed.

(** A write and a [sync] by one thread, while the loop is between its last queue check
    and taking the request. *)
Definition overtaking (d : Envelope) (r : R) (now : Z) : list (@WEvent S R) :=
  [EvWriteMessage d; EvSyncCall; EvLoop false now; EvLoop false now; EvLoop false now; EvSyncWake]
  ++ ack_arrives r now.

Lemma wrun_app es1 es2 w : wrun (es1 ++ es2) w = w' ← wrun es1 w; wrun es2 w'.
Proof.
  revert w; induction es1 as [|e es1 IH]; intros w; simpl; [done|]. destruct (wstep e w); [apply IH|done].
Qed.

(** What the argument follows of the worker's state. *)
Record View := mkView {
  v_pc : Pc; v_running : bool; v_syncing : SyncPc; v_requested : bool; v_target : Z;
  v_sent : Z; v_acks : Z; v_lastHeartbeat : Z; v_results : list bool;
  v_queue : list Envelope; v_done : list Done
}.

Definition view w : View :=
  mkView (pc w) (m_running w) (syncing w) (m_syncRequested w) (m_syncTarget w) (m_heartbeatsSent w)
    (m_acksReceived w) (lastHeartbeat w) (o_results (obs w)) (m_queue (m_outboundQueue w)) (done w).

Lemma view_write w d p run sp rq tg sent acks lh res q ds :
  view w = mkView p run sp rq tg sent acks lh res q ds →
  m_stop (m_outboundQueue w) = false → length q < m_maxSize (m_outboundQueue w) →
  ∃ w', wstep (EvWriteMessage d) w = Some w' ∧
    view w' = mkView p run sp rq tg sent acks lh res (q ++ [d]) ds.
Proof.
  intros [=] Hst Hroom. subst. eexists. split; [reflexivity|].
  unfold zmq_writeMessage. rewrite push_timed_spec, Hst, bool_decide_true by exact Hroom. reflexivity.
Qed.

Lemma view_call w p rq tg sent acks lh res q ds :
  view w = mkView p true SyncIdle rq tg sent acks lh res q ds →
  ∃ w', wstep EvSyncCall w = Some w' ∧
    view w' = mkView p true SyncWaitTarget true 0 sent acks lh res q ds.
Proof.
  intros [= ? Hrun Hs]. subst. unfold wstep, sync_call. rewrite Hs, Hrun. eexists. split; [reflexivity|].
  unfold view. simpl. by rewrite Hrun.
Qed.

Lemma view_request w now run sp tg sent acks lh res q ds :
  view w = mkView AtSyncRequest run sp true tg sent acks lh res q ds →
  ∃ w', wstep (EvLoop false now) w = Some w' ∧
    view w' = mkView AtSyncSend run sp false tg sent acks lh res q ds.
Proof.
  intros [= Hp ?? Hrq]. subst. unfold wstep, loop_step, sync_request_section. rewrite Hp, Hrq.
  eexists. split; reflexivity.
Qed.

Lemma view_send w now run sp rq tg sent acks lh res q ds :
  view w = mkView AtSyncSend run sp rq tg sent acks lh res q ds →
  ∃ w' ok, wstep (EvLoop false now) w = Some w' ∧
    view w' = mkView AtSyncTarget run sp rq tg (wrap 64 (sent + 1)) acks now res q (ds ++ [DoneHeartbeat ok]).
Proof.
  intros [= Hp]. subst. unfold wstep, loop_step, sync_send_section. rewrite Hp.
  destruct (sendHeartbeat_spec w) as (ok & s & ->). eexists _, ok. split; reflexivity.
Qed.

Lemma view_target w now run sp rq tg sent acks lh res q ds :
  view w = mkView AtSyncTarget run sp rq tg sent acks lh res q ds →
  ∃ w', wstep (EvLoop false now) w = Some w' ∧
    view w' = mkView AtTimers run sp rq sent sent acks lh res q ds.
Proof.
  intros [= Hp]. subst. unfold wstep, loop_step. rewrite Hp. eexists. split; reflexivity.
Qed.

Lemma view_wake w p run rq tg sent acks lh res q ds :
  view w = mkView p run SyncWaitTarget rq tg sent acks lh res q ds → tg ≠ 0%Z →
  ∃ w', wstep EvSyncWake w = Some w' ∧
    view w' = mkView p run (SyncWaitAck tg) rq tg sent acks lh res q ds.
Proof.
  intros [= ?? Hs] Ht. subst. unfold wstep, sync_after_target. rewrite Hs, decide_False by exact Ht.
  eexists. split; reflexivity.
Qed.

(** The first half: the request is taken and its heartbeat sent. *)
Lemma sync_request_taken w now rq tg sent acks lh res q ds :
  view w = mkView AtSyncRequest true SyncIdle rq tg sent acks lh res q ds →
  (0 ≤ sent < 2 ^ 64 - 1)%Z →
  ∃ w' ok, wrun [EvSyncCall; EvLoop false now; EvLoop false now; EvLoop false now; EvSyncWake] w = Some w' ∧
    view w' = mkView AtTimers true (SyncWaitAck (sent + 1)) false (sent + 1) (sent + 1) acks now res q
      (ds ++ [DoneHeartbeat ok]).
Proof.
  intros V1 Hhb.
  destruct (view_call w _ _ _ _ _ _ _ _ _ V1) as (w2 & E2 & V2).
  destruct (view_request w2 now _ _ _ _ _ _ _ _ _ V2) as (w3 & E3 & V3).
  destruct (view_send w3 now _ _ _ _ _ _ _ _ _ _ V3) as (w4 & ok & E4 & V4).
  destruct (view_target w4 now _ _ _ _ _ _ _ _ _ _ V4) as (w5 & E5 & V5).
  assert (wrap 64 (sent + 1) = sent + 1)%Z as Hw by (unfold wrap; apply Z.mod_small; lia).
  rewrite Hw in V5. destruct (view_wake w5 _ _ _ _ _ _ _ _ _ _ V5) as (w6 & E6 & V6); [lia|].
  exists w6, ok. split; [|exact V6].
  by rewrite (wrun_cons _ _ _ _ E2), (wrun_cons _ _ _ _ E3), (wrun_cons _ _ _ _ E4),
    (wrun_cons _ _ _ _ E5), (wrun_cons _ _ _ _ E6).
Qed.

Lemma request_taken w d now rq tg sent acks lh res q ds :
  view w = mkView AtSyncRequest true SyncIdle rq tg sent acks lh res q ds →
  m_stop (m_outboundQueue w) = false → length q < m_maxSize (m_outboundQueue w) →
  (0 ≤ sent < 2 ^ 64 - 1)%Z →
  ∃ w' ok, wrun [EvWriteMessage d; EvSyncCall; EvLoop false now; EvLoop false now; EvLoop false now; EvSyncWake] w
      = Some w' ∧
    view w' = mkView AtTimers true (SyncWaitAck (sent + 1)) false (sent + 1) (sent + 1) acks now res (q ++ [d])
      (ds ++ [DoneHeartbeat ok]).
Proof.
  intros Hv Hst Hroom Hhb.
  destruct (view_write w d _ _ _ _ _ _ _ _ _ _ _ Hv Hst Hroom) as (w1 & E1 & V1).
  destruct (sync_request_taken w1 now _ _ _ _ _ _ _ _ V1 Hhb) as (w6 & ok & E6 & V6).
  exists w6, ok. split; [|exact V6]. by rewrite (wrun_cons _ _ _ _ E1).
Qed.

(** A [sync] answered by one round trip: its heartbeat goes out and is acknowledged. *)
Definition round_trip (r : R) (now : Z) : list (@WEvent S R) :=
  [EvSyncCall; EvLoop false now; EvLoop false now; EvLoop false now; EvSyncWake] ++ ack_arrives r now.


(** C39: [sync] can answer true with the caller's own message still queued.  The loop
    checks that the queues are empty before it looks at the request; a caller that
    writes a message and calls [sync] between the two has its request answered by a
    heartbeat sent ahead of the message, so [sync] returns true while the message sits
    in the outbound queue and only the heartbeat has gone out. *)
Theorem sync_overtakes_write w d r now ack n r' :
  pc w = AtSyncRequest → m_running w = true → syncing w = SyncIdle →
  m_stop (m_outboundQueue w) = false →
  length (m_queue (m_outboundQueue w)) < m_maxSize (m_outboundQueue w) →
  m_acksReceived w = m_heartbeatsSent w → (0 ≤ m_heartbeatsSent w < 2 ^ 64 - 1)%Z →
  recv r = (Some (ack, n), r') → handler_key (env_header ack) = Keys.HEARTBEAT_ACK →
  ∃ w' ok, wrun (overtaking d r now) w = Some w' ∧
    o_results (obs w') = o_results (obs w) ++ [true] ∧
    m_queue (m_outboundQueue w') = m_queue (m_outboundQueue w) ++ [d] ∧
    done w' = done w ++ [DoneHeartbeat ok].
Proof.
  intros Hp Hrun Hs Hst Hroom Hacks Hhb Hrecv Hk. unfold overtaking.
  assert (view w = mkView AtSyncRequest true SyncIdle (m_syncRequested w) (m_syncTarget w) (m_heartbeatsSent w)
    (m_acksReceived w) (lastHeartbeat w) (o_results (obs w)) (m_queue (m_outboundQueue w)) (done w)) as V
    by (unfold view; by rewrite Hp, Hrun, Hs).
  destruct (request_taken w d now _ _ _ _ _ _ _ _ V Hst Hroom Hhb) as (w1 & ok & Hr & V1).
  injection V1 as Hp1 Hrun1 Hs1 _ _ _ Ha1 Hh1 Hres1 Hq1 Hd1.
  destruct (ack_answers w1 r now ack n r' (m_heartbeatsSent w + 1)) as (w2 & Hr2 & Hres2 & Hq2 & Hd2); [done..| |done|done|].
  - rewrite Ha1, Hacks. unfold wrap. rewrite Z.mod_small by lia. done.
  - exists w2, ok. rewrite wrun_app, Hr. split; [exact Hr2|]. by rewrite Hres2, Hq2, Hd2, Hres1, Hq1, Hd1.
Qed.

Lemma view_giveup w p run rq sent acks lh res q ds :
  view w = mkView p run SyncWaitTarget rq 0 sent acks lh res q ds →
  ∃ w', wstep EvSyncWake w = Some w' ∧
    view w' = mkView p run SyncIdle false 0 sent acks lh (res ++ [false]) q ds ∧
    m_outboundQueue w' = m_outboundQueue w.
Proof.
  intros [= ?? Hs ? Ht]. subst. unfold wstep, sync_after_target. rewrite Hs, decide_True by exact Ht.
  eexists. split; [reflexivity|]. split; [|reflexivity]. unfold view. simpl. by rewrite Ht.
Qed.

(** A caller gives up while the loop is sending its heartbeat, a second one writes a
    message and calls. *)
Definition stale_target (d : Envelope) (r : R) (now : Z) : list (@WEvent S R) :=
  [EvSyncWake; EvWriteMessage d; EvSyncCall; EvLoop false now; EvLoop false now; EvSyncWake]
  ++ ack_arrives r now.

(** The comment in [sync] considers the loop before its check of the request and after
    setting the target; in between, a caller that gives up leaves a heartbeat on its
    way whose index is then reported to the next caller, which is answered true with
    its message still queued. *)
Lemma sync_stale_target w d r now ack n r' rq sent lh res q ds :
  view w = mkView AtSyncSend true SyncWaitTarget rq 0 sent sent lh res q ds →
  m_stop (m_outboundQueue w) = false → length q < m_maxSize (m_outboundQueue w) →
  (0 ≤ sent < 2 ^ 64 - 1)%Z →
  recv r = (Some (ack, n), r') → handler_key (env_header ack) = Keys.HEARTBEAT_ACK →
  ∃ w' ok, wrun (stale_target d r now) w = Some w' ∧
    o_results (obs w') = res ++ [false; true] ∧
    m_queue (m_outboundQueue w') = q ++ [d] ∧ done w' = ds ++ [DoneHeartbeat ok].
Proof.
  intros Hv Hst Hroom Hhb Hrecv Hk.
  destruct (view_giveup w _ _ _ _ _ _ _ _ _ Hv) as (w1 & E1 & V1 & Eq1).
  destruct (view_write w1 d _ _ _ _ _ _ _ _ _ _ _ V1) as (w2 & E2 & V2); [by rewrite Eq1..|].
  destruct (view_call w2 _ _ _ _ _ _ _ _ _ V2) as (w3 & E3 & V3).
  destruct (view_send w3 now _ _ _ _ _ _ _ _ _ _ V3) as (w4 & ok & E4 & V4).
  destruct (view_target w4 now _ _ _ _ _ _ _ _ _ _ V4) as (w5 & E5 & V5).
  assert (wrap 64 (sent + 1) = sent + 1)%Z as Hw by (unfold wrap; apply Z.mod_small; lia).
  rewrite Hw in V5. destruct (view_wake w5 _ _ _ _ _ _ _ _ _ _ V5) as (w6 & E6 & V6); [lia|].
  injection V6 as Hp6 Hrun6 Hs6 _ _ _ Ha6 Hh6 Hres6 Hq6 Hd6.
  destruct (ack_answers w6 r now ack n r' (sent + 1)) as (w7 & Hr7 & Hres7 & Hq7 & Hd7); [done..| |done|done|].
  { by rewrite Ha6, Hw. }
  exists w7, ok. unfold stale_target. simpl app.
  rewrite (wrun_cons _ _ _ _ E1), (wrun_cons _ _ _ _ E2), (wrun_cons _ _ _ _ E3), (wrun_cons _ _ _ _ E4),
    (wrun_cons _ _ _ _ E5), (wrun_cons _ _ _ _ E6).
  split; [exact Hr7|]. by rewrite Hres7, Hq7, Hd7, Hres6, Hq6, Hd6, <-app_assoc.
Qed.
End overtaken.

(** ** Witnesses *)

Section demo.
Local Existing Instance demo_sender.
Local Existing Instance demo_receiver.
Local Existing Instance demo_runtime.

Definition demo_socket : DemoSender := mkDemoSender None 8 [] [].

Definition demo_ack : Envelope := makeControl Keys.HEARTBEAT_ACK "broker"%string ""%string.

(** The network holds one heartbeat ack. *)
Definition demo_network : DemoReceiver := mkDemoReceiver [] [[encodeHeader (env_header demo_ack)]].

Definition demo_fresh : @ZmqWorker.Worker DemoSender DemoReceiver :=
  new_zmq_worker (default_config "tcp://broker:5555"%string "client"%string) None true demo_socket (mkDemoReceiver [] []).

(** Started, heartbeat sent and acknowledged, and on to the place where the loop takes
    a sync request. *)
Definition demo_online : list (@WEvent DemoSender DemoReceiver) :=
  EvStart (Some demo_socket) 0 :: replicate 7 (EvLoop false 1) ++
  EvNetwork demo_network :: EvLoop true 2 :: replicate 8 (EvLoop false 2).

Definition demo_sub : Envelope := makeControl Keys.SUBSCRIBE "client"%string "answers"%string.
Definition demo_data : Envelope :=
  mkEnvelope (mkHeader "question"%string "client"%string "question"%string ""%string ""%string "answers"%string) "payload"%string.

(** Then a subscription and a request, and on until the request is out. *)
Definition demo_request : list (@WEvent DemoSender DemoReceiver) :=
  demo_online ++ replicate 2 (EvLoop false 2) ++
  [EvWriteControl demo_sub; EvWriteMessage demo_data] ++ replicate 5 (EvLoop false 3).

Definition after_run (es : list (@WEvent DemoSender DemoReceiver)) : @ZmqWorker.Worker DemoSender DemoReceiver :=
  default demo_fresh (wrun es demo_fresh).

Lemma after_run_eq es : (if wrun es demo_fresh then true else false) = true → wrun es demo_fresh = Some (after_run es).
Proof. unfold after_run. by destruct (wrun es demo_fresh). Qed.


Lemma control_before_data_witness :
  let w := after_run demo_request in
  ∃ n, o_data (obs w) !! 0 = Some (demo_data, n) ∧ take n (o_control (obs w)) `prefix_of` [demo_sub].
Proof.
  apply (@control_before_data DemoSender DemoReceiver demo_sender demo_receiver demo_runtime
    (default_config "tcp://broker:5555"%string "client"%string) None true demo_socket (mkDemoReceiver [] []) demo_request
    (after_run demo_request) [DoneConnect true; DoneHeartbeat true; DoneControl demo_sub true] demo_data []).
  - apply after_run_eq. vm_compute. reflexivity.
  - vm_compute. reflexivity.
Defined.

Definition demo_sync : list (@WEvent DemoSender DemoReceiver) := demo_online ++ [EvSyncCall; EvLoop false 2].

Lemma sync_flushed_witness :
  pc (after_run demo_sync) = AtSyncSend ∧ flushed (o_mark (obs (after_run demo_sync))) (after_run demo_sync).
Proof.
  split; [vm_compute; reflexivity|].
  refine (proj1 (@sync_flushed DemoSender DemoReceiver demo_sender demo_receiver demo_runtime
    (default_config "tcp://broker:5555"%string "client"%string) None true demo_socket (mkDemoReceiver [] [])
    demo_sync (after_run demo_sync) _) _).
  - apply after_run_eq. vm_compute. reflexivity.
  - vm_compute. reflexivity.
Defined.

(** The state [sync_overtakes_write] starts from is reached by a run. *)
Lemma sync_overtakes_write_witness :
  wrun demo_online demo_fresh = Some (after_run demo_online) ∧
  ∃ w' ok, wrun (overtaking demo_data demo_network 3) (after_run demo_online) = Some w' ∧
    o_results (obs w') = o_results (obs (after_run demo_online)) ++ [true] ∧
    m_queue (m_outboundQueue w') = m_queue (m_outboundQueue (after_run demo_online)) ++ [demo_data] ∧
    done w' = done (after_run demo_online) ++ [DoneHeartbeat ok].
Proof.
  split; [apply after_run_eq; vm_compute; reflexivity|].
  apply (@sync_overtakes_write DemoSender DemoReceiver demo_sender demo_receiver demo_runtime
    (after_run demo_online) demo_data demo_network 3 demo_ack
    (String.length (encodeHeader (env_header demo_ack))) (mkDemoReceiver [] [])).
  - vm_compute. reflexivity.
  - vm_compute. reflexivity.
  - vm_compute. reflexivity.
  - vm_compute. reflexivity.
  - apply Nat.ltb_lt. vm_compute. reflexivity.
  - vm_compute. reflexivity.
  - replace (m_heartbeatsSent (after_run demo_online)) with 1%Z by (vm_compute; reflexivity). lia.
  - vm_compute. reflexivity.
  - vm_compute. reflexivity.
Defined.

(** The first heartbeat was lost with the broker it went to: the new one's first word is
    a RESET. *)
Definition demo_reset : DemoReceiver := mkDemoReceiver [] [[encodeHeader (makeControlHeader Keys.RESET "broker"%string EmptyString)]].

Definition demo_lost : list (@WEvent DemoSender DemoReceiver) :=
  EvStart (Some demo_socket) 0 :: replicate 7 (EvLoop false 1) ++
  EvNetwork demo_reset :: EvLoop true 2 :: replicate 8 (EvLoop false 2).

End demo.
