(* ===== verification/SyncWait.v ===== *)
(** * sync and stop, lock by lock

    [ZmqWorker::sync], [ZmqWorker::stop] and the two places where the run loop reports to a
    waiting [sync] ([common/zmqworker.cpp]), at the grain of the mutex [m_syncMutex] and the
    condition variable [m_syncCv]: a wait releases the mutex and falls asleep in one step, a
    notify wakes only who is asleep, and wake-ups may be spurious.  [m_running] is written
    without the mutex, which is what [stop]'s empty critical section is for.

    [sync_not_stranded]: no caller sleeps on after what it waits for has happened.  [ZmqWorker]
    models the same calls as steps of the worker's whole state. *)

From Stdlib Require Import ZArith Lia.
From S2P Require Import Prelude.

Inductive Thread := TCaller | TStopper | TLoop.

#[export] Instance Thread_eq_dec : EqDecision Thread.
Proof. solve_decision. Defined.

(** The two waits of [sync]. *)
Inductive Wait := ForTarget | ForAck (target : Z).

(** Places of [sync]; in those marked so the caller holds the mutex. *)
Inductive CallerPc :=
  | CallerIdle
  | CallerEntered             (* found the worker running *)
  | CallerRequest             (* holds: to write the request *)
  | CallerPing                (* to wake the loop *)
  | CallerRelock              (* to lock again *)
  | CallerCheck (w : Wait)    (* holds: to evaluate the predicate *)
  | CallerSleep (w : Wait)    (* holds: found it false, to fall asleep *)
  | CallerAsleep (w : Wait)
  | CallerWoken (w : Wait)    (* to lock again *)
  | CallerAfter (w : Wait)    (* holds: the wait is over *)
  | CallerDone (result : bool).

(** Places of [stop], up to the join. *)
Inductive StopperPc :=
  | StopperIdle
  | StopperFlagged            (* m_running is false *)
  | StopperLocked             (* holds *)
  | StopperUnlocked           (* to notify *)
  | StopperNotified.

(** Places of the loop: at an ack, and at a request. *)
Inductive LoopPc :=
  | LoopIdle
  | LoopAck                   (* holds: to count the ack *)
  | LoopRequest               (* holds: to look at the request *)
  | LoopSend                  (* took it, to send its heartbeat *)
  | LoopCount                 (* holds: to count it *)
  | LoopSent                  (* to lock again *)
  | LoopTarget                (* holds: to report it *)
  | LoopReported              (* holds: reported or counted, to unlock *)
  | LoopNotify.               (* to notify *)

Record SyncState := mkSync {
  ss_running : bool;
  ss_requested : bool;
  ss_target : Z;
  ss_sent : Z;
  ss_acks : Z;
  ss_mutex : option Thread;
  ss_caller : CallerPc;
  ss_stopper : StopperPc;
  ss_loop : LoopPc
}.

Definition initial_sync : SyncState := mkSync false false 0 0 0 None CallerIdle StopperIdle LoopIdle.

(** The predicates of the two waits. *)
Definition wait_over (w : Wait) (s : SyncState) : bool :=
  negb (ss_running s) ||
  match w with
  | ForTarget => negb (bool_decide (ss_target s = 0%Z))
  | ForAck target => bool_decide (target ≤ ss_acks s)%Z
  end.

Definition set_caller (mutex : option Thread) (c : CallerPc) (s : SyncState) : SyncState :=
  mkSync (ss_running s) (ss_requested s) (ss_target s) (ss_sent s) (ss_acks s) mutex c (ss_stopper s) (ss_loop s).

Definition set_sync (requested : bool) (target : Z) (s : SyncState) : SyncState :=
  mkSync (ss_running s) requested target (ss_sent s) (ss_acks s) (ss_mutex s) (ss_caller s) (ss_stopper s) (ss_loop s).

Definition set_stopper (mutex : option Thread) (p : StopperPc) (s : SyncState) : SyncState :=
  mkSync (ss_running s) (ss_requested s) (ss_target s) (ss_sent s) (ss_acks s) mutex (ss_caller s) p (ss_loop s).

Definition set_running (v : bool) (s : SyncState) : SyncState :=
  mkSync v (ss_requested s) (ss_target s) (ss_sent s) (ss_acks s) (ss_mutex s) (ss_caller s) (ss_stopper s) (ss_loop s).

Definition set_loop (mutex : option Thread) (p : LoopPc) (s : SyncState) : SyncState :=
  mkSync (ss_running s) (ss_requested s) (ss_target s) (ss_sent s) (ss_acks s) mutex (ss_caller s) (ss_stopper s) p.

Definition set_counts (sent acks : Z) (s : SyncState) : SyncState :=
  mkSync (ss_running s) (ss_requested s) (ss_target s) sent acks (ss_mutex s) (ss_caller s) (ss_stopper s) (ss_loop s).

(** [m_syncCv.notify_all()]. *)
Definition notify_all (s : SyncState) : SyncState :=
  match ss_caller s with
  | CallerAsleep w => set_caller (ss_mutex s) (CallerWoken w) s
  | _ => s
  end.

(** The caller's next step; [timely] is false once its deadline has passed.  [None] while it
    waits for the mutex or sleeps. *)
Definition caller_step (timely : bool) (s : SyncState) : option SyncState :=
  match ss_caller s with
  | CallerIdle | CallerDone _ => Some (set_caller (ss_mutex s) (if ss_running s then CallerEntered else CallerDone false) s)
  | CallerEntered =>
      match ss_mutex s with None => Some (set_caller (Some TCaller) CallerRequest s) | Some _ => None end
  | CallerRequest => Some (set_caller None CallerPing (set_sync true 0 s))
  | CallerPing => Some (set_caller (ss_mutex s) CallerRelock s)
  | CallerRelock =>
      match ss_mutex s with None => Some (set_caller (Some TCaller) (CallerCheck ForTarget) s) | Some _ => None end
  | CallerCheck w => Some (set_caller (Some TCaller) (if wait_over w s || negb timely then CallerAfter w else CallerSleep w) s)
  | CallerSleep w => Some (set_caller None (CallerAsleep w) s)
  | CallerAsleep w => if timely then None else Some (set_caller (ss_mutex s) (CallerWoken w) s)
  | CallerWoken w =>
      match ss_mutex s with None => Some (set_caller (Some TCaller) (CallerCheck w) s) | Some _ => None end
  | CallerAfter ForTarget =>
      if decide (ss_target s = 0%Z) then Some (set_caller None (CallerDone false) (set_sync false (ss_target s) s))
      else Some (set_caller (Some TCaller) (CallerCheck (ForAck (ss_target s))) s)
  | CallerAfter (ForAck target) => Some (set_caller None (CallerDone (bool_decide (target ≤ ss_acks s)%Z)) s)
  end.

(** The next step of [stop], up to the join. *)
Definition stop_step (s : SyncState) : option SyncState :=
  match ss_stopper s with
  | StopperIdle | StopperNotified => Some (set_stopper (ss_mutex s) StopperFlagged (set_running false s))
  | StopperFlagged =>
      match ss_mutex s with None => Some (set_stopper (Some TStopper) StopperLocked s) | Some _ => None end
  | StopperLocked => Some (set_stopper None StopperUnlocked s)
  | StopperUnlocked => Some (notify_all (set_stopper (ss_mutex s) StopperNotified s))
  end.

(** The loop's next step; [ack] says whether it is an ack it comes to next. *)
Definition report_step (ack : bool) (s : SyncState) : option SyncState :=
  match ss_loop s with
  | LoopIdle =>
      match ss_mutex s with
      | None => Some (set_loop (Some TLoop) (if ack then LoopAck else LoopRequest) s)
      | Some _ => None
      end
  | LoopAck => Some (set_loop (Some TLoop) LoopReported (set_counts (ss_sent s) (ss_acks s + 1) s))
  | LoopRequest =>
      if ss_requested s then Some (set_loop None LoopSend (set_sync false (ss_target s) s))
      else Some (set_loop None LoopIdle s)
  | LoopSend =>
      match ss_mutex s with None => Some (set_loop (Some TLoop) LoopCount s) | Some _ => None end
  | LoopCount => Some (set_loop None LoopSent (set_counts (ss_sent s + 1) (ss_acks s) s))
  | LoopSent =>
      match ss_mutex s with None => Some (set_loop (Some TLoop) LoopTarget s) | Some _ => None end
  | LoopTarget => Some (set_loop (Some TLoop) LoopReported (set_sync (ss_requested s) (ss_sent s) s))
  | LoopReported => Some (set_loop None LoopNotify s)
  | LoopNotify => Some (notify_all (set_loop (ss_mutex s) LoopIdle s))
  end.

(** A step of some thread, a spurious wake-up, or [start] once a [stop] is through. *)
Inductive sync_step : SyncState → SyncState → Prop :=
  | step_caller timely s s' : caller_step timely s = Some s' → sync_step s s'
  | step_stop s s' : stop_step s = Some s' → sync_step s s'
  | step_report ack s s' : report_step ack s = Some s' → sync_step s s'
  | step_spurious s w : ss_caller s = CallerAsleep w → sync_step s (set_caller (ss_mutex s) (CallerWoken w) s)
  | step_start s : ss_stopper s = StopperIdle ∨ ss_stopper s = StopperNotified →
      sync_step s (set_stopper (ss_mutex s) StopperIdle (set_running true s)).

(** ** The invariant *)

Definition caller_holds (c : CallerPc) : bool :=
  match c with CallerRequest | CallerCheck _ | CallerSleep _ | CallerAfter _ => true | _ => false end.

Definition stopper_holds (p : StopperPc) : bool := match p with StopperLocked => true | _ => false end.

Definition loop_holds (p : LoopPc) : bool :=
  match p with LoopAck | LoopRequest | LoopCount | LoopTarget | LoopReported => true | _ => false end.

(** A notify is still to come. *)
Definition stop_owes (p : StopperPc) : bool :=
  match p with StopperFlagged | StopperLocked | StopperUnlocked => true | _ => false end.

Definition report_owes (p : LoopPc) : bool := match p with LoopReported | LoopNotify => true | _ => false end.

Definition holder (mutex : option Thread) (t : Thread) : bool :=
  match mutex, t with
  | Some TCaller, TCaller | Some TStopper, TStopper | Some TLoop, TLoop => true
  | _, _ => false
  end.

(** Who is in a critical section holds the mutex; a caller about to sleep on something that
    has happened was overtaken by the write of [m_running], and one that is asleep then will
    be notified. *)
Record sync_inv (s : SyncState) : Prop := {
  si_caller : caller_holds (ss_caller s) = holder (ss_mutex s) TCaller;
  si_stopper : stopper_holds (ss_stopper s) = holder (ss_mutex s) TStopper;
  si_loop : loop_holds (ss_loop s) = holder (ss_mutex s) TLoop;
  si_sleep : ∀ w, ss_caller s = CallerSleep w → wait_over w s = true → ss_stopper s = StopperFlagged;
  si_asleep : ∀ w, ss_caller s = CallerAsleep w → wait_over w s = true →
    stop_owes (ss_stopper s) = true ∨ report_owes (ss_loop s) = true
}.

Lemma initial_sync_inv : sync_inv initial_sync.
Proof. by split. Qed.

Lemma notify_all_asleep s w : ss_caller (notify_all s) = CallerAsleep w → False.
Proof. unfold notify_all. by destruct (ss_caller s) eqn:E; simpl; rewrite ?E. Qed.

Lemma notify_all_inv s :
  caller_holds (ss_caller s) = holder (ss_mutex s) TCaller →
  stopper_holds (ss_stopper s) = holder (ss_mutex s) TStopper →
  loop_holds (ss_loop s) = holder (ss_mutex s) TLoop →
  (∀ w, ss_caller s = CallerSleep w → wait_over w s = true → ss_stopper s = StopperFlagged) →
  sync_inv (notify_all s).
Proof.
  intros Hc Hp Hl Hs. split; [..|intros w H; by apply notify_all_asleep in H]; unfold notify_all;
    destruct (ss_caller s) eqn:E; simpl; rewrite ?E in *; try done.
Qed.

Lemma caller_step_inv timely s s' : caller_step timely s = Some s' → sync_inv s → sync_inv s'.
Proof.
  intros Hs Hinv. destruct (ss_caller s) as [| | | | |w|w|w|w|[|target]|r] eqn:Ec; unfold caller_step in Hs; rewrite Ec in Hs;
    destruct s as [run req tgt sent acks mx c p l]; destruct Hinv as [Hc Hp Hl Hsl Has]; simpl in *; subst c; simpl in *.
  all: try (destruct mx as [[]|]; simpl in *; try discriminate; repeat case_decide; try destruct timely; try discriminate;
    injection Hs as <-; split; simpl; try done; try (by destruct run); congruence).
  - destruct mx as [[]|]; try discriminate. injection Hs as <-. set (s0 := mkSync _ _ _ _ _ _ _ _ _) in *. destruct (wait_over w s0 || negb timely) eqn:E; split; simpl; try done.
    intros w' [= <-] Hw. change (wait_over w s0 = true) in Hw. by rewrite Hw in E.
  - injection Hs as <-. destruct mx as [[]|]; try discriminate. split; simpl; try done. intros w' [= <-] Hw.
    left. by rewrite (Hsl w eq_refl Hw).
Qed.

Lemma stop_step_inv s s' : stop_step s = Some s' → sync_inv s → sync_inv s'.
Proof.
  intros Hs [Hc Hp Hl Hsl Has]. unfold stop_step in Hs. destruct (ss_stopper s) eqn:Ep.
  - injection Hs as <-. split; simpl; try done. intros w _ _. by left.
  - destruct (ss_mutex s) eqn:Em; [done|]. injection Hs as <-. split; simpl; rewrite ?Em in *; try done; try (intros w _ _; by left).
    intros w E. by rewrite E in Hc.
  - injection Hs as <-. destruct (ss_mutex s) as [[]|] eqn:Em; try discriminate. split; simpl; try done; try (intros w _ _; by left).
    intros w E. by rewrite E in Hc.
  - injection Hs as <-. apply notify_all_inv; simpl; try done. intros w E Hw. by specialize (Hsl w E Hw).
  - injection Hs as <-. split; simpl; try done. intros w _ _. by left.
Qed.

Lemma report_step_inv ack s s' : report_step ack s = Some s' → sync_inv s → sync_inv s'.
Proof.
  intros Hs [Hc Hp Hl Hsl Has]. unfold report_step in Hs. destruct (ss_loop s) eqn:El; simpl in *.
  all: try (destruct (ss_mutex s) as [[]|] eqn:Em; simpl in *; try discriminate; try destruct (ss_requested s); injection Hs as <-;
    split; simpl; rewrite ?Em in *; try done; try (by destruct ack); try (by intros w E; rewrite E in Hc); try (intros w E Hw; by right); eauto;
    fail).
  injection Hs as <-. by apply notify_all_inv.
Qed.

Lemma sync_step_inv s s' : sync_step s s' → sync_inv s → sync_inv s'.
Proof.
  destruct 1 as [timely s s' H|s s' H|ack s s' H|s w H|s H]; [by eapply caller_step_inv|by eapply stop_step_inv|by eapply report_step_inv|..];
    intros [Hc Hp Hl Hsl Has].
  - rewrite H in *. split; simpl; try done.
  - split; simpl; try done; [by destruct H as [H|H]; rewrite H in Hp|..]; intros w E Hw.
    + assert (wait_over w s = true) as Hw' by (revert Hw; unfold wait_over; simpl; by destruct (ss_running s)).
      specialize (Hsl w E Hw'). destruct H; congruence.
    + assert (wait_over w s = true) as Hw' by (revert Hw; unfold wait_over; simpl; by destruct (ss_running s)).
      destruct (Has w E Hw') as [Ho|Ho]; [destruct H as [H|H]; rewrite H in Ho; done|by right].
Qed.

Lemma sync_reachable_inv s : rtc sync_step initial_sync s → sync_inv s.
Proof.
  intros H. assert (∀ s0, rtc sync_step s0 s → sync_inv s0 → sync_inv s) as Hgen.
  { clear H. induction 1 as [|s0 s1 s2 Hs _ IH]; eauto using sync_step_inv. }
  apply (Hgen _ H), initial_sync_inv.
Qed.

(** The caller on its own, its deadline far off. *)
Fixpoint caller_run (n : nat) (s : SyncState) : option SyncState :=
  match n with
  | O => Some s
  | S n => s' ← caller_step true s; caller_run n s'
  end.

Definition in_call (c : CallerPc) : bool :=
  match c with CallerIdle | CallerDone _ => false | _ => true end.

Ltac run_done :=
  simpl; unfold caller_step; simpl; rewrite ?decide_True, ?decide_False by done; simpl;
  unfold caller_step; simpl; eexists _, _; split; [reflexivity|]; split; reflexivity.

(** A stopped worker answers. *)
Lemma stopped_caller_done s :
  ss_running s = false → (∀ w, ss_caller s ≠ CallerAsleep w) → (∀ w, ss_caller s ≠ CallerSleep w) →
  in_call (ss_caller s) = true →
  caller_holds (ss_caller s) = holder (ss_mutex s) TCaller → ss_mutex s = None ∨ ss_mutex s = Some TCaller →
  ∃ n s' r, n ≤ 8 ∧ caller_run n s = Some s' ∧ ss_caller s' = CallerDone r ∧ ss_mutex s' = None.
Proof.
  destruct s as [run req tgt sent acks mx c p l]. simpl. intros -> Hna Hns Hin Hh Hm.
  assert (mx = if caller_holds c then Some TCaller else None) as -> by (destruct Hm as [-> | ->]; simpl in Hh; by rewrite Hh).
  assert (∀ n, (∃ s' r, caller_run n (mkSync false req tgt sent acks (if caller_holds c then Some TCaller else None) c p l) = Some s' ∧
    ss_caller s' = CallerDone r ∧ ss_mutex s' = None) → n ≤ 8 →
    ∃ n s' r, n ≤ 8 ∧ caller_run n (mkSync false req tgt sent acks (if caller_holds c then Some TCaller else None) c p l) = Some s' ∧
      ss_caller s' = CallerDone r ∧ ss_mutex s' = None) as Hgo by naive_solver.
  destruct c as [| | | | |[|tg]|w|w|[|tg]|[|tg]|r]; simpl in *; try discriminate; try (by destruct (Hna w)); try (by destruct (Hns w));
    destruct (decide (tgt = 0%Z)) as [->|Ht];
    first [ apply (Hgo 1); [|lia]; run_done | apply (Hgo 2); [|lia]; run_done | apply (Hgo 3); [|lia]; run_done
          | apply (Hgo 4); [|lia]; run_done | apply (Hgo 5); [|lia]; run_done | apply (Hgo 6); [|lia]; run_done
          | apply (Hgo 7); [|lia]; run_done | apply (Hgo 8); [|lia]; run_done ].
Qed.

(** C24: no [sync] sleeps through what it waits for.  In every reachable state, whatever the
    interleaving of a caller, a [stop], the run loop and spurious wake-ups, a caller asleep in
    one of [sync]'s two waits whose condition holds (the worker stopped, its heartbeat's index
    reported, its ack counted) is about to be notified; and once [stop] has notified, a caller
    still inside [sync] is awake and, with the mutex free, answers within eight steps of its
    own, its deadline not needed. *)
Theorem sync_not_stranded s :
  rtc sync_step initial_sync s →
  (∀ w, ss_caller s = CallerAsleep w → wait_over w s = true →
     stop_owes (ss_stopper s) = true ∨ report_owes (ss_loop s) = true) ∧
  (ss_running s = false → stop_owes (ss_stopper s) = false → report_owes (ss_loop s) = false →
   in_call (ss_caller s) = true → ss_mutex s = None ∨ ss_mutex s = Some TCaller →
   ∃ n s' r, n ≤ 8 ∧ caller_run n s = Some s' ∧ ss_caller s' = CallerDone r ∧ ss_mutex s' = None).
Proof.
  intros [Hc _ _ Hsl Has]%sync_reachable_inv. split; [exact Has|]. intros Hrun Hst Hre Hin Hm.
  assert (∀ w, wait_over w s = true) as Hover by (intros w; unfold wait_over; by rewrite Hrun).
  apply stopped_caller_done; try done; intros w E.
  - destruct (Has w E (Hover w)); congruence.
  - by rewrite (Hsl w E (Hover w)) in Hst.
Qed.

(** A caller asleep for its heartbeat's index, and a [stop]. *)
Definition stopped_sync : SyncState :=
  mkSync false true 0 0 0 None (CallerWoken ForTarget) StopperNotified LoopIdle.

Lemma sync_not_stranded_witness :
  ∃ n s' r, n ≤ 8 ∧ caller_run n stopped_sync = Some s' ∧ ss_caller s' = CallerDone r ∧ ss_mutex s' = None.
Proof.
  refine (proj2 (sync_not_stranded stopped_sync _) _ _ _ _ _); try reflexivity; [|by left].
  eapply rtc_l; [apply step_start; by left|]. simpl.
  do 7 (eapply rtc_l; [apply (step_caller true); reflexivity|]; simpl).
  do 4 (eapply rtc_l; [apply step_stop; reflexivity|]; simpl).
  apply rtc_refl.
Defined.
