(* ===== verification/ConnectionManager.v ===== *)
(** * The client library

    Models [common/connectionmanager.h] and [common/connectionmanager.cpp]: callbacks
    per topic, the subscriptions they keep at the broker, dispatch of what arrives,
    request and reply, and the lifecycle of the singleton.

    [Manager] is one [ConnectionManager] instance over any worker of the worker
    interface; [Client] the static state.  Every operation that takes [m_mapMutex] or
    [s_initMutex] is one step, and so is the dispatch of one message: its callbacks run
    one after the other on the processing thread, and what a callback does through the
    library is the list of actions its body gives for the payload.  [t_currentReplyTopic]
    is the processing thread's own copy; on any other thread it is empty.

    Beside the members of the class, [Manager] has the locals of [processingLoop]
    ([m_batch], [m_processing]), the promises of the requests in flight, and three
    observations: the callbacks invoked ([m_calls]), and, for the session at the
    broker, which of the control messages written so far it still remembers the effect
    of ([m_epoch]) and whether the client has re-sent its subscriptions since the
    broker last forgot them ([m_synced]). *)

From Stdlib Require Import ZArith Lia.
From S2P Require Import Prelude.
From S2P Require Import MessageKeys.
From S2P Require Import Config.
From S2P Require Import SafeQueue.
From S2P Require Import Wire.
From S2P Require Import Worker.
From S2P Require Import Beacon.
From S2P Require Import Registry.

(** ** Callbacks *)

(** What a callback does through the library; [void*] instances are numbers, 0 the
    null pointer.  [ActFulfil] is [promise->set_value] of a pending request. *)
Inductive Action :=
  | ActReply (data : string)
  | ActSend (key data : string)
  | ActRegister (key : string) (callback : option Callback) (instance : Z) (scope : Origin)
  | ActUnregister (key : string) (instance : Z)
  | ActFulfil (promise : Z) (data : string)
  | ActThrow
with Callback :=
  | mkCallback (body : string → list Action).

Definition callback_body (cb : Callback) : string → list Action :=
  match cb with mkCallback body => body end.

(** An empty [std::function] is [None]. *)
Record CallbackEntry := mkEntry {
  ce_instance : Z;
  ce_func : option Callback;
  ce_scope : Origin
}.

(** What a topic's whole registration list wants between them. *)
Definition unionScope (callbacks : list CallbackEntry) : Origin :=
  foldl (λ scope entry, widen scope (ce_scope entry)) (mkOrigin 0) callbacks.

Definition makeReplyTopic (uuid requestTopic : string) : string :=
  let suffix := String (chr 46) uuid in
  let room := if decide (String.length suffix < MAX_TOPIC_LENGTH_BYTES)
              then MAX_TOPIC_LENGTH_BYTES - String.length suffix else 0 in
  str_take room requestTopic +:+ suffix.

Section manager.
Context {W : Type} `{!WorkerInterface W}.

Record Manager := mkManager {
  m_clientId : string;
  m_pWorker : W;
  m_inbound : SafeQueue Envelope;
  m_running : bool;
  m_connected : bool;
  m_msgHandlers : gmap string (list CallbackEntry);
  m_scopedHandlers : Z;
  t_currentReplyTopic : string;
  m_batch : list Envelope;
  m_processing : bool;
  m_promises : gmap Z string;
  m_calls : list (Z * string);
  m_epoch : nat;
  m_synced : bool
}.

Definition with_worker (v : W) (m : Manager) : Manager :=
  mkManager (m_clientId m) v (m_inbound m) (m_running m) (m_connected m) (m_msgHandlers m)
    (m_scopedHandlers m) (t_currentReplyTopic m) (m_batch m) (m_processing m) (m_promises m)
    (m_calls m) (m_epoch m) (m_synced m).

Definition with_inbound (v : SafeQueue Envelope) (m : Manager) : Manager :=
  mkManager (m_clientId m) (m_pWorker m) v (m_running m) (m_connected m) (m_msgHandlers m)
    (m_scopedHandlers m) (t_currentReplyTopic m) (m_batch m) (m_processing m) (m_promises m)
    (m_calls m) (m_epoch m) (m_synced m).

Definition with_running (v : bool) (m : Manager) : Manager :=
  mkManager (m_clientId m) (m_pWorker m) (m_inbound m) v (m_connected m) (m_msgHandlers m)
    (m_scopedHandlers m) (t_currentReplyTopic m) (m_batch m) (m_processing m) (m_promises m)
    (m_calls m) (m_epoch m) (m_synced m).

Definition with_connected (v : bool) (m : Manager) : Manager :=
  mkManager (m_clientId m) (m_pWorker m) (m_inbound m) (m_running m) v (m_msgHandlers m)
    (m_scopedHandlers m) (t_currentReplyTopic m) (m_batch m) (m_processing m) (m_promises m)
    (m_calls m) (m_epoch m) (m_synced m).

Definition with_handlers (v0 : gmap string (list CallbackEntry)) (v1 : Z) (m : Manager) : Manager :=
  mkManager (m_clientId m) (m_pWorker m) (m_inbound m) (m_running m) (m_connected m) v0 v1
    (t_currentReplyTopic m) (m_batch m) (m_processing m) (m_promises m) (m_calls m) (m_epoch m)
    (m_synced m).

Definition with_replyTopic (v : string) (m : Manager) : Manager :=
  mkManager (m_clientId m) (m_pWorker m) (m_inbound m) (m_running m) (m_connected m)
    (m_msgHandlers m) (m_scopedHandlers m) v (m_batch m) (m_processing m) (m_promises m)
    (m_calls m) (m_epoch m) (m_synced m).

Definition with_batch (v : list Envelope) (m : Manager) : Manager :=
  mkManager (m_clientId m) (m_pWorker m) (m_inbound m) (m_running m) (m_connected m)
    (m_msgHandlers m) (m_scopedHandlers m) (t_currentReplyTopic m) v (m_processing m)
    (m_promises m) (m_calls m) (m_epoch m) (m_synced m).

Definition with_processing (v : bool) (m : Manager) : Manager :=
  mkManager (m_clientId m) (m_pWorker m) (m_inbound m) (m_running m) (m_connected m)
    (m_msgHandlers m) (m_scopedHandlers m) (t_currentReplyTopic m) (m_batch m) v (m_promises m)
    (m_calls m) (m_epoch m) (m_synced m).

Definition with_promises (v : gmap Z string) (m : Manager) : Manager :=
  mkManager (m_clientId m) (m_pWorker m) (m_inbound m) (m_running m) (m_connected m)
    (m_msgHandlers m) (m_scopedHandlers m) (t_currentReplyTopic m) (m_batch m) (m_processing m)
    v (m_calls m) (m_epoch m) (m_synced m).

Definition with_calls (v : list (Z * string)) (m : Manager) : Manager :=
  mkManager (m_clientId m) (m_pWorker m) (m_inbound m) (m_running m) (m_connected m)
    (m_msgHandlers m) (m_scopedHandlers m) (t_currentReplyTopic m) (m_batch m) (m_processing m)
    (m_promises m) v (m_epoch m) (m_synced m).

Definition with_session (v0 : nat) (v1 : bool) (m : Manager) : Manager :=
  mkManager (m_clientId m) (m_pWorker m) (m_inbound m) (m_running m) (m_connected m)
    (m_msgHandlers m) (m_scopedHandlers m) (t_currentReplyTopic m) (m_batch m) (m_processing m)
    (m_promises m) (m_calls m) v0 v1.

(** ** The instance *)

Definition sendRawEnvelope (envelope : Envelope) (m : Manager) : bool * Manager :=
  let '(ok, w) :=
    if Keys.isControlMessage (handler_key (env_header envelope))
    then writeControlMessage envelope (m_pWorker m)
    else writeMessage envelope (m_pWorker m) in
  (ok, with_worker w m).

Definition createControlEnvelope (controlKey topic : string) (m : Manager) : Envelope :=
  makeControl controlKey (m_clientId m) topic.

Definition createSubscribeEnvelope (key : string) (m : Manager) : Envelope :=
  let env := makeControl Keys.SUBSCRIBE (m_clientId m) key in
  match m_msgHandlers m !! key with
  | Some callbacks => mkEnvelope (env_header env) (encodeSubscribeScope (unionScope callbacks))
  | None => env
  end.

Definition send_subscribe (m : Manager) (key : string) : Manager :=
  (sendRawEnvelope (createSubscribeEnvelope key m) m).2.

(** A [__SUBSCRIBE__] for every topic, in the order of the map. *)
Definition send_subscriptions (m : Manager) : Manager :=
  foldl send_subscribe m (map_entries (m_msgHandlers m)).*1.

(** The status callback the worker is given. *)
Definition statusHandler (connected : bool) (m : Manager) : Manager :=
  let m := with_connected connected m in
  if connected then
    let m := (sendRawEnvelope (createControlEnvelope Keys.CONNECT EmptyString m) m).2 in
    with_session (m_epoch m) true (send_subscriptions m)
  else m.

Definition resubscribeAll (m : Manager) : Manager :=
  with_session (m_epoch m) true (send_subscriptions m).

(** [scope != Origin::Any]. *)
Definition isScoped (scope : Origin) : bool := negb (bool_decide (scope = Origins.Any)).

Definition performRegistration (key : string) (callback : option Callback) (instance : Z) (scope : Origin)
    (m : Manager) : Manager :=
  let next := default [] (m_msgHandlers m !! key) ++ [mkEntry instance callback scope] in
  let scoped := if isScoped scope then wrap 64 (m_scopedHandlers m + 1) else m_scopedHandlers m in
  let m := with_handlers (<[key := next]> (m_msgHandlers m)) scoped m in
  if m_connected m then send_subscribe m key else m.

(** Copies the entries that stay, counting down for each scoped one that goes. *)
Fixpoint drop_instance (instance : Z) (callbacks : list CallbackEntry) (scoped : Z)
    : list CallbackEntry * Z :=
  match callbacks with
  | [] => ([], scoped)
  | entry :: rest =>
      if decide (ce_instance entry = instance) then
        drop_instance instance rest (if isScoped (ce_scope entry) then wrap 64 (scoped - 1) else scoped)
      else let '(kept, scoped) := drop_instance instance rest scoped in (entry :: kept, scoped)
  end.

Definition performUnregistration (key : string) (instance : Z) (m : Manager) : Manager :=
  match m_msgHandlers m !! key with
  | None => m
  | Some callbacks =>
      let scopeBefore := unionScope callbacks in
      let '(next, scoped) := drop_instance instance callbacks (m_scopedHandlers m) in
      if decide (next = []) then
        let m := with_handlers (delete key (m_msgHandlers m)) scoped m in
        (sendRawEnvelope (createControlEnvelope Keys.UNSUBSCRIBE key m) m).2
      else
        let m := with_handlers (<[key := next]> (m_msgHandlers m)) scoped m in
        if m_connected m && negb (bool_decide (unionScope next = scopeBefore))
        then send_subscribe m key else m
  end.

Definition sendDataInternal (key data : string) (m : Manager) : bool * Manager :=
  sendRawEnvelope (mkEnvelope (mkHeader key (m_clientId m) key EmptyString EmptyString EmptyString) data) m.

Definition sendReplyEnvelope (payload : string) (m : Manager) : bool * Manager :=
  if decide (t_currentReplyTopic m = EmptyString) then (false, m)
  else
    let topic := t_currentReplyTopic m in
    sendRawEnvelope (mkEnvelope (mkHeader topic (m_clientId m) topic EmptyString EmptyString EmptyString) payload) m.

(** One after the other until one throws; the dispatch catches that. *)
Fixpoint run_actions (actions : list Action) (m : Manager) : Manager :=
  match actions with
  | [] => m
  | ActThrow :: _ => m
  | ActReply data :: rest => run_actions rest (sendReplyEnvelope data m).2
  | ActSend key data :: rest => run_actions rest (sendDataInternal key data m).2
  | ActRegister key cb instance scope :: rest => run_actions rest (performRegistration key cb instance scope m)
  | ActUnregister key instance :: rest => run_actions rest (performUnregistration key instance m)
  | ActFulfil p data :: rest =>
      (* the first value stays; setting a second one throws, which the callback catches *)
      run_actions rest
        (match m_promises m !! p with
         | Some _ => m
         | None => with_promises (<[p := data]> (m_promises m)) m
         end)
  end.

Definition invoke (data : string) (isLocal : bool) (m : Manager) (entry : CallbackEntry) : Manager :=
  if scopeAccepts (ce_scope entry) isLocal then
    match ce_func entry with
    | Some cb => run_actions (callback_body cb data) (with_calls (m_calls m ++ [(ce_instance entry, data)]) m)
    | None => m
    end
  else m.

Definition dispatch (data : string) (isLocal : bool) (callbacks : option (list CallbackEntry)) (m : Manager)
    : Manager :=
  foldl (invoke data isLocal) m (default [] callbacks).

(** [brokerId] is what the worker answers for it. *)
Definition message_is_local (brokerId : string) (env : Envelope) (m : Manager) : bool :=
  if decide (0 < m_scopedHandlers m)%Z
  then bool_decide (brokerId = EmptyString) || bool_decide (origin_broker_id (env_header env) = brokerId)
  else true.

Definition handleMessage (brokerId : string) (env : Envelope) (m : Manager) : Manager :=
  let topic := topic (env_header env) in
  let callbacks := m_msgHandlers m !! topic in
  let wildcardCallbacks :=
    if decide (topic = Keys.WILDCARD_TOPIC) then None else m_msgHandlers m !! Keys.WILDCARD_TOPIC in
  match callbacks, wildcardCallbacks with
  | None, None => m
  | _, _ =>
      let isLocal := message_is_local brokerId env m in
      let m := with_replyTopic (reply_topic (env_header env)) m in
      let m := dispatch (env_payload env) isLocal callbacks m in
      let m := dispatch (env_payload env) isLocal wildcardCallbacks m in
      with_replyTopic EmptyString m
  end.

Definition handleOne (brokerId : string) (env : Envelope) (m : Manager) : Manager :=
  if decide (handler_key (env_header env) = Keys.RESET) then resubscribeAll m
  else handleMessage brokerId env m.

(** One turn of [processingLoop]: a message of the batch, or the next wait on the
    queue; [None] while it sleeps there or once it has ended. *)
Definition process_step (brokerId : string) (m : Manager) : option Manager :=
  if m_processing m then
    match m_batch m with
    | env :: rest =>
        Some (if m_running m then handleOne brokerId env (with_batch rest m) else with_batch [] m)
    | [] =>
        if canPop (m_inbound m) then
          match pop_ready (m_inbound m) with
          | (None, _) => Some (with_processing false m)
          | (Some env, q) =>
              let m := with_inbound q m in
              if m_running m then
                let m := handleOne brokerId env m in
                let '(batch, q) := drainTo (m_inbound m) in
                Some (with_batch batch (with_inbound q m))
              else Some (with_processing false m)
          end
        else None
    end
  else None.

(** [uuid] is what [generateUUID] gives for an empty client id. *)
Definition corrected_clientId (uuid clientId : string) : string :=
  if decide (clientId = EmptyString) then "wisp-" +:+ str_take 8 uuid
  else if decide (255 < String.length clientId) then str_take 255 clientId
  else clientId.

Definition new_manager (uuid : string) (config : ConnectionConfig) : Manager :=
  let clientId := corrected_clientId uuid (cfg_clientId config) in
  let workerConfig := mkConfig (cfg_address config) clientId (cfg_keepAliveTime config) (cfg_keepAliveTimeout config) in
  mkManager clientId (worker_start (new_worker workerConfig)) (new_queue DefaultQueueSize) true false ∅ 0
    EmptyString [] true ∅ [] 0 true.

Definition teardown (m : Manager) : Manager :=
  let m := with_inbound (queue_stop (m_inbound m)) (with_running false m) in
  with_worker (worker_stop (m_pWorker m)) (with_processing false (with_batch [] m)).

(** ** Requests *)

Definition fulfil (p : Z) : Callback := mkCallback (λ data, [ActFulfil p data]).

(** [sendRequest] up to its wait, [p] the address of a new promise: whether it waits, the reply topic, the instance. *)
Definition sendRequest_begin (p : Z) (uuid requestTopic payload : string) (m : Manager)
    : bool * string * Manager :=
  let m := with_promises (delete p (m_promises m)) m in
  let replyTopic := makeReplyTopic uuid requestTopic in
  let m := performRegistration replyTopic (Some (fulfil p)) p Origins.Any m in
  let request := mkEnvelope (mkHeader requestTopic (m_clientId m) requestTopic EmptyString EmptyString replyTopic) payload in
  match sendRawEnvelope request m with
  | (true, m) => (true, replyTopic, m)
  | (false, m) => (false, replyTopic, performUnregistration replyTopic p m)
  end.

(** Its end: the answer, if one came in time. *)
Definition sendRequest_end (p : Z) (replyTopic : string) (m : Manager) : option string * Manager :=
  (m_promises m !! p, performUnregistration replyTopic p m).

(** The whole call on an instance, [meanwhile] being what the other threads do to it
    during the wait.  [onProcessingThread] is refused. *)
Definition sendRequest (onProcessingThread : bool) (p : Z) (uuid requestTopic payload : string)
    (meanwhile : Manager → Manager) (m : Manager) : option string * Manager :=
  if onProcessingThread then (None, m)
  else
    match sendRequest_begin p uuid requestTopic payload m with
    | (true, replyTopic, m) => sendRequest_end p replyTopic (meanwhile m)
    | (false, _, m) => (None, m)
    end.

(** ** The singleton *)

Definition Pending : Type := string * option Callback * Z * Origin.

(** [s_stopped]: the instances shut down, for the record. *)
Record Client := mkClient {
  s_instance : option Manager;
  s_pendingMsgCallbacks : list Pending;
  s_stopped : list Manager
}.

Definition no_client : Client := mkClient None [] [].

Definition register_pending (m : Manager) (p : Pending) : Manager :=
  let '(key, callback, instance, scope) := p in performRegistration key callback instance scope m.

Definition init (uuid : string) (config : ConnectionConfig) (c : Client) : Client :=
  match s_instance c with
  | Some _ => c
  | None =>
      mkClient (Some (foldl register_pending (new_manager uuid config) (s_pendingMsgCallbacks c))) []
        (s_stopped c)
  end.

Definition shutdown (onProcessingThread : bool) (c : Client) : Client :=
  match s_instance c with
  | None => c
  | Some m =>
      if onProcessingThread then c
      else
        let m := with_running false m in
        let m := if m_connected m
                 then with_worker (writeControlMessage (createControlEnvelope Keys.DISCONNECT EmptyString m) (m_pWorker m)).2 m
                 else m in
        mkClient None (s_pendingMsgCallbacks c) (s_stopped c ++ [teardown m])
  end.

Definition registerInternal (key : string) (callback : option Callback) (instance : Z) (scope : Origin)
    (c : Client) : Client :=
  match s_instance c with
  | Some m => mkClient (Some (performRegistration key callback instance scope m)) (s_pendingMsgCallbacks c) (s_stopped c)
  | None => mkClient None (s_pendingMsgCallbacks c ++ [(key, callback, instance, scope)]) (s_stopped c)
  end.

Definition unregisterCallback (key : string) (instance : Z) (c : Client) : Client :=
  match s_instance c with
  | Some m => mkClient (Some (performUnregistration key instance m)) (s_pendingMsgCallbacks c) (s_stopped c)
  | None =>
      mkClient None (filter (λ p : Pending, ¬ (p.1.1.1 = key ∧ p.1.2 = instance)) (s_pendingMsgCallbacks c))
        (s_stopped c)
  end.

(** The calls that only need an instance: [None] is a missing one. *)
Definition on_instance (f : Manager → bool * Manager) (c : Client) : bool * Client :=
  match s_instance c with
  | None => (false, c)
  | Some m => let '(ok, m) := f m in (ok, mkClient (Some m) (s_pendingMsgCallbacks c) (s_stopped c))
  end.

Definition sendMessage (key message : string) : Client → bool * Client := on_instance (sendDataInternal key message).

Definition sendEncodedWithReply (key payload replyTopic : string) : Client → bool * Client :=
  on_instance (λ m,
    if decide (replyTopic = EmptyString) then (false, m)
    else if Keys.isReservedKey replyTopic then (false, m)
    else if decide (MAX_TOPIC_LENGTH_BYTES < String.length replyTopic) then (false, m)
    else sendRawEnvelope (mkEnvelope (mkHeader key (m_clientId m) key EmptyString EmptyString replyTopic) payload) m).

Definition setCluster (name : string) (c : Client) : bool * Client :=
  if isValidClusterName name then sendMessage Keys.SET_CLUSTER name c else (false, c).

Definition replyToSenderEncoded (payload : string) : Client → bool * Client := on_instance (sendReplyEnvelope payload).

Definition isConnected (c : Client) : bool :=
  match s_instance c with Some m => m_connected m | None => false end.

Definition isInitialized (c : Client) : bool :=
  match s_instance c with Some _ => true | None => false end.
End manager.
