(* ===== verification/ConnectionManagerInv.v ===== *)
(** * Invariants of the client library

    What every operation of [ConnectionManager] keeps: the registrations are well
    formed, the count of narrowed ones is right, and the subscriptions the broker holds
    for the client, computed from the control messages the worker took, follow the
    registrations. *)

From Stdlib Require Import ZArith Lia.
From S2P Require Import Prelude.
From S2P Require Import MessageKeys.
From S2P Require Import Config.
From S2P Require Import SafeQueue.
From S2P Require Import Wire.
From S2P Require Import Worker.
From S2P Require Import Registry.
From S2P Require Import ConnectionManager.

(** ** The broker's side of a session *)

(** What a control message does to the subscriptions of its sender. *)
Definition apply_control (subs : gmap string Origin) (m : Envelope) : gmap string Origin :=
  let h := env_header m in
  if decide (handler_key h = Keys.SUBSCRIBE) then <[topic h := decodeSubscribeScope (env_payload m)]> subs
  else if decide (handler_key h = Keys.UNSUBSCRIBE) then delete (topic h) subs
  else subs.

(** The same on the broker's registry. *)
Definition registry_apply (clientId : string) (reg : SubscriptionRegistry) (m : Envelope) : SubscriptionRegistry :=
  let h := env_header m in
  if decide (handler_key h = Keys.SUBSCRIBE)
  then (subscribe clientId (topic h) (decodeSubscribeScope (env_payload m)) reg).2
  else if decide (handler_key h = Keys.UNSUBSCRIBE) then (unsubscribe clientId (topic h) reg).2
  else reg.

Lemma registry_applies clientId ms reg subs t :
  (∀ t, held reg clientId t = subs !! t) →
  held (foldl (registry_apply clientId) reg ms) clientId t = foldl apply_control subs ms !! t.
Proof.
  revert reg subs; induction ms as [|m ms IH]; intros reg subs H; simpl; [done|]. apply IH.
  intros t'. unfold registry_apply, apply_control. case_decide; [|case_decide; [|done]].
  - rewrite held_subscribe, lookup_insert, H. repeat case_decide; simplify_eq; done.
  - rewrite held_unsubscribe, lookup_delete, H. repeat case_decide; simplify_eq; done.
Qed.

(** Keys that are not about the sender's session. *)
Definition plain_key (key : string) : Prop := key ≠ Keys.SUBSCRIBE ∧ key ≠ Keys.UNSUBSCRIBE.

Lemma apply_control_plain subs m : plain_key (handler_key (env_header m)) → apply_control subs m = subs.
Proof. intros [? ?]. unfold apply_control. by rewrite !decide_False. Qed.

(** ** Well-formed registrations *)

(** Callbacks that register with one of the three scopes and do not publish under the
    subscription keys. *)
Inductive good_action : Action → Prop :=
  | good_reply data : good_action (ActReply data)
  | good_send key data : plain_key key → good_action (ActSend key data)
  | good_register key cb instance scope :
      named_scope scope → good_func cb → good_action (ActRegister key cb instance scope)
  | good_unregister key instance : good_action (ActUnregister key instance)
  | good_fulfil p data : good_action (ActFulfil p data)
  | good_throw : good_action ActThrow
with good_func : option Callback → Prop :=
  | good_none : good_func None
  | good_some body : (∀ data a, a ∈ body data → good_action a) → good_func (Some (mkCallback body)).

Definition entry_ok (e : CallbackEntry) : Prop := named_scope (ce_scope e) ∧ good_func (ce_func e).

Definition handlers_ok (h : gmap string (list CallbackEntry)) : Prop :=
  ∀ t l, h !! t = Some l → l ≠ [] ∧ Forall entry_ok l.

(** How many registrations are narrower than [Any]. *)
Definition scoped_in (l : list CallbackEntry) : nat := length (filter (λ e, isScoped (ce_scope e)) l).

Definition scoped_count (h : gmap string (list CallbackEntry)) : nat :=
  map_fold (λ _ l n, scoped_in l + n) 0 h.

Lemma widen_named a b : (origin_bits a = 0%Z ∨ named_scope a) → named_scope b → named_scope (widen a b).
Proof.
  destruct a as [a]. intros [Ha|Ha] [->|[->| ->]]; simpl in *; subst; try (by left); try (by right; left); try (by right; right);
    destruct Ha as [[= ->]|[[= ->]|[= ->]]]; vm_compute; auto.
Qed.

Lemma unionScope_from a l :
  (origin_bits a = 0%Z ∧ l ≠ [] ∨ named_scope a) → Forall entry_ok l →
  named_scope (foldl (λ scope entry, widen scope (ce_scope entry)) a l).
Proof.
  revert a; induction l as [|e l IH]; intros a Ha Hl; simpl; [destruct Ha as [[_ ?]|?]; done|].
  apply Forall_cons in Hl as [[He _] Hl]. apply IH; [|done]. right. apply widen_named; [|done]. tauto.
Qed.

Lemma unionScope_named l : l ≠ [] → Forall entry_ok l → named_scope (unionScope l).
Proof. intros. apply unionScope_from; [by left|done]. Qed.

Lemma scoped_count_insert h t l :
  scoped_count (<[t := l]> h) + scoped_in (default [] (h !! t)) = scoped_count h + scoped_in l.
Proof.
  unfold scoped_count. rewrite <-insert_delete_eq, map_fold_insert_L; [|intros; lia|by rewrite lookup_delete_eq].
  destruct (h !! t) as [l0|] eqn:E; simpl.
  - rewrite (map_fold_delete_L _ _ t l0 h); [cbv beta; lia|intros; lia|done].
  - rewrite delete_id by done. change (scoped_in []) with 0. lia.
Qed.

Lemma scoped_count_delete h t l :
  h !! t = Some l → scoped_count h = scoped_in l + scoped_count (delete t h).
Proof. intros E. unfold scoped_count. by rewrite (map_fold_delete_L _ _ t l h) by (done || intros; lia). Qed.

Lemma scoped_count_zero h t l e :
  scoped_count h = 0 → h !! t = Some l → e ∈ l → ce_scope e = Origins.Any.
Proof.
  intros Hc Ht He. rewrite (scoped_count_delete _ _ _ Ht) in Hc.
  assert (scoped_in l = 0) as Hl by lia. apply nil_length_inv in Hl.
  destruct (decide (ce_scope e = Origins.Any)) as [|Hne]; [done|].
  assert (e ∈ filter (λ e, isScoped (ce_scope e)) l) as Hin.
  { apply list_elem_of_filter. split; [|done]. unfold isScoped. by rewrite bool_decide_false. }
  rewrite Hl in Hin. by apply not_elem_of_nil in Hin.
Qed.

Lemma scoped_in_cons e l : scoped_in (e :: l) = (if isScoped (ce_scope e) then 1 else 0) + scoped_in l.
Proof. unfold scoped_in. rewrite filter_cons. destruct (isScoped (ce_scope e)); simpl; by repeat case_decide. Qed.

Lemma scoped_in_app l1 l2 : scoped_in (l1 ++ l2) = scoped_in l1 + scoped_in l2.
Proof. unfold scoped_in. by rewrite filter_app, length_app. Qed.

Lemma wrap_minus n k : wrap 64 (wrap 64 n - k) = wrap 64 (n - k).
Proof. unfold wrap. apply Zminus_mod_idemp_l. Qed.

Lemma wrap_plus n k : wrap 64 (wrap 64 n + k) = wrap 64 (n + k).
Proof. unfold wrap. apply Zplus_mod_idemp_l. Qed.

(** The copy keeps the other instances' entries, and the count goes down by the scoped
    ones that go. *)
Lemma drop_instance_spec i l n :
  drop_instance i l (wrap 64 (n + Z.of_nat (scoped_in l))) =
    (filter (λ e, ce_instance e ≠ i) l, wrap 64 (n + Z.of_nat (scoped_in (filter (λ e, ce_instance e ≠ i) l)))).
Proof.
  revert n; induction l as [|e l IH]; intros n; simpl; [done|].
  rewrite scoped_in_cons, filter_cons. case_decide as Hi.
  - rewrite decide_False by (by intros []). rewrite <-IH. f_equal.
    destruct (isScoped (ce_scope e)); [rewrite wrap_minus|]; f_equal; lia.
  - rewrite decide_True by done. rewrite scoped_in_cons.
    replace (n + Z.of_nat ((if isScoped (ce_scope e) then 1 else 0) + scoped_in l))%Z with
      (n + (if isScoped (ce_scope e) then 1 else 0) + Z.of_nat (scoped_in l))%Z by (destruct (isScoped _); lia).
    rewrite IH. do 2 f_equal. destruct (isScoped _); lia.
Qed.

(** ** The subscriptions at the broker *)

Section mirror.
Context {W : Type} `{!WorkerInterface W} `{!WorkerLaws W}.
Implicit Types (m : @Manager W).

Definition written m : list Envelope := control_written (m_pWorker m).

(** What the broker holds for the client: the effect of the control messages since it
    last forgot the session. *)
Definition remote m : gmap string Origin := foldl apply_control ∅ (drop (m_epoch m) (written m)).

Definition wanted m : gmap string Origin := unionScope <$> m_msgHandlers m.

Definition refused m : nat := control_refused (m_pWorker m).

(** [m'] is [m] after some sends, whose control messages took the broker's view from
    that of [m] to [f] of it, unless one was refused. *)
Record sent (f : gmap string Origin → gmap string Origin) m m' : Prop := {
  sent_worker : ∃ w, m' = with_worker w m;
  sent_epoch : m_epoch m ≤ length (written m) → m_epoch m ≤ length (written m');
  sent_refused : refused m' = 0 → refused m = 0;
  sent_remote : m_epoch m ≤ length (written m) → refused m' = 0 → remote m' = f (remote m)
}.

Lemma sent_refl m : sent id m m.
Proof. split; try done. exists (m_pWorker m). by destruct m. Qed.

Lemma sent_trans f g m1 m2 m3 : sent f m1 m2 → sent g m2 m3 → sent (g ∘ f) m1 m3.
Proof.
  intros [[w1 E1] P1 R1 M1] [[w2 E2] P2 R2 M2].
  assert (m_epoch m2 = m_epoch m1) as Ee by (by subst).
  split.
  - exists w2. by subst.
  - intros H. rewrite <-Ee. apply P2. rewrite Ee. auto.
  - auto.
  - intros H Hr. simpl. rewrite M2, M1; auto. rewrite Ee. auto.
Qed.

Lemma sendRaw_sent env m :
  sent (λ subs, if Keys.isControlMessage (handler_key (env_header env)) then apply_control subs env else subs)
    m (sendRawEnvelope env m).2.
Proof.
  unfold sendRawEnvelope. destruct (Keys.isControlMessage _).
  - destruct (writeControlMessage env (m_pWorker m)) as [ok w] eqn:E.
    apply writeControlMessage_law in E as (Hw & Hr & _).
    split; unfold written, refused, remote in *; simpl.
    + by eexists.
    + rewrite Hw, length_app. lia.
    + rewrite Hr. by destruct ok.
    + intros He H0. rewrite Hr in H0. destruct ok; [|done]. unfold written. simpl.
      by rewrite Hw, drop_app_le, foldl_app by done.
  - destruct (writeMessage env (m_pWorker m)) as [ok w] eqn:E.
    apply writeMessage_law in E as (_ & Hw & Hr & _).
    split; unfold written, refused, remote, written in *; simpl; rewrite ?Hw, ?Hr; try done. by eexists.
Qed.

Lemma sendRaw_plain env m :
  plain_key (handler_key (env_header env)) → sent id m (sendRawEnvelope env m).2.
Proof.
  intros Hp. pose proof (sendRaw_sent env m) as [Hw He Hr Hm]. split; try done.
  intros H1 H2. rewrite Hm by done. rewrite apply_control_plain by done. by destruct (Keys.isControlMessage _).
Qed.

Lemma send_subscribe_sent m key l :
  m_msgHandlers m !! key = Some l → l ≠ [] → Forall entry_ok l →
  sent <[key := unionScope l]> m (send_subscribe m key).
Proof.
  intros Hk Hl Hok. unfold send_subscribe, createSubscribeEnvelope. rewrite Hk.
  match goal with |- context [sendRawEnvelope ?e m] => pose proof (sendRaw_sent e m) as [Hw He Hr Hm] end.
  split; try done. intros H1 H2. rewrite Hm by done. simpl. unfold apply_control. simpl.
  by rewrite subscribeScope_roundtrip by (by apply unionScope_named).
Qed.

Lemma send_unsubscribe_sent m key :
  sent (delete key) m (sendRawEnvelope (createControlEnvelope Keys.UNSUBSCRIBE key m) m).2.
Proof.
  pose proof (sendRaw_sent (createControlEnvelope Keys.UNSUBSCRIBE key m) m) as [Hw He Hr Hm].
  by split.
Qed.

(** One [__SUBSCRIBE__] per key. *)
Definition insert_wanted (h : gmap string (list CallbackEntry)) (subs : gmap string Origin) (key : string) :=
  match h !! key with Some l => <[key := unionScope l]> subs | None => subs end.

Lemma send_keys_sent ks m :
  handlers_ok (m_msgHandlers m) → (∀ k, k ∈ ks → is_Some (m_msgHandlers m !! k)) →
  sent (λ subs, foldl (insert_wanted (m_msgHandlers m)) subs ks) m (foldl send_subscribe m ks).
Proof.
  intros Hok. revert m Hok. induction ks as [|k ks IH]; intros m Hok Hks; simpl; [apply sent_refl|].
  destruct (Hks k) as [l Hl]; [left|]. destruct (Hok k l Hl) as [Hne Hf].
  pose proof (send_subscribe_sent m k l Hl Hne Hf) as Hs. destruct (sent_worker _ _ _ Hs) as [w Ew].
  assert (m_msgHandlers (send_subscribe m k) = m_msgHandlers m) as Eh by (by rewrite Ew).
  pose proof (IH (send_subscribe m k)) as IH'. rewrite Eh in IH'.
  pose proof (sent_trans _ _ _ _ _ Hs (IH' Hok ltac:(intros; apply Hks; by right))) as Ht.
  destruct Ht as [H1 H2 H3 H4]. split; try done. intros. rewrite H4 by done. simpl.
  unfold insert_wanted at 3. by rewrite Hl.
Qed.

Lemma insert_wanteds h ks subs t :
  foldl (insert_wanted h) subs ks !! t =
    if decide (t ∈ ks) then match h !! t with Some l => Some (unionScope l) | None => subs !! t end else subs !! t.
Proof.
  revert subs; induction ks as [|k ks IH]; intros subs; cbn [foldl];
    [by rewrite decide_False by apply not_elem_of_nil|]. rewrite IH. unfold insert_wanted.
  destruct (decide (t = k)) as [->|Hne].
  - rewrite (decide_True (P := k ∈ k :: ks)) by left.
    destruct (h !! k) as [l|]; [rewrite lookup_insert_eq|]; by case_decide.
  - assert (match h !! k with Some l => <[k := unionScope l]> subs | None => subs end !! t = subs !! t) as ->.
    { destruct (h !! k); [by rewrite lookup_insert_ne|done]. }
    destruct (decide (t ∈ ks)); [rewrite decide_True by by right|rewrite decide_False by (rewrite elem_of_cons; tauto)]; done.
Qed.

(** All of them: with nothing left over, the broker holds what is wanted. *)
Lemma send_subscriptions_sent m :
  handlers_ok (m_msgHandlers m) →
  sent (λ subs, foldl (insert_wanted (m_msgHandlers m)) subs (map_entries (m_msgHandlers m)).*1)
    m (send_subscriptions m).
Proof.
  intros Hok. apply send_keys_sent; [done|]. intros k ([k' l] & -> & Hin)%list_elem_of_fmap.
  apply elem_of_map_entries in Hin. by eexists.
Qed.

Lemma all_wanted h (subs : gmap string Origin) :
  (∀ t, is_Some (subs !! t) → is_Some (h !! t)) →
  foldl (insert_wanted h) subs (map_entries h).*1 = unionScope <$> h.
Proof.
  intros Hsub. apply map_eq. intros t. rewrite insert_wanteds, lookup_fmap.
  destruct (h !! t) as [l|] eqn:E; simpl.
  - rewrite decide_True; [done|]. apply list_elem_of_fmap. exists (t, l). split; [done|]. by apply elem_of_map_entries.
  - assert (subs !! t = None) as Hn.
    { destruct (subs !! t) eqn:Es; [|done]. destruct (Hsub t) as [? ?]; [by rewrite Es|congruence]. }
    by case_decide.
Qed.

(** ** The invariant *)

(** A message whose reply topic does not name a subscription key. *)
Definition plain_reply (env : Envelope) : Prop := plain_key (reply_topic (env_header env)).

Record client_inv m : Prop := {
  ci_handlers : handlers_ok (m_msgHandlers m);
  ci_scoped : m_scopedHandlers m = wrap 64 (Z.of_nat (scoped_count (m_msgHandlers m)));
  ci_epoch : m_epoch m ≤ length (written m);
  ci_sub : refused m = 0 → ∀ t, is_Some (remote m !! t) → is_Some (m_msgHandlers m !! t);
  ci_exact : refused m = 0 → m_connected m = true → m_synced m = true → remote m = wanted m;
  ci_reply : plain_key (t_currentReplyTopic m);
  ci_inbound : Forall plain_reply (m_queue (m_inbound m));
  ci_batch : Forall plain_reply (m_batch m)
}.

(** A send that leaves the broker's view alone. *)
Lemma sent_id_inv m m' : sent id m m' → client_inv m → client_inv m'.
Proof.
  intros [[w ->] He Hr Hm] []. split; try done.
  - by apply He.
  - intros H0. rewrite Hm by done. apply ci_sub0. by apply Hr.
  - intros H0 Hc Hs. rewrite Hm by done. apply ci_exact0; try done. by apply Hr.
Qed.

Lemma performRegistration_inv key cb i scope m :
  named_scope scope → good_func cb → client_inv m → client_inv (performRegistration key cb i scope m).
Proof.
  intros Hsc Hcb []. unfold performRegistration.
  set (next := default [] (m_msgHandlers m !! key) ++ [mkEntry i cb scope]).
  set (m1 := with_handlers _ _ m).
  assert (next ≠ [] ∧ Forall entry_ok next) as [Hne Hok].
  { unfold next. split; [by destruct (default _ _)|]. apply Forall_app. split; [|by apply Forall_singleton].
    destruct (m_msgHandlers m !! key) as [l|] eqn:E; simpl; [by apply (ci_handlers0 key)|apply Forall_nil_2]. }
  assert (handlers_ok (m_msgHandlers m1)) as Hh.
  { intros t l. simpl. rewrite lookup_insert. case_decide; [by intros [= <-]|apply ci_handlers0]. }
  assert (m_scopedHandlers m1 = wrap 64 (Z.of_nat (scoped_count (m_msgHandlers m1)))) as Hcount.
  { simpl. pose proof (scoped_count_insert (m_msgHandlers m) key next) as Hs.
    unfold next in Hs at 2. rewrite scoped_in_app, scoped_in_cons in Hs. simpl in Hs.
    change (scoped_in []) with 0 in Hs. rewrite ci_scoped0.
    destruct (isScoped scope); [rewrite wrap_plus|]; f_equal; lia. }
  assert (∀ t, is_Some (m_msgHandlers m !! t) → is_Some (m_msgHandlers m1 !! t)) as Hgrow.
  { intros t Ht. simpl. rewrite lookup_insert. by case_decide. }
  destruct (m_connected m1) eqn:Hconn.
  - assert (m_msgHandlers m1 !! key = Some next) as Hk by (simpl; by rewrite lookup_insert_eq).
    pose proof (send_subscribe_sent m1 key next Hk Hne Hok) as [[w Ew] He Hr Hm]. rewrite Ew in *.
    split; try done.
    + by apply He.
    + intros H0 t. rewrite Hm by done. simpl. rewrite !lookup_insert. case_decide; [done|].
      apply ci_sub0. by apply Hr.
    + intros H0 Hc Hs. rewrite Hm by done. change (remote m1) with (remote m).
      rewrite ci_exact0 by (done || by apply Hr). unfold wanted. simpl. by rewrite fmap_insert.
  - split; try done.
    + intros H0 t Ht. apply Hgrow. by apply ci_sub0.
    + intros H0 Hc. by rewrite Hconn in Hc.
Qed.

(** The last registration on a topic goes: so does the subscription. *)
Lemma unregister_last_inv key m n :
  client_inv m → n = wrap 64 (Z.of_nat (scoped_count (delete key (m_msgHandlers m)))) →
  let m1 := with_handlers (delete key (m_msgHandlers m)) n m in
  client_inv (sendRawEnvelope (createControlEnvelope Keys.UNSUBSCRIBE key m1) m1).2.
Proof.
  intros [] Hn m1. pose proof (send_unsubscribe_sent m1 key) as [[w Ew] He Hr Hm]. rewrite Ew in *.
  split; try done.
  - intros t l'. simpl. rewrite lookup_delete. case_decide; [done|apply ci_handlers0].
  - by apply He.
  - intros H0 t. rewrite Hm by done. simpl. rewrite !lookup_delete. case_decide; [by intros []|].
    apply ci_sub0. by apply Hr.
  - intros H0 Hc Hs. rewrite Hm by done. change (remote m1) with (remote m).
    rewrite ci_exact0 by (done || by apply Hr). unfold wanted. simpl. by rewrite fmap_delete.
Qed.

(** Some of them go: the subscription is narrowed if that changes it. *)
Lemma unregister_some_inv key l next m n :
  client_inv m → m_msgHandlers m !! key = Some l → next ≠ [] → Forall entry_ok next →
  n = wrap 64 (Z.of_nat (scoped_count (<[key := next]> (m_msgHandlers m)))) →
  let m1 := with_handlers (<[key := next]> (m_msgHandlers m)) n m in
  client_inv (if m_connected m1 && negb (bool_decide (unionScope next = unionScope l)) then send_subscribe m1 key else m1).
Proof.
  intros [] Ek Hne Hok Hn m1.
  assert (handlers_ok (m_msgHandlers m1)) as Hh.
  { intros t l'. simpl. rewrite lookup_insert. case_decide; [by intros [= <-]|apply ci_handlers0]. }
  assert (∀ t, is_Some (m_msgHandlers m !! t) → is_Some (m_msgHandlers m1 !! t)) as Hgrow.
  { intros t Ht. simpl. rewrite lookup_insert. by case_decide. }
  destruct (_ && _) eqn:Eb.
  - assert (m_msgHandlers m1 !! key = Some next) as Hk by (simpl; by rewrite lookup_insert_eq).
    pose proof (send_subscribe_sent m1 key next Hk Hne Hok) as [[w Ew] He Hr Hm]. rewrite Ew in *.
    split; try done.
    + by apply He.
    + intros H0 t. rewrite Hm by done. simpl. rewrite !lookup_insert. case_dec; [by intros _; eexists|].
      apply ci_sub0. by apply Hr.
    + intros H0 Hc Hs. rewrite Hm by done. change (remote m1) with (remote m).
      rewrite ci_exact0 by (done || by apply Hr). unfold wanted. simpl. by rewrite fmap_insert.
  - split; try done.
    + intros H0 t Ht. apply Hgrow. by apply ci_sub0.
    + intros H0 Hc Hs. change (remote m1) with (remote m). rewrite (ci_exact0 H0 Hc Hs).
      simpl in Hc. apply andb_false_iff in Eb as [Eb|Eb]; [simpl in Eb; congruence|].
      apply negb_false_iff, bool_decide_eq_true in Eb.
      unfold wanted. simpl. rewrite fmap_insert, Eb. symmetry. apply insert_id. by rewrite lookup_fmap, Ek.
Qed.

Lemma performUnregistration_inv key i m : client_inv m → client_inv (performUnregistration key i m).
Proof.
  intros H. unfold performUnregistration. destruct (m_msgHandlers m !! key) as [l|] eqn:Ek; [|done].
  pose proof (scoped_count_delete _ _ _ Ek) as Hsd.
  assert (drop_instance i l (m_scopedHandlers m) = (filter (λ e, ce_instance e ≠ i) l,
    wrap 64 (Z.of_nat (scoped_count (delete key (m_msgHandlers m))) +
             Z.of_nat (scoped_in (filter (λ e, ce_instance e ≠ i) l))))) as ->.
  { rewrite <-drop_instance_spec, (ci_scoped _ H). f_equal. f_equal. lia. }
  set (next := filter _ l). case_decide as Hn.
  - apply unregister_last_inv; [done|]. rewrite Hn. change (scoped_in []) with 0. f_equal. lia.
  - apply unregister_some_inv; try done.
    + apply Forall_forall. intros e [_ He]%list_elem_of_filter.
      destruct (ci_handlers _ H key l Ek) as [_ Hl]. by eapply Forall_forall in Hl.
    + pose proof (scoped_count_insert (m_msgHandlers m) key next) as Hs. rewrite Ek in Hs. simpl in Hs. f_equal. lia.
Qed.

(** Re-sending everything puts the broker in step, whatever it held of it. *)
Lemma send_subscriptions_inv m :
  client_inv (with_session (m_epoch m) false m) → client_inv (with_session (m_epoch m) true (send_subscriptions m)).
Proof.
  intros []. pose proof (send_subscriptions_sent m ci_handlers0) as [[w Ew] He Hr Hm]. rewrite Ew in *.
  assert (refused (with_worker w m) = 0 → remote (with_worker w m) = wanted m) as Hex.
  { intros H0. rewrite Hm by done. apply all_wanted. apply ci_sub0. by apply Hr. }
  split; try done; [by apply He| |].
  - intros H0 t Ht. change (is_Some (remote (with_worker w m) !! t)) in Ht. rewrite Hex in Ht by done.
    unfold wanted in Ht. by rewrite lookup_fmap, fmap_is_Some in Ht.
  - intros H0 _ _. by apply Hex.
Qed.

Lemma resubscribeAll_inv m : client_inv m → client_inv (resubscribeAll m).
Proof. intros []. apply send_subscriptions_inv. by split. Qed.

Lemma statusHandler_inv connected m : client_inv m → client_inv (statusHandler connected m).
Proof.
  intros H. unfold statusHandler. destruct connected; [|by destruct H; split].
  set (m1 := with_connected true m).
  assert (sent id m1 (sendRawEnvelope (createControlEnvelope Keys.CONNECT EmptyString m1) m1).2) as Hs
    by (apply sendRaw_plain; by split).
  pose proof Hs as [[w Ew] He Hr Hm]. rewrite Ew in *. apply send_subscriptions_inv.
  destruct H. split; try done; [by apply He|]. intros H0. change (remote _) with (remote (with_worker w m1)).
  rewrite Hm by done. apply ci_sub0. by apply Hr.
Qed.

(** ** Callbacks and messages *)

Lemma sendData_inv key data m : plain_key key → client_inv m → client_inv (sendDataInternal key data m).2.
Proof. intros ?. apply sent_id_inv, sendRaw_plain. done. Qed.

Lemma sendReply_inv data m : client_inv m → client_inv (sendReplyEnvelope data m).2.
Proof.
  intros H. unfold sendReplyEnvelope. case_decide; [done|].
  eapply sent_id_inv; [|exact H]. apply sendRaw_plain. exact (ci_reply _ H).
Qed.

Lemma run_actions_inv actions m : Forall good_action actions → client_inv m → client_inv (run_actions actions m).
Proof.
  intros Ha. revert m. induction Ha as [|a rest Hg _ IH]; intros m H; [done|].
  destruct Hg; cbn [run_actions]; try apply IH; try done.
  - by apply sendReply_inv.
  - by apply sendData_inv.
  - by apply performRegistration_inv.
  - by apply performUnregistration_inv.
  - destruct (m_promises m !! p); [done|]. by destruct H.
Qed.

Lemma invoke_inv data isLocal m e : entry_ok e → client_inv m → client_inv (invoke data isLocal m e).
Proof.
  intros [_ Hf] H. unfold invoke. destruct (scopeAccepts _ _); [|done].
  destruct Hf as [|body Hb]; [done|]. apply run_actions_inv; [|by destruct H].
  apply Forall_forall. intros a. apply Hb.
Qed.

Lemma dispatch_inv data isLocal o m :
  Forall entry_ok (default [] o) → client_inv m → client_inv (dispatch data isLocal o m).
Proof.
  unfold dispatch. intros Ho. revert m. induction Ho as [|e l He _ IH]; intros m H; [done|]. simpl.
  apply IH, invoke_inv; done.
Qed.

Lemma handlers_ok_default h t : handlers_ok h → Forall entry_ok (default [] (h !! t)).
Proof. intros Hh. destruct (h !! t) eqn:E; [by eapply Hh|apply Forall_nil_2]. Qed.

(** The wildcard list a message is dispatched to after its topic's own. *)
Definition wildcard_list (topic : string) (h : gmap string (list CallbackEntry)) : option (list CallbackEntry) :=
  if decide (topic = Keys.WILDCARD_TOPIC) then None else h !! Keys.WILDCARD_TOPIC.

Lemma handleMessage_inv brokerId env m :
  plain_reply env → client_inv m → client_inv (handleMessage brokerId env m).
Proof.
  intros Hp H. unfold handleMessage.
  set (cs := m_msgHandlers m !! _). fold (wildcard_list (topic (env_header env)) (m_msgHandlers m)).
  set (ws := wildcard_list _ _).
  assert (Forall entry_ok (default [] cs)) as Hcs by apply handlers_ok_default, H.
  assert (Forall entry_ok (default [] ws)) as Hws.
  { unfold ws, wildcard_list. case_decide; [apply Forall_nil_2|apply handlers_ok_default, H]. }
  set (m1 := with_replyTopic (reply_topic (env_header env)) m).
  assert (client_inv m1) as H1 by (by destruct H; split).
  assert (∀ b, client_inv (with_replyTopic EmptyString
    (dispatch (env_payload env) b ws (dispatch (env_payload env) b cs m1)))) as Hd.
  { intros b. pose proof (dispatch_inv (env_payload env) b ws _ Hws (dispatch_inv (env_payload env) b cs _ Hcs H1)) as [].
    by split. }
  destruct cs; [apply Hd|]. destruct ws; [apply Hd|done].
Qed.

Lemma handleOne_inv brokerId env m : plain_reply env → client_inv m → client_inv (handleOne brokerId env m).
Proof. intros. unfold handleOne. case_decide; [by apply resubscribeAll_inv|by apply handleMessage_inv]. Qed.

Lemma process_step_inv brokerId m m' : process_step brokerId m = Some m' → client_inv m → client_inv m'.
Proof.
  unfold process_step. intros E H. destruct (m_processing m); [|done].
  destruct (m_batch m) as [|env rest] eqn:Eb.
  - destruct (canPop (m_inbound m)); [|done]. unfold pop_ready in E.
    destruct (m_queue (m_inbound m)) as [|env q] eqn:Eq; simplify_eq/=; [by destruct H; split|].
    pose proof (ci_inbound _ H) as Hi. rewrite Eq in Hi. apply Forall_cons in Hi as [He Hq].
    assert (client_inv (with_inbound (mkQueue q (m_stop (m_inbound m)) (m_maxSize (m_inbound m))) m)) as H1
      by (by destruct H; split).
    destruct (m_running m) eqn:Er; simplify_eq/=.
    + pose proof (handleOne_inv brokerId env _ He H1) as H2.
      by destruct H2; split.
    + by destruct H1; split.
  - pose proof (ci_batch _ H) as Hb. rewrite Eb in Hb. apply Forall_cons in Hb as [He Hr].
    destruct (m_running m); simplify_eq; [|destruct H; split; try done; apply Forall_nil_2].
    apply handleOne_inv; [done|]. by destruct H; split.
Qed.
End mirror.
