(* ===== verification/ConnectionManagerSpec.v ===== *)
(** * What the client library guarantees

    Runs of one [ConnectionManager] instance: messages that arrive, the processing
    thread, the status callback, registrations, sends and requests from any thread, and
    a broker that forgets the session.  The theorems show that the broker's registry
    follows the registrations, that a message reaches exactly the callbacks that want
    it, and that a request gets the first reply to its own topic and leaves nothing
    behind. *)

From Stdlib Require Import ZArith Lia.
From S2P Require Import Prelude.
From S2P Require Import MessageKeys.
From S2P Require Import Config.
From S2P Require Import SafeQueue.
From S2P Require Import Wire.
From S2P Require Import Worker.
From S2P Require Import Registry.
From S2P Require Import ConnectionManager.
From S2P Require Import ConnectionManagerInv.

(** ** Runs *)

Section runs.
Context {W : Type} `{!WorkerInterface W}.
Implicit Types (m : @Manager W).

(** [CForget k]: the broker drops what it knew of the session, the first [k] control
    messages with it; the later ones are still on their way to it. *)
Inductive CEvent :=
  | CReceive (env : Envelope)
  | CProcess (brokerId : string)
  | CStatus (connected : bool)
  | CRegister (key : string) (callback : option Callback) (instance : Z) (scope : Origin)
  | CUnregister (key : string) (instance : Z)
  | CSend (key data : string)
  | CRequest (p : Z) (uuid requestTopic payload : string)
  | CRequestEnd (p : Z) (replyTopic : string)
  | CForget (k : nat).

Definition cstep m (ev : CEvent) : @Manager W :=
  match ev with
  | CReceive env => with_inbound (push_timed env (m_inbound m)).2 m
  | CProcess brokerId => default m (process_step brokerId m)
  | CStatus connected => statusHandler connected m
  | CRegister key cb i scope => performRegistration key cb i scope m
  | CUnregister key i => performUnregistration key i m
  | CSend key data => (sendDataInternal key data m).2
  | CRequest p uuid requestTopic payload => (sendRequest_begin p uuid requestTopic payload m).2
  | CRequestEnd p replyTopic => (sendRequest_end p replyTopic m).2
  | CForget k => with_session (m_epoch m `max` (k `min` length (written m))) false m
  end.

Definition crun : list CEvent → @Manager W → @Manager W := λ evs m, foldl cstep m evs.

(** Callers register with the named scopes and do not publish under the subscription
    keys; nobody asks for the reply under one of them. *)
Definition good_event (ev : CEvent) : Prop :=
  match ev with
  | CReceive env => plain_reply env
  | CRegister _ cb _ scope => named_scope scope ∧ good_func cb
  | CSend key _ => plain_key key
  | CRequest _ _ requestTopic _ => plain_key requestTopic
  | _ => True
  end.
End runs.

Section run_inv.
Context {W : Type} `{!WorkerInterface W} `{!WorkerLaws W}.
Implicit Types (m : @Manager W).

(** Forgetting an older part of the session leaves nothing new behind. *)
Lemma apply_controls_suffix ms subs subs' t :
  (is_Some (subs' !! t) → is_Some (subs !! t)) →
  is_Some (foldl apply_control subs' ms !! t) → is_Some (foldl apply_control subs ms !! t).
Proof.
  revert subs subs'; induction ms as [|m ms IH]; intros subs subs' H; simpl; [done|]. apply IH.
  unfold apply_control. case_decide; [|case_decide; [|done]].
  - rewrite !lookup_insert. case_decide; [by eexists|done].
  - rewrite !lookup_delete. case_decide; [by intros []|done].
Qed.

Lemma forget_inv m k :
  client_inv m → client_inv (with_session (m_epoch m `max` (k `min` length (written m))) false m).
Proof.
  intros []. split; try done.
  - change (m_epoch m `max` (k `min` length (written m)) ≤ length (written m)). lia.
  - intros H0 t Ht. apply ci_sub; [done|]. revert Ht. unfold remote. simpl.
    change (written (with_session _ false m)) with (written m).
    set (k' := m_epoch m `max` (k `min` length (written m))).
    rewrite <-(take_drop (k' - m_epoch m) (drop (m_epoch m) (written m))), foldl_app, drop_drop.
    replace (m_epoch m + (k' - m_epoch m)) with k' by lia.
    apply apply_controls_suffix. by intros [].
Qed.

Lemma fulfil_good p : good_func (Some (fulfil p)).
Proof. constructor. intros data a ->%list_elem_of_singleton. constructor. Qed.

Lemma request_inv p uuid rt payload m :
  plain_key rt → client_inv m → client_inv (sendRequest_begin p uuid rt payload m).2.
Proof.
  intros Hp H. unfold sendRequest_begin.
  set (m1 := performRegistration _ _ _ _ _).
  assert (client_inv m1) as H1
    by (apply performRegistration_inv; [by right; right|apply fulfil_good|by destruct H]).
  match goal with |- context [sendRawEnvelope ?e m1] => pose proof (sendRaw_plain e m1 Hp) as Hs end.
  destruct (sendRawEnvelope _ m1) as [[] m2]; simpl in *; [by eapply sent_id_inv|].
  eapply performUnregistration_inv, sent_id_inv; done.
Qed.

Lemma cstep_inv ev m : good_event ev → client_inv m → client_inv (cstep m ev).
Proof.
  destruct ev; simpl; intros Hg H.
  - destruct H. split; try done. simpl. unfold push_timed, push_ready.
    destruct (hasRoom _); [destruct (m_stop _)|]; simpl; try done. apply Forall_app. by rewrite Forall_singleton.
  - destruct (process_step brokerId m) eqn:E; [by eapply process_step_inv|done].
  - by apply statusHandler_inv.
  - destruct Hg. by apply performRegistration_inv.
  - by apply performUnregistration_inv.
  - by apply sendData_inv.
  - by apply request_inv.
  - by apply performUnregistration_inv.
  - by apply forget_inv.
Qed.

Lemma new_manager_inv uuid config : client_inv (new_manager uuid config).
Proof.
  destruct (new_worker_blank (W := W) (mkConfig (cfg_address config)
    (corrected_clientId uuid (cfg_clientId config)) (cfg_keepAliveTime config) (cfg_keepAliveTimeout config)))
    as (Hw & _ & _).
  assert (written (new_manager (W := W) uuid config) = []) as Hn.
  { unfold written. simpl. destruct (worker_start_keeps (new_worker (W := W) (mkConfig (cfg_address config)
      (corrected_clientId uuid (cfg_clientId config)) (cfg_keepAliveTime config) (cfg_keepAliveTimeout config))))
      as (-> & _ & _). exact Hw. }
  assert (remote (new_manager (W := W) uuid config) = ∅) as Hr by (unfold remote; by rewrite Hn).
  split; try done.
  - simpl. lia.
  - intros _ t. rewrite Hr. by intros [].
Qed.

Lemma crun_inv evs m : Forall good_event evs → client_inv m → client_inv (crun evs m).
Proof.
  intros H. revert m. induction H as [|ev evs Hg _ IH]; intros m Hm; simpl; [done|]. apply IH. by apply cstep_inv.
Qed.
End run_inv.

(** ** Dispatch *)

Section dispatch.
Context {W : Type} `{!WorkerInterface W}.
Implicit Types (m : @Manager W).

Lemma sendRaw_worker env m : ∃ w, (sendRawEnvelope env m).2 = with_worker w m.
Proof.
  unfold sendRawEnvelope. destruct (Keys.isControlMessage _);
    [destruct (writeControlMessage _ _)|destruct (writeMessage _ _)]; by eexists.
Qed.

Lemma sendReply_worker data m : ∃ w, (sendReplyEnvelope data m).2 = with_worker w m.
Proof.
  unfold sendReplyEnvelope. case_decide; [|apply sendRaw_worker]. exists (m_pWorker m). by destruct m.
Qed.

(** Registering and unregistering touch the registrations and the worker only. *)
Lemma performRegistration_shape key cb i scope m :
  ∃ w n, performRegistration key cb i scope m =
    with_worker w (with_handlers (<[key := default [] (m_msgHandlers m !! key) ++ [mkEntry i cb scope]]> (m_msgHandlers m)) n m).
Proof.
  unfold performRegistration. set (m1 := with_handlers _ _ m). destruct (m_connected m1).
  - unfold send_subscribe. destruct (sendRaw_worker (createSubscribeEnvelope key m1) m1) as [w ->].
    by exists w, (m_scopedHandlers m1).
  - exists (m_pWorker m), (m_scopedHandlers m1). by destruct m.
Qed.

Lemma drop_instance_fst i l n : (drop_instance i l n).1 = filter (λ e, ce_instance e ≠ i) l.
Proof.
  revert n; induction l as [|e l IH]; intros n; simpl; [done|]. rewrite filter_cons.
  destruct (decide (ce_instance e = i)); [by rewrite decide_False by (by intros [])|].
  rewrite decide_True by done. specialize (IH n). destruct (drop_instance i l n). simpl in *. by rewrite IH.
Qed.

(** The registrations without an instance's under one key. *)
Definition without (key : string) (i : Z) (h : gmap string (list CallbackEntry)) : gmap string (list CallbackEntry) :=
  match h !! key with
  | None => h
  | Some l =>
      let next := filter (λ e, ce_instance e ≠ i) l in
      if decide (next = []) then delete key h else <[key := next]> h
  end.

Lemma performUnregistration_shape key i m :
  ∃ w n, performUnregistration key i m = with_worker w (with_handlers (without key i (m_msgHandlers m)) n m).
Proof.
  unfold performUnregistration, without. destruct (m_msgHandlers m !! key) as [l|];
    [|exists (m_pWorker m), (m_scopedHandlers m); by destruct m].
  pose proof (drop_instance_fst i l (m_scopedHandlers m)) as Hd.
  destruct (drop_instance i l (m_scopedHandlers m)) as [next n]. simpl in Hd. subst next. case_decide.
  - set (m1 := with_handlers _ _ m).
    destruct (sendRaw_worker (createControlEnvelope Keys.UNSUBSCRIBE key m1) m1) as [w ->]. by exists w, n.
  - set (m1 := with_handlers _ _ m). destruct (_ && _).
    + unfold send_subscribe. destruct (sendRaw_worker (createSubscribeEnvelope key m1) m1) as [w ->]. by exists w, n.
    + exists (m_pWorker m), n. by destruct m.
Qed.

Lemma run_actions_calls actions m : m_calls (run_actions actions m) = m_calls m.
Proof.
  revert m; induction actions as [|a rest IH]; intros m; [done|]. destruct a; cbn [run_actions]; rewrite ?IH; try done.
  - by destruct (sendReply_worker data m) as [w ->].
  - unfold sendDataInternal. match goal with |- context [sendRawEnvelope ?e m] => by destruct (sendRaw_worker e m) as [w ->] end.
  - by destruct (performRegistration_shape key callback instance scope m) as (w & n & ->).
  - by destruct (performUnregistration_shape key instance m) as (w & n & ->).
  - by destruct (m_promises m !! promise).
Qed.

(** The calls a list of registrations gives for a message. *)
Definition calls_of (data : string) (isLocal : bool) (l : list CallbackEntry) : list (Z * string) :=
  (λ e, (ce_instance e, data)) <$> filter (λ e, is_Some (ce_func e) ∧ scopeAccepts (ce_scope e) isLocal = true) l.

Lemma dispatch_calls data isLocal o m :
  m_calls (dispatch data isLocal o m) = m_calls m ++ calls_of data isLocal (default [] o).
Proof.
  unfold dispatch, calls_of. generalize (default [] o) as l. intros l. revert m.
  induction l as [|e l IH]; intros m; simpl; [by rewrite app_nil_r|]. rewrite IH, filter_cons. unfold invoke.
  destruct (scopeAccepts (ce_scope e) isLocal) eqn:Es.
  - destruct (ce_func e) eqn:Ef.
    + rewrite run_actions_calls. rewrite decide_True by (split; [by eexists|done]). simpl. by rewrite <-app_assoc.
    + by rewrite decide_False by (by intros [[] _]).
  - by rewrite decide_False by (by intros [_ ?]).
Qed.

(** Without a narrowed registration, where the message came from makes no difference. *)
Lemma calls_of_any data b b' l :
  Forall (λ e, ce_scope e = Origins.Any) l → calls_of data b l = calls_of data b' l.
Proof.
  intros Hl. unfold calls_of. f_equal. induction Hl as [|e l He _ IH]; [done|]. rewrite !filter_cons, IH, He.
  by destruct b, b'.
Qed.

Lemma handleMessage_calls brokerId env m :
  m_calls (handleMessage brokerId env m) = m_calls m ++
    calls_of (env_payload env) (message_is_local brokerId env m)
      (default [] (m_msgHandlers m !! topic (env_header env)) ++
       default [] (wildcard_list (topic (env_header env)) (m_msgHandlers m))).
Proof.
  unfold handleMessage. fold (wildcard_list (topic (env_header env)) (m_msgHandlers m)).
  set (cs := m_msgHandlers m !! _). set (ws := wildcard_list _ _). set (b := message_is_local _ _ _).
  assert (m_calls m ++ calls_of (env_payload env) b (default [] cs ++ default [] ws) =
    m_calls (with_replyTopic EmptyString (dispatch (env_payload env) b ws (dispatch (env_payload env) b cs
      (with_replyTopic (reply_topic (env_header env)) m))))) as ->.
  { simpl. rewrite !dispatch_calls. simpl. rewrite <-app_assoc. f_equal. unfold calls_of.
    by rewrite filter_app, fmap_app. }
  destruct cs as [cs|]; [done|]. destruct ws; [done|]. by destruct m.
Qed.
End dispatch.

(** ** Requests *)

(** Callbacks that have nothing to do with the promise [p]. *)
Inductive quiet_action (p : Z) : Action → Prop :=
  | quiet_reply data : quiet_action p (ActReply data)
  | quiet_send key data : quiet_action p (ActSend key data)
  | quiet_register key cb instance scope :
      instance ≠ p → quiet_func p cb → quiet_action p (ActRegister key cb instance scope)
  | quiet_unregister key instance : instance ≠ p → quiet_action p (ActUnregister key instance)
  | quiet_fulfil q data : q ≠ p → quiet_action p (ActFulfil q data)
  | quiet_throw : quiet_action p ActThrow
with quiet_func (p : Z) : option Callback → Prop :=
  | quiet_none : quiet_func p None
  | quiet_some body : (∀ data a, a ∈ body data → quiet_action p a) → quiet_func p (Some (mkCallback body)).

Definition quiet_entry (p : Z) (e : CallbackEntry) : Prop := ce_instance e ≠ p ∧ quiet_func p (ce_func e).

Definition quiet_event (p : Z) (ev : CEvent) : Prop :=
  match ev with
  | CRegister _ cb i _ => i ≠ p ∧ quiet_func p cb
  | CUnregister _ i => i ≠ p
  | CRequest q _ _ _ => q ≠ p
  | CRequestEnd q _ => q ≠ p
  | _ => True
  end.

(** What [sendRequest] registers. *)
Definition reply_entry (p : Z) : CallbackEntry := mkEntry p (Some (fulfil p)) Origins.Any.

Section request.
Context {W : Type} `{!WorkerInterface W} (p : Z) (rt : string) (n0 : nat).
Implicit Types (m : @Manager W).

(** The payloads the reply callback was called with since the request began. *)
Definition answers m : list string := (λ c, c.2) <$> filter (λ c, c.1 = p) (drop n0 (m_calls m)).

Record pending m : Prop := {
  pd_calls : n0 ≤ length (m_calls m);
  pd_others : ∀ t l e, m_msgHandlers m !! t = Some l → e ∈ l → t = rt ∧ e = reply_entry p ∨ quiet_entry p e;
  pd_registered : ∃ l, m_msgHandlers m !! rt = Some l ∧ reply_entry p ∈ l;
  pd_promise : m_promises m !! p = head (answers m)
}.

(** Only the registrations, the promises and the calls matter. *)
Lemma pending_eq m m' :
  m_msgHandlers m' = m_msgHandlers m → m_promises m' = m_promises m → m_calls m' = m_calls m →
  pending m → pending m'.
Proof. intros Eh Ep Ec []. split; unfold answers; rewrite ?Eh, ?Ep, ?Ec; done. Qed.

Lemma pending_replyTopic v m : pending m → pending (with_replyTopic v m).
Proof. by apply pending_eq. Qed.

Lemma pending_inbound v m : pending m → pending (with_inbound v m).
Proof. by apply pending_eq. Qed.

Lemma pending_batch v m : pending m → pending (with_batch v m).
Proof. by apply pending_eq. Qed.

Lemma pending_processing v m : pending m → pending (with_processing v m).
Proof. by apply pending_eq. Qed.

Lemma pending_connected v m : pending m → pending (with_connected v m).
Proof. by apply pending_eq. Qed.

Lemma pending_worker v m : pending m → pending (with_worker v m).
Proof. by apply pending_eq. Qed.

Lemma pending_session v0 v1 m : pending m → pending (with_session v0 v1 m).
Proof. by apply pending_eq. Qed.

#[local] Hint Resolve pending_replyTopic pending_inbound pending_batch pending_processing pending_connected
  pending_worker pending_session : wisp.

Lemma sendRaw_pending env m : pending m → pending (sendRawEnvelope env m).2.
Proof. destruct (sendRaw_worker env m) as [w ->]. apply pending_worker. Qed.

Lemma sendReply_pending data m : pending m → pending (sendReplyEnvelope data m).2.
Proof. destruct (sendReply_worker data m) as [w ->]. apply pending_worker. Qed.

Lemma register_pending_inv key cb i scope m :
  i ≠ p → quiet_func p cb → pending m → pending (performRegistration key cb i scope m).
Proof.
  intros Hi Hq []. destruct (performRegistration_shape key cb i scope m) as (w & n & ->).
  split; [done| | |done]; simpl.
  - intros t l e. rewrite lookup_insert. case_decide as Hk; [|by apply pd_others0]. intros [= <-].
    rewrite elem_of_app, list_elem_of_singleton. intros [He| ->]; [|by right]. subst t.
    destruct (m_msgHandlers m !! key) as [l|] eqn:E; [by eapply pd_others0|by apply not_elem_of_nil in He].
  - destruct pd_registered0 as (l & Hl & Hin). rewrite lookup_insert. case_decide as Hk; [|by eexists].
    subst key. rewrite Hl. simpl. eexists. split; [done|]. rewrite elem_of_app. by left.
Qed.

Lemma elem_of_without key i h t l e :
  without key i h !! t = Some l → e ∈ l →
  ∃ l', h !! t = Some l' ∧ e ∈ l' ∧ (t = key → ce_instance e ≠ i).
Proof.
  unfold without. destruct (h !! key) as [lk|] eqn:E.
  - case_decide as Hn.
    + rewrite lookup_delete. case_decide as Hk; [done|]. intros. eexists. split_and!; [done..|]. by intros ->.
    + rewrite lookup_insert. case_decide as Hk; [|intros; eexists; split_and!; [done..|]; by intros ->].
      intros [= <-] [He1 He2]%list_elem_of_filter. subst. by eexists.
  - intros. eexists. split_and!; [done..|]. intros ->. congruence.
Qed.

Lemma without_keeps key i h t l e :
  h !! t = Some l → e ∈ l → ce_instance e ≠ i → ∃ l', without key i h !! t = Some l' ∧ e ∈ l'.
Proof.
  intros Hl He Hi. unfold without. destruct (h !! key) as [lk|] eqn:E; [|by eexists].
  assert (∀ l', h !! key = Some l' → t = key → e ∈ filter (λ e, ce_instance e ≠ i) l') as Hin.
  { intros l' Hl' ->. apply list_elem_of_filter. split; [done|]. congruence. }
  case_decide as Hn.
  - rewrite lookup_delete_ne; [by eexists|]. intros <-. specialize (Hin lk E eq_refl).
    rewrite Hn in Hin. by apply not_elem_of_nil in Hin.
  - rewrite lookup_insert. case_decide as Hk; [|by eexists]. eexists. split; [done|]. by apply Hin.
Qed.

Lemma unregister_pending_inv key i m : i ≠ p → pending m → pending (performUnregistration key i m).
Proof.
  intros Hi []. destruct (performUnregistration_shape key i m) as (w & n & ->).
  split; [done| | |done]; simpl.
  - intros t l e Hl He. destruct (elem_of_without _ _ _ _ _ _ Hl He) as (l' & Hl' & He' & _). by eapply pd_others0.
  - destruct pd_registered0 as (l & Hl & Hin). by apply (without_keeps key i _ rt l).
Qed.

Lemma run_actions_pending actions m :
  Forall (quiet_action p) actions → pending m → pending (run_actions actions m).
Proof.
  intros Ha. revert m. induction Ha as [|a rest Hq _ IH]; intros m H; [done|].
  destruct Hq; cbn [run_actions]; try apply IH; try done.
  - by apply sendReply_pending.
  - by apply sendRaw_pending.
  - by apply register_pending_inv.
  - by apply unregister_pending_inv.
  - destruct (m_promises m !! q) eqn:E; [done|]. destruct H. split; [done..|]. simpl. by rewrite lookup_insert_ne.
Qed.

Lemma answers_snoc i data m :
  n0 ≤ length (m_calls m) →
  answers (with_calls (m_calls m ++ [(i, data)]) m) = answers m ++ (if decide (i = p) then [data] else []).
Proof.
  intros Hn. unfold answers. simpl. rewrite drop_app_le, filter_app, fmap_app by done. f_equal.
  rewrite filter_cons. simpl. by case_decide.
Qed.

(** The first call sets the promise, and no other callback does. *)
Lemma invoke_pending data isLocal m e :
  e = reply_entry p ∨ quiet_entry p e → pending m → pending (invoke data isLocal m e).
Proof.
  intros He H. unfold invoke. destruct (scopeAccepts _ _); [|done].
  assert (n0 ≤ length (m_calls m ++ [(ce_instance e, data)])) as Hn
    by (rewrite length_app; pose proof (pd_calls _ H); lia).
  pose proof (answers_snoc (ce_instance e) data m (pd_calls _ H)) as Ha.
  destruct He as [->|[Hi Hq]].
  - simpl in *. rewrite decide_True in Ha by done. destruct H. rewrite pd_promise0.
    destruct (answers m) as [|a l] eqn:E; simpl in *; split; try done; simpl.
    + rewrite lookup_insert_eq. change (answers (with_promises _ ?x)) with (answers x). by rewrite Ha.
    + rewrite Ha. simpl. by rewrite pd_promise0.
  - destruct Hq as [|body Hb]; [done|]. apply run_actions_pending; [apply Forall_forall; intros a; apply Hb|].
    rewrite decide_False, app_nil_r in Ha by done. destruct H. split; try done. by rewrite Ha.
Qed.

Lemma dispatch_pending data isLocal o m :
  Forall (λ e, e = reply_entry p ∨ quiet_entry p e) (default [] o) → pending m → pending (dispatch data isLocal o m).
Proof.
  unfold dispatch. intros Ho. revert m. induction Ho as [|e l He _ IH]; intros m H; [done|]. simpl.
  apply IH, invoke_pending; done.
Qed.

Lemma handlers_pending m t :
  pending m → Forall (λ e, e = reply_entry p ∨ quiet_entry p e) (default [] (m_msgHandlers m !! t)).
Proof.
  intros []. apply Forall_forall. intros e He. destruct (m_msgHandlers m !! t) as [l|] eqn:E;
    [|by apply not_elem_of_nil in He]. destruct (pd_others0 t l e E He) as [[_ ->]|]; tauto.
Qed.

Lemma handleMessage_pending brokerId env m : pending m → pending (handleMessage brokerId env m).
Proof.
  intros H. unfold handleMessage.
  set (cs := m_msgHandlers m !! _). fold (wildcard_list (topic (env_header env)) (m_msgHandlers m)).
  set (ws := wildcard_list _ _).
  assert (Forall (λ e, e = reply_entry p ∨ quiet_entry p e) (default [] ws)) as Hws.
  { unfold ws, wildcard_list. case_decide; [apply Forall_nil_2|by apply handlers_pending]. }
  assert (∀ b, pending (with_replyTopic EmptyString (dispatch (env_payload env) b ws
    (dispatch (env_payload env) b cs (with_replyTopic (reply_topic (env_header env)) m))))) as Hd.
  { intros b. apply pending_replyTopic, dispatch_pending; [done|].
    apply dispatch_pending; [by apply handlers_pending|]. by apply pending_replyTopic. }
  destruct cs; [apply Hd|]. destruct ws; [apply Hd|done].
Qed.

Lemma send_subscriptions_pending m : pending m → pending (send_subscriptions m).
Proof.
  unfold send_subscriptions. generalize (map_entries (m_msgHandlers m)).*1 as ks. intros ks. revert m.
  induction ks as [|k ks IH]; intros m H; [done|]. simpl. apply IH. by apply sendRaw_pending.
Qed.

Lemma handleOne_pending brokerId env m : pending m → pending (handleOne brokerId env m).
Proof.
  intros H. unfold handleOne. case_decide; [|by apply handleMessage_pending].
  by apply pending_session, send_subscriptions_pending.
Qed.

Lemma process_step_pending brokerId m : pending m → pending (default m (process_step brokerId m)).
Proof.
  intros H. unfold process_step. destruct (m_processing m); [|done].
  destruct (m_batch m) as [|env rest].
  - destruct (canPop (m_inbound m)); [|done]. destruct (pop_ready (m_inbound m)) as [[env|] q];
      [|by apply pending_processing].
    change (m_running (with_inbound q m)) with (m_running m).
    destruct (m_running m); [|by apply pending_processing, pending_inbound].
    destruct (drainTo _) as [batch q']. apply pending_batch, pending_inbound, handleOne_pending. auto with wisp.
  - destruct (m_running m); [|by apply pending_batch].
    apply handleOne_pending. auto with wisp.
Qed.

Lemma statusHandler_pending connected m : pending m → pending (statusHandler connected m).
Proof.
  intros H. unfold statusHandler. destruct connected; [|auto with wisp].
  apply pending_session, send_subscriptions_pending, sendRaw_pending. auto with wisp.
Qed.

Lemma fulfil_quiet q : q ≠ p → quiet_func p (Some (fulfil q)).
Proof. intros. constructor. intros data a ->%list_elem_of_singleton. by constructor. Qed.

Lemma cstep_pending ev m : quiet_event p ev → pending m → pending (cstep m ev).
Proof.
  destruct ev; simpl; intros Hq H; auto with wisp.
  - by apply process_step_pending.
  - by apply statusHandler_pending.
  - destruct Hq. by apply register_pending_inv.
  - by apply unregister_pending_inv.
  - by apply sendRaw_pending.
  - unfold sendRequest_begin. set (m1 := performRegistration _ _ _ _ _).
    assert (pending m1) as H1.
    { apply register_pending_inv; [done|by apply fulfil_quiet|]. destruct H. split; try done. simpl.
      by rewrite lookup_delete_ne. }
    match goal with |- context [sendRawEnvelope ?e m1] => pose proof (sendRaw_pending e m1 H1) as H2 end.
    destruct (sendRawEnvelope _ m1) as [[] m2]; [done|]. by apply unregister_pending_inv.
  - by apply unregister_pending_inv.
Qed.

Lemma crun_pending evs m : Forall (quiet_event p) evs → pending m → pending (crun evs m).
Proof.
  intros He. revert m. induction He as [|ev evs Hq _ IH]; intros m H; [done|]. simpl. apply IH, cstep_pending; done.
Qed.

(** The end of the call takes the registration away. *)
Lemma request_end_clean m t l e :
  pending m → m_msgHandlers (sendRequest_end p rt m).2 !! t = Some l → e ∈ l → ce_instance e ≠ p.
Proof.
  intros [] Hl He. simpl in Hl. destruct (performUnregistration_shape rt p m) as (w & n & Hs). rewrite Hs in Hl.
  simpl in Hl. destruct (elem_of_without _ _ _ _ _ _ Hl He) as (l' & Hl' & He' & Hne).
  destruct (pd_others0 t l' e Hl' He') as [[-> ->]|[? _]]; [by apply Hne|done].
Qed.

Lemma request_begin_calls uuid requestTopic payload m m1 :
  sendRequest_begin p uuid requestTopic payload m = (true, rt, m1) → m_calls m1 = m_calls m.
Proof.
  unfold sendRequest_begin. set (m0 := with_promises _ m). set (rt' := makeReplyTopic uuid requestTopic).
  destruct (performRegistration_shape rt' (Some (fulfil p)) p Origins.Any m0) as (w & k & ->).
  set (m2 := with_worker _ _). match goal with |- context [sendRawEnvelope ?e m2] =>
    destruct (sendRaw_worker e m2) as [w' Hw]; destruct (sendRawEnvelope e m2) as [[] m3] end; [|done].
  simpl in Hw. by intros [= _ <-]; rewrite Hw.
Qed.

Lemma request_begin_pending uuid requestTopic payload m m1 :
  n0 = length (m_calls m) →
  (∀ t l e, m_msgHandlers m !! t = Some l → e ∈ l → quiet_entry p e) →
  sendRequest_begin p uuid requestTopic payload m = (true, rt, m1) → pending m1.
Proof.
  intros Hn Hq. unfold sendRequest_begin.
  set (m0 := with_promises _ m). set (rt' := makeReplyTopic uuid requestTopic).
  destruct (performRegistration_shape rt' (Some (fulfil p)) p Origins.Any m0) as (w & k & ->).
  set (m2 := with_worker _ _). match goal with |- context [sendRawEnvelope ?e m2] =>
    pose proof (sendRaw_pending e m2) as Hs; destruct (sendRawEnvelope e m2) as [[] m3] end; [|done].
  intros [= Ert <-]. apply Hs. simpl in *. split; simpl.
  - lia.
  - intros t l e. rewrite lookup_insert. case_decide as Hk; [|right; by eapply Hq].
    intros [= <-]. rewrite elem_of_app, list_elem_of_singleton. intros [He| ->]; [|left; by subst].
    right. destruct (m_msgHandlers m !! rt') eqn:E; [by eapply Hq|by apply not_elem_of_nil in He].
  - rewrite <-Ert, lookup_insert_eq. eexists. split; [done|]. rewrite elem_of_app, list_elem_of_singleton. by right.
  - rewrite lookup_delete_eq. unfold answers. simpl. by rewrite drop_ge by lia.
Qed.
End request.

(** ** Properties *)

(** The broker's registry after the control messages the client's worker took since the
    broker last forgot the session. *)
Definition broker_view {W} `{!WorkerInterface W} (m : @Manager W) : SubscriptionRegistry :=
  foldl (registry_apply (m_clientId m)) empty_registry (drop (m_epoch m) (written m)).

Lemma broker_view_remote {W} `{!WorkerInterface W} (m : @Manager W) t :
  held (broker_view m) (m_clientId m) t = remote m !! t.
Proof. apply registry_applies. intros t'. by rewrite lookup_empty. Qed.


(** A run keeps the client well formed: a topic has an entry only while something is
    registered on it, every registration carries one of the three scopes, and
    [m_scopedHandlers] (64-bit) counts exactly the registrations narrower than [Any]. *)
Theorem client_wellformed {W} `{!WorkerInterface W} `{!WorkerLaws W} uuid config evs :
  Forall good_event evs →
  let m := crun evs (new_manager (W := W) uuid config) in
  (∀ t l, m_msgHandlers m !! t = Some l → l ≠ [] ∧ ∀ e, e ∈ l → named_scope (ce_scope e)) ∧
  m_scopedHandlers m = wrap 64 (Z.of_nat (scoped_count (m_msgHandlers m))).
Proof.
  intros Hg m. assert (client_inv m) as [] by (apply crun_inv; [done|apply new_manager_inv]).
  split; [|done]. intros t l Hl. destruct (ci_handlers t l Hl) as [Hne Hok]. split; [done|].
  intros e He. by eapply Forall_forall in Hok as [? _].
Qed.

(** Some registrations, a session that is lost and taken up again, and an unregistration. *)
Definition demo_callback : Callback := mkCallback (λ data, [ActReply data; ActUnregister "a" 7; ActThrow]).

Definition demo_events : list CEvent :=
  [CRegister "a" (Some demo_callback) 7 Origins.Local; CStatus true;
   CRegister "a" None 8 Origins.Mesh; CForget 2;
   CReceive (mkEnvelope (mkHeader Keys.RESET "B" EmptyString EmptyString EmptyString EmptyString) EmptyString);
   CProcess "B";
   CReceive (mkEnvelope (mkHeader "a" "other" "a" "B" EmptyString "r") "x"); CProcess "B"].

Lemma demo_callback_good : good_func (Some demo_callback).
Proof.
  constructor. intros data a Ha.
  repeat (apply elem_of_cons in Ha as [->|Ha]; [constructor|]). by apply not_elem_of_nil in Ha.
Qed.

Lemma demo_events_good : Forall good_event demo_events.
Proof.
  unfold demo_events. rewrite !Forall_cons. split_and!; try exact I; try (split; discriminate); try apply Forall_nil_2.
  - split; [by left|apply demo_callback_good].
  - split; [by right; left|constructor].
Qed.

Definition demo_config : ConnectionConfig := mkConfig "tcp://h:1" "c" 1000 500.


Lemma client_wellformed_witness :
  m_scopedHandlers (crun demo_events (new_manager (W := DemoWorker) "u" demo_config)) = 1%Z.
Proof.
  destruct (client_wellformed (W := DemoWorker) "u" demo_config demo_events demo_events_good) as [_ H].
  rewrite H. vm_compute. reflexivity.
Defined.

(** C14: A message calls exactly the callbacks that want it, each once, those of its topic
    in registration order and then those of the wildcard topic: the ones whose scope
    takes messages that entered the mesh where this one did.  Skipping the look-up of
    the broker id while [m_scopedHandlers] is 0 makes no difference, and neither does
    what the callbacks register, unregister, send or throw on the way. *)
Theorem dispatch_exactly_once {W} `{!WorkerInterface W} (m : @Manager W) brokerId env :
  client_inv m → (Z.of_nat (scoped_count (m_msgHandlers m)) < 2 ^ 64)%Z →
  m_calls (handleMessage brokerId env m) = m_calls m ++
    calls_of (env_payload env)
      (bool_decide (brokerId = EmptyString ∨ origin_broker_id (env_header env) = brokerId))
      (default [] (m_msgHandlers m !! topic (env_header env)) ++
       (if decide (topic (env_header env) = Keys.WILDCARD_TOPIC) then []
        else default [] (m_msgHandlers m !! Keys.WILDCARD_TOPIC))).
Proof.
  intros H Hc. rewrite handleMessage_calls. unfold wildcard_list.
  set (l := default [] (m_msgHandlers m !! topic (env_header env)) ++ _).
  assert (l = default [] (m_msgHandlers m !! topic (env_header env)) ++
    (if decide (topic (env_header env) = Keys.WILDCARD_TOPIC) then []
     else default [] (m_msgHandlers m !! Keys.WILDCARD_TOPIC))) as <- by (unfold l; by case_decide).
  f_equal. unfold message_is_local. case_decide as Hs.
  { f_equal. by rewrite bool_decide_or. }
  apply calls_of_any. rewrite (ci_scoped _ H) in Hs. unfold wrap in Hs. rewrite Z.mod_small in Hs by lia.
  assert (scoped_count (m_msgHandlers m) = 0) as H0 by lia.
  assert (∀ t, Forall (λ e, ce_scope e = Origins.Any) (default [] (m_msgHandlers m !! t))) as Hany.
  { intros t. apply Forall_forall. intros e He. destruct (m_msgHandlers m !! t) eqn:E;
      [by eapply scoped_count_zero|by apply not_elem_of_nil in He]. }
  unfold l. apply Forall_app. split; [done|]. case_decide; [apply Forall_nil_2|done].
Qed.

Lemma dispatch_exactly_once_witness :
  let m := crun (take 3 demo_events) (new_manager (W := DemoWorker) "u" demo_config) in
  m_calls (handleMessage "B" (mkEnvelope (mkHeader "a" "o" "a" "B" EmptyString "r") "x") m) = [(7%Z, "x"%string)].
Proof.
  assert (client_inv (crun (take 3 demo_events) (new_manager (W := DemoWorker) "u" demo_config))) as H.
  { apply crun_inv; [apply Forall_take, demo_events_good|apply new_manager_inv]. }
  cbv zeta. rewrite (dispatch_exactly_once _ "B" _ H) by (vm_compute; reflexivity). vm_compute. reflexivity.
Defined.

(** C15: [sendRequest] answers with the first message its own reply callback was called
    with, whatever else happens while it waits (other requests, registrations,
    reconnects, messages whose callbacks act through the library), gives up with no
    answer exactly when there was none, and leaves no registration of its own behind. *)
Theorem sendRequest_first_reply {W} `{!WorkerInterface W} (m : @Manager W) p uuid requestTopic payload rt m1 evs :
  (∀ t l e, m_msgHandlers m !! t = Some l → e ∈ l → quiet_entry p e) →
  sendRequest_begin p uuid requestTopic payload m = (true, rt, m1) →
  Forall (quiet_event p) evs →
  let '(answer, m') := sendRequest false p uuid requestTopic payload (crun evs) m in
  answer = head (answers p (length (m_calls m)) (crun evs m1)) ∧
  m_msgHandlers (crun evs m1) !! rt ≠ None ∧
  ∀ t l e, m_msgHandlers m' !! t = Some l → e ∈ l → ce_instance e ≠ p.
Proof.
  intros Hq Hb He. unfold sendRequest. rewrite Hb.
  pose proof (request_begin_pending p rt _ _ _ _ _ _ eq_refl Hq Hb) as H1.
  pose proof (crun_pending _ _ _ _ _ He H1) as H2. split_and!.
  - exact (pd_promise _ _ _ _ H2).
  - destruct (pd_registered _ _ _ _ H2) as (l & -> & _). done.
  - intros t l e. by apply (request_end_clean p rt _ _ _ _ _ H2).
Qed.

(** A reply, then a second one. *)
Definition demo_replies : list CEvent :=
  (λ data, CReceive (mkEnvelope (mkHeader "ping.u" "srv" "ping.u" EmptyString EmptyString EmptyString) data)) <$>
    ["pong"%string; "late"%string].

Lemma sendRequest_first_reply_witness :
  (sendRequest false 5 "u" "ping" "q" (crun (demo_replies ++ [CProcess "B"; CProcess "B"]))
    (new_manager (W := DemoWorker) "u" demo_config)).1 = Some "pong"%string.
Proof.
  pose proof (sendRequest_first_reply (new_manager (W := DemoWorker) "u" demo_config) 5 "u" "ping" "q" "ping.u" _
    (demo_replies ++ [CProcess "B"; CProcess "B"]) ltac:(done) eq_refl ltac:(repeat constructor)) as H.
  destruct (sendRequest _ _ _ _ _ _ _) as [answer m']. destruct H as [-> _]. vm_compute. reflexivity.
Defined.

(** ** Reply topics and replies *)

Lemma reply_room uuid t :
  String.length uuid = 36 → makeReplyTopic uuid t = str_take 475 t +:+ String (chr 46) uuid.
Proof. intros H. unfold makeReplyTopic. simpl String.length. rewrite H. reflexivity. Qed.

Lemma reply_nonempty uuid t : EmptyString ≠ makeReplyTopic uuid t.
Proof.
  intros E. apply (f_equal String.length) in E. unfold makeReplyTopic in E. rewrite str_length_app in E. simpl in E. lia.
Qed.

Lemma reply_reserved uuid t :
  String.length uuid = 36 → Keys.isReservedKey (makeReplyTopic uuid t) = Keys.isReservedKey t.
Proof.
  intros H. rewrite reply_room by done. destruct t as [|c1 [|c2 t]]; [by destruct uuid|..|done].
  change (bool_decide (byte_of c1 = 95%Z) && false = false). apply andb_false_r.
Qed.

(** A reply topic fits the broker's limit on topics whatever the request topic, ends
    in the whole uuid (so two requests with different uuids never share one), is not the
    wildcard, and is in the reserved namespace exactly when the request topic is. *)
Theorem reply_topic_valid uuid t :
  String.length uuid = 36 →
  let rt := makeReplyTopic uuid t in
  0 < String.length rt ≤ MAX_TOPIC_LENGTH_BYTES ∧
  str_drop (String.length rt - 36) rt = uuid ∧
  rt ≠ Keys.WILDCARD_TOPIC ∧
  Keys.isReservedKey rt = Keys.isReservedKey t ∧
  (∀ uuid' t', String.length uuid' = 36 → makeReplyTopic uuid' t' = rt → uuid' = uuid).
Proof.
  intros H rt. assert (∀ u s, String.length u = 36 →
    String.length (makeReplyTopic u s) = 475 `min` String.length s + 37 ∧
    str_drop (String.length (makeReplyTopic u s) - 36) (makeReplyTopic u s) = u) as Hgen.
  { intros u s Hu. rewrite reply_room by done.
    replace (str_take 475 s +:+ String (chr 46) u) with ((str_take 475 s +:+ String (chr 46) EmptyString) +:+ u)
      by (by rewrite str_app_assoc).
    assert (String.length ((str_take 475 s +:+ String (chr 46) EmptyString) +:+ u) = 475 `min` String.length s + 37) as El.
    { rewrite !str_length_app, str_length_take, Hu. simpl String.length. lia. }
    split; [done|]. rewrite El. apply str_drop_app_ge. rewrite str_length_app, str_length_take. simpl String.length. lia. }
  destruct (Hgen uuid t H) as [Hl Hd]. split_and!.
  - fold rt in Hl. lia.
  - fold rt in Hl. rewrite Hl. change MAX_TOPIC_LENGTH_BYTES with 512. lia.
  - done.
  - intros E. fold rt in Hl. rewrite E in Hl. simpl String.length in Hl. lia.
  - by apply reply_reserved.
  - intros u' t' Hu' E. destruct (Hgen u' t' Hu') as [_ Hd']. rewrite E in Hd'. unfold rt in Hd'. by rewrite Hd in Hd'.
Qed.

Lemma reply_topic_valid_witness :
  String.length (makeReplyTopic "0f8fad5b-d9cb-469f-a165-70867728950e" "ping") ≤ MAX_TOPIC_LENGTH_BYTES.
Proof. exact (proj2 (proj1 (reply_topic_valid "0f8fad5b-d9cb-469f-a165-70867728950e" "ping" eq_refl))). Defined.

Section reply.
Context {W : Type} `{!WorkerInterface W} `{!WorkerLaws W}.
Implicit Types (m : @Manager W).

Definition data_sent m : list Envelope := data_written (m_pWorker m).

Lemma sendRaw_control_data env m :
  Keys.isControlMessage (handler_key (env_header env)) = true →
  data_sent (sendRawEnvelope env m).2 = data_sent m.
Proof.
  intros H. unfold sendRawEnvelope. rewrite H. pose proof (writeControlMessage_data env (m_pWorker m)) as Hd.
  by destruct (writeControlMessage _ _).
Qed.

Lemma sendRaw_data env m m' :
  Keys.isControlMessage (handler_key (env_header env)) = false →
  sendRawEnvelope env m = (true, m') → data_sent m' = data_sent m ++ [env].
Proof.
  intros H. unfold sendRawEnvelope. rewrite H. destruct (writeMessage env (m_pWorker m)) as [ok w] eqn:E.
  intros [= -> <-]. by apply writeMessage_law in E as [? _].
Qed.

Lemma performRegistration_data key cb i scope m :
  data_sent (performRegistration key cb i scope m) = data_sent m.
Proof.
  unfold performRegistration. set (m1 := with_handlers _ _ m). destruct (m_connected m1); [|done].
  unfold send_subscribe. rewrite sendRaw_control_data; [done|]. unfold createSubscribeEnvelope. by destruct (m_msgHandlers m1 !! key).
Qed.

Lemma request_data p uuid t payload m rt m1 :
  Keys.isControlMessage t = false →
  sendRequest_begin p uuid t payload m = (true, rt, m1) →
  rt = makeReplyTopic uuid t ∧
  data_sent m1 = data_sent m ++ [mkEnvelope (mkHeader t (m_clientId m) t EmptyString EmptyString rt) payload].
Proof.
  intros Ht. unfold sendRequest_begin.
  set (m0 := with_promises _ m). pose proof (performRegistration_data (makeReplyTopic uuid t) (Some (fulfil p)) p Origins.Any m0) as Hd.
  destruct (performRegistration_shape (makeReplyTopic uuid t) (Some (fulfil p)) p Origins.Any m0) as (w & k & Es).
  rewrite Es in *. destruct (sendRawEnvelope _ _) as [[] m3] eqn:E; [|done]. intros [= <- <-]. split; [done|].
  apply sendRaw_data in E; [|exact Ht]. rewrite E, Hd. reflexivity.
Qed.

(** A handler that answers with a function of what it got. *)
Definition responder (f : string → string) : Callback := mkCallback (λ data, [ActReply (f data)]).

(** The message as a broker delivers it: the identity is the broker's. *)
Definition delivered (origin uuid : string) (env : Envelope) : Envelope :=
  let h := env_header env in
  mkEnvelope (mkHeader (handler_key h) (sender_id h) (topic h) origin uuid (reply_topic h)) (env_payload env).

(** What it sends for a request. *)
Definition reply_to (f : string → string) (env : Envelope) m : Envelope :=
  let rt := reply_topic (env_header env) in
  mkEnvelope (mkHeader rt (m_clientId m) rt EmptyString EmptyString EmptyString) (f (env_payload env)).

(** A handler that answers this payload with [f] of it. *)
Lemma answering_step f cb i brokerId env m :
  callback_body cb (env_payload env) = [ActReply (f (env_payload env))] →
  m_msgHandlers m !! topic (env_header env) = Some [mkEntry i (Some cb) Origins.Any] →
  m_msgHandlers m !! Keys.WILDCARD_TOPIC = None →
  reply_topic (env_header env) ≠ EmptyString →
  m_pWorker (handleMessage brokerId env m) = m_pWorker (sendRawEnvelope (reply_to f env m) m).2.
Proof.
  intros Hcb Ht Hw Hr. unfold handleMessage. rewrite Ht, Hw.
  assert (∀ x : option (list CallbackEntry), (if decide (topic (env_header env) = Keys.WILDCARD_TOPIC) then x else x) = x)
    as -> by (intros; by case_decide).
  unfold dispatch. simpl. unfold invoke. simpl.
  destruct (scopeAccepts Origins.Any _) eqn:Es; [|by destruct (message_is_local _ _ _)].
  rewrite Hcb. simpl. unfold sendReplyEnvelope. simpl. rewrite decide_False by done. fold (reply_to f env m).
  unfold sendRawEnvelope. simpl. destruct (Keys.isControlMessage _);
    [by destruct (writeControlMessage _ _)|by destruct (writeMessage _ _)].
Qed.

(** A message on the reply topic answers the request it was made for. *)
Lemma reply_answers p rt n0 brokerId env m :
  pending p rt n0 m → answers p n0 m = [] → topic (env_header env) = rt →
  handler_key (env_header env) ≠ Keys.RESET →
  (sendRequest_end p rt (handleOne brokerId env m)).1 = Some (env_payload env).
Proof.
  intros H Ha Et Hk. pose proof (handleOne_pending p rt n0 brokerId env m H) as H'.
  simpl. rewrite (pd_promise _ _ _ _ H'). unfold handleOne. rewrite decide_False by done.
  unfold answers. rewrite handleMessage_calls, drop_app_le, filter_app, fmap_app by apply H.
  unfold answers in Ha. rewrite Ha. simpl.
  set (b := message_is_local _ _ _). set (l := _ ++ _).
  assert (reply_entry p ∈ l) as Hin.
  { destruct (pd_registered _ _ _ _ H) as (l0 & Hl & Hin). unfold l. rewrite Et, Hl, elem_of_app. by left. }
  clearbody l. induction l as [|e l IH]; [by apply not_elem_of_nil in Hin|].
  unfold calls_of. rewrite filter_cons. fold (calls_of (env_payload env) b l). case_decide as He.
  - rewrite fmap_cons, filter_cons. simpl. case_decide; [done|].
    apply IH. apply elem_of_cons in Hin as [<-|?]; [by simpl in *|done].
  - apply IH. apply elem_of_cons in Hin as [<-|?]; [|done]. destruct He. split; [by eexists|]. by destruct b.
Qed.
End reply.

(** A request answered by a handler that answers its payload with [f] of it. *)
Lemma request_reply_core {W} `{!WorkerInterface W} `{!WorkerLaws W} (a b : @Manager W)
    p uuid t payload rt a1 f cb i brokerA brokerB origin origin' id id' :
  callback_body cb payload = [ActReply (f payload)] →
  String.length uuid = 36 → Keys.isReservedKey t = false →
  (∀ t l e, m_msgHandlers a !! t = Some l → e ∈ l → quiet_entry p e) →
  sendRequest_begin p uuid t payload a = (true, rt, a1) →
  m_msgHandlers b !! t = Some [mkEntry i (Some cb) Origins.Any] →
  m_msgHandlers b !! Keys.WILDCARD_TOPIC = None →
  (∀ reply, (writeMessage reply (m_pWorker b)).1 = true) →
  ∃ req reply,
    data_sent a1 = data_sent a ++ [req] ∧
    data_sent (handleOne brokerB (delivered origin id req) b) = data_sent b ++ [reply] ∧
    (sendRequest_end p rt (handleOne brokerA (delivered origin' id' reply) a1)).1 = Some (f payload).
Proof.
  intros Hcb Hu Hres Hq Hb Hh Hw Hok.
  assert (∀ k, Keys.isReservedKey k = false → Keys.isControlMessage k = false ∧ k ≠ Keys.RESET) as Hnc.
  { intros k Hk. split; [destruct (Keys.isControlMessage k) eqn:E; [|done]; by apply control_is_reserved in E; congruence|].
    by intros ->. }
  destruct (Hnc t Hres) as [Ht HtR]. destruct (request_data _ _ _ _ _ _ _ Ht Hb) as [Ert Hd].
  assert (Keys.isReservedKey rt = false) as Hrr by (subst rt; by rewrite reply_reserved).
  destruct (Hnc rt Hrr) as [Hrt HrtR].
  set (req := mkEnvelope _ _) in Hd. exists req, (reply_to f (delivered origin id req) b). split_and!; [done| |].
  - unfold handleOne. rewrite decide_False by done.
    pose proof (answering_step f cb i brokerB (delivered origin id req) b Hcb Hh Hw) as Hs.
    assert (rt ≠ EmptyString) as Hne by (intros E; rewrite E in Ert; by apply reply_nonempty in Ert).
    specialize (Hs Hne). unfold data_sent at 1. rewrite Hs.
    pose proof (Hok (reply_to f (delivered origin id req) b)) as Hok'.
    destruct (sendRawEnvelope (reply_to f (delivered origin id req) b) b) as [ok b'] eqn:E.
    assert (ok = true) as ->.
    { unfold sendRawEnvelope in E. change (handler_key _) with rt in E. rewrite Hrt in E.
      destruct (writeMessage _ _). simpl in *. congruence. }
    by apply sendRaw_data in E.
  - pose proof (request_begin_pending p rt _ _ _ _ _ _ eq_refl Hq Hb) as H1.
    change (f payload) with (env_payload (delivered origin' id' (reply_to f (delivered origin id req) b))).
    apply (reply_answers p rt (length (m_calls a))); [done| |done|done].
    pose proof (pd_promise _ _ _ _ H1) as Hp. destruct (answers _ _ a1) as [|x l] eqn:E; [done|].
    exfalso. revert E. unfold answers. by rewrite (request_begin_calls _ _ _ _ _ _ _ Hb), drop_ge by lia.
Qed.

(** Two clients over the demonstration worker. *)
(** A request and its reply, end to end: the request a client sends, delivered to a
    client whose handler answers with [f] of the payload, makes that client send one
    reply, and that reply, delivered back, makes [sendRequest] return [f] of what was
    asked, whatever ids the brokers on the way stamp. *)
Theorem request_reply_roundtrip {W} `{!WorkerInterface W} `{!WorkerLaws W} (a b : @Manager W)
    p uuid t payload rt a1 f i brokerA brokerB origin origin' id id' :
  String.length uuid = 36 → Keys.isReservedKey t = false →
  (∀ t l e, m_msgHandlers a !! t = Some l → e ∈ l → quiet_entry p e) →
  sendRequest_begin p uuid t payload a = (true, rt, a1) →
  m_msgHandlers b !! t = Some [mkEntry i (Some (responder f)) Origins.Any] →
  m_msgHandlers b !! Keys.WILDCARD_TOPIC = None →
  (∀ reply, (writeMessage reply (m_pWorker b)).1 = true) →
  ∃ req reply,
    data_sent a1 = data_sent a ++ [req] ∧
    data_sent (handleOne brokerB (delivered origin id req) b) = data_sent b ++ [reply] ∧
    (sendRequest_end p rt (handleOne brokerA (delivered origin' id' reply) a1)).1 = Some (f payload).
Proof. by apply (request_reply_core a b p uuid t payload rt a1 f (responder f)). Qed.

Definition demo_uuid : string := "0f8fad5b-d9cb-469f-a165-70867728950e".

Definition demo_server : @Manager DemoWorker :=
  performRegistration "ping" (Some (responder (λ d, d +:+ "!"))) 9 Origins.Any (new_manager "v" demo_config).

Definition demo_client : @Manager DemoWorker := new_manager "u" demo_config.

Lemma request_reply_roundtrip_witness :
  ∃ req reply,
    data_sent (sendRequest_begin 5 demo_uuid "ping" "hi" demo_client).2 = data_sent demo_client ++ [req] ∧
    data_sent (handleOne "B" (delivered "B" "1" req) demo_server) = data_sent demo_server ++ [reply] ∧
    (sendRequest_end 5 (makeReplyTopic demo_uuid "ping")
      (handleOne "B" (delivered "B" "2" reply) (sendRequest_begin 5 demo_uuid "ping" "hi" demo_client).2)).1 =
    Some ("hi" +:+ "!").
Proof.
  apply (request_reply_roundtrip demo_client demo_server 5 demo_uuid "ping" "hi"
    (makeReplyTopic demo_uuid "ping") _ (λ d, d +:+ "!") 9 "B" "B" "B" "B" "1" "2" eq_refl eq_refl);
    [done|vm_compute; reflexivity..|]. intros reply. reflexivity.
Defined.

(** Replying is not protected the way sending is: a request that names a control key
    as its reply topic makes the client that answers it send that control message in its
    own name.  Here the key is [__DISCONNECT__], on which the broker forgets its
    sender. *)
Theorem reply_topic_hijacks_control {W} `{!WorkerInterface W} `{!WorkerLaws W} (m : @Manager W) f i brokerId env :
  m_msgHandlers m !! topic (env_header env) = Some [mkEntry i (Some (responder f)) Origins.Any] →
  m_msgHandlers m !! Keys.WILDCARD_TOPIC = None →
  reply_topic (env_header env) = Keys.DISCONNECT →
  (writeControlMessage (reply_to f env m) (m_pWorker m)).1 = true →
  written (handleMessage brokerId env m) = written m ++ [reply_to f env m] ∧
  handler_key (env_header (reply_to f env m)) = Keys.DISCONNECT ∧
  sender_id (env_header (reply_to f env m)) = m_clientId m.
Proof.
  intros Ht Hw Hr Hok. split_and!; [|done..]. unfold written at 1.
  rewrite (answering_step f (responder f) i brokerId env m eq_refl Ht Hw) by (by rewrite Hr).
  unfold sendRawEnvelope. change (handler_key _) with (reply_topic (env_header env)). rewrite Hr. simpl.
  destruct (writeControlMessage _ _) as [ok w] eqn:E. simpl in Hok. subst ok.
  by apply writeControlMessage_law in E as [? _].
Qed.

Lemma reply_topic_hijacks_control_witness :
  (λ e, (handler_key (env_header e), sender_id (env_header e))) <$>
    last (written (handleMessage "B"
      (mkEnvelope (mkHeader "ping" "other" "ping" "B" EmptyString Keys.DISCONNECT) "x") demo_server)) =
  Some (Keys.DISCONNECT, "c"%string).
Proof.
  destruct (reply_topic_hijacks_control demo_server (λ d, d +:+ "!") 9 "B"
    (mkEnvelope (mkHeader "ping" "other" "ping" "B" EmptyString Keys.DISCONNECT) "x")) as (H & _);
    [vm_compute; reflexivity..|]. rewrite H, last_snoc. reflexivity.
Defined.
