(* ===== verification/EndToEnd.v ===== *)
(** * Client library and broker, end to end

    Composes the client library of [ConnectionManager] with the broker of [Broker] over the
    frames between them: what a client's worker was handed is read by the broker's ROUTER
    ([broker_reads]), what the ROUTER sent to the client's identity is read by its worker and
    handled ([client_reads]).  A client and the broker are [in_step] when the broker holds, for
    the client, the scopes its callbacks want between them. *)

From Stdlib Require Import ZArith Lia.
From S2P Require Import Prelude.
From S2P Require Import MessageKeys.
From S2P Require Import Config.
From S2P Require Import SafeQueue.
From S2P Require Import Wire.
From S2P Require Import Registry.
From S2P Require Import Dedup.
From S2P Require Import Uuid.
From S2P Require Import Worker.
From S2P Require Import ConnectionManager.
From S2P Require Import ConnectionManagerInv.
From S2P Require Import ConnectionManagerSpec.
From S2P Require Import Interest.
From S2P Require Import Broker.
From S2P Require Import BrokerInv.
From S2P Require Import Delivery.
From S2P Require Import BrokerSpec.
From S2P Require Import Mesh.

Section end_to_end.
Context {S : Type} `{!ZmqSender S} `{!ZmqSenderLaws S} {W : Type} `{!WorkerInterface W} `{!WorkerLaws W}.
Context {V : Type} `{!WorkerInterface V} `{!WorkerLaws V} {PB : ProtobufRuntime} {PBL : @ProtobufLaws PB}.
Implicit Types (b : Broker S W) (m : @Manager V).

(** ** The wire between them *)

(** The broker reads a message client [c] put on the wire; a header that does not decode is
    counted and dropped. *)
Definition broker_reads (env : Env) (c : string) (e : Envelope) b : option (Broker S W) :=
  match packet_envelope (frames None (encodeHeader (env_header e)) (env_payload e)) with
  | Some (e, bytes) => from_router env c e bytes b
  | None => Some b
  end.

(** The client reads a group the broker addressed to it: acks are its worker's, the rest is
    handled. *)
Definition client_reads (brokerId : string) (m : @Manager V) (g : list string) : @Manager V :=
  match g with
  | [] => m
  | _ :: g =>
      match packet_envelope g with
      | Some (e, _) => if decide (handler_key (env_header e) = Keys.HEARTBEAT_ACK) then m else handleOne brokerId e m
      | None => m
      end
  end.

Definition groups_for (c : string) (gs : list (list string)) : list (list string) := filter (λ g, head g = Some c) gs.

(** Everything the broker sent to client [m] between two of its states. *)
Definition client_reads_all (brokerId : string) b b' m : @Manager V :=
  foldl (client_reads brokerId) m
    (groups_for (m_clientId m) (drop (length (sock_wire (m_socket b))) (sock_wire (m_socket b')))).

(** The broker has for the client what the client has callbacks for. *)
Definition in_step b m : Prop :=
  ∀ t, held (m_subscriptions b) (m_clientId m) t = unionScope <$> m_msgHandlers m !! t.

(** ** Lemmas *)

Lemma unionScope_accepts l isLocal :
  scopeAccepts (unionScope l) isLocal = existsb (λ e, scopeAccepts (ce_scope e) isLocal) l.
Proof.
  unfold unionScope. assert (∀ a, scopeAccepts (foldl (λ scope entry, widen scope (ce_scope entry)) a l) isLocal =
    scopeAccepts a isLocal || existsb (λ e, scopeAccepts (ce_scope e) isLocal) l) as H.
  { induction l as [|e l IH]; intros a; simpl; [by rewrite orb_false_r|]. by rewrite IH, widen_accepts, orb_assoc. }
  rewrite H. by destruct isLocal.
Qed.

Lemma calls_of_nobody data isLocal l : existsb (λ e, scopeAccepts (ce_scope e) isLocal) l = false → calls_of data isLocal l = [].
Proof.
  intros H. unfold calls_of. induction l as [|e l IH]; [done|]. simpl in H. apply orb_false_iff in H as [He Hl].
  rewrite filter_cons_False; [by apply IH|]. intros [_ E]. congruence.
Qed.

Lemma groups_for_sent h p cs oks c :
  length oks = length cs → NoDup cs → refusals oks = 0 →
  groups_for c (sent_groups h p cs oks) = if decide (c ∈ cs) then [frames (Some c) h p] else [].
Proof.
  revert oks; induction cs as [|c' cs IH]; intros [|ok oks] Hlen Hnd Hr; try discriminate Hlen; [done|].
  apply NoDup_cons in Hnd as [Hc Hnd]. injection Hlen as Hlen. rewrite refusals_cons in Hr.
  destruct ok; [|simpl in Hr; lia]. rewrite sent_groups_cons. unfold groups_for. rewrite filter_app. fold (groups_for c (sent_groups h p cs oks)).
  rewrite IH by (done || simpl in Hr; lia). destruct (decide (c = c')) as [->|Hne].
  - rewrite filter_cons_True by done. rewrite (decide_False (P := c' ∈ cs)), decide_True by (done || left). done.
  - rewrite filter_cons_False by (simpl; congruence). simpl. destruct (decide (c ∈ cs)) as [Hin|Hin].
    + by rewrite decide_True by (by right).
    + rewrite decide_False; [done|]. by intros [?|?]%elem_of_cons.
Qed.

Lemma processMessage_stamp env h p c peer b :
  processMessage env h p c peer b = processMessage env (stamp env (m_brokerId b) h) p c peer b.
Proof.
  unfold processMessage. assert (stamp env (m_brokerId b) (stamp env (m_brokerId b) h) = stamp env (m_brokerId b) h) as ->; [|done].
  unfold stamp at 2 3. destruct (decide (message_uuid h = EmptyString)); [|by apply stamp_uuid]. by apply stamp_uuid.
Qed.

(** What a SUBSCRIBE leaves as it was. *)
Record subscribed_from b b' : Prop := {
  sf_inv : broker_inv b';
  sf_socket : m_socket b' = m_socket b;
  sf_id : m_brokerId b' = m_brokerId b;
  sf_seen : m_seen b' = m_seen b;
  sf_clients : ∀ c, is_Some (m_clients b !! c) → is_Some (m_clients b' !! c)
}.

Lemma handleSubscribe_keeps env t payload c b :
  let b' := handleSubscribe env t payload c b in
  m_socket b' = m_socket b ∧ m_brokerId b' = m_brokerId b ∧ m_seen b' = m_seen b ∧ m_clients b' = m_clients b.
Proof.
  unfold handleSubscribe. repeat case_decide; try done. destruct (negb _); [done|]. by destruct (subscribe _ _ _ _) as [[] reg].
Qed.

(** A connected client's SUBSCRIBE is read and recorded. *)
Lemma broker_reads_subscribe env c t payload b :
  broker_inv b → is_Some (m_clients b !! c) → 0 < String.length t ≤ 512 →
  is_Some (held (m_subscriptions b) c t) ∨
    size (default ∅ (m_clientTopics (m_subscriptions b) !! c)) < MAX_SUBSCRIPTIONS_PER_CLIENT →
  let e := mkEnvelope (makeControlHeader Keys.SUBSCRIBE c t) payload in
  pb_sized (env_header e) → header_utf8 (env_header e) = true →
  ∃ b', broker_reads env c e b = Some b' ∧ subscribed_from b b' ∧
    abs_registry (m_subscriptions b') = <[(c, t) := decodeSubscribeScope payload]> (abs_registry (m_subscriptions b)).
Proof.
  intros Hinv Hc Ht Hroom e Hs Hu. unfold broker_reads. rewrite packet_frames by done. unfold from_router.
  set (n := String.length _ + _). destruct (processMessage_inv env (env_header e) payload c false (count_received n b)) as (b' & E & Hinv').
  { by apply (frame_broker_inv b). }
  exists b'. split; [exact E|].
  assert (∃ b1, b' = handleSubscribe env t payload c b1 ∧ m_subscriptions b1 = m_subscriptions b ∧ m_socket b1 = m_socket b ∧
    m_brokerId b1 = m_brokerId b ∧ m_seen b1 = m_seen b ∧ ∀ c', is_Some (m_clients b !! c') → is_Some (m_clients b1 !! c'))
    as (b1 & -> & S1 & W1 & I1 & N1 & C1).
  { revert E. unfold processMessage. rewrite stamp_key. simpl.
    set (b0 := tap_send _ _ _). unfold handleClientMessage. simpl.
    rewrite decide_False by (intros [Hn _]; destruct Hc as [x Hx]; change (m_clients b !! c = None) in Hn; congruence).
    intros [= <-]. eexists. split; [reflexivity|]. split_and!; try done. intros c' Hc'. simpl. rewrite lookup_insert. by case_decide. }
  destruct (handleSubscribe_keeps env t payload c b1) as (K1 & K2 & K3 & K4). split.
  - split; [done|..]; [congruence..|]. intros c'. rewrite K4. apply C1.
  - destruct (handleSubscribe_contract env t payload c b1) as [Hacc _]. rewrite <-S1. apply Hacc. split; [done|]. by rewrite S1.
Qed.

(** The message [sendDataInternal] makes, and as the broker stamps it. *)
Definition publication (c t data : string) : Envelope := mkEnvelope (mkHeader t c t EmptyString EmptyString EmptyString) data.

Definition stamped (env : Env) (id : string) (e : Envelope) : Envelope := mkEnvelope (stamp env id (env_header e)) (env_payload e).

(** The broker, reading one publication, sent it once to every client subscribed. *)
Definition sent_once (env : Env) (c t data : string) b b' : Prop :=
  let e' := stamped env (m_brokerId b) (publication c t data) in
  ∀ c', (subscribed b (env_header e') c false c' →
          groups_for c' (drop (length (sock_wire (m_socket b))) (sock_wire (m_socket b'))) = [group_of e' (Some c')]) ∧
       (¬ subscribed b (env_header e') c false c' →
          groups_for c' (drop (length (sock_wire (m_socket b))) (sock_wire (m_socket b'))) = []).

(** A connected client's publication is read and sent once to every client subscribed. *)
Lemma broker_reads_publication env c t data b :
  let e := publication c t data in
  let e' := stamped env (m_brokerId b) e in
  broker_inv b → sock_open (m_socket b) = [] → is_Some (m_clients b !! c) → Keys.isReservedKey t = false →
  pb_sized (env_header e) → header_utf8 (env_header e) = true → msg_id e' ∉ known b → (Z.of_nat (fanout b) < 2 ^ 64)%Z →
  ∃ b', broker_reads env c e b = Some b' ∧ broker_inv b' ∧ kept b b' ∧ sock_open (m_socket b') = [] ∧ fanout b' = fanout b ∧
    (m_totalDropped b' = m_totalDropped b → sent_once env c t data b b').
Proof.
  intros e e' Hinv Ho Hc Hr Hs Hu Hnew Hf. unfold broker_reads. rewrite packet_frames by done. unfold from_router.
  set (n := String.length _ + _). rewrite processMessage_stamp.
  destruct (process_data env (env_header e') data c false (count_received n b)) as (b' & E & Hinv' & K & Ho' & Hb'); try done.
  { by apply (frame_broker_inv b). }
  exists b'. split; [exact E|]. split; [done|]. split; [by destruct K|]. split; [done|]. change (known (count_received n b)) with (known b) in Hb'.
  rewrite decide_False in Hb' by exact Hnew. destruct (rt_sent _ _ _ _ _ _ Hb') as (cs & oks & Hlen & Hnd & Hcs & Hw & Hd).
  change (sock_wire (m_socket (count_received n b))) with (sock_wire (m_socket b)) in Hw.
  split; [unfold fanout; by rewrite (rt_peers _ _ _ _ _ _ Hb'), map_size_fmap, (kept_subs _ _ K)|].
  intros Hz. rewrite Hz in Hd. symmetry in Hd.
  pose proof (subscribed_bound b _ _ _ cs Hnd (λ c, proj1 (Hcs c))) as Hb.
  apply iter_inc64_fix in Hd.
  2: { pose proof (link_refusals_bound (makeWireMessage (encodeHeader (env_header e')) data) (m_peers b)) as Hl.
       pose proof (refusals_bound oks). change (m_peers (count_received n b)) with (m_peers b). unfold fanout in Hf. lia. }
  apply Nat.eq_add_0 in Hd as [_ Hd]. intros c'. rewrite Hw, drop_app_length, groups_for_sent by done.
  split; intros Hsub; [rewrite decide_True by (by apply Hcs)|rewrite decide_False by (by rewrite Hcs)]; done.
Qed.

(** What a registration on a connected client does. *)
Lemma registration_sent t cb i scope m :
  let m' := performRegistration t cb i scope m in
  let next := default [] (m_msgHandlers m !! t) ++ [mkEntry i cb scope] in
  m_connected m = true → control_refused (m_pWorker m') = control_refused (m_pWorker m) →
  control_written (m_pWorker m') = control_written (m_pWorker m) ++
    [mkEnvelope (makeControlHeader Keys.SUBSCRIBE (m_clientId m) t) (encodeSubscribeScope (unionScope next))] ∧
  m_clientId m' = m_clientId m ∧ m_msgHandlers m' = <[t := next]> (m_msgHandlers m) ∧ m_calls m' = m_calls m.
Proof.
  intros m' next Hc Href. revert Href. unfold m', performRegistration. fold next. simpl. rewrite Hc.
  unfold send_subscribe, createSubscribeEnvelope. simpl. rewrite lookup_insert_eq. unfold sendRawEnvelope. simpl.
  destruct (writeControlMessage _ (m_pWorker m)) as [ok w] eqn:E. simpl. apply writeControlMessage_law in E as (Hw & Hr & _).
  rewrite Hw, Hr. destruct ok; [|lia]. done.
Qed.

(** A group handled by the client it is for. *)
Lemma client_reads_group brokerId c e m :
  pb_sized (env_header e) → header_utf8 (env_header e) = true → Keys.isReservedKey (handler_key (env_header e)) = false →
  client_reads brokerId m (group_of e (Some c)) = handleMessage brokerId e m.
Proof.
  intros Hs Hu Hr. change (group_of e (Some c)) with (c :: frames None (encodeHeader (env_header e)) (env_payload e)).
  cbn [client_reads]. rewrite packet_frames by done. unfold handleOne. by rewrite !decide_False by (intros E; by rewrite E in Hr).
Qed.

(** The client's callbacks for [t]: its own and the wildcard's. *)
Definition callbacks_for (t : string) m : list CallbackEntry :=
  default [] (m_msgHandlers m !! t) ++ default [] (wildcard_list t (m_msgHandlers m)).

Lemma in_step_subscribed b m e sender :
  in_step b m → m_clientId m ≠ sender →
  (subscribed b (env_header e) sender false (m_clientId m) →
     existsb (λ e, scopeAccepts (ce_scope e) true) (callbacks_for (topic (env_header e)) m) = true) ∧
  (existsb (λ e, scopeAccepts (ce_scope e) true) (callbacks_for (topic (env_header e)) m) = true →
     subscribed b (env_header e) sender false (m_clientId m)).
Proof.
  intros Hin Hne. unfold callbacks_for. rewrite existsb_app. assert (∀ t l, m_msgHandlers m !! t = Some l →
    held (m_subscriptions b) (m_clientId m) t = Some (unionScope l)) as Hheld by (intros t l E; by rewrite Hin, E).
  split.
  - intros (_ & t & s & Ht & Hh & Hs). rewrite Hin in Hh. destruct (m_msgHandlers m !! t) as [l|] eqn:El; [|done].
    injection Hh as <-. simpl in Hs. rewrite unionScope_accepts in Hs. apply orb_true_iff.
    destruct (decide (t = topic (env_header e))) as [->|Hneq]; [left; by rewrite El|right].
    destruct Ht as [?| ->]; [done|]. unfold wildcard_list. rewrite decide_False by congruence. by rewrite El.
  - intros H%orb_true_iff. split; [by right|]. destruct H as [H|H].
    + destruct (m_msgHandlers m !! topic (env_header e)) as [l|] eqn:El; [|done]. exists (topic (env_header e)), (unionScope l).
      split_and!; [by left|by apply Hheld|by rewrite unionScope_accepts].
    + unfold wildcard_list in H. case_decide; [done|]. destruct (m_msgHandlers m !! Keys.WILDCARD_TOPIC) as [l|] eqn:El; [|done].
      exists Keys.WILDCARD_TOPIC, (unionScope l). split_and!; [by right|by apply Hheld|by rewrite unionScope_accepts].
Qed.

(** Everything a broker sent to a client in step, when it read one publication. *)
Lemma publication_read env c t data b b' m brokerId :
  let e' := stamped env (m_brokerId b) (publication c t data) in
  in_step b m → m_clientId m ≠ c → Keys.isReservedKey t = false →
  pb_sized (env_header e') → header_utf8 (env_header e') = true → sent_once env c t data b b' →
  client_reads_all brokerId b b' m =
    if existsb (λ e, scopeAccepts (ce_scope e) true) (callbacks_for t m) then handleMessage brokerId e' m else m.
Proof.
  intros e' Hin Hne Hr Hs Hu Hgroups. destruct (Hgroups (m_clientId m)) as [Hyes Hno].
  destruct (in_step_subscribed b m e' c Hin Hne) as [H1 H2]. change (topic (env_header e')) with t in *. unfold client_reads_all.
  destruct (existsb (λ e, scopeAccepts (ce_scope e) true) (callbacks_for t m)) eqn:Hex.
  - rewrite Hyes by auto. cbn [foldl]. by apply client_reads_group.
  - by rewrite Hno by (intros Hsub; apply H1 in Hsub; congruence).
Qed.

(** Its callbacks, once each. *)
Lemma publication_called env c t data b b' m brokerId :
  let e' := stamped env (m_brokerId b) (publication c t data) in
  in_step b m → m_clientId m ≠ c → Keys.isReservedKey t = false →
  pb_sized (env_header e') → header_utf8 (env_header e') = true → brokerId = EmptyString ∨ brokerId = m_brokerId b →
  sent_once env c t data b b' →
  m_calls (client_reads_all brokerId b b' m) = m_calls m ++ calls_of data true (callbacks_for t m).
Proof.
  intros e' Hin Hne Hr Hs Hu Hid Hgroups. rewrite (publication_read env c t data) by done. fold e'.
  destruct (existsb _ _) eqn:Hex; [|by rewrite calls_of_nobody, app_nil_r].
  rewrite handleMessage_calls. change (topic (env_header e')) with t. f_equal.
  fold (callbacks_for t m). assert (message_is_local brokerId e' m = true) as ->; [|done].
  unfold message_is_local. case_decide; [|done]. change (origin_broker_id (env_header e')) with (m_brokerId b).
  destruct Hid as [-> | ->]; [done|]. by rewrite (bool_decide_true (m_brokerId b = m_brokerId b)), orb_true_r.
Qed.

(** C3: a registered callback is called with what another client publishes, end to end.  A
    connected client, of which the broker has what it has callbacks for, registers a callback;
    its SUBSCRIBE reaches the broker, which keeps the two in step; another client of the
    broker publishes; unless the broker counts a drop, what it sends the first client makes
    its library call exactly its callbacks for that topic and for the wildcard that accept
    local messages, the new one among them, once each and with the payload published. *)
Theorem publish_end_to_end b (ma mb : @Manager V) env1 env2 t data cb i scope brokerId :
  let mb' := performRegistration t cb i scope mb in
  let sub := mkEnvelope (makeControlHeader Keys.SUBSCRIBE (m_clientId mb) t)
    (encodeSubscribeScope (unionScope (default [] (m_msgHandlers mb !! t) ++ [mkEntry i cb scope]))) in
  let pub := publication (m_clientId ma) t data in
  let pub' := stamped env2 (m_brokerId b) pub in
  broker_inv b → sock_open (m_socket b) = [] → client_inv mb → named_scope scope → good_func cb → in_step b mb →
  is_Some (m_clients b !! m_clientId ma) → is_Some (m_clients b !! m_clientId mb) → m_clientId mb ≠ m_clientId ma →
  m_connected mb = true → control_refused (m_pWorker mb') = control_refused (m_pWorker mb) →
  (sendDataInternal t data ma).1 = true →
  0 < String.length t ≤ 512 → Keys.isReservedKey t = false →
  size (default ∅ (m_clientTopics (m_subscriptions b) !! m_clientId mb)) < MAX_SUBSCRIPTIONS_PER_CLIENT →
  Forall (λ e, pb_sized (env_header e) ∧ header_utf8 (env_header e) = true) [sub; pub; pub'] →
  msg_id pub' ∉ known b → brokerId = EmptyString ∨ brokerId = m_brokerId b →
  control_written (m_pWorker mb') = control_written (m_pWorker mb) ++ [sub] ∧
  data_sent (sendDataInternal t data ma).2 = data_sent ma ++ [pub] ∧
  ∃ b1, broker_reads env1 (m_clientId mb) sub b = Some b1 ∧ in_step b1 mb' ∧
    ((Z.of_nat (fanout b1) < 2 ^ 64)%Z →
     ∃ b2, broker_reads env2 (m_clientId ma) pub b1 = Some b2 ∧ broker_inv b2 ∧
       (m_totalDropped b2 = m_totalDropped b1 →
        m_calls (client_reads_all brokerId b1 b2 mb') = m_calls mb ++ calls_of data true (callbacks_for t mb'))).
Proof.
  intros mb' sub pub pub' Hinv Ho Hci Hsc Hgood Hin Hca Hcb Hne Hcon Href Hsend Ht Hr Hroom Hwire Hnew Hid.
  apply Forall_cons in Hwire as [[Ss Su] Hwire]. apply Forall_cons in Hwire as [[Ps Pu] Hwire]. apply Forall_cons in Hwire as [[Ds Du] _].
  destruct (registration_sent t cb i scope mb Hcon Href) as (Hw & Hcid & Hh & Hcalls). fold mb' in Hw, Hcid, Hh, Hcalls.
  split; [exact Hw|]. split.
  { destruct (sendDataInternal t data ma) as [ok ma'] eqn:E. simpl in Hsend. subst ok. simpl. apply (sendRaw_data pub ma ma'); [|exact E].
    destruct (Keys.isControlMessage t) eqn:Ec; [|done]. by apply control_is_reserved in Ec; congruence. }
  destruct (broker_reads_subscribe env1 (m_clientId mb) t (env_payload sub) b) as (b1 & E1 & [I1 W1 N1 K1 C1] & Habs); try done; [by right|].
  assert (in_step b1 mb') as Hin1.
  { intros t'. rewrite Hcid, Hh, <-abs_registry_held, Habs. rewrite !lookup_insert.
    destruct (decide (t = t')) as [->|Hnt].
    - rewrite decide_True by done. simpl. f_equal. apply subscribeScope_roundtrip, unionScope_named; [by destruct (default _ _)|].
      apply Forall_app. split; [|by apply Forall_singleton]. destruct (m_msgHandlers mb !! t') eqn:E; [by apply (ci_handlers _ Hci t')|apply Forall_nil_2].
    - rewrite decide_False by congruence. rewrite abs_registry_held. apply Hin. }
  exists b1. split; [exact E1|]. split; [exact Hin1|]. intros Hf.
  assert (stamped env2 (m_brokerId b1) pub = pub') as Es by (unfold pub'; by rewrite N1).
  destruct (broker_reads_publication env2 (m_clientId ma) t data b1) as (b2 & E2 & I2 & _ & _ & _ & Hg); try done.
  - by rewrite W1.
  - by apply C1.
  - fold pub. rewrite Es. unfold known. by rewrite K1.
  - exists b2. split; [exact E2|]. split; [done|]. intros Hz. rewrite <-Hcalls.
    apply (publication_called env2 (m_clientId ma)); try done; try (fold pub; by rewrite Es); [congruence|by rewrite N1|exact (Hg Hz)].
Qed.
End end_to_end.

(** ** Witness *)

#[local] Existing Instance demo_runtime.
#[local] Existing Instance demo_runtime_laws.
#[local] Existing Instance demo_sender.
#[local] Existing Instance demo_sender_laws.

Definition bus_broker : Broker DemoSender DemoWorker :=
  with_clients {[ "alice" := Broker.mkClient 90 0; "bob" := Broker.mkClient 90 0 ]} demo_broker.

Definition bus_client (name : string) : @Manager DemoWorker :=
  statusHandler true (new_manager "u" (default_config "tcp://h:1" name)).

Definition bus_callback : Callback := mkCallback (λ data, [ActSend "seen" data]).

Lemma bus_broker_inv : broker_inv bus_broker.
Proof.
  pose proof demo_broker_inv as Hinv. split; try apply Hinv. intros c [m Hm].
  change ((∅ : gmap string (gmap string Origin)) !! c = Some m) in Hm. by rewrite lookup_empty in Hm.
Qed.

Lemma publish_end_to_end_witness :
  ∃ b1 b2, broker_reads demo_env "alice" (mkEnvelope (makeControlHeader Keys.SUBSCRIBE "alice" "news") (encodeSubscribeScope Origins.Any)) bus_broker = Some b1 ∧
    broker_reads demo_env "bob" (publication "bob" "news" "hello") b1 = Some b2 ∧
    (m_totalDropped b2 = m_totalDropped b1 →
     m_calls (client_reads_all "3f2a77c0-broker" b1 b2 (performRegistration "news" (Some bus_callback) 7 Origins.Any (bus_client "alice"))) =
       [(7%Z, "hello"%string)]).
Proof.
  destruct (publish_end_to_end bus_broker (bus_client "bob") (bus_client "alice") demo_env demo_env "news" "hello" (Some bus_callback) 7
    Origins.Any "3f2a77c0-broker") as (_ & _ & b1 & E1 & _ & H).
  - apply bus_broker_inv.
  - reflexivity.
  - apply statusHandler_inv, new_manager_inv.
  - by right; right.
  - constructor. intros data a Ha. apply list_elem_of_singleton in Ha as ->. by constructor.
  - intros t. reflexivity.
  - by eexists.
  - by eexists.
  - discriminate.
  - reflexivity.
  - reflexivity.
  - reflexivity.
  - simpl. lia.
  - reflexivity.
  - apply max_subs_pos.
  - repeat constructor; vm_compute; reflexivity.
  - intros Hin. by apply (bool_decide_pack _) in Hin.
  - by right.
  - exists b1. destruct H as (b2 & E2 & _ & H).
    + assert (fanout <$> Some b1 = Some 1) as Hf by (rewrite <-E1; vm_compute; reflexivity). injection Hf as ->. lia.
    + exists b2. split; [exact E1|]. split; [exact E2|]. intros Hz. rewrite (H Hz). reflexivity.
Defined.
