(* ===== verification/Recording.v ===== *)
(** * Captures

    Models [cli/recording.h] and [cli/recording.cpp].  A file is the string of its bytes;
    for every [fwrite] the number of bytes the C library took is an argument, so a full
    disk or a killed recorder is a shorter file.  The clock is an argument too, in microseconds. *)

From Stdlib Require Import ZArith Lia.
From S2P Require Import Prelude.
From S2P Require Import MessageKeys.
From S2P Require Import Config.
From S2P Require Import Wire.

(** ** Little-endian integers *)

(** [n] bytes, least significant first: the loops over [shift]. *)
Fixpoint appendLe (n : nat) (value : Z) : string :=
  match n with
  | O => EmptyString
  | S n => String (chr (Z.land value 0xff)) (appendLe n (Z.shiftr value 8))
  end.

Definition appendLe32 (out : string) (value : Z) : string := out +:+ appendLe 4 (wrap 32 value).

Definition appendLe64 (out : string) (value : Z) : string := out +:+ appendLe 8 (wrap 64 value).

(** The first [n] bytes at [shift], or-ed together. *)
Fixpoint readLe (n : nat) (bytes : string) (shift : Z) : Z :=
  match n, bytes with
  | S n, String c bytes => Z.lor (Z.shiftl (byte_of c) shift) (readLe n bytes (shift + 8))
  | _, _ => 0
  end.

Definition readLe32 (bytes : string) : Z := readLe 4 bytes 0.

(** The cast of a [std::uint64_t] to [std::int64_t]. *)
Definition to_int64 (value : Z) : Z := if decide (value < 2 ^ 63)%Z then value else (value - 2 ^ 64)%Z.

Definition readLe64 (bytes : string) : Z := to_int64 (readLe 8 bytes 0).

(** ** Writing *)

Definition MAGIC : string := "WISPREC1".
Definition MAGIC_SIZE : nat := 8.

(** Why a call returned [false]; the texts only describe these. *)
Inductive RecordError :=
  | NotOpen | WriteFailed | NotACapture | EndsMidRecord | ImplausibleSize | EndsInHeader | EndsInPayload
  | UnknownHeader.

Record RecordWriter := mkWriter {
  w_file : option string;
  w_count : Z;
  w_startMicros : Z
}.

Definition new_writer : RecordWriter := mkWriter None 0 0.

(** [fwrite] when the library takes the first [taken] bytes. *)
Definition fwrite (taken : nat) (bytes file : string) : nat * string :=
  (taken `min` String.length bytes, file +:+ str_take taken bytes).

Definition writer_open (taken : nat) (w : RecordWriter) : option RecordError * RecordWriter :=
  let '(n, file) := fwrite taken MAGIC EmptyString in
  if decide (n = MAGIC_SIZE) then (None, mkWriter (Some file) 0 0)
  else (Some WriteFailed, mkWriter (Some file) (w_count w) (w_startMicros w)).

Section recording.
Context {PB : ProtobufRuntime}.

Definition encodeRecord (offsetMicros : Z) (envelope : Envelope) : string :=
  let headerFrame := encodeHeader (env_header envelope) in
  let record := appendLe64 EmptyString offsetMicros in
  let record := appendLe32 record (Z.of_nat (String.length headerFrame)) in
  let record := appendLe32 record (Z.of_nat (String.length (env_payload envelope))) in
  record +:+ headerFrame +:+ env_payload envelope.

Definition write (now : Z) (taken : nat) (envelope : Envelope) (w : RecordWriter) : option RecordError * RecordWriter :=
  match w_file w with
  | None => (Some NotOpen, w)
  | Some file =>
      let startMicros := if decide (w_count w = 0%Z) then now else w_startMicros w in
      let record := encodeRecord (now - startMicros) envelope in
      let '(n, file) := fwrite taken record file in
      if decide (n = String.length record)
      then (None, mkWriter (Some file) (wrap 64 (w_count w + 1)) startMicros)
      else (Some WriteFailed, mkWriter (Some file) (w_count w) startMicros)
  end.

Definition writer_close (w : RecordWriter) : RecordWriter := mkWriter None (w_count w) (w_startMicros w).

(** ** Reading *)

(** [fread] of [n] bytes: what it delivered and the rest of the file. *)
Definition fread (n : nat) (file : string) : string * string := (str_take n file, str_drop n file).

(** [None] is [false]; the string is what is left to read. *)
Definition reader_open (file : string) : option string :=
  let '(magic, rest) := fread MAGIC_SIZE file in
  if decide (String.length magic ≠ MAGIC_SIZE ∨ magic ≠ MAGIC) then None else Some rest.

Inductive ReadResult :=
  | RecordRead (envelope : Envelope) (offsetMicros : Z)
  | CleanEnd
  | ReadError (e : RecordError).

Definition readRecord (file : string) : ReadResult * string :=
  let '(fixed, file) := fread 16 file in
  if decide (String.length fixed = 0) then (CleanEnd, file)
  else if decide (String.length fixed ≠ 16) then (ReadError EndsMidRecord, file)
  else
    let offsetMicros := readLe64 fixed in
    let headerLength := readLe32 (str_drop 8 fixed) in
    let payloadLength := readLe32 (str_drop 12 fixed) in
    if decide (headerLength = 0 ∨ headerLength > MAX_MESSAGE_SIZE_BYTES ∨ payloadLength > MAX_MESSAGE_SIZE_BYTES)%Z
    then (ReadError ImplausibleSize, file)
    else
      let '(headerFrame, file) := fread (Z.to_nat headerLength) file in
      if decide (String.length headerFrame ≠ Z.to_nat headerLength) then (ReadError EndsInHeader, file)
      else
        let '(payload, file) := fread (Z.to_nat payloadLength) file in
        if decide (String.length payload ≠ Z.to_nat payloadLength) then (ReadError EndsInPayload, file)
        else
          match decodeHeaderFrame headerFrame with
          | None => (ReadError UnknownHeader, file)
          | Some header => (RecordRead (mkEnvelope header payload) offsetMicros, file)
          end.

(** Records until one is not read, and why. *)
Fixpoint readRecords (fuel : nat) (file : string) : list (Envelope * Z) * ReadResult :=
  match fuel with
  | O => ([], CleanEnd)
  | S fuel =>
      match readRecord file with
      | (RecordRead env offset, file) => let '(rs, e) := readRecords fuel file in ((env, offset) :: rs, e)
      | (e, _) => ([], e)
      end
  end.

(** ** Recording *)

(** A run of the recorder: a message that cannot be written ends it.  Each message
    comes with the time it is written at and the bytes the library takes. *)
Fixpoint write_all (ms : list (Z * nat * Envelope)) (w : RecordWriter) : option RecordError * RecordWriter :=
  match ms with
  | [] => (None, w)
  | (now, taken, env) :: ms =>
      match write now taken env w with
      | (None, w) => write_all ms w
      | failed => failed
      end
  end.

End recording.

(** ** Lemmas *)

Lemma appendLe_length n v : String.length (appendLe n v) = n.
Proof. revert v; induction n as [|n IH]; intros v; simpl; [done|]. by rewrite IH. Qed.

(** A number from its low byte and the rest. *)
Lemma byte_split v : (0 ≤ v)%Z → Z.lor (Z.land v 0xff) (Z.shiftl (Z.shiftr v 8) 8) = v.
Proof.
  intros Hv. assert (Z.land v 0xff = v mod 2 ^ 8)%Z as -> by (apply (Z.land_ones v 8); lia).
  rewrite Z.shiftr_div_pow2, lor_disjoint by (try apply Z.mod_pos_bound; try apply Z.div_pos; lia).
  pose proof (Z.div_mod v (2 ^ 8) ltac:(lia)). lia.
Qed.

Lemma readLe_appendLe n v s rest :
  (0 ≤ v < 2 ^ (8 * Z.of_nat n))%Z → (0 ≤ s)%Z → readLe n (appendLe n v +:+ rest) s = Z.shiftl v s.
Proof.
  revert v s; induction n as [|n IH]; intros v s Hv Hs; cbn [readLe appendLe].
  { replace v with 0%Z by lia. by rewrite Z.shiftl_0_l. }
  rewrite str_app_cons. cbn [readLe].
  assert (0 ≤ Z.land v 0xff < 256)%Z as Hb.
  { rewrite (Z.land_ones v 8 ltac:(lia) : Z.land v 0xff = _). apply Z.mod_pos_bound. lia. }
  rewrite byte_of_chr_small, IH by lia || (rewrite Z.shiftr_div_pow2 by lia; split;
    [apply Z.div_pos; lia|apply Z.div_lt_upper_bound; [lia|]; rewrite <-Z.pow_add_r by lia;
     replace (8 + 8 * Z.of_nat n)%Z with (8 * Z.of_nat (S n))%Z by lia; lia]).
  replace (s + 8)%Z with (8 + s)%Z by lia. rewrite <-(Z.shiftl_shiftl _ 8 s), <-Z.shiftl_lor by lia.
  by rewrite byte_split by lia.
Qed.

(** ** Records *)

Section records.
Context {PB : ProtobufRuntime} {PBL : ProtobufLaws}.

(** A message that fits the transport and has UTF-8 strings, at an offset the clock can
    give. *)
Definition recordable (r : Envelope * Z) : Prop :=
  header_utf8 (env_header r.1) = true ∧
  (Z.of_nat (String.length (encodeHeader (env_header r.1))) ≤ MAX_MESSAGE_SIZE_BYTES ∧
   Z.of_nat (String.length (env_payload r.1)) ≤ MAX_MESSAGE_SIZE_BYTES ∧ - 2 ^ 63 ≤ r.2 < 2 ^ 63)%Z.

Definition record_bytes (r : Envelope * Z) : string := encodeRecord r.2 r.1.

Definition fixed_bytes (r : Envelope * Z) : string :=
  appendLe 8 (wrap 64 r.2) +:+ (appendLe 4 (wrap 32 (Z.of_nat (String.length (encodeHeader (env_header r.1)))))
    +:+ appendLe 4 (wrap 32 (Z.of_nat (String.length (env_payload r.1))))).

Lemma record_bytes_eq r :
  record_bytes r = fixed_bytes r +:+ (encodeHeader (env_header r.1) +:+ env_payload r.1).
Proof.
  unfold record_bytes, encodeRecord, fixed_bytes, appendLe64, appendLe32.
  by rewrite str_app_empty, !str_app_assoc.
Qed.

Lemma fixed_length r : String.length (fixed_bytes r) = 16.
Proof. unfold fixed_bytes. by rewrite !str_length_app, !appendLe_length. Qed.

Lemma fixed_fields r :
  recordable r →
  readLe64 (fixed_bytes r) = r.2 ∧
  readLe32 (str_drop 8 (fixed_bytes r)) = Z.of_nat (String.length (encodeHeader (env_header r.1))) ∧
  readLe32 (str_drop 12 (fixed_bytes r)) = Z.of_nat (String.length (env_payload r.1)).
Proof.
  intros (_ & Hh & Hp & Ho). unfold MAX_MESSAGE_SIZE_BYTES in *. unfold fixed_bytes, readLe64, readLe32.
  set (h := Z.of_nat _) in *. set (p := Z.of_nat (String.length (env_payload r.1))) in *.
  assert (∀ w z, (0 ≤ w)%Z → (0 ≤ wrap w z < 2 ^ w)%Z) as Hw
    by (intros; unfold wrap; apply Z.mod_pos_bound, Z.pow_pos_nonneg; lia).
  split_and!.
  - rewrite readLe_appendLe, Z.shiftl_0_r by (try apply Hw; lia). unfold to_int64, wrap.
    destruct (decide (0 ≤ r.2)%Z).
    + rewrite Z.mod_small by lia. by rewrite decide_True by lia.
    + replace (r.2 mod 2 ^ 64)%Z with (r.2 + 2 ^ 64)%Z.
      * rewrite decide_False by lia. lia.
      * apply Z.mod_unique with (-1)%Z; lia.
  - rewrite str_drop_app_ge by (by rewrite appendLe_length).
    rewrite readLe_appendLe, Z.shiftl_0_r by (try apply Hw; lia). unfold wrap. apply Z.mod_small. lia.
  - rewrite <-str_app_assoc.
    rewrite str_drop_app_ge by (by rewrite str_length_app, !appendLe_length).
    rewrite <-(str_app_nil_r (appendLe 4 _)).
    rewrite readLe_appendLe, Z.shiftl_0_r by (try apply Hw; lia). unfold wrap. apply Z.mod_small. lia.
Qed.

Lemma fread_app n a b : n = String.length a → fread n (a +:+ b) = (a, b).
Proof. intros ->. unfold fread. by rewrite str_take_app_length, str_drop_app_length. Qed.

(** What the transport carries is within protobuf's limit. *)
Lemma sized_header h : (Z.of_nat (String.length (encodeHeader h)) ≤ MAX_MESSAGE_SIZE_BYTES)%Z → pb_sized h.
Proof. unfold pb_sized, MAX_MESSAGE_SIZE_BYTES. rewrite encodeHeader_eq. cbn [String.length]. lia. Qed.

(** A whole record is read back and the file is left at the next one. *)
Lemma readRecord_whole r rest :
  recordable r → readRecord (record_bytes r +:+ rest) = (RecordRead r.1 r.2, rest).
Proof.
  intros Hr. destruct (fixed_fields r Hr) as (E1 & E2 & E3). destruct Hr as (Hu & Hh & Hp & _).
  unfold readRecord. rewrite record_bytes_eq, !str_app_assoc, fread_app by (by rewrite fixed_length).
  rewrite fixed_length, E1, E2, E3, !Nat2Z.id.
  assert (0 < String.length (encodeHeader (env_header r.1))) by (rewrite encodeHeader_eq; simpl; lia).
  do 2 (rewrite decide_False by lia). rewrite decide_False by lia.
  rewrite fread_app by done. rewrite decide_False by lia. rewrite fread_app by done. rewrite decide_False by lia.
  rewrite decode_encodeHeader by (done || by apply sized_header). by destruct r as [[] ?].
Qed.

Lemma fread_short n s : String.length s < n → fread n s = (s, EmptyString).
Proof. intros. unfold fread. by rewrite str_take_all, str_drop_all by lia. Qed.

(** What is left when the file was cut inside a record. *)
Lemma readRecord_cut r k :
  recordable r → 0 < k → k < String.length (record_bytes r) →
  ∃ e rest, readRecord (str_take k (record_bytes r)) = (ReadError e, rest).
Proof.
  intros Hr Hk Hlen. destruct (fixed_fields r Hr) as (E1 & E2 & E3). destruct Hr as (Hu & Hh & Hp & _).
  rewrite record_bytes_eq in *. rewrite !str_length_app, fixed_length in Hlen. unfold readRecord.
  assert (0 < String.length (encodeHeader (env_header r.1))) by (rewrite encodeHeader_eq; simpl; lia).
  destruct (decide (k < 16)) as [Hs|Hs].
  { rewrite str_take_app_le by (rewrite fixed_length; lia).
    assert (String.length (str_take k (fixed_bytes r)) = k) as El by (rewrite str_length_take, fixed_length; lia).
    rewrite fread_short by lia. rewrite El, decide_False, decide_True by lia. by eexists _, _. }
  rewrite str_take_app_ge by (rewrite fixed_length; lia). rewrite fixed_length, fread_app by (by rewrite fixed_length).
  rewrite fixed_length, E1, E2, E3, !Nat2Z.id. do 2 (rewrite decide_False by lia). rewrite decide_False by lia.
  set (hb := encodeHeader _) in *. set (j := k - 16). destruct (decide (j < String.length hb)) as [Hj|Hj].
  { rewrite str_take_app_le by lia.
    assert (String.length (str_take j hb) = j) as El by (rewrite str_length_take; lia).
    rewrite fread_short by lia. rewrite El, decide_True by lia. by eexists _, _. }
  rewrite str_take_app_ge by lia. rewrite fread_app by done. rewrite decide_False by lia.
  set (i := j - String.length hb).
  assert (String.length (str_take i (env_payload r.1)) = i) as El by (rewrite str_length_take; lia).
  rewrite fread_short by lia. rewrite El, decide_True by lia. by eexists _, _.
Qed.

(** What a damaged tail does: nothing left is a clean end, part of a record an error. *)
Lemma readRecord_tail r k :
  recordable r → k < String.length (record_bytes r) →
  match (readRecord (str_take k (record_bytes r))).1 with
  | RecordRead _ _ => False
  | CleanEnd => k = 0
  | ReadError _ => 0 < k
  end.
Proof.
  intros Hr Hk. destruct (decide (k = 0)) as [->|Hne]; [done|].
  destruct (readRecord_cut r k Hr ltac:(lia) Hk) as (e & rest & ->). simpl. lia.
Qed.

(** *** Whole captures *)

Definition records_bytes (rs : list (Envelope * Z)) : string := foldr (λ r s, record_bytes r +:+ s) EmptyString rs.

Lemma record_positive r : 16 ≤ String.length (record_bytes r).
Proof. rewrite record_bytes_eq, str_length_app, fixed_length. lia. Qed.

(** Reading a capture that may end inside a further record. *)
Lemma readRecords_capture rs r k fuel :
  Forall recordable rs → recordable r → k < String.length (record_bytes r) → length rs < fuel →
  ∃ e, readRecords fuel (records_bytes rs +:+ str_take k (record_bytes r)) = (rs, e) ∧
    match e with RecordRead _ _ => False | CleanEnd => k = 0 | ReadError _ => 0 < k end.
Proof.
  intros Hrs Hr Hk. revert fuel. induction Hrs as [|x rs Hx _ IH]; intros [|fuel] Hf; simpl in Hf; try lia.
  - exists (readRecord (str_take k (record_bytes r))).1. pose proof (readRecord_tail r k Hr Hk) as Ht.
    cbn [readRecords records_bytes foldr]. rewrite str_app_empty.
    destruct (readRecord _) as [[] ?]; simpl in *; done.
  - destruct (IH fuel) as (e & He & Hm); [lia|]. exists e. split; [|done].
    cbn [readRecords records_bytes foldr]. fold (records_bytes rs).
    rewrite str_app_assoc, readRecord_whole, He by done. by destruct x.
Qed.

(** The messages of a run as records: offsets from the first. *)
Definition records_of (start : Z) (ms : list (Z * nat * Envelope)) : list (Envelope * Z) :=
  (λ m, (m.2, (m.1.1 - start)%Z)) <$> ms.

Definition start_of (ms : list (Z * nat * Envelope)) : Z := match ms with [] => 0 | m :: _ => m.1.1 end.

Lemma records_bytes_snoc rs r : records_bytes (rs ++ [r]) = records_bytes rs +:+ record_bytes r.
Proof.
  induction rs as [|x rs IH]; simpl; [by rewrite str_app_nil_r, str_app_empty|]. by rewrite IH, str_app_assoc.
Qed.

(** What the writer holds after the messages [done] of a run were written. *)
Definition written_so_far (start : Z) (done : list (Z * nat * Envelope)) (w : RecordWriter) : Prop :=
  w_file w = Some (MAGIC +:+ records_bytes (records_of start done)) ∧
  w_count w = Z.of_nat (length done) ∧ (done ≠ [] → w_startMicros w = start).

Lemma write_step start done now taken env w :
  written_so_far start done w → (Z.of_nat (length done) < 2 ^ 64 - 1)%Z → (done = [] → start = now) →
  match write now taken env w with
  | (None, w') => written_so_far start (done ++ [(now, taken, env)]) w'
  | (Some e, w') => ∃ k, e = WriteFailed ∧ k < String.length (record_bytes (env, (now - start)%Z)) ∧
      w_file w' = Some (MAGIC +:+ (records_bytes (records_of start done) +:+ str_take k (record_bytes (env, (now - start)%Z)))) ∧
      w_count w' = Z.of_nat (length done)
  end.
Proof.
  intros (Hf & Hc & Hs) Hn Hstart. unfold write. rewrite Hf, Hc.
  assert ((if decide (Z.of_nat (length done) = 0%Z) then now else w_startMicros w) = start) as ->.
  { case_decide as E; [destruct done; [by rewrite Hstart|done]|]. apply Hs. by intros ->. }
  unfold fwrite. fold (record_bytes (env, (now - start)%Z)). set (r := (env, (now - start)%Z)).
  change (encodeRecord (now - start) env) with (record_bytes r). case_decide as E.
  - rewrite str_take_all by lia. split_and!; simpl.
    + unfold records_of. rewrite fmap_app. simpl. fold (records_of start done). fold r.
      by rewrite records_bytes_snoc, str_app_assoc.
    + rewrite length_app. simpl. unfold wrap. rewrite Z.mod_small by lia. lia.
    + done.
  - exists taken. split_and!; [done|lia| |done]. simpl. by rewrite str_app_assoc.
Qed.

Lemma write_all_spec start done ms w :
  written_so_far start done w → (Z.of_nat (length done + length ms) < 2 ^ 64)%Z →
  (done = [] → start = start_of ms) →
  match write_all ms w with
  | (None, w') => written_so_far start (done ++ ms) w'
  | (Some e, w') => ∃ ok m rest k, ms = ok ++ m :: rest ∧ e = WriteFailed ∧
      k < String.length (record_bytes (m.2, (m.1.1 - start)%Z)) ∧
      w_file w' = Some (MAGIC +:+ (records_bytes (records_of start (done ++ ok)) +:+
        str_take k (record_bytes (m.2, (m.1.1 - start)%Z)))) ∧
      w_count w' = Z.of_nat (length done + length ok)
  end.
Proof.
  revert done w; induction ms as [|[[now taken] env] ms IH]; intros done w Hw Hn Hs; simpl; [by rewrite app_nil_r|].
  simpl in Hn. pose proof (write_step start done now taken env w Hw ltac:(lia) Hs) as Hstep.
  destruct (write now taken env w) as [[e|] w'].
  - destruct Hstep as (k & -> & Hk & Hf & Hc). exists [], (now, taken, env), ms, k. rewrite app_nil_r.
    split_and!; try done. rewrite Hc. simpl. f_equal. lia.
  - assert (done ++ (now, taken, env) :: ms = (done ++ [(now, taken, env)]) ++ ms) as Eapp by (by rewrite <-app_assoc).
    specialize (IH (done ++ [(now, taken, env)]) w' Hstep). rewrite length_app in IH. simpl in IH.
    specialize (IH ltac:(lia) ltac:(by destruct done)). destruct (write_all ms w') as [[e|] w2].
    + destruct IH as (ok & m & rest & k & -> & -> & Hk & Hf & Hc).
      exists ((now, taken, env) :: ok), m, rest, k. rewrite <-app_assoc in Hf.
      split_and!; try done. rewrite Hc. simpl. f_equal. lia.
    + by rewrite Eapp.
Qed.
End records.

(** ** Properties *)

(** The file a recording leaves behind, opened by a reader. *)
Section properties.
Context {PB : ProtobufRuntime} {PBL : ProtobufLaws}.

Definition recorder : RecordWriter := (writer_open MAGIC_SIZE new_writer).2.

Lemma records_bytes_length rs s : length rs < S (String.length (records_bytes rs +:+ s)).
Proof.
  rewrite str_length_app. induction rs as [|r rs IH]; simpl; [lia|]. rewrite str_length_app.
  pose proof (record_positive r). lia.
Qed.

(** A body to read: whole records of a run and part of the next. *)
Lemma capture_body ms :
  Forall recordable (records_of (start_of ms) ms) → (Z.of_nat (length ms) < 2 ^ 64)%Z → ms ≠ [] →
  let '(err, w) := write_all ms recorder in
  ∃ file n r k, w_file w = Some file ∧
    reader_open file = Some (records_bytes (records_of (start_of ms) (take n ms)) +:+ str_take k (record_bytes r)) ∧
    w_count w = Z.of_nat n ∧ n ≤ length ms ∧ recordable r ∧ k < String.length (record_bytes r) ∧
    (err = None → n = length ms ∧ k = 0) ∧ (err ≠ None → n < length ms).
Proof.
  intros Hr Hlen Hne. pose proof (write_all_spec (start_of ms) [] ms recorder) as H. simpl in H.
  specialize (H ltac:(by split_and!) Hlen ltac:(done)).
  assert (∀ s, reader_open (MAGIC +:+ s) = Some s) as Hopen.
  { intros s. unfold reader_open. rewrite fread_app by done. rewrite decide_False; [done|]. by intros []. }
  destruct (write_all ms recorder) as [[e|] w].
  - destruct H as (ok & m & rest & k & -> & -> & Hk & Hf & Hc).
    unfold records_of in Hr. rewrite fmap_app, fmap_cons in Hr. apply Forall_app in Hr as [_ [Hm _]%Forall_cons].
    eexists _, (length ok), _, k. rewrite take_app_length, length_app. simpl.
    split_and!; [exact Hf|apply Hopen|exact Hc|lia|exact Hm|exact Hk|done|lia].
  - destruct H as (Hf & Hc & _). destruct ms as [|m ms']; [done|].
    apply Forall_cons in Hr as [Hm _].
    eexists _, (length (m :: ms')), _, 0. rewrite firstn_all.
    split_and!; [exact Hf| |exact Hc|lia|exact Hm| |done|done].
    + rewrite Hopen. f_equal. by rewrite str_app_nil_r.
    + pose proof (record_positive (m.2, (m.1.1 - start_of (m :: ms'))%Z)). unfold lt. etrans; [|exact H]. lia.
Qed.


End properties.

(** ** Witnesses *)

Definition demo_capture : list (Z * nat * Envelope) :=
  [(1000%Z, 100, mkEnvelope (mkHeader "a" "c" "a" "B" "id" EmptyString) "one");
   (1500%Z, 100, makeControl Keys.SUBSCRIBE "c" "b");
   (2500%Z, 20, mkEnvelope (mkHeader "b" "c" "b" "B" "id2" EmptyString) "two")].

Lemma demo_capture_recordable :
  Forall (@recordable demo_runtime) (records_of (start_of demo_capture) demo_capture).
Proof. repeat constructor; vm_compute; congruence. Qed.

