(* ===== verification/Poller.v ===== *)
(** * The polling binding

    Models [bindings/polling/wisppoller.h]: the bounded mailbox between the processing
    thread and a frame loop, and its registrations with the client library.  Each
    critical section of [m_mutex] is one step; [subscribe] and [unsubscribe] talk to the
    client library outside it, in a second step. *)

From Stdlib Require Import ZArith Lia.
From S2P Require Import Prelude.
From S2P Require Import MessageKeys.
From S2P Require Import Config.
From S2P Require Import Worker.
From S2P Require Import ConnectionManager.
From S2P Require Import ConnectionManagerInv.
From S2P Require Import ConnectionManagerSpec.

(** ** The mailbox *)

Record PolledMessage := mkPolled { pm_topic : string; pm_payload : string }.

Record MessagePoller := mkPoller {
  m_capacity : nat;
  m_buffer : list PolledMessage;
  m_topics : gset string;
  m_dropped : Z
}.

Definition new_poller (capacity : nat) : MessagePoller :=
  mkPoller (if decide (0 < capacity) then capacity else 1) [] ∅ 0.

Definition enqueue (topic payload : string) (p : MessagePoller) : MessagePoller :=
  let '(buffer, dropped) :=
    if decide (m_capacity p ≤ length (m_buffer p)) then (tail (m_buffer p), wrap 64 (m_dropped p + 1))
    else (m_buffer p, m_dropped p) in
  mkPoller (m_capacity p) (buffer ++ [mkPolled topic payload]) (m_topics p) dropped.

Definition poll (p : MessagePoller) : list PolledMessage * MessagePoller :=
  (m_buffer p, mkPoller (m_capacity p) [] (m_topics p) (m_dropped p)).

(** [m_topics.insert(topic).second], and the set. *)
Definition insert_topic (topic : string) (p : MessagePoller) : bool * MessagePoller :=
  (negb (bool_decide (topic ∈ m_topics p)),
   mkPoller (m_capacity p) (m_buffer p) ({[topic]} ∪ m_topics p) (m_dropped p)).

(** [m_topics.erase(topic) != 0], and the set. *)
Definition erase_topic (topic : string) (p : MessagePoller) : bool * MessagePoller :=
  (bool_decide (topic ∈ m_topics p),
   mkPoller (m_capacity p) (m_buffer p) (m_topics p ∖ {[topic]}) (m_dropped p)).

Definition clear_topics (p : MessagePoller) : MessagePoller :=
  mkPoller (m_capacity p) (m_buffer p) ∅ (m_dropped p).

(** ** Registrations *)

Section registrations.
Context {W : Type} `{!WorkerInterface W}.
(* [this], and the callback that enqueues a payload under its topic *)
Context (this : Z) (capture : string → Callback).

Definition subscribe_register (topic : string) (scope : Origin) (c : @Client W) : Client :=
  registerInternal topic (Some (capture topic)) this scope c.

Definition unsubscribe_unregister (topic : string) (c : @Client W) : Client := unregisterCallback topic this c.

(** The calls, when no other thread gets in between. *)
Definition poller_subscribe (topic : string) (scope : Origin) (s : MessagePoller * @Client W)
    : MessagePoller * Client :=
  let '(isNew, p) := insert_topic topic s.1 in
  if (isNew : bool) then (p, subscribe_register topic scope s.2) else (p, s.2).

Definition poller_unsubscribe (topic : string) (s : MessagePoller * @Client W) : MessagePoller * Client :=
  let '(was, p) := erase_topic topic s.1 in
  if (was : bool) then (p, unsubscribe_unregister topic s.2) else (p, s.2).

Definition poller_unsubscribeAll (s : MessagePoller * @Client W) : MessagePoller * Client :=
  (clear_topics s.1, foldl (λ c t, unsubscribe_unregister t c) s.2 (elements (m_topics s.1))).

(** The topics with a registration of this poller in the client library. *)
Definition captured (c : @Client W) (t : string) : Prop :=
  match s_instance c with
  | Some m => ∃ l e, m_msgHandlers m !! t = Some l ∧ e ∈ l ∧ ce_instance e = this
  | None => ∃ x, x ∈ s_pendingMsgCallbacks c ∧ x.1.1.1 = t ∧ x.1.2 = this
  end.

Lemma captured_register c topic scope t :
  captured (subscribe_register topic scope c) t ↔ t = topic ∨ captured c t.
Proof.
  unfold captured, subscribe_register, registerInternal. destruct (s_instance c) as [m|]; simpl.
  - destruct (performRegistration_shape topic (Some (capture topic)) this scope m) as (w & n & ->). simpl.
    setoid_rewrite lookup_insert. case_decide as E.
    + subst. split; [by left|]. intros _. eexists _, _. split; [done|]. rewrite elem_of_app, list_elem_of_singleton. by split; [right|].
    + split; [by right|]. intros [->|H]; [done|exact H].
  - setoid_rewrite elem_of_app. setoid_rewrite list_elem_of_singleton. split.
    + intros (x & [Hx| ->] & <- & Hi); [right; by exists x|by left].
    + intros [->|(x & Hx & <- & Hi)]; [eexists; split_and!; [by right|done..]|exists x; by split_and!; [left|..]].
Qed.

Lemma captured_unregister c topic t :
  captured (unsubscribe_unregister topic c) t ↔ t ≠ topic ∧ captured c t.
Proof.
  unfold captured, unsubscribe_unregister, unregisterCallback. destruct (s_instance c) as [m|]; simpl.
  - destruct (performUnregistration_shape topic this m) as (w & n & ->). simpl. split.
    + intros (l & e & Hl & He & Hi). destruct (elem_of_without _ _ _ _ _ _ Hl He) as (l' & Hl' & He' & Hne).
      split; [intros ->; by apply Hne|by exists l', e].
    + intros (Hne & l & e & Hl & He & Hi). exists l, e. split; [|done]. unfold without.
      destruct (m_msgHandlers m !! topic); [|done]. case_decide; [by rewrite lookup_delete_ne|by rewrite lookup_insert_ne].
  - setoid_rewrite list_elem_of_filter. split.
    + intros (x & [Hx Hin] & <- & Hi). split; [intros E; by apply Hx|by exists x].
    + intros (Hne & x & Hin & <- & Hi). exists x. split_and!; try done. by intros [].
Qed.

Lemma captured_unregisters ts c t :
  captured (foldl (λ c t, unsubscribe_unregister t c) c ts) t ↔ t ∉ ts ∧ captured c t.
Proof.
  revert c; induction ts as [|x ts IH]; intros c; simpl; [pose proof (not_elem_of_nil t); tauto|].
  rewrite IH, captured_unregister, not_elem_of_cons. tauto.
Qed.

(** The poller's set says which topics it captures. *)
Definition tracked (s : MessagePoller * @Client W) : Prop := ∀ t, t ∈ m_topics s.1 ↔ captured s.2 t.

Lemma subscribe_tracked topic scope s : tracked s → tracked (poller_subscribe topic scope s).
Proof.
  intros H t. unfold poller_subscribe, insert_topic. case_bool_decide as E; simpl.
  - rewrite elem_of_union, elem_of_singleton, <-(H t). split; [intros [->|?]; done|by right].
  - rewrite captured_register, elem_of_union, elem_of_singleton, (H t). done.
Qed.

Lemma unsubscribe_tracked topic s : tracked s → tracked (poller_unsubscribe topic s).
Proof.
  intros H t. unfold poller_unsubscribe, erase_topic. case_bool_decide as E; simpl.
  - rewrite captured_unregister, elem_of_difference, elem_of_singleton, (H t). tauto.
  - rewrite elem_of_difference, elem_of_singleton, <-(H t). split; [tauto|]. intros ?. split; [done|]. by intros ->.
Qed.

(** After [unsubscribeAll], as in the destructor, no registration is left. *)
Lemma unsubscribeAll_clean s t : tracked s → ¬ captured (poller_unsubscribeAll s).2 t.
Proof.
  intros H. unfold poller_unsubscribeAll. simpl. rewrite captured_unregisters, elem_of_elements, (H t). tauto.
Qed.
End registrations.

(** ** Properties *)

Inductive PollerCall := CallSubscribe (topic : string) (scope : Origin) | CallUnsubscribe (topic : string).

Definition poller_call {W} `{!WorkerInterface W} this capture (s : MessagePoller * @Client W) (call : PollerCall)
    : MessagePoller * Client :=
  match call with
  | CallSubscribe topic scope => poller_subscribe this capture topic scope s
  | CallUnsubscribe topic => poller_unsubscribe this topic s
  end.

(** As long as its calls do not overlap, the poller's set of topics is exactly the
    set of topics it is registered on in the client library, whether or not the library
    is initialised, and destroying it leaves no registration that points to it. *)
Theorem poller_leaves_nothing {W} `{!WorkerInterface W} this capture capacity (c : @Client W) calls :
  (∀ t, ¬ captured this c t) →
  let s := foldl (poller_call this capture) (new_poller capacity, c) calls in
  (∀ t, t ∈ m_topics s.1 ↔ captured this s.2 t) ∧
  ∀ t, ¬ captured this (poller_unsubscribeAll this s).2 t.
Proof.
  intros Hc s. assert (tracked this s) as H.
  { assert (tracked this (new_poller capacity, c)) as H0 by (intros t; simpl; pose proof (Hc t); set_solver).
    subst s. revert H0. generalize (new_poller capacity, c) as s0.
    induction calls as [|call calls IH]; intros s0 H0; [done|]. simpl. apply IH.
    destruct call; [by apply subscribe_tracked|by apply unsubscribe_tracked]. }
  split; [exact H|]. intros t. by apply unsubscribeAll_clean.
Qed.

Lemma poller_leaves_nothing_witness :
  let s := foldl (poller_call 7 (λ _, mkCallback (λ _, []))) (new_poller 4, no_client (W := DemoWorker))
    [CallSubscribe "a" Origins.Any; CallSubscribe "b" Origins.Local; CallUnsubscribe "a"] in
  "b" ∈ m_topics s.1 ∧ ¬ captured 7 (poller_unsubscribeAll 7 s).2 "b".
Proof.
  destruct (poller_leaves_nothing (W := DemoWorker) 7 (λ _, mkCallback (λ _, [])) 4 no_client
    [CallSubscribe "a" Origins.Any; CallSubscribe "b" Origins.Local; CallUnsubscribe "a"]) as [_ H].
  { intros t (x & Hx & _). by apply not_elem_of_nil in Hx. }
  split; [by apply (bool_decide_unpack _); vm_compute|apply H].
Defined.

(** An [unsubscribe] from another thread that gets in between the two steps of a
    [subscribe] finds nothing to unregister; the registration is made afterwards, for a
    topic the poller no longer knows, and destroying the poller leaves it behind. *)
Theorem poller_race {W} `{!WorkerInterface W} this capture topic scope (p : MessagePoller) (c : @Client W) :
  topic ∉ m_topics p →
  let '(isNew, p1) := insert_topic topic p in
  let '(p2, c2) := poller_unsubscribe this topic (p1, c) in
  let c3 := subscribe_register this capture topic scope c2 in
  isNew = true ∧ topic ∉ m_topics p2 ∧ captured this (poller_unsubscribeAll this (p2, c3)).2 topic.
Proof.
  intros Hp. unfold insert_topic, poller_unsubscribe, erase_topic. simpl.
  rewrite (bool_decide_true (topic ∈ {[topic]} ∪ m_topics p)) by set_solver. simpl.
  split_and!; [by rewrite bool_decide_false|set_solver|].
  unfold poller_unsubscribeAll. simpl. rewrite (captured_unregisters this capture), captured_register, elem_of_elements. set_solver.
Qed.

Lemma poller_race_witness :
  captured 7 (poller_unsubscribeAll 7 (new_poller 4,
    subscribe_register 7 (λ _, mkCallback (λ _, [])) "a" Origins.Any (no_client (W := DemoWorker)))).2 "a".
Proof.
  pose proof (poller_race (W := DemoWorker) 7 (λ _, mkCallback (λ _, [])) "a" Origins.Any (new_poller 4) no_client
    ltac:(by apply not_elem_of_empty)) as (_ & _ & H).
  exact H.
Defined.

(** What arrives and what the loop takes. *)
Inductive PollerEvent := Arrives (topic payload : string) | Polls.

Fixpoint poller_run (evs : list PollerEvent) (p : MessagePoller) : list (list PolledMessage) * MessagePoller :=
  match evs with
  | [] => ([], p)
  | Arrives t d :: evs => poller_run evs (enqueue t d p)
  | Polls :: evs => let '(batch, p) := poll p in let '(bs, p) := poller_run evs p in (batch :: bs, p)
  end.

(** The messages that arrived between polls, the last ones not yet polled. *)
Fixpoint arrivals (evs : list PollerEvent) (seg : list PolledMessage) : list (list PolledMessage) * list PolledMessage :=
  match evs with
  | [] => ([], seg)
  | Arrives t d :: evs => arrivals evs (seg ++ [mkPolled t d])
  | Polls :: evs => let '(segs, last) := arrivals evs [] in (seg :: segs, last)
  end.

(** The newest [capacity] of them. *)
Definition newest (capacity : nat) (seg : list PolledMessage) : list PolledMessage := drop (length seg - capacity) seg.

Lemma enqueue_newest cap seg t d p :
  0 < cap → m_capacity p = cap → m_buffer p = newest cap seg →
  m_buffer (enqueue t d p) = newest cap (seg ++ [mkPolled t d]) ∧
  m_dropped (enqueue t d p) =
    (if decide (cap ≤ length seg) then wrap 64 (m_dropped p + 1) else m_dropped p).
Proof.
  intros Hc Hcap Hb. unfold enqueue. rewrite Hcap, Hb. unfold newest. rewrite length_drop, length_app. simpl.
  case_decide; simpl.
  - rewrite (decide_True (P := cap ≤ length seg)) by lia. split; [|done].
    replace (length seg + 1 - cap) with (S (length seg - cap)) by lia.
    rewrite drop_app_le by lia. f_equal. rewrite <-Nat.add_1_r, <-drop_drop. by destruct (drop _ seg).
  - rewrite decide_False by lia. split; [|done].
    replace (length seg - cap) with 0 by lia. by replace (length seg + 1 - cap) with 0 by lia.
Qed.

Definition lost (cap : nat) (seg : list PolledMessage) : Z := Z.of_nat (length seg - cap).

Lemma poller_run_newest cap evs p seg :
  0 < cap → m_capacity p = cap → m_buffer p = newest cap seg →
  let '(batches, p') := poller_run evs p in
  let '(segs, last) := arrivals evs seg in
  batches = newest cap <$> segs ∧ m_buffer p' = newest cap last ∧
  wrap 64 (m_dropped p') = wrap 64 (m_dropped p - lost cap seg + foldr (λ seg n, lost cap seg + n) 0 segs + lost cap last)%Z.
Proof.
  intros Hc. revert p seg; induction evs as [|[t d|] evs IH]; intros p seg Hcap Hb; simpl.
  - split_and!; [done..|]. f_equal. lia.
  - destruct (enqueue_newest cap seg t d p Hc Hcap Hb) as [Hb' Hd'].
    assert (m_capacity (enqueue t d p) = cap) as Hcap' by (unfold enqueue; case_dec; exact Hcap).
    specialize (IH (enqueue t d p) (seg ++ [mkPolled t d]) Hcap' Hb').
    destruct (poller_run evs _) as [batches p']. destruct (arrivals evs _) as [segs last].
    destruct IH as (-> & -> & ->). split_and!; [done..|]. rewrite Hd'. unfold lost. rewrite length_app. simpl.
    case_decide.
    + set (x := foldr _ _ _). set (y := Z.of_nat (length last - cap)).
      replace (wrap 64 (m_dropped p + 1) - Z.of_nat (length seg + 1 - cap) + x + y)%Z
        with (wrap 64 (m_dropped p + 1) + (- Z.of_nat (length seg + 1 - cap) + x + y))%Z by lia.
      rewrite wrap_plus. f_equal. lia.
    + f_equal. lia.
  - specialize (IH (mkPoller (m_capacity p) [] (m_topics p) (m_dropped p)) [] Hcap ltac:(by rewrite Hcap)).
    destruct (poller_run evs _) as [batches p']. destruct (arrivals evs []) as [segs last].
    destruct IH as (-> & -> & ->). rewrite Hb. split_and!; [done..|]. simpl. f_equal.
    change (lost cap []) with 0%Z. lia.
Qed.

(** The mailbox, over any sequence of arrivals and polls: each poll hands over, in
    order, exactly what arrived since the last one, or the newest [capacity] of it when
    it was more, and every message passed over is counted, modulo 2^64. *)
Theorem poller_newest capacity evs :
  0 < capacity →
  let '(batches, p) := poller_run evs (new_poller capacity) in
  let '(segs, last) := arrivals evs [] in
  batches = newest capacity <$> segs ∧ m_buffer p = newest capacity last ∧
  length (m_buffer p) ≤ capacity ∧
  wrap 64 (m_dropped p) = wrap 64 (foldr (λ seg n, lost capacity seg + n) 0 segs + lost capacity last)%Z.
Proof.
  intros Hc. pose proof (poller_run_newest capacity evs (new_poller capacity) [] Hc) as H.
  unfold new_poller in *. rewrite decide_True in * by done. specialize (H eq_refl eq_refl).
  destruct (poller_run evs _) as [batches p']. destruct (arrivals evs []) as [segs last].
  destruct H as (-> & Hb & Hd). split_and!; [done|done| |].
  - rewrite Hb. unfold newest. rewrite length_drop. lia.
  - rewrite Hd. f_equal.
Qed.

Lemma poller_newest_witness :
  (poller_run [Arrives "t" "1"; Arrives "t" "2"; Arrives "t" "3"; Polls] (new_poller 2)).1 =
  [[mkPolled "t" "2"; mkPolled "t" "3"]].
Proof.
  pose proof (poller_newest 2 [Arrives "t" "1"; Arrives "t" "2"; Arrives "t" "3"; Polls] ltac:(lia)) as H.
  destruct (poller_run _ _) as [batches p]. destruct H as (-> & _). reflexivity.
Defined.
