(* ===== verification/ConnectionApi.v ===== *)
(** * The C interface

    Models [common/connectionapi.h] and [common/connectionapi.cpp], the [extern "C"]
    entry points over the client library.  A [const char*] is [None] for the null
    pointer, otherwise its characters; of a buffer with a length, the bytes it points to.
    What a call writes through its out parameters is returned beside its result: the
    value of [outLen], and the bytes put into [outBuffer].  The exception barrier
    [guard] is around code that does not throw here (allocation failure is not
    modelled), so it is its body. *)

From Stdlib Require Import ZArith Lia.
From S2P Require Import Prelude.
From S2P Require Import MessageKeys.
From S2P Require Import Config.
From S2P Require Import Logger.
From S2P Require Import Wire.
From S2P Require Import Worker.
From S2P Require Import Beacon.
From S2P Require Import ConnectionManager.
From S2P Require Import ConnectionManagerSpec.

(** ** Codes *)

Inductive Code :=
  | SUCCESS | ERROR_GENERIC | ERROR_NO_CONNECTION | ERROR_INVALID_ARGS | ERROR_SEND_FAILED
  | ERROR_BUFFER_TOO_SMALL | ERROR_TIMEOUT.

#[export] Instance Code_eq_dec : EqDecision Code.
Proof. solve_decision. Defined.

Record Connection_Config := mkCConfig {
  cc_address : option string;
  cc_client_id : option string;
  cc_protocol : Z;
  cc_keepalive_time_ms : Z;
  cc_keepalive_timeout_ms : Z
}.

Definition PROTOCOL_ZMQ : Z := 0.

(** [static_cast<int>] of a [std::size_t]. *)
Definition to_int (n : nat) : Z :=
  let v := wrap 32 (Z.of_nat n) in if decide (v < 2 ^ 31)%Z then v else (v - 2 ^ 32)%Z.

(** [std::to_string] of an [int]. *)
Definition int_to_string (n : Z) : string :=
  if decide (n < 0)%Z then "-" +:+ to_string (- n) else to_string n.

(** What a call gives back: the code, [*outLen] when written, the bytes of [outBuffer]. *)
Record Reply := mkReply { rp_code : Code; rp_outLen : option Z; rp_written : string }.

Section api.
Context {W : Type} `{!WorkerInterface W}.

(** The library and the calling thread's [t_lastError]. *)
Record Api := mkApi { a_client : @Client W; t_lastError : string }.

Definition fail (code : Code) (message : string) (a : Api) : Code * Api := (code, mkApi (a_client a) message).

Definition ok (a : Api) : Code * Api := (SUCCESS, mkApi (a_client a) EmptyString).

Definition on_client (c : @Client W) (a : Api) : Api := mkApi c (t_lastError a).

Definition c_initConnection (uuid : string) (config : option Connection_Config) (a : Api) : Code * Api :=
  match config with
  | Some config =>
      match cc_address config with
      | Some (String _ _ as address) =>
          if decide (cc_protocol config ≠ PROTOCOL_ZMQ) then fail ERROR_INVALID_ARGS "unknown protocol value" a
          else
            let cfg := mkConfig address (default "DefaultClientName" (cc_client_id config))
                         (cc_keepalive_time_ms config) (cc_keepalive_timeout_ms config) in
            ok (on_client (init uuid cfg (a_client a)) a)
      | _ => fail ERROR_INVALID_ARGS "config and config->address must be non-null and non-empty" a
      end
  | None => fail ERROR_INVALID_ARGS "config and config->address must be non-null and non-empty" a
  end.

Definition c_shutdownConnection (onProcessingThread : bool) (a : Api) : Code * Api :=
  ok (on_client (shutdown onProcessingThread (a_client a)) a).

Definition c_isConnected (a : Api) : Z := if isConnected (a_client a) then 1 else 0.

(** [connected] is what [ConnectionManager::waitForConnection] answers. *)
Definition c_waitForConnection (connected : bool) (timeoutMs : Z) (a : Api) : Code * Api :=
  if decide (timeoutMs < 0)%Z then fail ERROR_INVALID_ARGS "timeoutMs must be >= 0" a
  else if connected then ok a
  else if isInitialized (a_client a)
  then fail ERROR_TIMEOUT ("not connected after " +:+ int_to_string timeoutMs +:+ " ms") a
  else fail ERROR_NO_CONNECTION "initConnection has not been called" a.

(** A call of the library that answers whether it was taken. *)
Definition forward (f : @Client W → bool * Client) (code : Code) (message : string) (a : Api) : Code * Api :=
  let '(taken, c) := f (a_client a) in
  if (taken : bool) then ok (on_client c a) else fail code message (on_client c a).

Definition c_sendMessage (topic text : option string) (a : Api) : Code * Api :=
  match topic, text with
  | Some topic, Some text => forward (sendMessage topic text) ERROR_NO_CONNECTION "no active connection" a
  | _, _ => fail ERROR_INVALID_ARGS "topic and text must be non-null" a
  end.

(** [std::string(data, len)]. *)
Definition buffer (data : string) (len : Z) : string := str_take (Z.to_nat len) data.

Definition c_sendData (topic data : option string) (len : Z) (a : Api) : Code * Api :=
  match topic, data with
  | Some topic, Some data =>
      if decide (len < 0)%Z then fail ERROR_INVALID_ARGS "topic and data must be non-null and len >= 0" a
      else forward (sendMessage topic (buffer data len)) ERROR_NO_CONNECTION "no active connection" a
  | _, _ => fail ERROR_INVALID_ARGS "topic and data must be non-null and len >= 0" a
  end.

Definition c_sendDataWithReply (topic data : option string) (len : Z) (replyTopic : option string) (a : Api) : Code * Api :=
  match topic, data, replyTopic with
  | Some topic, Some data, Some replyTopic =>
      if decide (len < 0)%Z
      then fail ERROR_INVALID_ARGS "topic, data and replyTopic must be non-null and len >= 0" a
      else
        let '(taken, c) := sendEncodedWithReply topic (buffer data len) replyTopic (a_client a) in
        let a := on_client c a in
        if (taken : bool) then ok a
        else if isInitialized (a_client a)
        then fail ERROR_INVALID_ARGS "reply topic must be 1-512 bytes and outside the reserved __KEY__ namespace" a
        else fail ERROR_NO_CONNECTION "no active connection" a
  | _, _, _ => fail ERROR_INVALID_ARGS "topic, data and replyTopic must be non-null and len >= 0" a
  end.

(** The terminating NUL. *)
Definition nul : string := String (chr 0) EmptyString.

(** [outBuffer] and [outLen] are given as whether they are not null. *)
Definition c_makeReplyTopic (uuid : string) (requestTopic : option string) (hasBuffer : bool) (outBufferCap : Z)
    (hasLen : bool) (a : Api) : Reply * Api :=
  match requestTopic with
  | Some requestTopic =>
      if negb hasBuffer || bool_decide (outBufferCap ≤ 0)%Z || negb hasLen then
        let '(code, a) := fail ERROR_INVALID_ARGS
          "requestTopic, outBuffer and outLen must be non-null and outBufferCap > 0" a in
        (mkReply code None EmptyString, a)
      else
        let topic := makeReplyTopic uuid requestTopic in
        let outLen := (to_int (String.length topic) + 1)%Z in
        if decide (outLen > outBufferCap)%Z then
          let '(code, a) := fail ERROR_BUFFER_TOO_SMALL "reply topic does not fit in the supplied buffer" a in
          (mkReply code (Some outLen) EmptyString, a)
        else
          let '(code, a) := ok a in (mkReply code (Some outLen) (topic +:+ nul), a)
  | None =>
      let '(code, a) := fail ERROR_INVALID_ARGS
        "requestTopic, outBuffer and outLen must be non-null and outBufferCap > 0" a in
      (mkReply code None EmptyString, a)
  end.

Definition c_setCluster (name : option string) (a : Api) : Code * Api :=
  match name with
  | None => fail ERROR_INVALID_ARGS "name must be non-null" a
  | Some name =>
      if isValidClusterName name
      then forward (setCluster name) ERROR_NO_CONNECTION "no active connection" a
      else fail ERROR_INVALID_ARGS "cluster name must be 1-64 bytes without '|'" a
  end.

Definition c_replyToSender (data : option string) (len : Z) (a : Api) : Code * Api :=
  match data with
  | Some data =>
      if decide (len < 0)%Z then fail ERROR_INVALID_ARGS "data must be non-null and len >= 0" a
      else forward (replyToSenderEncoded (buffer data len)) ERROR_NO_CONNECTION
             "no active connection (or not inside a request handler)" a
  | None => fail ERROR_INVALID_ARGS "data must be non-null and len >= 0" a
  end.

(** [ConnectionManager::sendRequest] of the current instance. *)
Definition request_instance (onProcessingThread : bool) (p : Z) (uuid topic payload : string)
    (meanwhile : @Manager W → Manager) (c : @Client W) : option string * Client :=
  match s_instance c with
  | None => (None, c)
  | Some m =>
      let '(response, m) := sendRequest onProcessingThread p uuid topic payload meanwhile m in
      (response, mkClient (Some m) (s_pendingMsgCallbacks c) (s_stopped c))
  end.

Definition c_sendRequest (onProcessingThread : bool) (p : Z) (uuid : string) (meanwhile : @Manager W → Manager)
    (topic payload : option string) (payloadLen : Z) (hasBuffer : bool) (outBufferCap : Z) (hasLen : bool)
    (timeoutMs : Z) (a : Api) : Reply * Api :=
  let invalid :=
    let '(code, a) := fail ERROR_INVALID_ARGS
      "topic, payload, outBuffer and outLen must be non-null; lengths must be >= 0" a in
    (mkReply code None EmptyString, a) in
  match topic, payload with
  | Some topic, Some payload =>
      if negb hasBuffer || negb hasLen || bool_decide (payloadLen < 0)%Z || bool_decide (outBufferCap < 0)%Z then invalid
      else if negb (isConnected (a_client a)) then
        let '(code, a) := fail ERROR_NO_CONNECTION "not connected to a broker" a in (mkReply code None EmptyString, a)
      else
        let '(response, c) :=
          request_instance onProcessingThread p uuid topic (buffer payload payloadLen) meanwhile (a_client a) in
        let a := on_client c a in
        match response with
        | None =>
            let '(code, a) := fail ERROR_TIMEOUT
              ("no reply on '" +:+ topic +:+ "' within " +:+ int_to_string timeoutMs +:+ " ms") a in
            (mkReply code None EmptyString, a)
        | Some response =>
            let size := to_int (String.length response) in
            if decide (size > outBufferCap)%Z then
              let '(code, a) := fail ERROR_BUFFER_TOO_SMALL
                ("response needs " +:+ to_string (Z.of_nat (String.length response)) +:+
                 " bytes but the buffer capacity is " +:+ int_to_string outBufferCap) a in
              (mkReply code (Some size) EmptyString, a)
            else let '(code, a) := ok a in (mkReply code (Some size) response, a)
        end
  | _, _ => invalid
  end.

(** The scope as it is read through the wire decoder. *)
Definition scope_of_int (scope : Z) : Origin := decodeSubscribeScope (String (chr (Z.land (wrap 32 scope) 0xff)) EmptyString).

(** [callback] with the user data bound, as the library calls it. *)
Definition c_registerCallbackScoped (topic : option string) (callback : option Callback) (userData scope : Z) (a : Api)
    : Code * Api :=
  match topic, callback with
  | Some topic, Some callback =>
      ok (on_client (registerInternal topic (Some callback) userData (scope_of_int scope) (a_client a)) a)
  | _, _ => fail ERROR_INVALID_ARGS "topic and callback must be non-null" a
  end.

Definition WISP_ORIGIN_ANY : Z := 3.

Definition c_registerCallback (topic : option string) (callback : option Callback) (userData : Z) (a : Api) : Code * Api :=
  c_registerCallbackScoped topic callback userData WISP_ORIGIN_ANY a.

Definition c_unregisterCallback (topic : option string) (userData : Z) (a : Api) : Code * Api :=
  match topic with
  | None => fail ERROR_INVALID_ARGS "topic must be non-null" a
  | Some topic => ok (on_client (unregisterCallback topic userData (a_client a)) a)
  end.

(** *** Logging *)

(** [static_cast<Logger::Level>] of a value that has been checked. *)
Definition level_of_int (level : Z) : Level :=
  if decide (level = 0)%Z then Debug else if decide (level = 1)%Z then Info else if decide (level = 2)%Z then Warning else Error.

Definition WISP_LOG_DEBUG : Z := 0.

Definition WISP_LOG_ERROR : Z := 3.

(** The logger is the process's, beside the library. *)
Definition c_setLogLevel (level : Z) (l : Logger) (a : Api) : Code * Logger * Api :=
  if decide (level < WISP_LOG_DEBUG ∨ level > WISP_LOG_ERROR)%Z then
    let '(code, a) := fail ERROR_INVALID_ARGS "level must be between WISP_LOG_DEBUG (0) and WISP_LOG_ERROR (3)" a in (code, l, a)
  else let '(code, a) := ok a in (code, setMinLevel (level_of_int level) l, a).

(** [callback] names the closure over the C function and its user data; [None] is the null
    pointer.  Without a value the call waits for the logger's mutex. *)
Definition c_setLogHandler (callback : option nat) (l : Logger) (a : Api) : option (Code * Logger * Api) :=
  match setHandler callback l with
  | Done l => let '(code, a) := ok a in Some (code, l, a)
  | _ => None
  end.

(** What the C function is given of a line: the level as an [int] and [msg.c_str()]. *)
Definition c_log_arguments (level : Level) (msg : string) : Z * string := (level_value level, c_str msg).

(** ** Calls *)

(** Every entry point that can fail, with what it is given. *)
Inductive ApiCall :=
  | CInit (uuid : string) (config : option Connection_Config)
  | CShutdown (onProcessingThread : bool)
  | CWait (connected : bool) (timeoutMs : Z)
  | CSendMessage (topic text : option string)
  | CSendData (topic data : option string) (len : Z)
  | CSendDataWithReply (topic data : option string) (len : Z) (replyTopic : option string)
  | CMakeReplyTopic (uuid : string) (requestTopic : option string) (hasBuffer : bool) (cap : Z) (hasLen : bool)
  | CSetCluster (name : option string)
  | CReplyToSender (data : option string) (len : Z)
  | CSendRequest (onProcessingThread : bool) (p : Z) (uuid : string) (meanwhile : @Manager W → @Manager W)
      (topic payload : option string) (payloadLen : Z) (hasBuffer : bool) (cap : Z) (hasLen : bool) (timeoutMs : Z)
  | CRegisterScoped (topic : option string) (callback : option Callback) (userData scope : Z)
  | CUnregisterCallback (topic : option string) (userData : Z).

Definition plain_reply_of (r : Code * Api) : Reply * Api := (mkReply r.1 None EmptyString, r.2).

Definition api_call (call : ApiCall) (a : Api) : Reply * Api :=
  match call with
  | CInit uuid config => plain_reply_of (c_initConnection uuid config a)
  | CShutdown t => plain_reply_of (c_shutdownConnection t a)
  | CWait connected timeoutMs => plain_reply_of (c_waitForConnection connected timeoutMs a)
  | CSendMessage topic text => plain_reply_of (c_sendMessage topic text a)
  | CSendData topic data len => plain_reply_of (c_sendData topic data len a)
  | CSendDataWithReply topic data len rt => plain_reply_of (c_sendDataWithReply topic data len rt a)
  | CMakeReplyTopic uuid topic hb cap hl => c_makeReplyTopic uuid topic hb cap hl a
  | CSetCluster name => plain_reply_of (c_setCluster name a)
  | CReplyToSender data len => plain_reply_of (c_replyToSender data len a)
  | CSendRequest t p uuid mw topic payload len hb cap hl ms => c_sendRequest t p uuid mw topic payload len hb cap hl ms a
  | CRegisterScoped topic cb ud scope => plain_reply_of (c_registerCallbackScoped topic cb ud scope a)
  | CUnregisterCallback topic ud => plain_reply_of (c_unregisterCallback topic ud a)
  end.

(** The capacity a caller gave for the buffer. *)
Definition call_cap (call : ApiCall) : Z :=
  match call with
  | CMakeReplyTopic _ _ _ cap _ => cap
  | CSendRequest _ _ _ _ _ _ _ _ cap _ _ => cap
  | _ => 0
  end.
End api.

(** ** Properties *)

Section contract.
Context {W : Type} `{!WorkerInterface W}.
Implicit Types (a : @Api W).

(** A result and the thread's message agree. *)
Definition consistent (r : Code * @Api W) : Prop :=
  (r.1 = SUCCESS ↔ t_lastError r.2 = EmptyString) ∧ r.1 ≠ ERROR_GENERIC ∧ r.1 ≠ ERROR_SEND_FAILED.

Definition failing (code : Code) (message : string) : Prop :=
  code ≠ SUCCESS ∧ code ≠ ERROR_GENERIC ∧ code ≠ ERROR_SEND_FAILED ∧ message ≠ EmptyString.

Lemma ok_consistent a : consistent (ok a).
Proof. done. Qed.

Lemma fail_consistent code message a : failing code message → consistent (fail code message a).
Proof. by intros (? & ? & ? & ?); split_and!. Qed.

Lemma forward_consistent f code message a : failing code message → consistent (forward f code message a).
Proof.
  intros H. unfold forward. destruct (f _) as [[] c]; [apply ok_consistent|by apply fail_consistent].
Qed.

Lemma to_int_small n : (Z.of_nat n < 2 ^ 31)%Z → to_int n = Z.of_nat n.
Proof. intros. unfold to_int, wrap. rewrite Z.mod_small by lia. by rewrite decide_True by lia. Qed.

(** Uuids have 36 characters; a response fits the transport, so an [int]. *)
Definition call_ok (call : @ApiCall W) a : Prop :=
  match call with
  | CMakeReplyTopic uuid _ _ _ _ => String.length uuid = 36
  | CSendRequest t p uuid mw (Some topic) (Some payload) len _ _ _ _ =>
      ∀ response, (request_instance t p uuid topic (buffer payload len) mw (a_client a)).1 = Some response →
        (Z.of_nat (String.length response) < 2 ^ 31)%Z
  | _ => True
  end.

(** The out parameters: what is written fits and has the length reported; what does not
    fit is not written and its size reported. *)
Definition out_ok (cap : Z) (r : Reply) : Prop :=
  match rp_outLen r with
  | None => rp_written r = EmptyString
  | Some n =>
      (rp_code r = SUCCESS ∧ n = Z.of_nat (String.length (rp_written r)) ∧ n ≤ cap)%Z ∨
      (rp_code r = ERROR_BUFFER_TOO_SMALL ∧ rp_written r = EmptyString ∧ cap < n)%Z
  end.

Lemma plain_ok (r : Code * @Api W) cap :
  consistent r → consistent (rp_code (plain_reply_of r).1, (plain_reply_of r).2) ∧ out_ok cap (plain_reply_of r).1.
Proof. done. Qed.

Lemma makeReplyTopic_ok uuid topic hb cap hl a :
  String.length uuid = 36 →
  let r := c_makeReplyTopic uuid topic hb cap hl a in consistent (rp_code r.1, r.2) ∧ out_ok cap r.1.
Proof.
  intros Hu. unfold c_makeReplyTopic. destruct topic as [topic|]; [|by split].
  destruct (negb hb || _ || _); [by split|]. set (rt := makeReplyTopic uuid topic).
  assert (to_int (String.length rt) = Z.of_nat (String.length rt)) as ->.
  { apply to_int_small. unfold rt. rewrite reply_room by done. rewrite str_length_app, str_length_take. cbn [String.length]. rewrite Hu. lia. }
  case_decide; simpl; (split; [done|]); [right|left]; simpl; split_and!; try done; try lia.
  rewrite str_length_app. simpl. lia.
Qed.

Lemma sendRequest_ok t p uuid mw topic payload len hb cap hl ms a :
  call_ok (CSendRequest t p uuid mw topic payload len hb cap hl ms) a →
  let r := c_sendRequest t p uuid mw topic payload len hb cap hl ms a in
  consistent (rp_code r.1, r.2) ∧ out_ok cap r.1.
Proof.
  intros Hok. unfold c_sendRequest. destruct topic as [topic|], payload as [payload|]; try by split.
  destruct (negb hb || _ || _ || _); [by split|]. destruct (negb (isConnected _)); [by split|].
  simpl in Hok. destruct (request_instance _ _ _ _ _ _ _) as [[response|] c]; [|by split].
  rewrite to_int_small by (by apply Hok). case_decide; simpl; (split; [done|]); [right|left]; simpl; split_and!; try done; lia.
Qed.
End contract.


(** The logging entry points.  A level is taken exactly when it is one of the four of the
    interface, and the callback is then given levels by the same numbers; a message without
    a NUL byte reaches it whole.  With the logger's mutex free, a handler is always installed
    and a null callback takes it away. *)
Theorem log_api_contract {W} `{!WorkerInterface W} (level : Z) callback l (a : @Api W) :
  let '(code, l', a') := c_setLogLevel level l a in
  (code = SUCCESS ↔ (0 ≤ level ≤ 3)%Z) ∧
  (code = SUCCESS → (∀ msg, c_log_arguments (m_minLevel l') msg = (level, c_str msg)) ∧ t_lastError a' = EmptyString) ∧
  (code ≠ SUCCESS → code = ERROR_INVALID_ARGS ∧ l' = l ∧ t_lastError a' ≠ EmptyString) ∧
  (m_mutex l = false → ∃ l'' a'', c_setLogHandler callback l a = Some (SUCCESS, l'', a'') ∧
    m_handler l'' = callback ∧ m_minLevel l'' = m_minLevel l ∧ m_mutex l'' = false ∧ t_lastError a'' = EmptyString).
Proof.
  assert (m_mutex l = false → ∃ l'' (a'' : @Api W), c_setLogHandler callback l a = Some (SUCCESS, l'', a'') ∧
    m_handler l'' = callback ∧ m_minLevel l'' = m_minLevel l ∧ m_mutex l'' = false ∧ t_lastError a'' = EmptyString) as H.
  { intros Hm. unfold c_setLogHandler, setHandler, lock. rewrite Hm. cbn. by eexists _, _. }
  unfold c_setLogLevel, WISP_LOG_DEBUG, WISP_LOG_ERROR. case_dec; cbn.
  - split_and!; [split; [done|lia]|done|done|exact H].
  - split_and!; [split; [lia|done]| |done|exact H]. intros _. split; [|done]. intros msg. unfold c_log_arguments. f_equal.
    unfold level_of_int. repeat case_dec; cbn; lia.
Qed.

(** A cluster change is accepted while the client is offline: with an instance whose
    worker takes the message, [setCluster] answers [SUCCESS] whether or not it is
    connected, and the message is queued. *)
Theorem setCluster_offline {W} `{!WorkerInterface W} `{!WorkerLaws W} (m : @Manager W) pend stopped name err :
  isValidClusterName name = true →
  (∀ env, (writeControlMessage env (m_pWorker m)).1 = true) →
  let '(code, a) := c_setCluster (Some name) (mkApi (mkClient (Some m) pend stopped) err) in
  code = SUCCESS ∧ c_isConnected a = (if m_connected m then 1 else 0)%Z ∧
  ∃ m', s_instance (a_client a) = Some m' ∧ length (control_written (m_pWorker m')) = S (length (control_written (m_pWorker m))).
Proof.
  intros Hn Hok. unfold c_setCluster, forward. rewrite Hn. unfold setCluster. simpl. rewrite Hn.
  unfold sendMessage, on_instance. simpl. unfold sendDataInternal, sendRawEnvelope. simpl.
  match goal with |- context [writeControlMessage ?e _] => pose proof (Hok e) as He;
    destruct (writeControlMessage e (m_pWorker m)) as [taken w] eqn:E end. simpl in *. subst taken. simpl.
  split_and!; [done|done|]. eexists. split; [done|]. simpl. apply writeControlMessage_law in E as [-> _].
  rewrite length_app. simpl. lia.
Qed.

(** ** Witnesses *)

Definition demo_api : @Api DemoWorker := mkApi (mkClient (Some demo_client) [] []) EmptyString.


Lemma setCluster_offline_witness :
  (c_setCluster (Some "lab"%string) demo_api).1 = SUCCESS ∧ c_isConnected demo_api = 0%Z.
Proof.
  pose proof (setCluster_offline demo_client [] [] "lab" EmptyString eq_refl ltac:(done)) as H.
  change (mkApi (mkClient (Some demo_client) [] []) EmptyString) with demo_api in H.
  destruct (c_setCluster _ demo_api) as [code a]. by destruct H as (-> & _).
Defined.
