(* ===== verification/TypedApi.v ===== *)
(** * The typed client interface

    Models the templates of [common/connectionmanager.h] - [encodePayload], [decodePayload]
    and the typed [sendMessage], [replyToSender], [registerCallback] and [sendRequest] over
    them - and the remaining calls of [common/connectionmanager.cpp].

    What [if constexpr] asks of a type is a record of traits: a [DataSerializer]
    specialization, protobuf's message members, being [std::string], being trivially
    copyable with its object representation.  A type with none of them does not compile:
    no encoding. *)

From Stdlib Require Import ZArith Lia.
From S2P Require Import Prelude.
From S2P Require Import MessageKeys.
From S2P Require Import Config.
From S2P Require Import Wire.
From S2P Require Import AnyFrame.
From S2P Require Import Worker.
From S2P Require Import ConnectionManager.
From S2P Require Import ConnectionManagerSpec.

(** ** Traits *)

(** A serializer's [deserialize] may throw: [None]. *)
Record Serializer (T : Type) := mkSerializer { serialize : T → string; deserialize : string → option T }.
Arguments mkSerializer {T} _ _.
Arguments serialize {T} _ _.
Arguments deserialize {T} _ _.

(** The type is [std::string]. *)
Record IsString (T : Type) := mkIsString { as_string : T → string; of_string : string → T }.
Arguments mkIsString {T} _ _.
Arguments as_string {T} _ _.
Arguments of_string {T} _ _.

(** The object representation: [sizeof(T)] bytes. *)
Record Layout (T : Type) := mkLayout { size_of : nat; object_bytes : T → string; object_of : string → T }.
Arguments mkLayout {T} _ _ _.
Arguments size_of {T} _.
Arguments object_bytes {T} _ _.
Arguments object_of {T} _ _.

Record Traits (T : Type) := mkTraits {
  tr_serializer : option (Serializer T);
  tr_protobuf : option (ProtobufMessage T);
  tr_string : option (IsString T);
  tr_layout : option (Layout T)
}.
Arguments mkTraits {T} _ _ _ _.
Arguments tr_serializer {T} _.
Arguments tr_protobuf {T} _.
Arguments tr_string {T} _.
Arguments tr_layout {T} _.

(** ** Encoding and decoding *)

Definition encode_value {T} (tr : Traits T) (value : T) : option string :=
  match tr_serializer tr with
  | Some s => Some (serialize s value)
  | None =>
      match tr_protobuf tr with
      | Some pm => Some (@encodePayload T pm value)
      | None =>
          match tr_string tr with
          | Some str => Some (as_string str value)
          | None =>
              match tr_layout tr with
              | Some l => Some (object_bytes l value)
              | None => None
              end
          end
      end
  end.

(** [None] is [false]. *)
Definition decodePayload {T} (tr : Traits T) (raw : string) : option T :=
  match tr_serializer tr with
  | Some s => deserialize s raw
  | None =>
      match tr_protobuf tr with
      | Some pm => @tryUnpack T pm raw
      | None =>
          match tr_string tr with
          | Some str => Some (of_string str raw)
          | None =>
              match tr_layout tr with
              | Some l => if decide (String.length raw ≠ size_of l) then None else Some (object_of l raw)
              | None => None
              end
          end
      end
  end.

(** ** Calls *)

Section calls.
Context {W : Type} `{!WorkerInterface W}.
Implicit Types (c : @Client W).

Definition sendData (key data : string) c : bool * Client := on_instance (sendDataInternal key data) c.

(** [std::string(data, len)] of the bytes at [data]. *)
Definition sendDataRaw (key data : string) (len : nat) c : bool * Client := on_instance (sendDataInternal key (str_take len data)) c.

(** [synced] is the worker's answer to [sync]. *)
Definition flush (synced : @Manager W → bool) c : bool :=
  match s_instance c with Some m => synced m | None => false end.

(** What [waitForConnection] sees of the instance at each wake-up, whether connected and
    whether running; it returns at the first that satisfies its predicate, or with the last
    when the time is up. *)
Fixpoint wait_for (seen : list (bool * bool)) (last : bool) : bool :=
  match seen with
  | [] => last
  | (connected, running) :: seen => if connected || negb running then connected else wait_for seen connected
  end.

Definition waitForConnection (seen : list (bool * bool)) c : bool :=
  match s_instance c with Some m => wait_for ((m_connected m, m_running m) :: seen) (m_connected m) | None => false end.

(** The encoding is made, then handed to the call on bytes; without one the call does not
    compile. *)
Definition sendMessage_typed {T} (tr : Traits T) (key : string) (value : T) c : option (bool * Client) :=
  (λ payload, sendData key payload c) <$> encode_value tr value.

Definition sendMessageWithReply_typed {T} (tr : Traits T) (key : string) (value : T) (replyTopic : string) c : option (bool * Client) :=
  (λ payload, sendEncodedWithReply key payload replyTopic c) <$> encode_value tr value.

Definition replyToSender_typed {T} (tr : Traits T) (value : T) c : option (bool * Client) :=
  (λ payload, replyToSenderEncoded payload c) <$> encode_value tr value.

(** [func] by what it does; a payload that does not decode is logged and dropped. *)
Definition typed_callback {T} (tr : Traits T) (func : T → list Action) : Callback :=
  mkCallback (λ raw, match decodePayload tr raw with Some value => func value | None => [] end).

Definition registerCallback_typed {T} (tr : Traits T) (key : string) (func : T → list Action) (instance : Z) (scope : Origin) c : Client :=
  registerInternal key (Some (typed_callback tr func)) instance scope c.

(** A member function: the instance it is called on identifies the registration. *)
Definition registerCallback_method {T} (tr : Traits T) (key : string) (method : Z → T → list Action) (instance : Z) (scope : Origin) c : Client :=
  registerCallback_typed tr key (method instance) instance scope c.

(** A callable without arguments; an empty [std::function] does nothing. *)
Definition registerCallback_void (key : string) (callback : option (list Action)) (instance : Z) (scope : Origin) c : Client :=
  registerInternal key (Some (mkCallback (λ _, default [] callback))) instance scope c.

Definition registerCallback_method_void (key : string) (method : Z → list Action) (instance : Z) (scope : Origin) c : Client :=
  registerCallback_void key (Some (method instance)) instance scope c.

Definition registerCallback_raw (key : string) (callback : option Callback) (scope : Origin) c : Client :=
  registerInternal key callback 0 scope c.

(** [sendRequest] of an instance: the answer decoded. *)
Definition sendRequest_typed {Q A} (trq : Traits Q) (tra : Traits A) (onProcessingThread : bool) (p : Z) (uuid requestTopic : string)
    (payload : Q) (meanwhile : @Manager W → @Manager W) (m : @Manager W) : option (option A * Manager) :=
  (λ bytes, let '(response, m) := sendRequest onProcessingThread p uuid requestTopic bytes meanwhile m in
            (response ≫= decodePayload tra, m)) <$> encode_value trq payload.
End calls.

(** ** What the traits promise *)

(** The documented round trips of what a type brings along. *)
Record lawful {T} (tr : Traits T) : Prop := {
  lawful_serializer s : tr_serializer tr = Some s → ∀ v, deserialize s (serialize s v) = Some v;
  lawful_protobuf pm : tr_protobuf tr = Some pm → @ProtobufMessageLaws T pm;
  lawful_string str : tr_string tr = Some str → ∀ v, of_string str (as_string str v) = v;
  lawful_layout l : tr_layout tr = Some l → ∀ v, String.length (object_bytes l v) = size_of l ∧ object_of l (object_bytes l v) = v
}.

(** The parts of a packed message fit a 64-bit length. *)
Definition packable {T} (tr : Traits T) (value : T) : Prop :=
  ∀ pm, tr_protobuf tr = Some pm →
    (Z.of_nat (String.length TYPE_URL_PREFIX + String.length (@GetTypeName T pm)) < 2 ^ 64)%Z ∧
    (Z.of_nat (String.length (@SerializeAsString T pm value)) < 2 ^ 64)%Z.

Lemma tryUnpack_encode {T} (pm : ProtobufMessage T) (laws : @ProtobufMessageLaws T pm) (value : T) :
  (Z.of_nat (String.length TYPE_URL_PREFIX + String.length (@GetTypeName T pm)) < 2 ^ 64)%Z →
  (Z.of_nat (String.length (@SerializeAsString T pm value)) < 2 ^ 64)%Z →
  @tryUnpack T pm (@encodePayload T pm value) = Some value.
Proof.
  intros Hn Hb. unfold tryUnpack, encodePayload. rewrite read_packAny by done.
  rewrite starts_with_app, str_drop_app_length. rewrite decide_True by done. apply parse_serialize.
Qed.

Lemma decode_encode_value {T} (tr : Traits T) value bytes :
  lawful tr → packable tr value → encode_value tr value = Some bytes → decodePayload tr bytes = Some value.
Proof.
  intros [Hs Hp Hst Hl] Hpack. unfold packable in Hpack. unfold encode_value, decodePayload.
  destruct (tr_serializer tr) as [s|]; [intros [= <-]; by apply Hs|].
  destruct (tr_protobuf tr) as [pm|]; [intros [= <-]; destruct (Hpack pm eq_refl); apply tryUnpack_encode; auto|].
  destruct (tr_string tr) as [str|]; [intros [= <-]; by rewrite Hst|].
  destruct (tr_layout tr) as [l|]; [|done]. intros [= <-]. destruct (Hl l eq_refl value) as [H1 H2].
  rewrite decide_False by (intros Hne; by apply Hne). by rewrite H2.
Qed.

(** A handler that answers a value of one type with a value of another. *)
Definition typed_responder {Q A} (trq : Traits Q) (tra : Traits A) (g : Q → A) : Callback :=
  typed_callback trq (λ q, match encode_value tra (g q) with Some d => [ActReply d] | None => [] end).

(** ** Properties *)

(** A value sent is the value received.  For every type the library accepts - one with a
    serializer, a protobuf message, a string, a plain struct, in this order of preference -
    decoding the encoding of a value gives the value back; a struct of another size is
    refused, and so is a packed message of another type. *)
Theorem typed_roundtrip {T U} (tr : Traits T) (tr' : Traits U) (value : T) bytes :
  lawful tr → packable tr value → encode_value tr value = Some bytes →
  decodePayload tr bytes = Some value ∧
  (∀ l, tr_serializer tr' = None → tr_protobuf tr' = None → tr_string tr' = None → tr_layout tr' = Some l →
     size_of l ≠ String.length bytes → decodePayload tr' bytes = None) ∧
  (∀ pm pm', tr_serializer tr = None → tr_protobuf tr = Some pm → tr_serializer tr' = None → tr_protobuf tr' = Some pm' →
     @GetTypeName U pm' ≠ @GetTypeName T pm → decodePayload tr' bytes = None).
Proof.
  intros Hlaw Hpack He. split_and!; [by eapply decode_encode_value|..].
  - intros l Es Ep Et El Hne. unfold decodePayload. rewrite Es, Ep, Et, El. by rewrite decide_True.
  - intros pm pm' Es Ep Es' Ep' Hne. unfold decodePayload, encode_value in *. rewrite Es, Ep in He. rewrite Es', Ep'.
    injection He as <-. destruct (Hpack pm Ep) as [Hn Hb]. unfold tryUnpack, encodePayload. rewrite read_packAny by done.
    rewrite starts_with_app, str_drop_app_length. by rewrite decide_False.
Qed.


(** ** Witnesses *)

(** A struct of one byte, and strings. *)
Definition demo_struct : Traits Z :=
  mkTraits None None None (Some (mkLayout 1 (λ z, String (chr z) EmptyString) (λ s, match s with String c _ => byte_of c | _ => 0%Z end))).

Definition demo_strings : Traits string := mkTraits None None (Some (mkIsString (λ s, s) (λ s, s))) None.

Lemma demo_strings_lawful : lawful demo_strings.
Proof. split; cbn; intros; by simplify_eq. Qed.

Lemma typed_roundtrip_witness :
  decodePayload demo_strings "hello" = Some "hello"%string ∧ decodePayload demo_struct "hello" = None.
Proof.
  destruct (typed_roundtrip demo_strings demo_struct "hello" "hello") as (H1 & H2 & _); [apply demo_strings_lawful|by intros pm|done|].
  split; [exact H1|]. eapply H2; [reflexivity..|]. discriminate.
Defined.

Definition demo_typed_server : @Manager DemoWorker :=
  performRegistration "ping" (Some (typed_responder demo_strings demo_strings (λ q, q +:+ "!"))) 9 Origins.Any (new_manager "v" demo_config).

