(* ===== verification/Examples.v ===== *)
(** * The example programs

    Models [examples/client1/main.cpp] and [examples/client2/main.cpp]: what each registers
    with the client library, what its timers send (the constant lines they log apart), and what
    its callbacks print, log and send.
    Their types reach the wire by the rules of [TypedApi]; the object representation of [int]
    and of the struct, and protobuf's [ClientInfo], are parameters, with the round trips the
    library relies on.

    [examples_converse]: over a broker, what the second program's timers send is what the
    first one's callbacks are given, and the answer of the first is printed by the second. *)

From Stdlib Require Import ZArith Lia.
From S2P Require Import Prelude.
From S2P Require Import MessageKeys.
From S2P Require Import Config.
From S2P Require Import Wire.
From S2P Require Import Registry.
From S2P Require Import Worker.
From S2P Require Import ConnectionManager.
From S2P Require Import ConnectionManagerInv.
From S2P Require Import ConnectionManagerSpec.
From S2P Require Import TypedApi.
From S2P Require Import Broker.
From S2P Require Import BrokerInv.
From S2P Require Import BrokerSpec.
From S2P Require Import Mesh.
From S2P Require Import EndToEnd.

(** [std::to_string] of a [double], which is "%f" of it, from its 64 bits: the value to six
    decimals, ties to even. A [float] is promoted first. *)
Definition fixed6 (negative : bool) (mantissa exponent : Z) : string :=
  let scaled := (mantissa * 10 ^ 6)%Z in
  let rounded :=
    if decide (0 ≤ exponent)%Z then (scaled * 2 ^ exponent)%Z
    else
      let q := (scaled / 2 ^ (- exponent))%Z in
      let r := (2 * (scaled mod 2 ^ (- exponent)) - 2 ^ (- exponent))%Z in
      if decide (0 < r ∨ r = 0 ∧ Z.odd q = true)%Z then (q + 1)%Z else q in
  (if negative then "-" else EmptyString) +:+ to_string (rounded / 10 ^ 6) +:+ "." +:+
    setw (chr 48) 6 (to_string (rounded mod 10 ^ 6)).

(** A binary floating-point number of [eb] exponent and [mb] mantissa bits. *)
Definition float_to_string (eb mb bits : Z) : string :=
  let negative := Z.testbit bits (eb + mb) in
  let e := Z.land (Z.shiftr bits mb) (2 ^ eb - 1) in
  let m := Z.land bits (2 ^ mb - 1) in
  let bias := (2 ^ (eb - 1) - 1)%Z in
  if decide (e = 2 ^ eb - 1)%Z then (if negative then "-" else EmptyString) +:+ (if decide (m = 0)%Z then "inf" else "nan")
  else if decide (e = 0)%Z then fixed6 negative m (1 - bias - mb)
  else fixed6 negative (m + 2 ^ mb) (e - bias - mb).

(** [struct TestStruct]: floating-point members by their bits. *)
Record TestStruct := mkTestStruct { d : Z; dd : Z; ddd : Z; h : Z }.

(** [broker::ClientInfo]. *)
Record ClientInfo := mkClientInfo { info_id : string; info_subscriptions : list string }.

Definition signed_to_string (z : Z) : string := if decide (z < 0)%Z then "-" +:+ to_string (- z) else to_string z.

Section examples.
Context {V : Type} `{!WorkerInterface V} `{!WorkerLaws V}.
Context (int_traits : Traits Z) (struct_traits : Traits TestStruct) (info_traits : Traits ClientInfo).
Implicit Types (c : @Client V) (m : @Manager V).

Definition string_traits : Traits string := mkTraits None None (Some (mkIsString (λ s, s) (λ s, s))) None.

(** ** client1 *)

Definition client1_config (now : Z) : ConnectionConfig :=
  default_config "tcp://127.0.0.1:5555" ("client1_debug_" +:+ to_string now).

(** The callbacks: what each logs, and what it does. *)
Definition client1_log_test (message : string) : list string := [newline +:+ message].

Definition client1_log_struct (s : TestStruct) : list string :=
  ["Receiving a struct";
   newline +:+ signed_to_string (d s) +:+ newline +:+ float_to_string 11 52 (dd s) +:+ newline +:+
     float_to_string 8 23 (ddd s) +:+ newline +:+ to_string (h s)].

Definition client1_log_protobuf (s : ClientInfo) : list string :=
  ["Receiving a protobuf";
   newline +:+ info_id s +:+ newline +:+ to_string (Z.of_nat (length (info_subscriptions s))) +:+ " subscription(s)"].

Definition client1_on_test (message : string) : list Action := [ActSend "MessageReceived" "Send a response"].

Definition client1_start (uuid : string) (now : Z) c : Client :=
  let c := init uuid (client1_config now) c in
  let c := registerCallback_typed string_traits "test" client1_on_test 0 Origins.Any c in
  let c := registerCallback_typed struct_traits "struct" (λ _, []) 0 Origins.Any c in
  registerCallback_typed info_traits "protobuf" (λ _, []) 0 Origins.Any c.

(** Its timer, every second; a type without an encoding would not compile. *)
Definition client1_timeout c : Client := from_option snd c (sendMessage_typed int_traits "Hejsan" 3%Z c).

(** ** client2 *)

Definition client2_config : ConnectionConfig := default_config "tcp://127.0.0.1:5555" "client2".

Definition client2_print_message (data : string) : string := data +:+ newline.

Definition client2_print_value (value : Z) : string := signed_to_string value +:+ newline.

Definition client2_start (uuid : string) c : Client :=
  let c := init uuid client2_config c in
  let c := registerCallback_typed string_traits "MessageReceived" (λ _, []) 0 Origins.Any c in
  registerCallback_typed int_traits "Hejsan" (λ _, []) 0 Origins.Any c.

(** [toJson] is Qt's text of the document of a time stamp. *)
Context (toJson : Z → string).

(** What the two slots of the first timer send, every two seconds: the bits are those of
    1337.0 and 3.1415f. *)
Definition client2_message (now : Z) : string := toJson now.

Definition client2_struct (now : Z) : TestStruct := mkTestStruct 42 0x4094E40000000000 0x40490E56 (wrap 64 now).

Definition client2_timeout (now : Z) c : Client :=
  let c := (sendMessage "test" (client2_message now) c).2 in
  from_option snd c (sendMessage_typed struct_traits "struct" (client2_struct now) c).

Definition client2_info : ClientInfo := mkClientInfo "client2" ["message from client2"].

(** The second timer, every one and a half seconds. *)
Definition client2_timeout2 c : Client := from_option snd c (sendMessage_typed info_traits "protobuf" client2_info c).

(** ** What the programs make of each other's messages *)

(** Each callback is given the value the other program sent. *)
Lemma examples_decode now bytes :
  lawful int_traits → lawful struct_traits → lawful info_traits →
  packable int_traits 3%Z → packable struct_traits (client2_struct now) → packable info_traits client2_info →
  (encode_value int_traits 3%Z = Some bytes → client2_print_value <$> decodePayload int_traits bytes = Some ("3" +:+ newline)) ∧
  (encode_value struct_traits (client2_struct now) = Some bytes →
     decodePayload struct_traits bytes = Some (client2_struct now) ∧
     client1_log_struct (client2_struct now) =
       ["Receiving a struct"; newline +:+ "42" +:+ newline +:+ "1337.000000" +:+ newline +:+ "3.141500" +:+ newline +:+ to_string (wrap 64 now)]) ∧
  (encode_value info_traits client2_info = Some bytes →
     client1_log_protobuf <$> decodePayload info_traits bytes =
       Some ["Receiving a protobuf"; newline +:+ "client2" +:+ newline +:+ "1 subscription(s)"]).
Proof.
  intros Hi Hs Hp Pi Ps Pp. split_and!; intros E.
  - by rewrite (decode_encode_value _ _ _ Hi Pi E).
  - split; [by apply decode_encode_value|]. unfold client1_log_struct, client2_struct. cbn [d dd ddd h].
    assert (float_to_string 11 52 0x4094E40000000000 = "1337.000000") as -> by (vm_compute; reflexivity).
    assert (float_to_string 8 23 0x40490E56 = "3.141500") as -> by (vm_compute; reflexivity). reflexivity.
  - by rewrite (decode_encode_value _ _ _ Hp Pp E).
Qed.

(** The instance of a program after its start, as its worker came online. *)
Definition online (c : @Client V) : option (@Manager V) := statusHandler true <$> s_instance c.

(** *** A conversation *)

Context {S : Type} `{!ZmqSender S} `{!ZmqSenderLaws S} {W : Type} `{!WorkerInterface W} `{!WorkerLaws W}.
Context {PB : ProtobufRuntime} {PBL : @ProtobufLaws PB}.
Implicit Types b : Broker S W.

(** The programs' callbacks are in place when they come online. *)
Lemma send_subscriptions_handlers m : m_msgHandlers (send_subscriptions m) = m_msgHandlers m.
Proof.
  unfold send_subscriptions. generalize (map_entries (m_msgHandlers m)).*1. intros ks. revert m.
  induction ks as [|k ks IH]; intros m; [done|]. simpl. rewrite IH. unfold send_subscribe, sendRawEnvelope.
  destruct (if Keys.isControlMessage _ then _ else _) as [ok w]. done.
Qed.

Lemma statusHandler_handlers m : m_msgHandlers (statusHandler true m) = m_msgHandlers m.
Proof.
  unfold statusHandler, sendRawEnvelope. destruct (if Keys.isControlMessage _ then _ else _) as [ok w].
  cbn [fst snd]. change (m_msgHandlers (with_session ?n true ?m)) with (m_msgHandlers m). by rewrite send_subscriptions_handlers.
Qed.

Lemma client1_online uuid now m :
  online (client1_start uuid now no_client) = Some m →
  m_msgHandlers m !! "test" = Some [mkEntry 0 (Some (typed_callback string_traits client1_on_test)) Origins.Any] ∧
  m_msgHandlers m !! Keys.WILDCARD_TOPIC = None.
Proof.
  unfold online. destruct (s_instance (client1_start uuid now no_client)) as [m1|] eqn:E; [|done].
  intros Hm. apply (inj Some) in Hm as <-. rewrite statusHandler_handlers. unfold client1_start, registerCallback_typed, init in E. simpl in E. injection E as <-.
  done.
Qed.

Lemma client2_online uuid m :
  online (client2_start uuid no_client) = Some m →
  m_msgHandlers m !! "MessageReceived" = Some [mkEntry 0 (Some (typed_callback string_traits (λ _, []))) Origins.Any] ∧
  m_msgHandlers m !! Keys.WILDCARD_TOPIC = None.
Proof.
  unfold online. destruct (s_instance (client2_start uuid no_client)) as [m1|] eqn:E; [|done].
  intros Hm. apply (inj Some) in Hm as <-. rewrite statusHandler_handlers. unfold client2_start, registerCallback_typed, init in E. simpl in E. injection E as <-.
  done.
Qed.

(** A callback that sends, run on a message for it. *)
Lemma sending_callback brokerId e m cb key data :
  m_msgHandlers m !! topic (env_header e) = Some [mkEntry 0 (Some cb) Origins.Any] →
  m_msgHandlers m !! Keys.WILDCARD_TOPIC = None → callback_body cb (env_payload e) = [ActSend key data] →
  handler_key (env_header e) ≠ Keys.RESET → Keys.isReservedKey key = false →
  (writeMessage (publication (m_clientId m) key data) (m_pWorker m)).1 = true →
  data_sent (handleOne brokerId e m) = data_sent m ++ [publication (m_clientId m) key data].
Proof.
  intros Hh Hw Hb Hk Hr Hok. unfold handleOne. rewrite decide_False by done. unfold handleMessage. rewrite Hh, Hw.
  assert (∀ x : option (list CallbackEntry), (if decide (topic (env_header e) = Keys.WILDCARD_TOPIC) then x else x) = x)
    as -> by (intros; by case_decide).
  unfold dispatch. simpl. unfold invoke. simpl.
  destruct (scopeAccepts Origins.Any _) eqn:Es; [|by destruct (message_is_local _ _ _)].
  rewrite Hb. simpl. unfold sendDataInternal, sendRawEnvelope. simpl.
  destruct (Keys.isControlMessage key) eqn:Ec; [by apply control_is_reserved in Ec; congruence|].
  fold (publication (m_clientId m) key data). destruct (writeMessage _ _) as [ok w] eqn:E. simpl in Hok. subst ok.
  apply writeMessage_law in E as [E _]. exact E.
Qed.

(** What it takes for a message to make it through the broker: header frames within bounds
    and in UTF-8, an id not seen. *)
Definition carriable b (env : Env) (e : Envelope) : Prop :=
  let e' := stamped env (m_brokerId b) e in
  pb_sized (env_header e) ∧ header_utf8 (env_header e) = true ∧ pb_sized (env_header e') ∧ header_utf8 (env_header e') = true ∧
  msg_id e' ∉ known b.

(** One leg: a publication of one client is handled by another. *)
Lemma leg env sender t data b m brokerId :
  broker_inv b → sock_open (m_socket b) = [] → is_Some (m_clients b !! sender) → in_step b m → m_clientId m ≠ sender →
  Keys.isReservedKey t = false → carriable b env (publication sender t data) → (Z.of_nat (fanout b) < 2 ^ 64)%Z →
  brokerId = EmptyString ∨ brokerId = m_brokerId b →
  ∃ b', broker_reads env sender (publication sender t data) b = Some b' ∧ broker_inv b' ∧ kept b b' ∧ sock_open (m_socket b') = [] ∧ fanout b' = fanout b ∧
    (m_totalDropped b' = m_totalDropped b →
     m_calls (client_reads_all brokerId b b' m) = m_calls m ++ calls_of data true (callbacks_for t m) ∧
     (existsb (λ e, scopeAccepts (ce_scope e) true) (callbacks_for t m) = true →
        client_reads_all brokerId b b' m = handleMessage brokerId (stamped env (m_brokerId b) (publication sender t data)) m)).
Proof.
  intros Hinv Ho Hc Hin Hne Hr (Hs & Hu & Hs' & Hu' & Hnew) Hf Hid.
  destruct (broker_reads_publication env sender t data b) as (b' & E & I & K & O & F & Hg); try done.
  exists b'. split_and!; try done. intros Hz. specialize (Hg Hz).
  split; [by apply (publication_called env sender)|]. intros Hex. by rewrite (publication_read env sender t data), Hex.
Qed.

(** The two programs converse.  Both online with a broker that has their subscriptions, the
    second one's timer fires: the broker reads its message and sends it to the first one,
    whose callback is called with the text and sends its response; the broker reads that in
    turn, and the second one's callback is called with it - each once, unless the broker
    counts a drop. *)
Theorem examples_converse b m1 m2 uuid1 uuid2 now1 now env1 env2 brokerId :
  online (client1_start uuid1 now1 no_client) = Some m1 → online (client2_start uuid2 no_client) = Some m2 →
  broker_inv b → sock_open (m_socket b) = [] → in_step b m1 → in_step b m2 → m_clientId m1 ≠ m_clientId m2 →
  is_Some (m_clients b !! m_clientId m1) → is_Some (m_clients b !! m_clientId m2) →
  (Z.of_nat (fanout b) < 2 ^ 64)%Z → brokerId = EmptyString ∨ brokerId = m_brokerId b →
  carriable b env1 (publication (m_clientId m2) "test" (client2_message now)) →
  (writeMessage (publication (m_clientId m1) "MessageReceived" "Send a response") (m_pWorker m1)).1 = true →
  ∃ b1, broker_reads env1 (m_clientId m2) (publication (m_clientId m2) "test" (client2_message now)) b = Some b1 ∧
    (m_totalDropped b1 = m_totalDropped b →
     let m1' := client_reads_all brokerId b b1 m1 in
     m_calls m1' = m_calls m1 ++ [(0%Z, client2_message now)] ∧
     data_sent m1' = data_sent m1 ++ [publication (m_clientId m1) "MessageReceived" "Send a response"] ∧
     (carriable b1 env2 (publication (m_clientId m1) "MessageReceived" "Send a response") →
      ∃ b2, broker_reads env2 (m_clientId m1) (publication (m_clientId m1) "MessageReceived" "Send a response") b1 = Some b2 ∧
        (m_totalDropped b2 = m_totalDropped b1 →
         m_calls (client_reads_all brokerId b1 b2 m2) = m_calls m2 ++ [(0%Z, "Send a response"%string)]))).
Proof.
  intros [H1 W1]%client1_online [H2 W2]%client2_online Hinv Ho S1 S2 Hne C1 C2 Hf Hid Hc1 Hok.
  assert (callbacks_for "test" m1 = [mkEntry 0 (Some (typed_callback string_traits client1_on_test)) Origins.Any]) as Hcb1
    by (unfold callbacks_for, wildcard_list; simpl; by rewrite H1, W1).
  assert (callbacks_for "MessageReceived" m2 = [mkEntry 0 (Some (typed_callback string_traits (λ _, []))) Origins.Any]) as Hcb2
    by (unfold callbacks_for, wildcard_list; simpl; by rewrite H2, W2).
  destruct (leg env1 (m_clientId m2) "test" (client2_message now) b m1 brokerId) as (b1 & E1 & I1 & K1 & O1 & F1 & R1); try done.
  exists b1. split; [exact E1|]. intros Hz1. destruct (R1 Hz1) as [Hcalls Hread]. rewrite Hcb1 in *. split; [exact Hcalls|]. split.
  - rewrite Hread by done. set (e := stamped _ _ _).
    assert (handleMessage brokerId e m1 = handleOne brokerId e m1) as -> by (unfold handleOne; by rewrite decide_False).
    by apply (sending_callback brokerId e m1 (typed_callback string_traits client1_on_test)).
  - intros Hc2. destruct (leg env2 (m_clientId m1) "MessageReceived" "Send a response" b1 m2 brokerId) as (b2 & E2 & _ & _ & _ & _ & R2); try done.
    + by apply (kept_clients _ _ K1).
    + intros t. rewrite (kept_subs _ _ K1). apply S2.
    + by rewrite F1.
    + by rewrite (kept_id _ _ K1).
    + exists b2. split; [exact E2|]. intros Hz2. destruct (R2 Hz2) as [Hcalls2 _]. by rewrite Hcb2 in Hcalls2.
Qed.
End examples.

(** ** Witness *)

#[local] Existing Instance demo_runtime.
#[local] Existing Instance demo_runtime_laws.
#[local] Existing Instance demo_sender.
#[local] Existing Instance demo_sender_laws.

Definition no_traits {T} : Traits T := mkTraits None None None None.

(** The broker once it has read what both programs sent as they came online. *)
Definition example_broker : Broker DemoSender DemoWorker :=
  let subscribe c b t := handleSubscribe demo_env t (encodeSubscribeScope Origins.Any) c b in
  foldl (subscribe "client2") (foldl (subscribe "client1_debug_7")
    (with_clients {[ "client1_debug_7" := Broker.mkClient 90 0; "client2" := Broker.mkClient 90 0 ]}
      (new_broker "3f2a77c0-broker" 10000 (mkDemoSender (Some ["client1_debug_7"; "client2"]) 10 [] []) (mkDemoSender None 10 [] [])))
    ["test"; "struct"; "protobuf"]) ["MessageReceived"; "Hejsan"].

Lemma example_broker_inv : broker_inv example_broker.
Proof.
  set (b0 := with_clients {[ "client1_debug_7" := Broker.mkClient 90 0; "client2" := Broker.mkClient 90 0 ]}
      (new_broker "3f2a77c0-broker" 10000 (mkDemoSender (Some ["client1_debug_7"; "client2"]) 10 [] []) (mkDemoSender None 10 [] []))
      : Broker DemoSender DemoWorker).
  assert (broker_inv b0) as H0.
  { pose proof (new_broker_inv "3f2a77c0-broker" 10000 (mkDemoSender (Some ["client1_debug_7"; "client2"]) 10 [] []) (mkDemoSender None 10 [] [])
      : broker_inv (new_broker _ _ _ _ : Broker DemoSender DemoWorker)) as Hinv.
    split; try apply Hinv. intros c [x Hx]. change ((∅ : gmap string (gmap string Origin)) !! c = Some x) in Hx. by rewrite lookup_empty in Hx. }
  unfold example_broker. fold b0. simpl. repeat (apply handleSubscribe_inv; [|by_evaluation]). exact H0.
Qed.

Lemma in_step_by_map (b : Broker DemoSender DemoWorker) (m : @Manager DemoWorker) :
  m_clientTopics (m_subscriptions b) !! m_clientId m = Some (unionScope <$> m_msgHandlers m) → in_step b m.
Proof. intros E t. unfold held. rewrite E. simpl. apply lookup_fmap. Qed.

Definition example1 : @Manager DemoWorker :=
  default (new_manager EmptyString client2_config) (online (client1_start no_traits no_traits "u1" 7 no_client)).

Definition example2 : @Manager DemoWorker :=
  default (new_manager EmptyString client2_config) (online (client2_start no_traits "u2" no_client)).

Lemma examples_converse_witness :
  ∃ b1, broker_reads demo_env "client2" (publication "client2" "test" "7") example_broker = Some b1 ∧
    (m_totalDropped b1 = m_totalDropped example_broker →
     m_calls (client_reads_all EmptyString example_broker b1 example1) = [(0%Z, "7"%string)]).
Proof.
  destruct (examples_converse (V := DemoWorker) no_traits no_traits no_traits to_string example_broker example1 example2 "u1" "u2" 7 7
    demo_env demo_env EmptyString) as (b1 & E1 & H).
  - reflexivity.
  - reflexivity.
  - apply example_broker_inv.
  - by_evaluation.
  - apply in_step_by_map. vm_compute. reflexivity.
  - apply in_step_by_map. vm_compute. reflexivity.
  - by_evaluation.
  - by_evaluation.
  - by_evaluation.
  - vm_compute. reflexivity.
  - by left.
  - repeat split; try (vm_compute; reflexivity). intros Hin. by apply (bool_decide_pack _) in Hin.
  - vm_compute. reflexivity.
  - exists b1. split; [exact E1|]. intros Hz. destruct (H Hz) as [Hc _]. exact Hc.
Defined.
