(* ===== verification/PayloadFormat.v ===== *)
(** * Rendering payloads for a terminal

    Models [cli/payloadformat.cpp].  A payload comes from the network; what is printed of
    it must stay on one line and within a budget, and must not carry control characters
    into the terminal.  The descriptor pool and the text printer of protobuf are an
    argument: from a type name and the packed bytes, the text of the message if the type
    is known and the bytes parse. *)

From Stdlib Require Import ZArith Lia.
From S2P Require Import Prelude.
From S2P Require Import AnyFrame.

Inductive PayloadFormat := Auto | Text | Hex | Raw.

#[export] Instance PayloadFormat_eq_dec : EqDecision PayloadFormat.
Proof. solve_decision. Defined.

Definition DECODED_WIDTH_FACTOR : nat := 4.

Definition isDisplayable (c : Ascii.ascii) : bool :=
  bool_decide (0x20 ≤ byte_of c)%Z || bool_decide (byte_of c = 9%Z) || bool_decide (byte_of c = 10%Z) ||
  bool_decide (byte_of c = 13%Z).

(** ["0123456789abcdef"[n]]. *)
Definition HEX_DIGITS (n : Z) : Ascii.ascii := if decide (n < 10)%Z then chr (48 + n) else chr (87 + n).

Definition hex_byte (byte : Z) : string :=
  String (HEX_DIGITS (Z.shiftr byte 4)) (String (HEX_DIGITS (Z.land byte 0x0f)) EmptyString).

Definition escape_char (c : Ascii.ascii) : string :=
  let byte := byte_of c in
  if decide (byte = 10%Z) then "\n"
  else if decide (byte = 13%Z) then "\r"
  else if decide (byte = 9%Z) then "\t"
  else if decide (byte < 0x20 ∨ byte = 0x7f)%Z then "\x" +:+ hex_byte byte
  else String c EmptyString.

Fixpoint escapeControlCharacters (text : string) : string :=
  match text with
  | EmptyString => EmptyString
  | String c text => escape_char c +:+ escapeControlCharacters text
  end.

(** The ellipsis is three bytes of UTF-8. *)
Definition ellipsis : string := String (chr 0xe2) (String (chr 0x80) (String (chr 0xa6) EmptyString)).

Definition truncationNote (total shown : nat) : string :=
  if decide (total ≤ shown) then EmptyString
  else " " +:+ ellipsis +:+ " (+" +:+ to_string (Z.of_nat (total - shown)) +:+ " bytes)".

Definition looksLikeText (payload : string) : bool := str_all isDisplayable payload.

(** The bytes at index [i] onwards of those shown. *)
Fixpoint hex_loop (i : nat) (bytes : string) : string :=
  match bytes with
  | EmptyString => EmptyString
  | String c bytes => (if decide (0 < i) then " " else EmptyString) +:+ hex_byte (byte_of c) +:+ hex_loop (S i) bytes
  end.

(** [static_cast<std::size_t>] of an [int]. *)
Definition to_size (n : Z) : nat := Z.to_nat (wrap 64 n).

Definition toHex (bytes : string) (maxBytes : Z) : string :=
  let shown := String.length bytes `min` to_size maxBytes in
  hex_loop 0 (str_take shown bytes) +:+ truncationNote (String.length bytes) shown.

Section render.
Context (print_message : string → string → option string).

Definition renderPackedAny (payload : string) : string :=
  let '(claimedType, valueBytes) := typeNameOf payload in
  if decide (claimedType = EmptyString) then EmptyString
  else
    match print_message claimedType valueBytes with
    | None => EmptyString
    | Some text => claimedType +:+ " { " +:+ text +:+ "}"
    end.

Definition renderText (payload : string) (maxBytes : Z) : string :=
  let shown := String.length payload `min` to_size maxBytes in
  escapeControlCharacters (str_take shown payload) +:+ truncationNote (String.length payload) shown.

Definition renderPayload (payload : string) (format : PayloadFormat) (maxBytes : Z) : string :=
  if decide (payload = EmptyString) then "(empty)"
  else if decide (format = Hex) then toHex payload maxBytes
  else if decide (format = Auto) then
    let decoded := renderPackedAny payload in
    if decide (decoded ≠ EmptyString) then
      let budget := Z.to_nat (wrap 64 (Z.of_nat (to_size maxBytes) * Z.of_nat DECODED_WIDTH_FACTOR)) in
      let shown := String.length decoded `min` budget in
      escapeControlCharacters (str_take shown decoded) +:+
        (if decide (shown < String.length decoded) then " " +:+ ellipsis else EmptyString)
    else if negb (looksLikeText payload) then toHex payload maxBytes
    else renderText payload maxBytes
  else renderText payload maxBytes.

(** ** Lemmas *)

(** Neither a control character nor DEL. *)
Definition visible (c : Ascii.ascii) : bool := bool_decide (0x20 ≤ byte_of c)%Z && negb (bool_decide (byte_of c = 0x7f%Z)).

Lemma hex_digit_visible n : (0 ≤ n < 16)%Z → visible (HEX_DIGITS n) = true.
Proof.
  intros Hn. unfold visible, HEX_DIGITS. case_decide; rewrite byte_of_chr_small by lia;
    rewrite bool_decide_true, bool_decide_false by lia; done.
Qed.

Lemma hex_byte_visible b : (0 ≤ b < 256)%Z → str_all visible (hex_byte b) = true.
Proof.
  intros Hb. unfold hex_byte. cbn [str_all]. rewrite !hex_digit_visible; [done|..].
  - rewrite (Z.land_ones b 4 ltac:(lia) : Z.land b 0x0f = _). apply Z.mod_pos_bound. lia.
  - rewrite Z.shiftr_div_pow2 by lia. split; [apply Z.div_pos; lia|]. apply Z.div_lt_upper_bound; lia.
Qed.

Lemma escape_char_spec c : str_all visible (escape_char c) = true ∧ String.length (escape_char c) ≤ 4.
Proof.
  unfold escape_char. pose proof (byte_of_range c).
  case_decide; [by split; [|simpl; lia]|]. case_decide; [by split; [|simpl; lia]|].
  case_decide; [by split; [|simpl; lia]|]. case_decide as Hc.
  - rewrite str_all_app, hex_byte_visible by done. split; [done|]. rewrite str_length_app. simpl. lia.
  - cbn [str_all String.length]. split; [|lia]. unfold visible.
    rewrite bool_decide_true, bool_decide_false by lia. done.
Qed.

Lemma escape_spec s :
  str_all visible (escapeControlCharacters s) = true ∧
  String.length (escapeControlCharacters s) ≤ 4 * String.length s.
Proof.
  induction s as [|c s [IH1 IH2]]; [done|]. cbn [escapeControlCharacters].
  destruct (escape_char_spec c) as [H1 H2]. rewrite str_all_app, H1, IH1, str_length_app. cbn [String.length]. split; [done|lia].
Qed.

(** Nothing is lost on text that needs no escape. *)
Lemma escape_plain s : str_all visible s = true → escapeControlCharacters s = s.
Proof.
  induction s as [|c s IH]; [done|]. cbn [str_all]. intros [Hc Hs]%andb_true_iff. cbn [escapeControlCharacters].
  rewrite IH by done. unfold visible in Hc. apply andb_true_iff in Hc as [H1%bool_decide_eq_true H2].
  apply negb_true_iff, bool_decide_eq_false in H2. unfold escape_char.
  by rewrite !decide_False by lia.
Qed.

Lemma str_all_impl (f g : Ascii.ascii → bool) s :
  (∀ c, f c = true → g c = true) → str_all f s = true → str_all g s = true.
Proof.
  intros H. induction s as [|c s IH]; [done|]. cbn [str_all]. rewrite !andb_true_iff. intros []. auto.
Qed.

Lemma note_visible total shown : str_all visible (truncationNote total shown) = true.
Proof.
  unfold truncationNote. case_decide; [done|]. rewrite !str_all_app.
  rewrite (str_all_impl is_digit visible (to_string _)); [vm_compute; reflexivity| |apply to_string_digits; lia].
  intros c Hc. unfold is_digit in Hc. apply bool_decide_eq_true in Hc. unfold visible.
  rewrite bool_decide_true, bool_decide_false by lia. done.
Qed.

Lemma hex_loop_spec i s :
  str_all visible (hex_loop i s) = true ∧ String.length (hex_loop i s) ≤ 3 * String.length s.
Proof.
  revert i; induction s as [|c s IH]; intros i; [done|]. cbn [hex_loop]. destruct (IH (S i)) as [H1 H2].
  rewrite !str_all_app, hex_byte_visible, H1 by apply byte_of_range. rewrite !str_length_app. cbn [String.length].
  case_decide; simpl; (split; [done|lia]).
Qed.

Lemma toHex_spec s maxBytes :
  str_all visible (toHex s maxBytes) = true ∧
  String.length (toHex s maxBytes) ≤
    4 * to_size maxBytes + String.length (truncationNote (String.length s) (String.length s `min` to_size maxBytes)).
Proof.
  unfold toHex. set (shown := _ `min` _). destruct (hex_loop_spec 0 (str_take shown s)) as [H1 H2].
  rewrite str_all_app, H1, note_visible, str_length_app. rewrite str_length_take in H2. split; [done|lia].
Qed.

Lemma renderText_spec s maxBytes :
  str_all visible (renderText s maxBytes) = true ∧
  String.length (renderText s maxBytes) ≤
    4 * to_size maxBytes + String.length (truncationNote (String.length s) (String.length s `min` to_size maxBytes)).
Proof.
  unfold renderText. set (shown := _ `min` _). destruct (escape_spec (str_take shown s)) as [H1 H2].
  rewrite str_all_app, H1, note_visible, str_length_app. rewrite str_length_take in H2. split; [done|lia].
Qed.

Lemma note_length n shown : (Z.of_nat n < 2 ^ 63)%Z → String.length (truncationNote n shown) ≤ 34.
Proof.
  intros Hn. unfold truncationNote. case_decide; [simpl; lia|]. rewrite !str_length_app.
  pose proof (to_string_length (Z.of_nat (n - shown)) 18) as H1.
  assert (0 ≤ Z.of_nat (n - shown) < 10 ^ Z.of_nat 19)%Z as H2 by (change (10 ^ Z.of_nat 19)%Z with 10000000000000000000%Z; lia).
  specialize (H1 H2). simpl String.length at 1 2 3 5. simpl. lia.
Qed.
End render.

(** ** Properties *)

(** Whatever bytes a message carries and whatever the printer makes of them, what is
    printed of its payload is on one line and free of control characters, so it can
    neither break the columns nor reach the terminal as an escape sequence, and its
    length is bounded by the byte budget: at most four characters per byte, sixteen
    when a decoded message is shown, and a short note. *)
Theorem render_safe print_message payload format maxBytes :
  (1 ≤ maxBytes < 2 ^ 31)%Z → (Z.of_nat (String.length payload) < 2 ^ 63)%Z →
  let out := renderPayload print_message payload format maxBytes in
  str_all visible out = true ∧ String.length out ≤ 16 * Z.to_nat maxBytes + 34.
Proof.
  intros Hm Hp. assert (to_size maxBytes = Z.to_nat maxBytes) as Es.
  { unfold to_size, wrap. by rewrite Z.mod_small by lia. }
  pose proof (toHex_spec payload maxBytes) as [X1 X2]. pose proof (renderText_spec payload maxBytes) as [T1 T2].
  rewrite Es in *. pose proof (note_length (String.length payload) (String.length payload `min` Z.to_nat maxBytes) Hp).
  unfold renderPayload. case_decide; [split; [done|simpl; lia]|]. case_decide; [split; [done|lia]|].
  case_decide; [|split; [done|lia]]. case_decide.
  - set (shown := _ `min` _). set (decoded := renderPackedAny print_message payload) in *.
    destruct (escape_spec (str_take shown decoded)) as [E1 E2]. rewrite str_all_app, E1, str_length_app.
    assert (shown ≤ 4 * Z.to_nat maxBytes) as Hs.
    { unfold shown. rewrite Es. unfold wrap, DECODED_WIDTH_FACTOR. rewrite Z.mod_small by lia. lia. }
    rewrite str_length_take in E2. case_decide; simpl; (split; [done|lia]).
  - destruct (negb _); split; try done; lia.
Qed.

Lemma render_safe_witness :
  let out := renderPayload (λ _ _, None) ("a" +:+ String (chr 27) "[2J") Text 64 in
  out = "a\x1b[2J"%string ∧ str_all visible out = true.
Proof.
  split; [vm_compute; reflexivity|].
  apply (render_safe (λ _ _, None) ("a" +:+ String (chr 27) "[2J") Text 64); [lia|vm_compute; reflexivity].
Defined.
