(* ===== verification/HexDump.v ===== *)
(** * The inspector's byte views

    Models [inspector/hexutils.h], the dump of a payload in offset, hexadecimal and text
    columns, and [formatBytesValue] of [inspector/protoutils.h].  The stream's [std::hex]
    is sticky and [std::setw] is not, so every number of a dump is hexadecimal and only the
    value that follows a [setw] is filled up. *)

From Stdlib Require Import ZArith Lia.
From S2P Require Import Prelude.
From S2P Require Import PayloadFormat.

(** ** Hexadecimal numbers *)

Fixpoint hex_go (fuel : nat) (n : Z) (acc : string) : string :=
  match fuel with
  | O => acc
  | S fuel =>
      let acc := String (HEX_DIGITS (n mod 16)) acc in
      if decide (n < 16)%Z then acc else hex_go fuel (n / 16)%Z acc
  end.

(** [std::hex << n]. *)
Definition put_hex (n : Z) : string := hex_go (S (Z.to_nat (Z.log2 n))) n EmptyString.

(** ** generateHexDump *)

(** Column 2, one of sixteen cells. *)
Definition hex_cell (rawData : string) (i j : nat) : string :=
  (match char_at rawData (i + j) with
   | Some c => setw zero_char 2 (put_hex (byte_of c)) +:+ " "
   | None => "   "
   end) +:+ (if decide (j = 7) then " " else EmptyString).

(** Column 3: a [char] above 127 is negative or large, a dot either way. *)
Definition ascii_cell (rawData : string) (i j : nat) : string :=
  match char_at rawData (i + j) with
  | Some c => String (if decide (32 ≤ byte_of c ≤ 126)%Z then c else chr 46) EmptyString
  | None => EmptyString
  end.

(** [for (j = first; j < first + count; ++j)]. *)
Fixpoint cells (cell : nat → string) (first count : nat) : string :=
  match count with O => EmptyString | S count => cell first +:+ cells cell (S first) count end.

Definition dump_line (rawData : string) (i : nat) : string :=
  setw zero_char 4 (put_hex (Z.of_nat i)) +:+ "  " +:+ cells (hex_cell rawData i) 0 16 +:+ "  |" +:+
  cells (ascii_cell rawData i) 0 16 +:+ "|" +:+ newline.

(** The loop over the lines takes at most one turn for a byte. *)
Fixpoint dump_lines (fuel : nat) (rawData : string) (i : nat) : string :=
  match fuel with
  | O => EmptyString
  | S fuel =>
      if decide (i < String.length rawData) then dump_line rawData i +:+ dump_lines fuel rawData (i + 16) else EmptyString
  end.

Definition generateHexDump (rawData : string) : string := dump_lines (String.length rawData) rawData 0.

(** ** formatBytesValue *)

Fixpoint spaced_hex (i : nat) (bytes : string) : string :=
  match bytes with
  | EmptyString => EmptyString
  | String c bytes =>
      (if decide (0 < i) then " " else EmptyString) +:+
      String (HEX_DIGITS (Z.shiftr (byte_of c) 4)) (String (HEX_DIGITS (Z.land (byte_of c) 0xf)) EmptyString) +:+
      spaced_hex (S i) bytes
  end.

Definition formatBytesValue (bytes : string) : string :=
  let shown := String.length bytes `min` 64 in
  spaced_hex 0 (str_take shown bytes) +:+
  if decide (shown < String.length bytes)
  then " " +:+ ellipsis +:+ " (+" +:+ to_string (Z.of_nat (String.length bytes - shown)) +:+ " bytes)"
  else EmptyString.

(** ** Reading a dump back *)

(** The value of a hexadecimal digit. *)
Definition hex_value (c : Ascii.ascii) : option Z :=
  let b := byte_of c in
  if decide (48 ≤ b ≤ 57)%Z then Some (b - 48)%Z else if decide (97 ≤ b ≤ 102)%Z then Some (b - 87)%Z else None.

(** A cell holds a byte when it starts with two digits. *)
Definition read_cell (s : string) : string :=
  match s with
  | String a (String b _) =>
      match hex_value a, hex_value b with
      | Some x, Some y => String (chr (16 * x + y)) EmptyString
      | _, _ => EmptyString
      end
  | _ => EmptyString
  end.

(** The cells have three characters, the eighth one more. *)
Fixpoint read_cells (j count : nat) (s : string) : string :=
  match count with
  | O => EmptyString
  | S count => read_cell s +:+ read_cells (S j) count (str_drop (if decide (j = 7) then 4 else 3) s)
  end.

(** What follows the first [c]. *)
Fixpoint after (c : Ascii.ascii) (s : string) : string :=
  match s with
  | EmptyString => EmptyString
  | String d s => if decide (d = c) then s else after c s
  end.

(** Line by line: behind the offset and its two spaces are the cells, and the line ends at
    the line break. *)
Fixpoint read_dump (fuel : nat) (dump : string) : string :=
  match fuel, dump with
  | S fuel, String _ _ => read_cells 0 16 (str_drop 1 (after space dump)) +:+ read_dump fuel (after (chr 10) dump)
  | _, _ => EmptyString
  end.

(** The bytes of a spaced list of them. *)
Fixpoint read_spaced (fuel : nat) (s : string) : string :=
  match fuel with O => EmptyString | S fuel => read_cell s +:+ read_spaced fuel (str_drop 3 s) end.

(** ** Lemmas *)

Lemma hex_value_digit n : (0 ≤ n < 16)%Z → hex_value (HEX_DIGITS n) = Some n.
Proof.
  intros Hn. unfold hex_value, HEX_DIGITS. destruct (decide (n < 10)%Z); rewrite byte_of_chr_small by lia.
  - rewrite decide_True by lia. f_equal. lia.
  - rewrite decide_False, decide_True by lia. f_equal. lia.
Qed.

Lemma digit_bytes n : (0 ≤ n < 16)%Z → (48 ≤ byte_of (HEX_DIGITS n) ≤ 102)%Z.
Proof. intros Hn. unfold HEX_DIGITS. case_dec; rewrite byte_of_chr_small by lia; lia. Qed.

(** Two digits for a byte. *)
Lemma put_hex_byte b :
  (0 ≤ b < 256)%Z →
  setw zero_char 2 (put_hex b) = String (HEX_DIGITS (b / 16)) (String (HEX_DIGITS (b mod 16)) EmptyString).
Proof.
  intros Hb. set (ok b := bool_decide (setw zero_char 2 (put_hex b) =
    String (HEX_DIGITS (b / 16)) (String (HEX_DIGITS (b mod 16)) EmptyString))).
  assert (forallb ok (Z.of_nat <$> seq 0 256) = true) as H by (vm_compute; reflexivity).
  rewrite forallb_forall in H. specialize (H b).
  assert (ok b = true) as Hok%bool_decide_eq_true; [|exact Hok]. apply H. apply list_elem_of_In, list_elem_of_fmap.
  exists (Z.to_nat b). split; [lia|]. apply elem_of_seq. lia.
Qed.

Lemma nibble_split c : chr (16 * (byte_of c / 16) + byte_of c mod 16) = c.
Proof. rewrite <-Z.div_mod by lia. apply chr_byte_of. Qed.

Lemma byte_nibbles c : (0 ≤ byte_of c / 16 < 16)%Z ∧ (0 ≤ byte_of c mod 16 < 16)%Z.
Proof.
  pose proof (byte_of_range c). split; [|apply Z.mod_pos_bound; lia].
  split; [apply Z.div_pos; lia|apply Z.div_lt_upper_bound; lia].
Qed.

Lemma read_cell_digits c rest :
  read_cell (String (HEX_DIGITS (byte_of c / 16)) (String (HEX_DIGITS (byte_of c mod 16)) rest)) = String c EmptyString.
Proof.
  destruct (byte_nibbles c) as [H1 H2]. unfold read_cell. rewrite !hex_value_digit by done. by rewrite nibble_split.
Qed.

(** No hexadecimal number has a character below the digit zero or above the letter f. *)
Definition hex_char (c : Ascii.ascii) : bool := bool_decide (48 ≤ byte_of c ≤ 102)%Z.

Lemma hex_go_chars fuel n acc : (0 ≤ n)%Z → str_all hex_char acc = true → str_all hex_char (hex_go fuel n acc) = true.
Proof.
  revert n acc. induction fuel as [|fuel IH]; intros n acc Hn Ha; [done|]. cbn [hex_go].
  assert (str_all hex_char (String (HEX_DIGITS (n mod 16)) acc) = true) as Hd.
  { cbn [str_all]. rewrite Ha, andb_true_r. apply bool_decide_eq_true, digit_bytes, Z.mod_pos_bound. lia. }
  case_dec; [done|]. apply IH; [apply Z.div_pos; lia|done].
Qed.

Lemma fill_chars f c n : f c = true → str_all f (fill c n) = true.
Proof. intros H. induction n as [|n IH]; [done|]. cbn. by rewrite H, IH. Qed.

Lemma offset_chars i : str_all hex_char (setw zero_char 4 (put_hex (Z.of_nat i))) = true.
Proof. unfold setw. rewrite str_all_app, fill_chars by done. apply hex_go_chars; [lia|done]. Qed.

Lemma after_app c s t : lacks c s = true → after c (s +:+ String c t) = t.
Proof.
  induction s as [|d s IH]; [intros _; rewrite str_app_empty; cbn [after]; case_dec; done|]. intros [Hd Hs]%lacks_cons. rewrite str_app_cons. cbn [after].
  rewrite decide_False by done. by apply IH.
Qed.

Lemma lacks_all f c s : f c = false → str_all f s = true → lacks c s = true.
Proof.
  intros Hf. induction s as [|d s IH]; [done|]. cbn [str_all]. intros [Hd Hs]%andb_true_iff. apply lacks_cons.
  split; [intros ->; congruence|by apply IH].
Qed.

(** Everything of a line before its break is printable. *)
Definition printable (c : Ascii.ascii) : bool := bool_decide (32 ≤ byte_of c ≤ 126)%Z.

Lemma hex_char_printable s : str_all hex_char s = true → str_all printable s = true.
Proof. apply str_all_impl. intros c [H1 H2]%bool_decide_eq_true. apply bool_decide_eq_true. lia. Qed.

Lemma hex_cell_printable s i j : str_all printable (hex_cell s i j) = true.
Proof.
  unfold hex_cell. rewrite str_all_app. apply andb_true_iff. split; [|by case_dec].
  destruct (char_at s (i + j)) as [c|]; [|done]. rewrite str_all_app. apply andb_true_iff. split; [|done].
  apply hex_char_printable. rewrite put_hex_byte by apply byte_of_range. destruct (byte_nibbles c) as [H1 H2].
  cbn [str_all]. rewrite andb_true_r. apply andb_true_iff. split; by apply bool_decide_eq_true, digit_bytes.
Qed.

Lemma ascii_cell_printable s i j : str_all printable (ascii_cell s i j) = true.
Proof.
  unfold ascii_cell. destruct (char_at s (i + j)) as [c|]; [|done]. cbn [str_all]. rewrite andb_true_r.
  case_dec; [by apply bool_decide_eq_true|done].
Qed.

Lemma cells_all f cell first count :
  (∀ j, str_all f (cell j) = true) → str_all f (cells cell first count) = true.
Proof. intros H. revert first. induction count as [|count IH]; intros first; [done|]. cbn. by rewrite str_all_app, H, IH. Qed.

(** *** Cells *)

Lemma hex_cell_shape s i j rest :
  read_cell (hex_cell s i j +:+ rest) = (match char_at s (i + j) with Some c => String c EmptyString | None => EmptyString end) ∧
  str_drop (if decide (j = 7) then 4 else 3) (hex_cell s i j +:+ rest) = rest.
Proof.
  unfold hex_cell. destruct (char_at s (i + j)) as [c|].
  - rewrite put_hex_byte by apply byte_of_range. rewrite !str_app_assoc, !str_app_cons, str_app_empty, read_cell_digits. split; [done|]. by case_dec.
  - by case_dec.
Qed.

Lemma char_at_beyond s i : String.length s ≤ i → char_at s i = None.
Proof. revert i. induction s as [|c s IH]; intros [|i] H; cbn in *; [done..|lia|]. apply IH. lia. Qed.

Lemma read_cells_chunk s i first count rest :
  read_cells first count (cells (hex_cell s i) first count +:+ rest) = substr s (i + first) count.
Proof.
  revert first. induction count as [|count IH]; intros first; [done|]. cbn [read_cells cells]. rewrite str_app_assoc.
  destruct (hex_cell_shape s i first (cells (hex_cell s i) (S first) count +:+ rest)) as [-> ->].
  rewrite IH. replace (i + S first) with (S (i + first)) by lia.
  destruct (char_at s (i + first)) as [c|] eqn:Ec; [by rewrite (substr_head _ _ _ c)|].
  assert (String.length s ≤ i + first) as Hl.
  { destruct (decide (String.length s ≤ i + first)) as [|Hn]; [done|]. destruct (char_at_lt s (i + first)); [lia|congruence]. }
  unfold substr. rewrite !(str_drop_all _ s) by lia. by destruct count.
Qed.

(** *** Lines *)

Lemma dump_line_read s i rest :
  let dump := dump_line s i +:+ rest in
  read_cells 0 16 (str_drop 1 (after space dump)) = substr s i 16 ∧ after (chr 10) dump = rest ∧ dump ≠ EmptyString.
Proof.
  cbv zeta. unfold dump_line. set (off := setw zero_char 4 _). set (hex := cells (hex_cell s i) 0 16).
  set (text := cells (ascii_cell s i) 0 16).
  assert (str_all printable off = true) as Hoff by (apply hex_char_printable, offset_chars).
  assert (str_all printable hex = true) as Hhex by (apply cells_all, hex_cell_printable).
  assert (str_all printable text = true) as Htext by (apply cells_all, ascii_cell_printable).
  split_and!.
  - rewrite !str_app_assoc. set (tail := hex +:+ _). change ("  " +:+ tail) with (String space (String space tail)).
    rewrite after_app by (eapply lacks_all; [|apply offset_chars]; done).
    cbn [str_drop]. unfold tail, hex. by rewrite read_cells_chunk, Nat.add_0_r.
  - transitivity (after (chr 10) ((off +:+ "  " +:+ hex +:+ "  |" +:+ text +:+ "|") +:+ String (chr 10) rest)).
    + by rewrite !str_app_assoc.
    + apply after_app. eapply (lacks_all printable); [done|]. by rewrite !str_all_app, Hoff, Hhex, Htext.
  - intros E. apply (f_equal String.length) in E. rewrite !str_length_app in E. cbn in E. lia.
Qed.

Lemma substr_chunk s i n : substr s i n +:+ str_drop (i + n) s = str_drop i s.
Proof. unfold substr. rewrite <-str_drop_drop. apply str_take_drop. Qed.

Lemma read_dump_lines fuel s i :
  String.length s - i ≤ fuel → read_dump fuel (dump_lines fuel s i) = str_drop i s.
Proof.
  revert i. induction fuel as [|fuel IH]; intros i Hf; [cbn; by rewrite str_drop_all by lia|].
  cbn [dump_lines]. case_dec as Hi; [|by rewrite str_drop_all by lia].
  destruct (dump_line_read s i (dump_lines fuel s (i + 16))) as (Hc & Ha & Hne).
  destruct (dump_line s i +:+ dump_lines fuel s (i + 16)) as [|c rest] eqn:E; [done|]. cbn [read_dump].
  rewrite Hc, Ha, IH by lia. apply substr_chunk.
Qed.

Lemma read_spaced_hex i s rest :
  read_spaced (String.length s) (if decide (0 < i) then str_drop 1 (spaced_hex i s +:+ rest) else spaced_hex i s +:+ rest) = s.
Proof.
  revert i. induction s as [|c s IH]; intros i; [done|].
  assert (Z.shiftr (byte_of c) 4 = byte_of c / 16)%Z as E1 by (rewrite Z.shiftr_div_pow2 by lia; done).
  assert (Z.land (byte_of c) 0xf = byte_of c mod 16)%Z as E2 by (change 0xf%Z with (Z.ones 4); by rewrite Z.land_ones by lia).
  specialize (IH (S i)). rewrite decide_True in IH by lia.
  cbn [spaced_hex String.length read_spaced]. rewrite E1, E2. rewrite !str_app_assoc.
  case_dec; rewrite ?str_app_empty, !str_app_cons, ?str_app_empty; cbn [str_drop]; rewrite read_cell_digits, str_app_cons, str_app_empty;
    f_equal; exact IH.
Qed.

(** ** Properties *)

(** A dump shows the payload exactly.  Whatever the bytes, reading the hexadecimal column
    of the dump back gives all of them in order - no line is dropped, none repeated, and the
    text column is never taken for hexadecimal - and the dump consists of printable
    characters and line breaks; the spaced form of a bytes field shows its first sixty-four
    bytes in the same way. *)
Theorem hexdump_roundtrip (rawData : string) :
  read_dump (String.length rawData) (generateHexDump rawData) = rawData ∧
  str_all (λ c, printable c || bool_decide (c = chr 10)) (generateHexDump rawData) = true ∧
  read_spaced (String.length rawData `min` 64) (formatBytesValue rawData) = str_take 64 rawData.
Proof.
  split_and!.
  - unfold generateHexDump. rewrite read_dump_lines by lia. done.
  - unfold generateHexDump. generalize (String.length rawData) 0. intros fuel. induction fuel as [|fuel IH]; intros i; [done|].
    cbn [dump_lines]. case_dec; [|done]. rewrite str_all_app, IH, andb_true_r. unfold dump_line. rewrite !str_all_app.
    set (f := λ c, _). assert (∀ s, str_all printable s = true → str_all f s = true) as Hf.
    { intros s. apply str_all_impl. intros c Hc. unfold f. by rewrite Hc. }
    rewrite !andb_true_iff. split_and!; try done; apply Hf.
    + apply hex_char_printable, offset_chars.
    + apply cells_all, hex_cell_printable.
    + apply cells_all, ascii_cell_printable.
  - unfold formatBytesValue. set (shown := String.length rawData `min` 64). set (note := if decide _ then _ else _).
    pose proof (read_spaced_hex 0 (str_take shown rawData) note) as H. rewrite decide_False in H by lia.
    rewrite str_length_take in H. replace (shown `min` String.length rawData) with shown in H by lia. rewrite H.
    unfold shown. destruct (decide (64 ≤ String.length rawData)); [by rewrite Nat.min_r by lia|].
    rewrite Nat.min_l by lia. by rewrite !str_take_all by lia.
Qed.
