(* ===== verification/Options.v ===== *)
(** * Command-line options

    Models [cli/options.h] and [cli/options.cpp]: the arguments of the command-line
    client, parsed into [Options] or refused with a reason.  The floating-point numbers
    of [--speed] are an argument of the model, with [std::stod] and the test for a
    negative value; everything else is the code's.  Environment variables are arguments
    of the functions that read them. *)

From Stdlib Require Import ZArith Lia.
From S2P Require Import Prelude.
From S2P Require Import MessageKeys.
From S2P Require Import Config.
From S2P Require Import PayloadFormat.

Inductive Command := NoCommand | Publish | Subscribe | Request | Stats | Tap | Record_ | Replay.

#[export] Instance Command_eq_dec : EqDecision Command.
Proof. solve_decision. Defined.

Record CommandSpec := mkSpec { cs_name : string; cs_command : Command; cs_minArgs : nat; cs_maxArgs : option nat }.

(** [None] is [UNLIMITED_ARGS]. *)
Definition COMMANDS : list CommandSpec :=
  [mkSpec "pub" Publish 1 (Some 2); mkSpec "publish" Publish 1 (Some 2);
   mkSpec "sub" Subscribe 1 None; mkSpec "subscribe" Subscribe 1 None;
   mkSpec "req" Request 1 (Some 2); mkSpec "request" Request 1 (Some 2);
   mkSpec "stats" Stats 0 (Some 0); mkSpec "tap" Tap 0 (Some 1);
   mkSpec "record" Record_ 1 (Some 2); mkSpec "replay" Replay 1 (Some 1)].

Fixpoint find_spec (name : string) (specs : list CommandSpec) : option CommandSpec :=
  match specs with
  | [] => None
  | spec :: specs => if decide (name = cs_name spec) then Some spec else find_spec name specs
  end.

Definition findCommand (name : string) : option CommandSpec := find_spec name COMMANDS.

Definition DEFAULT_ADDRESS : string := "tcp://127.0.0.1:5555".
Definition DEFAULT_TAP_ENDPOINT : string := "ipc:///tmp/broker_inspector.sock".

(** Why the arguments are refused. *)
Inductive OptionError :=
  | NeedsValue (option : string)
  | AtLeast (option : string) (minValue : Z)
  | NotANumber (option text : string)
  | NegativeSpeed
  | BadFormat (text : string)
  | BadOrigin (text : string)
  | UnknownOption (arg : string)
  | UnknownCommand (arg : string)
  | MissingCommand
  | TooFewArgs (command : Command)
  | TooManyArgs (command : Command).

Definition parseFormat (text : string) : OptionError + PayloadFormat :=
  if decide (text = "auto"%string) then inr Auto
  else if decide (text = "text"%string) then inr Text
  else if decide (text = "hex"%string) then inr Hex
  else if decide (text = "raw"%string) then inr Raw
  else inl (BadFormat text).

Definition parseOrigin (text : string) : OptionError + Origin :=
  if decide (text = "any"%string) then inr Origins.Any
  else if decide (text = "local"%string) then inr Origins.Local
  else if decide (text = "mesh"%string) then inr Origins.Mesh
  else inl (BadOrigin text).

(** [arg.size() > 1 && arg[0] == '-']. *)
Definition isOption (arg : string) : bool :=
  match arg with String c (String _ _) => bool_decide (byte_of c = 45%Z) | _ => false end.

(** What follows an option. *)
Definition takeValue (option : string) (rest : list string) : OptionError + string * list string :=
  match rest with
  | [] => inl (NeedsValue option)
  | value :: rest => inr (value, rest)
  end.

Definition takeInt (option : string) (minValue : Z) (rest : list string) : OptionError + Z * list string :=
  match takeValue option rest with
  | inl e => inl e
  | inr (text, rest) =>
      match stoi text with
      | None => inl (NotANumber option text)
      | Some value => if decide (value < minValue)%Z then inl (AtLeast option minValue) else inr (value, rest)
      end
  end.

(** ** The usage text *)

Definition quote : string := String (chr 34) EmptyString.

Definition usage_lines : list string :=
  ["wisp-cli - command-line client for a Wisp broker";
   EmptyString;
   "Usage:";
   "  wisp-cli pub <topic> [data]   publish a message; reads stdin if data is omitted or " +:+ quote +:+ "-" +:+ quote +:+ EmptyString;
   "  wisp-cli sub <topic>...       print messages arriving on those topics (" +:+ quote +:+ "*" +:+ quote +:+ " = every topic)";
   "  wisp-cli req <topic> [data]   send a request, print the reply, exit 1 if none arrives";
   "  wisp-cli stats                print broker statistics (one report, then exit)";
   "  wisp-cli tap [endpoint]       print every message a broker processes, control traffic included";
   "  wisp-cli record <file> [endpoint]";
   "                                capture everything a broker processes to <file>";
   "  wisp-cli replay <file>        publish a capture back to a broker, at its original pace";
   EmptyString;
   "Options:";
   "  -a, --address ADDR   broker endpoint (default tcp://127.0.0.1:5555, or $WISP_ADDRESS)";
   "      --id ID          client id to connect as (default wisp-cli-<pid>-<random>)";
   "  -f, --format FMT     payload rendering: auto, text, hex, raw (default auto)";
   "  -n, --count N        stop after N messages; 0 runs until interrupted";
   "                       (default 0 for sub and tap, 1 for stats)";
   "  -t, --timeout MS     connect and request timeout (default 5000)";
   "      --origin WHERE   sub: which messages to print - any, local (published on this";
   "                       broker), or mesh (carried in from a peer). Default any; a";
   "                       local subscription is not carried across peer links at all";
   "      --max-bytes N    payload bytes to render before truncating (default 64)";
   "  -v, --verbose        show the client library's own log output";
   "  -h, --help           this text";
   EmptyString;
   "Replay options:";
   "      --speed N        multiplier on the captured pacing (default 1.0); 0 sends unpaced";
   "      --include-control";
   "                       also replay the __KEY__ control traffic in the capture. Off by";
   "                       default because it is destructive: a captured __SET_CLUSTER__";
   "                       would move the broker to another mesh";
   "      --preserve-uuids keep the message ids the original broker stamped. Off by default:";
   "                       a broker discards ids it still remembers, so such a replay is";
   "                       dropped wholesale by the very broker that recorded the capture.";
   "                       For testing deduplication, not for reproducing traffic";
   EmptyString;
   "The tap endpoint defaults to $WISP_INSPECTOR_SOCK, else ipc:///tmp/broker_inspector.sock.";
   "A broker started with --inspector-port N can be tapped remotely: wisp-cli tap tcp://host:N";
   EmptyString;
   "Examples:";
   "  wisp-cli sub '*'                            watch everything flowing through a broker";
   "  wisp-cli pub telemetry '{" +:+ quote +:+ "temp" +:+ quote +:+ ":21}'         publish a JSON payload";
   "  cat frame.bin | wisp-cli pub camera/frame    publish binary data from stdin";
   "  wisp-cli req config/get name -t 1000         request/reply with a 1 s timeout";
   "  wisp-cli stats -n 0                          stream broker statistics every second";
   "  wisp-cli record incident.wisp -n 5000        capture 5000 messages for later replay";
   "  wisp-cli replay incident.wisp --speed 0      re-publish a capture as fast as it is taken"].

Definition usageText : string := foldr (λ line rest, line +:+ newline +:+ rest) EmptyString usage_lines.

Section options.
Context (D : Type) (default_speed : D) (stod : string → option D) (is_negative : D → bool).

Record Options := mkOptions {
  o_command : Command;
  o_args : list string;
  o_address : string;
  o_clientId : string;
  o_format : PayloadFormat;
  o_count : Z;
  o_countGiven : bool;
  o_timeoutMs : Z;
  o_origin : Origin;
  o_maxBytes : Z;
  o_verbose : bool;
  o_help : bool;
  o_speed : D;
  o_includeControl : bool;
  o_preserveUuids : bool
}.

Definition with_command (v : Command) (o : Options) : Options :=
  mkOptions v (o_args o) (o_address o) (o_clientId o) (o_format o) (o_count o) (o_countGiven o) (o_timeoutMs
    o) (o_origin o) (o_maxBytes o) (o_verbose o) (o_help o) (o_speed o) (o_includeControl o)
    (o_preserveUuids o).

Definition with_args (v : list string) (o : Options) : Options :=
  mkOptions (o_command o) v (o_address o) (o_clientId o) (o_format o) (o_count o) (o_countGiven o)
    (o_timeoutMs o) (o_origin o) (o_maxBytes o) (o_verbose o) (o_help o) (o_speed o) (o_includeControl o)
    (o_preserveUuids o).

Definition with_address (v : string) (o : Options) : Options :=
  mkOptions (o_command o) (o_args o) v (o_clientId o) (o_format o) (o_count o) (o_countGiven o) (o_timeoutMs
    o) (o_origin o) (o_maxBytes o) (o_verbose o) (o_help o) (o_speed o) (o_includeControl o)
    (o_preserveUuids o).

Definition with_clientId (v : string) (o : Options) : Options :=
  mkOptions (o_command o) (o_args o) (o_address o) v (o_format o) (o_count o) (o_countGiven o) (o_timeoutMs
    o) (o_origin o) (o_maxBytes o) (o_verbose o) (o_help o) (o_speed o) (o_includeControl o)
    (o_preserveUuids o).

Definition with_format (v : PayloadFormat) (o : Options) : Options :=
  mkOptions (o_command o) (o_args o) (o_address o) (o_clientId o) v (o_count o) (o_countGiven o)
    (o_timeoutMs o) (o_origin o) (o_maxBytes o) (o_verbose o) (o_help o) (o_speed o) (o_includeControl o)
    (o_preserveUuids o).

Definition with_count (v0 : Z) (v1 : bool) (o : Options) : Options :=
  mkOptions (o_command o) (o_args o) (o_address o) (o_clientId o) (o_format o) v0 v1 (o_timeoutMs o)
    (o_origin o) (o_maxBytes o) (o_verbose o) (o_help o) (o_speed o) (o_includeControl o) (o_preserveUuids
    o).

Definition with_timeoutMs (v : Z) (o : Options) : Options :=
  mkOptions (o_command o) (o_args o) (o_address o) (o_clientId o) (o_format o) (o_count o) (o_countGiven o)
    v (o_origin o) (o_maxBytes o) (o_verbose o) (o_help o) (o_speed o) (o_includeControl o) (o_preserveUuids
    o).

Definition with_origin (v : Origin) (o : Options) : Options :=
  mkOptions (o_command o) (o_args o) (o_address o) (o_clientId o) (o_format o) (o_count o) (o_countGiven o)
    (o_timeoutMs o) v (o_maxBytes o) (o_verbose o) (o_help o) (o_speed o) (o_includeControl o)
    (o_preserveUuids o).

Definition with_maxBytes (v : Z) (o : Options) : Options :=
  mkOptions (o_command o) (o_args o) (o_address o) (o_clientId o) (o_format o) (o_count o) (o_countGiven o)
    (o_timeoutMs o) (o_origin o) v (o_verbose o) (o_help o) (o_speed o) (o_includeControl o)
    (o_preserveUuids o).

Definition with_verbose (v : bool) (o : Options) : Options :=
  mkOptions (o_command o) (o_args o) (o_address o) (o_clientId o) (o_format o) (o_count o) (o_countGiven o)
    (o_timeoutMs o) (o_origin o) (o_maxBytes o) v (o_help o) (o_speed o) (o_includeControl o)
    (o_preserveUuids o).

Definition with_help (v : bool) (o : Options) : Options :=
  mkOptions (o_command o) (o_args o) (o_address o) (o_clientId o) (o_format o) (o_count o) (o_countGiven o)
    (o_timeoutMs o) (o_origin o) (o_maxBytes o) (o_verbose o) v (o_speed o) (o_includeControl o)
    (o_preserveUuids o).

Definition with_speed (v : D) (o : Options) : Options :=
  mkOptions (o_command o) (o_args o) (o_address o) (o_clientId o) (o_format o) (o_count o) (o_countGiven o)
    (o_timeoutMs o) (o_origin o) (o_maxBytes o) (o_verbose o) (o_help o) v (o_includeControl o)
    (o_preserveUuids o).

Definition with_includeControl (v : bool) (o : Options) : Options :=
  mkOptions (o_command o) (o_args o) (o_address o) (o_clientId o) (o_format o) (o_count o) (o_countGiven o)
    (o_timeoutMs o) (o_origin o) (o_maxBytes o) (o_verbose o) (o_help o) (o_speed o) v (o_preserveUuids o).

Definition with_preserveUuids (v : bool) (o : Options) : Options :=
  mkOptions (o_command o) (o_args o) (o_address o) (o_clientId o) (o_format o) (o_count o) (o_countGiven o)
    (o_timeoutMs o) (o_origin o) (o_maxBytes o) (o_verbose o) (o_help o) (o_speed o) (o_includeControl o) v.

Definition default_options : Options :=
  mkOptions NoCommand [] EmptyString EmptyString Auto 0 false 5000 Origins.Any 64 false false default_speed false false.

Definition parseSpeed (text : string) : OptionError + D :=
  match stod text with
  | None => inl (NotANumber "--speed" text)
  | Some value => if is_negative value then inl NegativeSpeed else inr value
  end.

(** A parsed value put into the options. *)
Definition with_value {A} (taken : OptionError + A * list string) (set : A → Options) : OptionError + Options * list string :=
  match taken with
  | inl e => inl e
  | inr (v, rest) => inr (set v, rest)
  end.

(** The same with a parser in between. *)
Definition parsed {A} (parse : string → OptionError + A) (taken : OptionError + string * list string)
    : OptionError + A * list string :=
  match taken with
  | inl e => inl e
  | inr (text, rest) => match parse text with inl e => inl e | inr v => inr (v, rest) end
  end.

Definition arg_is (arg : string) (names : list string) : bool := bool_decide (arg ∈ names).

(** One option, with what follows it on the command line. *)
Definition parse_option (arg : string) (rest : list string) (out : Options) : OptionError + Options * list string :=
  if arg_is arg ["-a"; "--address"] then with_value (takeValue arg rest) (λ v, with_address v out)
  else if arg_is arg ["--id"] then with_value (takeValue arg rest) (λ v, with_clientId v out)
  else if arg_is arg ["-f"; "--format"] then with_value (parsed parseFormat (takeValue arg rest)) (λ v, with_format v out)
  else if arg_is arg ["-n"; "--count"] then with_value (takeInt arg 0 rest) (λ v, with_count v true out)
  else if arg_is arg ["-t"; "--timeout"] then with_value (takeInt arg 1 rest) (λ v, with_timeoutMs v out)
  else if arg_is arg ["--origin"] then with_value (parsed parseOrigin (takeValue arg rest)) (λ v, with_origin v out)
  else if arg_is arg ["--max-bytes"] then with_value (takeInt arg 1 rest) (λ v, with_maxBytes v out)
  else if arg_is arg ["--speed"] then with_value (parsed parseSpeed (takeValue arg rest)) (λ v, with_speed v out)
  else if arg_is arg ["--include-control"] then inr (with_includeControl true out, rest)
  else if arg_is arg ["--preserve-uuids"] then inr (with_preserveUuids true out, rest)
  else inl (UnknownOption arg).

(** How the loop over the arguments ends: refused, asked for help, or at their end with
    the command found. *)
Inductive LoopEnd :=
  | LoopError (e : OptionError)
  | LoopHelp (out : Options)
  | LoopDone (out : Options) (spec : option CommandSpec)
  | LoopFuel.

Fixpoint parse_loop (fuel : nat) (args : list string) (spec : option CommandSpec) (out : Options) : LoopEnd :=
  match fuel with
  | O => LoopFuel
  | S fuel =>
      match args with
      | [] => LoopDone out spec
      | arg :: rest =>
          if arg_is arg ["-h"; "--help"] then LoopHelp (with_help true out)
          else if arg_is arg ["-v"; "--verbose"] then parse_loop fuel rest spec (with_verbose true out)
          else if isOption arg then
            match parse_option arg rest out with
            | inl e => LoopError e
            | inr (out, rest) => parse_loop fuel rest spec out
            end
          else if decide (o_command out = NoCommand) then
            match findCommand arg with
            | None => LoopError (UnknownCommand arg)
            | Some spec => parse_loop fuel rest (Some spec) (with_command (cs_command spec) out)
            end
          else parse_loop fuel rest spec (with_args (o_args out ++ [arg]) out)
      end
  end.

(** [wisp_address] is the environment variable.  A command found has its entry in
    [spec]; without one, [spec->minArgs] is not read. *)
Definition parseArguments (wisp_address : option string) (args : list string) (out : Options) : OptionError + Options :=
  match parse_loop (S (length args)) args None out with
  | LoopError e => inl e
  | LoopHelp out => inr out
  | LoopFuel => inl MissingCommand
  | LoopDone out None => inl MissingCommand
  | LoopDone out (Some spec) =>
      if decide (o_command out = NoCommand) then inl MissingCommand
      else if decide (length (o_args out) < cs_minArgs spec) then inl (TooFewArgs (o_command out))
      else if match cs_maxArgs spec with Some n => bool_decide (n < length (o_args out)) | None => false end
      then inl (TooManyArgs (o_command out))
      else if decide (o_address out = EmptyString)
      then inr (with_address (default DEFAULT_ADDRESS wisp_address) out)
      else inr out
  end.

(** ** Lemmas *)

Lemma parse_option_shorter arg rest out out' rest' :
  parse_option arg rest out = inr (out', rest') → length rest' ≤ length rest.
Proof.
  unfold parse_option, with_value, parsed, takeInt, takeValue. intros E.
  repeat (case_match; simplify_eq/=); lia.
Qed.

(** The fuel is enough: every turn takes at least one argument. *)
Lemma parse_loop_fuel fuel args spec out : length args < fuel → parse_loop fuel args spec out ≠ LoopFuel.
Proof.
  revert args spec out; induction fuel as [|fuel IH]; intros args spec out Hf; [lia|]. cbn [parse_loop].
  destruct args as [|arg rest]; [done|]. simpl in Hf.
  destruct (arg_is arg ["-h"; "--help"]); [done|]. destruct (arg_is arg ["-v"; "--verbose"]); [apply IH; lia|].
  destruct (isOption arg).
  - destruct (parse_option arg rest out) as [e|[out' rest']] eqn:E; [done|].
    apply parse_option_shorter in E. apply IH. lia.
  - case_decide; [destruct (findCommand arg); [apply IH; lia|done]|apply IH; lia].
Qed.

(** The values every accepted option leaves in range. *)
Definition values_ok (o : Options) : Prop :=
  (0 ≤ o_count o < 2 ^ 31 ∧ 1 ≤ o_timeoutMs o < 2 ^ 31 ∧ 1 ≤ o_maxBytes o < 2 ^ 31)%Z ∧
  named_scope (o_origin o) ∧ (is_negative (o_speed o) = true → o_speed o = default_speed).

Lemma stoi_range text v : stoi text = Some v → (-2147483648 ≤ v ≤ 2147483647)%Z.
Proof. unfold stoi. intros. repeat case_match; simplify_eq; done. Qed.

Lemma takeInt_range option minValue rest v rest' :
  takeInt option minValue rest = inr (v, rest') → (minValue ≤ v < 2 ^ 31)%Z.
Proof.
  unfold takeInt, takeValue. intros. repeat case_match; simplify_eq.
  match goal with H : stoi _ = Some _ |- _ => apply stoi_range in H end. lia.
Qed.

Lemma parse_option_ok arg rest out out' rest' :
  parse_option arg rest out = inr (out', rest') → values_ok out →
  values_ok out' ∧ o_command out' = o_command out ∧ o_args out' = o_args out ∧ o_help out' = o_help out.
Proof.
  intros E Hok. pose proof Hok as ((Hc & Ht & Hm) & Ho & Hs). unfold parse_option in E.
  repeat match type of E with
  | (if arg_is _ _ then _ else _) = _ => destruct (arg_is _ _)
  end; unfold with_value in E.
  - destruct (takeValue _ _) as [|[]]; simplify_eq. by split_and!.
  - destruct (takeValue _ _) as [|[]]; simplify_eq. by split_and!.
  - destruct (parsed _ _) as [|[]]; simplify_eq. by split_and!.
  - destruct (takeInt _ _ _) as [|[]] eqn:Et; simplify_eq. apply takeInt_range in Et. by split_and!.
  - destruct (takeInt _ _ _) as [|[]] eqn:Et; simplify_eq. apply takeInt_range in Et. by split_and!.
  - destruct (parsed _ _) as [|[v ?]] eqn:Ep; simplify_eq. split_and!; try done. split; [done|]. split; [|done]. simpl.
    unfold parsed, parseOrigin, takeValue in Ep. unfold named_scope. repeat case_match; simplify_eq; auto.
  - destruct (takeInt _ _ _) as [|[]] eqn:Et; simplify_eq. apply takeInt_range in Et. by split_and!.
  - destruct (parsed _ _) as [|[v ?]] eqn:Ep; simplify_eq. split_and!; try done. split; [done|]. split; [done|]. simpl.
    unfold parsed, parseSpeed, takeValue in Ep. repeat case_match; simplify_eq; congruence.
  - simplify_eq. by split_and!.
  - simplify_eq. by split_and!.
  - done.
Qed.

(** What the loop has found so far. *)
Definition loop_ok (spec : option CommandSpec) (o : Options) : Prop :=
  values_ok o ∧ o_help o = false ∧ Forall (λ a, isOption a = false) (o_args o) ∧
  match spec with
  | None => o_command o = NoCommand
  | Some spec => spec ∈ COMMANDS ∧ o_command o = cs_command spec
  end.

Lemma find_spec_elem name specs spec : find_spec name specs = Some spec → spec ∈ specs ∧ cs_name spec = name.
Proof.
  induction specs as [|s specs IH]; simpl; [done|]. case_decide; [|intros [? ?]%IH; split; [by right|done]].
  intros [= <-]. by split; [left|].
Qed.

Lemma parse_loop_ok fuel args spec out :
  loop_ok spec out →
  match parse_loop fuel args spec out with
  | LoopHelp o => o_help o = true
  | LoopDone o spec => loop_ok spec o
  | _ => True
  end.
Proof.
  revert args spec out; induction fuel as [|fuel IH]; intros args spec out H; [done|]. cbn [parse_loop].
  destruct args as [|arg rest]; [done|].
  destruct (arg_is arg ["-h"; "--help"]); [done|]. destruct (arg_is arg ["-v"; "--verbose"]); [by apply IH|].
  destruct H as (Hv & Hh & Ha & Hs). destruct (isOption arg) eqn:Eo.
  - destruct (parse_option arg rest out) as [e|[out' rest']] eqn:E; [done|].
    apply parse_option_ok in E as (Hv' & Hc & Ea & Hh'); [|done]. apply IH. unfold loop_ok. rewrite Hh', Ea, Hc. done.
  - case_decide as Hn.
    + destruct (findCommand arg) as [spec'|] eqn:Ef; [|done]. apply find_spec_elem in Ef as [Ef _]. by apply IH.
    + apply IH. split_and!; try done. apply Forall_app. by rewrite Forall_singleton.
Qed.

(** More fuel changes nothing. *)
Lemma parse_loop_more f1 f2 args spec out :
  length args < f1 → length args < f2 → parse_loop f1 args spec out = parse_loop f2 args spec out.
Proof.
  revert f2 args spec out; induction f1 as [|f1 IH]; intros [|f2] args spec out H1 H2; try lia. cbn [parse_loop].
  destruct args as [|arg rest]; [done|]. simpl in *.
  destruct (arg_is arg ["-h"; "--help"]); [done|]. destruct (arg_is arg ["-v"; "--verbose"]); [apply IH; lia|].
  destruct (isOption arg).
  - destruct (parse_option arg rest out) as [e|[out' rest']] eqn:E; [done|].
    apply parse_option_shorter in E. apply IH; lia.
  - case_decide; [destruct (findCommand arg); [apply IH; lia|done]|apply IH; lia].
Qed.

Lemma parse_loop_cons fuel arg rest spec out :
  parse_loop (S fuel) (arg :: rest) spec out =
    if arg_is arg ["-h"; "--help"] then LoopHelp (with_help true out)
    else if arg_is arg ["-v"; "--verbose"] then parse_loop fuel rest spec (with_verbose true out)
    else if isOption arg then
      match parse_option arg rest out with
      | inl e => LoopError e
      | inr (out, rest) => parse_loop fuel rest spec out
      end
    else if decide (o_command out = NoCommand) then
      match findCommand arg with
      | None => LoopError (UnknownCommand arg)
      | Some spec => parse_loop fuel rest (Some spec) (with_command (cs_command spec) out)
      end
    else parse_loop fuel rest spec (with_args (o_args out ++ [arg]) out).
Proof. reflexivity. Qed.

Definition parse_all (args : list string) : option CommandSpec → Options → LoopEnd := parse_loop (S (length args)) args.

Lemma parse_all_option arg rest spec out out' rest' :
  isOption arg = true → arg_is arg ["-h"; "--help"] = false → arg_is arg ["-v"; "--verbose"] = false →
  parse_option arg rest out = inr (out', rest') → parse_all (arg :: rest) spec out = parse_all rest' spec out'.
Proof.
  intros Ho Hh Hv E. unfold parse_all. cbn [length]. rewrite parse_loop_cons, Hh, Hv, Ho, E.
  apply parse_option_shorter in E. apply parse_loop_more; lia.
Qed.

(** Arguments of the command, none of them an option. *)
Lemma parse_all_args args spec out :
  o_command out ≠ NoCommand → Forall (λ a, isOption a = false) args →
  parse_all args spec out = LoopDone (with_args (o_args out ++ args) out) spec.
Proof.
  intros Hc Ha. revert out Hc. induction Ha as [|a args Hf _ IH]; intros out Hc; unfold parse_all; cbn [length].
  - cbn [parse_loop]. rewrite app_nil_r. by destruct out.
  - assert (∀ names, Forall (λ n, isOption n = true) names → arg_is a names = false) as Hne.
    { intros names Hn. unfold arg_is. apply bool_decide_eq_false. intros Hin.
      eapply Forall_forall in Hn; [|exact Hin]. congruence. }
    rewrite parse_loop_cons, !Hne by (repeat constructor). rewrite Hf, decide_False by done. fold (parse_all args). rewrite IH by done.
    simpl. by rewrite <-app_assoc.
Qed.

(** ** A command line for given options *)

Definition format_text (f : PayloadFormat) : string :=
  match f with Auto => "auto" | Text => "text" | Hex => "hex" | Raw => "raw" end.

Definition origin_text (scope : Origin) : string :=
  if decide (scope = Origins.Any) then "any" else if decide (scope = Origins.Local) then "local" else "mesh".

Definition flag (b : bool) (name : string) : list string := if b then [name] else [].

(** [speed] is a text [std::stod] reads as the speed. *)
Definition command_line (name speed : string) (o : Options) : list string :=
  ["-a"; o_address o; "--id"; o_clientId o; "-f"; format_text (o_format o); "-n"; to_string (o_count o);
   "-t"; to_string (o_timeoutMs o); "--origin"; origin_text (o_origin o); "--max-bytes"; to_string (o_maxBytes o);
   "--speed"; speed]%string ++
  flag (o_includeControl o) "--include-control" ++ flag (o_preserveUuids o) "--preserve-uuids" ++
  flag (o_verbose o) "-v" ++ name :: o_args o.

Lemma takeInt_to_string option minValue v rest :
  (0 ≤ v < 2 ^ 31)%Z → (minValue ≤ v)%Z → takeInt option minValue (to_string v :: rest) = inr (v, rest).
Proof.
  intros Hv Hm. unfold takeInt, takeValue.
  assert (stoi (to_string v) = Some v) as ->; [|by rewrite decide_False by lia].
  rewrite <-(str_app_nil_r (to_string v)), stoi_digits; rewrite ?to_string_value by lia; try done; try lia;
    [apply to_string_nonempty|apply to_string_digits; lia].
Qed.

(** Each option with its value. *)
Lemma option_address v rest out : parse_option "-a" (v :: rest) out = inr (with_address v out, rest).
Proof. reflexivity. Qed.

Lemma option_id v rest out : parse_option "--id" (v :: rest) out = inr (with_clientId v out, rest).
Proof. reflexivity. Qed.

Lemma option_format f rest out : parse_option "-f" (format_text f :: rest) out = inr (with_format f out, rest).
Proof. by destruct f. Qed.

Lemma option_origin scope rest out :
  named_scope scope → parse_option "--origin" (origin_text scope :: rest) out = inr (with_origin scope out, rest).
Proof. by intros [->|[->| ->]]. Qed.

Lemma option_count v rest out :
  (0 ≤ v < 2 ^ 31)%Z → parse_option "-n" (to_string v :: rest) out = inr (with_count v true out, rest).
Proof.
  intros Hv. change (parse_option "-n" ?r out) with (with_value (takeInt "-n" 0 r) (λ v, with_count v true out)).
  by rewrite takeInt_to_string by lia.
Qed.

Lemma option_timeout v rest out :
  (1 ≤ v < 2 ^ 31)%Z → parse_option "-t" (to_string v :: rest) out = inr (with_timeoutMs v out, rest).
Proof.
  intros Hv. change (parse_option "-t" ?r out) with (with_value (takeInt "-t" 1 r) (λ v, with_timeoutMs v out)).
  by rewrite takeInt_to_string by lia.
Qed.

Lemma option_maxBytes v rest out :
  (1 ≤ v < 2 ^ 31)%Z → parse_option "--max-bytes" (to_string v :: rest) out = inr (with_maxBytes v out, rest).
Proof.
  intros Hv. change (parse_option "--max-bytes" ?r out) with
    (with_value (takeInt "--max-bytes" 1 r) (λ v, with_maxBytes v out)).
  by rewrite takeInt_to_string by lia.
Qed.

Lemma option_speed text v rest out :
  stod text = Some v → is_negative v = false → parse_option "--speed" (text :: rest) out = inr (with_speed v out, rest).
Proof.
  intros Hs Hn. change (parse_option "--speed" ?r out) with
    (with_value (parsed parseSpeed (takeValue "--speed" r)) (λ v, with_speed v out)).
  simpl. unfold parseSpeed. by rewrite Hs, Hn.
Qed.

Lemma default_loop_ok : loop_ok None default_options.
Proof.
  split; [split; [simpl; lia|split; [by right; right|done]]|]. split; [done|]. split; [apply Forall_nil_2|done].
Qed.

Lemma parse_all_flag b name set rest spec out :
  isOption name = true → arg_is name ["-h"; "--help"] = false → arg_is name ["-v"; "--verbose"] = false →
  (∀ rest out, parse_option name rest out = inr (set out, rest)) →
  parse_all (flag b name ++ rest) spec out = parse_all rest spec (if b then set out else out).
Proof. intros Ho Hh Hv E. destruct b; [|done]. by apply parse_all_option. Qed.

Lemma parse_all_verbosity b rest spec out :
  parse_all (flag b "-v" ++ rest) spec out = parse_all rest spec (if b then with_verbose true out else out).
Proof. by destruct b. Qed.
End options.

(** ** Properties *)

(** Options written out as a record. *)
Ltac norm_options :=
  cbv [default_options with_command with_args with_address with_clientId with_format with_count with_timeoutMs
    with_origin with_maxBytes with_verbose with_help with_speed with_includeControl with_preserveUuids
    o_command o_args o_address o_clientId o_format o_count o_countGiven o_timeoutMs
    o_origin o_maxBytes o_verbose o_help o_speed o_includeControl o_preserveUuids].

Section properties.
Context {D : Type} (default_speed : D) (stod : string → option D) (is_negative : D → bool).

(** C37: what [parseArguments] accepts is fit to run.  Unless help was asked for, the
    command is one of the table with as many arguments as it takes, none of them an
    option; the count is not negative, the timeout and the byte budget are positive, all
    within an [int]; the origin is one of the three scopes; the speed was not negative;
    and the address is empty only if the environment says so. *)
Theorem options_sound env args o :
  parseArguments D stod is_negative env args (default_options D default_speed) = inr o →
  o_help D o = true ∨
  (∃ spec, spec ∈ COMMANDS ∧ cs_command spec = o_command D o ∧ cs_minArgs spec ≤ length (o_args D o) ∧
     ∀ n, cs_maxArgs spec = Some n → length (o_args D o) ≤ n) ∧
  Forall (λ a, isOption a = false) (o_args D o) ∧
  values_ok D default_speed is_negative o ∧ (o_address D o = EmptyString → env = Some EmptyString).
Proof.
  unfold parseArguments. intros E.
  pose proof (parse_loop_ok D default_speed stod is_negative (S (length args)) args None (default_options D default_speed)) as H.
  destruct (parse_loop D stod is_negative _ _ _ _) as [e|out|out [spec|]|]; simplify_eq.
  - left. apply H, default_loop_ok.
  - right. destruct H as (Hv & Hh & Ha & Hin & Hc); [apply default_loop_ok|].
    case_decide; [done|]. case_decide; [done|]. destruct (match cs_maxArgs spec with Some _ => _ | None => _ end) eqn:Em; [done|].
    assert (∀ n, cs_maxArgs spec = Some n → length (o_args D out) ≤ n) as Hmax.
    { intros n En. rewrite En in Em. apply bool_decide_eq_false in Em. lia. }
    case_decide; simplify_eq; (split_and!; [exists spec; split_and!; [done|done|simpl; lia|exact Hmax]|done|done|]).
    + simpl. destruct env as [env|]; simpl; [by intros ->|done].
    + done.
Qed.

(** Every set of options can be given on the command line: the command line written
    for it parses back to exactly those options. *)
Theorem options_roundtrip env name speed spec (o : Options D) :
  findCommand name = Some spec → o_command D o = cs_command spec →
  cs_minArgs spec ≤ length (o_args D o) → (∀ n, cs_maxArgs spec = Some n → length (o_args D o) ≤ n) →
  Forall (λ a, isOption a = false) (o_args D o) → o_address D o ≠ EmptyString →
  values_ok D default_speed is_negative o → o_countGiven D o = true → o_help D o = false →
  stod speed = Some (o_speed D o) → is_negative (o_speed D o) = false →
  parseArguments D stod is_negative env (command_line D name speed o) (default_options D default_speed) = inr o.
Proof.
  intros Hf Hc Hmin Hmax Ha Had ((Hco & Ht & Hm) & Hor & _) Hg Hh Hsp Hneg.
  pose proof (find_spec_elem _ _ _ Hf) as [Hin Hname].
  assert (isOption name = false ∧ arg_is name ["-h"; "--help"]%string = false ∧
    arg_is name ["-v"; "--verbose"]%string = false ∧ cs_command spec ≠ NoCommand) as (Hno & Hnh & Hnv & Hnc).
  { subst name. clear -Hin. revert spec Hin. apply Forall_forall. unfold COMMANDS.
    repeat (apply Forall_cons_2; [by vm_compute|]). apply Forall_nil_2. }
  assert (parse_all D stod is_negative (command_line D name speed o) None (default_options D default_speed) =
    LoopDone D o (Some spec)) as Hloop.
  { destruct o as [oc oa oad oid ofmt oco og ot oor om ov oh osp oi op]. simpl in *. subst oc og oh.
    unfold command_line. cbn [app o_address o_clientId o_format o_count o_timeoutMs o_origin o_maxBytes o_includeControl
      o_preserveUuids o_verbose o_args].
    do 2 (erewrite parse_all_option; [|reflexivity..]).
    erewrite parse_all_option; [|reflexivity..|apply option_format].
    erewrite parse_all_option; [|reflexivity..|by apply option_count].
    erewrite parse_all_option; [|reflexivity..|by apply option_timeout].
    erewrite parse_all_option; [|reflexivity..|by apply option_origin].
    erewrite parse_all_option; [|reflexivity..|by apply option_maxBytes].
    erewrite parse_all_option; [|reflexivity..|by apply option_speed].
    norm_options.
    rewrite (parse_all_flag _ _ _ _ "--include-control" (with_includeControl D true)) by done.
    rewrite (parse_all_flag _ _ _ _ "--preserve-uuids" (with_preserveUuids D true)) by done.
    rewrite parse_all_verbosity. unfold parse_all. cbn [length]. rewrite parse_loop_cons, Hnh, Hnv, Hno.
    rewrite decide_True, Hf by (by destruct oi, op, ov).
    etrans; [apply (parse_all_args D stod is_negative); [by destruct oi, op, ov|done]|].
    by destruct oi, op, ov. }
  revert Hloop. generalize (command_line D name speed o) as cl. intros cl Hloop.
  unfold parse_all in Hloop. unfold parseArguments. rewrite Hloop.
  rewrite decide_False by congruence. rewrite decide_False by lia.
  destruct (cs_maxArgs spec) as [n|] eqn:En; [rewrite bool_decide_false by (specialize (Hmax n eq_refl); lia)|];
    by rewrite decide_False by done.
Qed.
End properties.

(** The usage text keeps up with the parser: every option the parser knows is in it, and
    every command under one of its names. *)
Theorem usage_complete {D} (stod : string → option D) (is_negative : D → bool) arg rest (out : Options D) :
  (isOption arg = true → arg_is arg ["-h"; "--help"; "-v"; "--verbose"] = true ∨
     parse_option D stod is_negative arg rest out ≠ inl (UnknownOption arg) → str_contains arg usageText = true) ∧
  Forall (λ spec, ∃ name, (cs_command <$> findCommand name) = Some (cs_command spec) ∧
     str_contains ("wisp-cli " +:+ name +:+ " ") usageText = true) COMMANDS.
Proof.
  split.
  - intros _ H. assert (∀ names, arg_is arg names = true → forallb (λ n, str_contains n usageText) names = true →
      str_contains arg usageText = true) as Hin.
    { intros names Hn%bool_decide_eq_true Hall. rewrite forallb_forall in Hall. apply Hall. by apply list_elem_of_In. }
    destruct H as [H|H]; [apply (Hin _ H); vm_compute; reflexivity|]. unfold parse_option in H.
    repeat match type of H with
    | (if arg_is arg ?names then _ else _) ≠ _ =>
        destruct (arg_is arg names) eqn:E; [apply (Hin _ E); vm_compute; reflexivity|clear E]
    end. done.
  - repeat (apply Forall_cons_2; [|]); [..|apply Forall_nil_2];
      [exists "pub"%string|exists "pub"%string|exists "sub"%string|exists "sub"%string|exists "req"%string|exists "req"%string
      |exists "stats"%string|exists "tap"%string|exists "record"%string|exists "replay"%string]; split; vm_compute; reflexivity.
Qed.

(** ** Witnesses *)

(** Speeds in whole multiples. *)
Definition demo_stod (text : string) : option Z := stoi text.
Definition demo_negative (v : Z) : bool := bool_decide (v < 0)%Z.

Definition demo_options : Options Z :=
  mkOptions Z Subscribe ["telemetry"%string; "*"%string] "tcp://h:1" "me" Hex 3 true 250 Origins.Mesh 16 true false 2%Z
    false true.

Lemma options_sound_witness :
  Forall (λ a, isOption a = false) (o_args Z demo_options).
Proof.
  destruct (options_sound 1%Z demo_stod demo_negative None (command_line Z "sub" "2" demo_options) demo_options)
    as [H|(_ & H & _)]; [vm_compute; reflexivity|discriminate H|exact H].
Defined.

Lemma options_roundtrip_witness :
  parseArguments Z demo_stod demo_negative None (command_line Z "sub" "2" demo_options) (default_options Z 1%Z) =
  inr demo_options.
Proof.
  apply (options_roundtrip 1%Z demo_stod demo_negative None "sub" "2" (mkSpec "sub" Subscribe 1 None) demo_options);
    try done; try (simpl; lia).
  - repeat constructor.
  - split; [simpl; lia|]. split; [by right; left|done].
Defined.
