(* ===== verification/BrokerSession.v ===== *)
(** * The session of a command

    Models [cli/brokersession.h] and [cli/brokersession.cpp]: what the command-line client
    keeps of its broker session over any worker of the worker interface.  The waits of
    [receive] are left out: [receive_pass] is what it does between two of them, over the
    messages that have arrived by then. *)

From Stdlib Require Import ZArith Lia.
From S2P Require Import Prelude.
From S2P Require Import MessageKeys.
From S2P Require Import Config.
From S2P Require Import SafeQueue.
From S2P Require Import Wire.
From S2P Require Import Worker.
From S2P Require Import Registry.
From S2P Require Import ConnectionManagerInv.

Section session.
Context {W : Type} `{!WorkerInterface W}.

(** [bs_worker] is [None] for a null [m_pWorker]. *)
Record BrokerSession := mkSession {
  bs_config : ConnectionConfig;
  bs_inbound : SafeQueue Envelope;
  bs_worker : option W;
  bs_subscriptions : list (string * Origin);
  bs_open : bool
}.

Definition new_session : BrokerSession :=
  mkSession (default_config EmptyString EmptyString) (new_queue DefaultQueueSize) None [] false.

Definition with_worker (w : W) (s : BrokerSession) : BrokerSession :=
  mkSession (bs_config s) (bs_inbound s) (Some w) (bs_subscriptions s) (bs_open s).

Definition session_open (address clientId : string) (s : BrokerSession) : BrokerSession :=
  let config := mkConfig address clientId (cfg_keepAliveTime (bs_config s)) (cfg_keepAliveTimeout (bs_config s)) in
  mkSession config (bs_inbound s) (Some (worker_start (new_worker config))) (bs_subscriptions s) true.

(** A call of the worker, [false] on a session that is not open. *)
Definition on_worker (f : W → bool * W) (s : BrokerSession) : bool * BrokerSession :=
  match bs_open s, bs_worker s with
  | true, Some w => let '(ok, w) := f w in (ok, with_worker w s)
  | _, _ => (false, s)
  end.

Definition sendControl (key topic : string) (s : BrokerSession) : bool * BrokerSession :=
  on_worker (writeControlMessage (makeControl key (cfg_clientId (bs_config s)) topic)) s.

Definition subscribe_message (topic : string) (scope : Origin) (s : BrokerSession) : Envelope :=
  mkEnvelope (makeControlHeader Keys.SUBSCRIBE (cfg_clientId (bs_config s)) topic) (encodeSubscribeScope scope).

(** The entry of the topic changed, or a new one at the end. *)
Fixpoint note_subscription (topic : string) (scope : Origin) (subs : list (string * Origin)) : list (string * Origin) :=
  match subs with
  | [] => [(topic, scope)]
  | e :: subs => if decide (e.1 = topic) then (e.1, scope) :: subs else e :: note_subscription topic scope subs
  end.

Definition session_subscribe (topic : string) (scope : Origin) (s : BrokerSession) : bool * BrokerSession :=
  match on_worker (writeControlMessage (subscribe_message topic scope s)) s with
  | (true, s) =>
      (true, mkSession (bs_config s) (bs_inbound s) (bs_worker s) (note_subscription topic scope (bs_subscriptions s))
               (bs_open s))
  | failed => failed
  end.

Definition publishEnvelope (envelope : Envelope) : BrokerSession → bool * BrokerSession := on_worker (writeMessage envelope).

Definition publish (topic payload replyTopic : string) (s : BrokerSession) : bool * BrokerSession :=
  publishEnvelope
    (mkEnvelope (mkHeader topic (cfg_clientId (bs_config s)) topic EmptyString EmptyString replyTopic) payload) s.

(** The answer to a [__RESET__]. *)
Definition recover (s : BrokerSession) : BrokerSession :=
  let s := (sendControl Keys.CONNECT EmptyString s).2 in
  foldl (λ s e, (on_worker (writeControlMessage (subscribe_message e.1 e.2 s)) s).2) s (bs_subscriptions s).

Definition with_queue (q : SafeQueue Envelope) (s : BrokerSession) : BrokerSession :=
  mkSession (bs_config s) q (bs_worker s) (bs_subscriptions s) (bs_open s).

(** The messages waiting, [fuel] at most: the first that is not a [__RESET__], or none. *)
Fixpoint receive_loop (fuel : nat) (s : BrokerSession) : option Envelope * BrokerSession :=
  match fuel with
  | O => (None, s)
  | S fuel =>
      match try_pop (bs_inbound s) with
      | (None, _) => (None, s)
      | (Some env, q) =>
          let s := with_queue q s in
          if decide (handler_key (env_header env) = Keys.RESET) then receive_loop fuel (recover s)
          else (Some env, s)
      end
  end.

Definition receive_pass (s : BrokerSession) : option Envelope * BrokerSession :=
  if bs_open s then receive_loop (S (length (m_queue (bs_inbound s)))) s else (None, s).

Definition session_close (s : BrokerSession) : BrokerSession :=
  if bs_open s then
    let s := (sendControl Keys.DISCONNECT EmptyString s).2 in
    mkSession (bs_config s) (bs_inbound s) None (bs_subscriptions s) false
  else s.

(** ** Lemmas *)

Context `{!WorkerLaws W}.

(** The subscriptions the broker holds after some control messages. *)
Definition subscriptions_of (s : BrokerSession) : gmap string Origin := list_to_map (bs_subscriptions s).

Definition session_ok (s : BrokerSession) : Prop :=
  NoDup (bs_subscriptions s).*1 ∧ Forall (λ e, named_scope e.2) (bs_subscriptions s).

Lemma note_subscription_keys topic scope subs :
  (note_subscription topic scope subs).*1 = if decide (topic ∈ subs.*1) then subs.*1 else subs.*1 ++ [topic].
Proof.
  induction subs as [|e subs IH]; cbn [note_subscription]; [done|].
  destruct (decide (e.1 = topic)) as [<-|E]; rewrite !fmap_cons.
  - by rewrite decide_True by (rewrite elem_of_cons; by left).
  - rewrite IH. destruct (decide (topic ∈ subs.*1)).
    + by rewrite decide_True by (by right).
    + by rewrite decide_False by (rewrite elem_of_cons; intros [?|?]; by subst).
Qed.

Lemma note_subscription_named topic scope subs :
  named_scope scope → Forall (λ e, named_scope e.2) subs →
  Forall (λ e, named_scope e.2) (note_subscription topic scope subs).
Proof.
  intros Hn Hs. induction Hs as [|e subs He Hs IH]; cbn [note_subscription]; [by apply Forall_cons_2; [|apply Forall_nil_2]|].
  case_decide; by apply Forall_cons_2.
Qed.

Lemma note_subscription_ok topic scope s ok s' :
  named_scope scope → session_subscribe topic scope s = (ok, s') → session_ok s → session_ok s'.
Proof.
  intros Hn E [H1 H2]. unfold session_subscribe, on_worker in E.
  destruct (bs_open s), (bs_worker s) as [w|]; simplify_eq; try done.
  destruct (writeControlMessage _ w) as [[] w']; simplify_eq; [|done]. split; simpl.
  - rewrite note_subscription_keys. case_decide; [done|]. apply NoDup_app. split_and!; [done| |apply NoDup_singleton].
    intros x Hx ->%list_elem_of_singleton. done.
  - by apply note_subscription_named.
Qed.

(** The control messages of a recovery, one worker call after the other. *)
Definition recovery (s : BrokerSession) : list Envelope :=
  makeControl Keys.CONNECT (cfg_clientId (bs_config s)) EmptyString ::
    ((λ e, subscribe_message e.1 e.2 s) <$> bs_subscriptions s).

Lemma recover_writes s w :
  bs_open s = true → bs_worker s = Some w →
  recover s = with_worker (write_controls (recovery s) w) s.
Proof.
  intros Ho Hw. unfold recover, sendControl, on_worker. rewrite Ho, Hw. cbn [write_controls recovery foldl].
  destruct (writeControlMessage _ w) as [ok w1]. simpl.
  unfold write_controls. rewrite foldl_fmap.
  assert (∀ l w1, foldl (λ s e, (match bs_open s, bs_worker s with
    | true, Some w => let '(ok, w) := writeControlMessage (subscribe_message e.1 e.2 s) w in (ok, with_worker w s)
    | _, _ => (false, s) end).2) (with_worker w1 s) l =
    with_worker (foldl (λ y x, (writeControlMessage (subscribe_message x.1 x.2 s) y).2) w1 l) s) as H; [|by rewrite H].
  clear w Hw w1 ok. induction l as [|e l IH]; intros w1; [done|]. simpl. rewrite Ho.
  change (subscribe_message e.1 e.2 (with_worker w1 s)) with (subscribe_message e.1 e.2 s).
  destruct (writeControlMessage (subscribe_message e.1 e.2 s) w1) as [ok w2]. simpl. apply IH.
Qed.

(** A pass over a [__RESET__] and what follows it. *)
Lemma receive_after_reset s w reset rest :
  bs_open s = true → bs_worker s = Some w → m_queue (bs_inbound s) = reset :: rest →
  handler_key (env_header reset) = Keys.RESET →
  Forall (λ env, handler_key (env_header env) ≠ Keys.RESET) rest →
  receive_pass s = (head rest, with_worker (write_controls (recovery s) w)
    (with_queue (mkQueue (tail rest) (m_stop (bs_inbound s)) (m_maxSize (bs_inbound s))) s)).
Proof.
  intros Ho Hw Hq Hk Hrest. unfold receive_pass. rewrite Ho, Hq. cbn [length].
  change (receive_loop (S ?f) s) with (let '(o, q) := try_pop (bs_inbound s) in
    match o with
    | None => (None, s)
    | Some env =>
        if decide (handler_key (env_header env) = Keys.RESET) then receive_loop f (recover (with_queue q s))
        else (Some env, with_queue q s)
    end).
  unfold try_pop. rewrite Hq, decide_True by done. rewrite (recover_writes _ w) by done.
  change (recovery (with_queue _ s)) with (recovery s).
  destruct rest as [|env rest']; [done|]. apply Forall_cons in Hrest as [He _]. simpl. by rewrite decide_False.
Qed.

Lemma apply_subscribes s subs l :
  Forall (λ e, named_scope e.2) l → NoDup l.*1 →
  foldl apply_control subs ((λ e, subscribe_message e.1 e.2 s) <$> l) = list_to_map l ∪ subs.
Proof.
  intros Hn. revert subs. induction Hn as [|e l He _ IH]; intros subs Hd.
  { change (subs = ∅ ∪ subs). by rewrite (left_id_L ∅ (∪)). }
  apply NoDup_cons in Hd as [Hnot Hd]. cbn [fmap list_fmap foldl]. fold (fmap (M := list) (λ e, subscribe_message e.1 e.2 s)).
  rewrite IH by done. unfold apply_control at 1. simpl. rewrite subscribeScope_roundtrip by done.
  destruct e as [t sc]. simpl. rewrite <-insert_union_r by (by apply not_elem_of_list_to_map_1).
  by rewrite insert_union_l.
Qed.
End session.

(** ** Properties *)


Definition demo_session : @BrokerSession DemoWorker :=
  (session_subscribe "b" Origins.Local (session_subscribe "a" Origins.Any (session_open "tcp://h:1" "cli" new_session)).2).2.

Definition demo_reset : Envelope := makeControl Keys.RESET "B" EmptyString.

