(* ===== verification/CliWorld.v ===== *)
(** * The world of a command

    A command of the command-line client waits for its broker, for the user and for the
    clock.  [Tick] is one look at all of these: what has happened since the last one, and
    what the call made at this moment answers.  A command takes the ticks of a script one
    after the other; it returns, is thrown out of, or is still waiting when the script ends.

    The first part is that world and the monad of the commands over it, with the rules for
    its loops; the second the waiting parts of [cli/brokersession.cpp] ([sync], [receive])
    and the flag of [cli/interrupt.h]. *)

From Stdlib Require Import ZArith Lia.
From S2P Require Import Prelude.
From S2P Require Import MessageKeys.
From S2P Require Import Config.
From S2P Require Import Logger.
From S2P Require Import SafeQueue.
From S2P Require Import Wire.
From S2P Require Import Worker.
From S2P Require Import Recording.
From S2P Require Import BrokerSession.

(** ** Looks at the world *)

(** Clocks in nanoseconds.  [t_arrived] is what the worker's thread has put into the
    session's queue since the last look; [t_synced] what a [sync] answers; [t_error] what a
    call throws, with whether it is EINTR; [t_readable] whether the tap has its next message
    yet and [t_monitor] its attach ([true]) and detach events; [t_taken] how many bytes the C
    library takes of a write.  [w_disk] is the files, by path. *)
Record Tick := mkTick {
  t_now : Z;
  t_wall : Z;
  t_interrupted : bool;
  t_arrived : list Envelope;
  t_synced : bool;
  t_error : option (bool * string);
  t_readable : bool;
  t_monitor : list (bool * string);
  t_taken : nat
}.

(** What a command did to its session, in order, with what the worker answered. *)
Inductive Call :=
  | COpen (address clientId : string)
  | CSubscribe (topic : string) (scope : Origin) (taken : bool)
  | CPublish (env : Envelope) (taken : bool)
  | CSync (answered : bool)
  | CRecover
  | CClose.

Section world.
Context {W : Type} `{!WorkerInterface W} {S : Type}.

Record World := mkWorld {
  w_script : list Tick;
  w_session : @BrokerSession W;
  w_calls : list Call;
  w_out : list string;
  w_err : list string;
  w_minLevel : Level;
  w_tap : S;
  w_writer : RecordWriter;
  w_disk : gmap string string
}.

Inductive Result (A : Type) :=
  | Ret (a : A) (w : World)
  | Waiting (w : World)
  | Thrown (what : string) (w : World).
Arguments Ret {A} _ _.
Arguments Waiting {A} _.
Arguments Thrown {A} _ _.

Definition Cmd (A : Type) : Type := World → Result A.

Definition ret {A} (a : A) : Cmd A := Ret a.

Definition bind {A B} (c : Cmd A) (f : A → Cmd B) : Cmd B := λ w,
  match c w with
  | Ret a w => f a w
  | Waiting w => Waiting w
  | Thrown what w => Thrown what w
  end.

Definition throw {A} (what : string) : Cmd A := Thrown what.

(** Still waiting: the script has nothing more to say. *)
Definition wait {A} : Cmd A := Waiting.

(** A body run until it answers [inr], [fuel] times at most. *)
Fixpoint loop {A B} (fuel : nat) (body : A → Cmd (A + B)) (a : A) : Cmd B :=
  match fuel with
  | O => wait
  | Datatypes.S fuel =>
      bind (body a) (λ r, match r with inl a => loop fuel body a | inr b => ret b end)
  end.

(** Every turn of a loop takes a tick, so one more turn than there are is never needed. *)
Definition while_ {A B} (body : A → Cmd (A + B)) (a : A) : Cmd B := λ w,
  loop (Datatypes.S (length (w_script w))) body a w.

Definition with_script (v : list Tick) (w : World) : World :=
  mkWorld v (w_session w) (w_calls w) (w_out w) (w_err w) (w_minLevel w) (w_tap w) (w_writer w) (w_disk w).

Definition with_session (v : @BrokerSession W) (w : World) : World :=
  mkWorld (w_script w) v (w_calls w) (w_out w) (w_err w) (w_minLevel w) (w_tap w) (w_writer w) (w_disk w).

Definition with_calls (v : list Call) (w : World) : World :=
  mkWorld (w_script w) (w_session w) v (w_out w) (w_err w) (w_minLevel w) (w_tap w) (w_writer w) (w_disk w).

Definition with_out (v : list string) (w : World) : World :=
  mkWorld (w_script w) (w_session w) (w_calls w) v (w_err w) (w_minLevel w) (w_tap w) (w_writer w) (w_disk w).

Definition with_err (v : list string) (w : World) : World :=
  mkWorld (w_script w) (w_session w) (w_calls w) (w_out w) v (w_minLevel w) (w_tap w) (w_writer w) (w_disk w).

Definition with_minLevel (v : Level) (w : World) : World :=
  mkWorld (w_script w) (w_session w) (w_calls w) (w_out w) (w_err w) v (w_tap w) (w_writer w) (w_disk w).

Definition with_tap (v : S) (w : World) : World :=
  mkWorld (w_script w) (w_session w) (w_calls w) (w_out w) (w_err w) (w_minLevel w) v (w_writer w) (w_disk w).

Definition with_writer (v : RecordWriter) (w : World) : World :=
  mkWorld (w_script w) (w_session w) (w_calls w) (w_out w) (w_err w) (w_minLevel w) (w_tap w) v (w_disk w).

Definition with_disk (v : gmap string string) (w : World) : World :=
  mkWorld (w_script w) (w_session w) (w_calls w) (w_out w) (w_err w) (w_minLevel w) (w_tap w) (w_writer w) v.

(** What the worker's thread put into the queue. *)
Definition arrive (envs : list Envelope) (s : @BrokerSession W) : @BrokerSession W :=
  with_queue (mkQueue (m_queue (bs_inbound s) ++ envs) (m_stop (bs_inbound s)) (m_maxSize (bs_inbound s))) s.

Definition look : Cmd Tick := λ w,
  match w_script w with
  | [] => Waiting w
  | t :: ts => Ret t (with_session (arrive (t_arrived t) (w_session w)) (with_script ts w))
  end.

Definition modify (f : World → World) : Cmd () := λ w, Ret () (f w).

Definition gets {A} (f : World → A) : Cmd A := λ w, Ret (f w) w.

(** One [printf] or [fwrite] to standard output, one [fprintf] to standard error. *)
Definition print (line : string) : Cmd () := modify (λ w, with_out (w_out w ++ [line]) w).

Definition eprint (line : string) : Cmd () := modify (λ w, with_err (w_err w ++ [line]) w).

Definition call (c : Call) : Cmd () := modify (λ w, with_calls (w_calls w ++ [c]) w).

(** ** The session's waits *)

Definition interrupted : Cmd bool := bind look (λ t, ret (t_interrupted t)).

(** [steady_clock::now()]. *)
Definition now : Cmd Z := bind look (λ t, ret (t_now t)).

Definition on_session {A} (f : @BrokerSession W → A * @BrokerSession W) : Cmd A := λ w,
  let '(a, s) := f (w_session w) in Ret a (with_session s w).

Definition sync (timeoutMs : Z) : Cmd bool :=
  bind (gets (λ w, bs_open (w_session w))) (λ open,
    if open then
      bind look (λ t, bind (call (CSync (t_synced t))) (λ _, ret (t_synced t)))
    else bind (call (CSync false)) (λ _, ret false)).

Definition subscribe (topic : string) (scope : Origin) : Cmd bool :=
  bind (on_session (session_subscribe topic scope)) (λ ok, bind (call (CSubscribe topic scope ok)) (λ _, ret ok)).

Definition publish_envelope (env : Envelope) : Cmd bool :=
  bind (on_session (publishEnvelope env)) (λ ok, bind (call (CPublish env ok)) (λ _, ret ok)).

(** The envelope [BrokerSession::publish] assembles. *)
Definition published_envelope (clientId topic payload replyTopic : string) : Envelope :=
  mkEnvelope (mkHeader topic clientId topic EmptyString EmptyString replyTopic) payload.

Definition publish_message (topic payload replyTopic : string) : Cmd bool :=
  bind (gets (λ w, cfg_clientId (bs_config (w_session w)))) (λ id,
    bind (on_session (publish topic payload replyTopic)) (λ ok,
      bind (call (CPublish (published_envelope id topic payload replyTopic) ok)) (λ _, ret ok))).

Definition close : Cmd () := λ w,
  if bs_open (w_session w)
  then Ret () (with_calls (w_calls w ++ [CClose]) (with_session (session_close (w_session w)) w))
  else Ret () w.

Definition session_pop : Cmd (option Envelope) :=
  on_session (λ s, let '(o, q) := try_pop (bs_inbound s) in (o, with_queue q s)).

(** A turn of the loop of [receive]. *)
Definition receive_turn (deadline : Z) (_ : ()) : Cmd (() + option Envelope) :=
  bind look (λ t,
    if t_interrupted t then ret (inr None)
    else
      bind session_pop (λ o,
        match o with
        | Some env =>
            if decide (handler_key (env_header env) = Keys.RESET) then
              bind (modify (λ w, with_session (recover (w_session w)) w)) (λ _, bind (call CRecover) (λ _, ret (inl ())))
            else ret (inr (Some env))
        | None => if decide (deadline ≤ t_now t)%Z then ret (inr None) else ret (inl ())
        end)).

Definition receive (timeout : Z) : Cmd (option Envelope) :=
  bind (gets (λ w, bs_open (w_session w))) (λ open,
    if open then bind now (λ start, while_ (receive_turn (start + timeout)) ())
    else ret None).
End world.

Arguments World W S : clear implicits.
Arguments Result W S A : clear implicits.
Arguments Cmd W S A : clear implicits.
Arguments Ret {W S A} _ _.
Arguments Waiting {W S A} _.
Arguments Thrown {W S A} _ _.

Declare Scope cmd_scope.
Delimit Scope cmd_scope with cmd.
Notation "'let*' x ':=' c 'in' k" := (bind c (λ x, k)) (at level 200, x binder, c at level 100, k at level 200) : cmd_scope.
Notation "c ;;; k" := (bind c (λ _, k)) (at level 100, k at level 200, right associativity) : cmd_scope.

(** ** Interruption

    A script is [armed k] when the user has asked to stop by its last [k] ticks.  A command
    that [ends n] never waits for more than [n] of them: from a script armed with [k ≥ n]
    ticks it comes to an end and leaves [k - n].  The script only ever gets shorter. *)

Definition armed (k : nat) (script : list Tick) : Prop :=
  k ≤ length script ∧ Forall (λ t, t_interrupted t = true) (drop (length script - k) script).

Section ends.
Context {W : Type} `{!WorkerInterface W} {S : Type}.
Notation World := (World W S).
Notation Cmd := (Cmd W S).
Notation Result := (Result W S).

Definition leaves (n : nat) (w w' : World) : Prop :=
  w_script w' `suffix_of` w_script w ∧
  ∀ k, n ≤ k → armed k (w_script w) → k - n ≤ length (w_script w').

Definition ends {A} (n : nat) (c : Cmd A) : Prop := ∀ w,
  match c w with
  | Ret _ w' | Thrown _ w' => leaves n w w'
  | Waiting w' => ∀ k, n ≤ k → ¬ armed k (w_script w)
  end.

(** A turn that takes at least one tick. *)
Definition strict {A} (c : Cmd A) : Prop := ∀ w,
  match c w with Ret _ w' => length (w_script w') < length (w_script w) | _ => True end.

(** A turn that ends the loop when it finds the user has interrupted. *)
Definition stops {A B} (c : Cmd (A + B)) : Prop := ∀ w,
  armed (length (w_script w)) (w_script w) → w_script w ≠ [] →
  match c w with Ret (inl _) _ => False | _ => True end.

Lemma armed_suffix k s s' : s' `suffix_of` s → armed k s → armed (k `min` length s') s'.
Proof.
  intros [u ->] [Hk Ha]. split; [lia|]. rewrite length_app in *.
  rewrite drop_app in Ha. apply Forall_app in Ha as [_ Ha].
  destruct (decide (k ≤ length s')).
  - rewrite Nat.min_l by done. by replace (length s' - k) with (length u + length s' - k - length u) by lia.
  - rewrite Nat.min_r by lia. replace (length u + length s' - k - length u) with 0 in Ha by lia.
    by rewrite Nat.sub_diag.
Qed.

Lemma leaves_refl n w w' : w_script w' = w_script w → leaves n w w'.
Proof. intros E. split; [by rewrite E|]. intros k _ [Hk _]. rewrite E. lia. Qed.

Lemma leaves_trans n m w1 w2 w3 : leaves n w1 w2 → leaves m w2 w3 → leaves (n + m) w1 w3.
Proof.
  intros [S1 L1] [S2 L2]. split; [by etrans|]. intros k Hk Ha.
  specialize (L1 k ltac:(lia) Ha). pose proof (armed_suffix k _ _ S1 Ha) as Ha2.
  specialize (L2 (k `min` length (w_script w2)) ltac:(lia) Ha2). lia.
Qed.

Lemma leaves_weaken n m w w' : n ≤ m → leaves n w w' → leaves m w w'.
Proof. intros Hn [Hs Hl]. split; [done|]. intros k Hk Ha. specialize (Hl k ltac:(lia) Ha). lia. Qed.

Lemma ends_weaken {A} n m (c : Cmd A) : n ≤ m → ends n c → ends m c.
Proof.
  intros Hn Hc w. specialize (Hc w). destruct (c w); [by eapply leaves_weaken| |by eapply leaves_weaken].
  intros k Hk. apply Hc. lia.
Qed.

Lemma ends_bind {A B} n N (c : Cmd A) (f : A → Cmd B) :
  ends n c → n ≤ N → (∀ a, ends (N - n) (f a)) → ends N (bind c f).
Proof.
  intros Hc Hn Hf w. unfold bind. specialize (Hc w). destruct (c w) as [a w1|w1|e w1].
  - specialize (Hf a w1). destruct (f a w1) as [b w2|w2|e w2];
      try (by replace N with (n + (N - n)) by lia; eapply leaves_trans).
    intros k Hk Ha. destruct Hc as [Hs Hl]. specialize (Hl k ltac:(lia) Ha).
    apply (armed_suffix k _ _ Hs) in Ha. revert Ha. apply Hf. lia.
  - intros k Hk. apply Hc. lia.
  - by eapply leaves_weaken.
Qed.

Lemma ends_ret {A} n (a : A) : ends n (ret a).
Proof. intros w. by apply leaves_refl. Qed.

Lemma ends_throw {A} n what : ends n (throw (A := A) what).
Proof. intros w. by apply leaves_refl. Qed.

Lemma ends_modify n f : (∀ w, w_script (f w) = w_script w) → ends n (modify f).
Proof. intros H w. by apply leaves_refl. Qed.

Lemma ends_gets {A} n (f : World → A) : ends n (gets f).
Proof. intros w. by apply leaves_refl. Qed.

Lemma ends_on_session {A} n (f : @BrokerSession W → A * @BrokerSession W) : ends n (on_session f).
Proof. intros w. unfold on_session. destruct (f (w_session w)). by apply leaves_refl. Qed.

Lemma ends_look : ends 1 look.
Proof.
  intros w. unfold look, leaves. destruct (w_script w) as [|t ts] eqn:E.
  - intros k Hk [Ha _]. simpl in Ha. lia.
  - simpl. split; [by apply suffix_cons_r|]. intros k Hk [Ha _]. simpl in Ha. lia.
Qed.

Lemma strict_look : strict look.
Proof. intros w. unfold look. destruct (w_script w) eqn:E; [done|]. simpl. lia. Qed.

Lemma strict_bind {A B} n (c : Cmd A) (f : A → Cmd B) : strict c → (∀ a, ends n (f a)) → strict (bind c f).
Proof.
  intros Hc Hf w. unfold bind. specialize (Hc w). destruct (c w) as [a w1|w1|e w1]; [|done..].
  specialize (Hf a w1). destruct (f a w1) as [b w2|w2|e w2]; [|done..].
  destruct Hf as [Hs%suffix_length _]. lia.
Qed.

(** After a turn the script is armed as before, or all that is left of it is. *)
Lemma leaves_cross n k w w1 :
  leaves n w w1 → 0 < n → 2 * n ≤ k → armed k (w_script w) →
  (k < length (w_script w1) ∧ armed k (w_script w1)) ∨
  (armed (length (w_script w1)) (w_script w1) ∧ w_script w1 ≠ [] ∧ k - n ≤ length (w_script w1)).
Proof.
  intros [Hsuf Hlen] Hn Hk Ha. specialize (Hlen k ltac:(lia) Ha). apply (armed_suffix k _ _ Hsuf) in Ha.
  destruct (decide (k < length (w_script w1))); [left; by rewrite Nat.min_l in Ha by lia|right].
  rewrite Nat.min_r in Ha by lia. split_and!; [done| |done]. intros E. rewrite E in Hlen. simpl in Hlen. lia.
Qed.

(** A loop whose turns end and stop: twice the ticks of a turn. *)
Lemma ends_loop {A B} n (body : A → Cmd (A + B)) fuel a w :
  (∀ a, ends n (body a)) → (∀ a, strict (body a)) → (∀ a, stops (body a)) →
  0 < n → length (w_script w) < fuel →
  match loop fuel body a w with
  | Ret _ w' | Thrown _ w' => leaves (2 * n) w w' ∧
      (armed (length (w_script w)) (w_script w) → w_script w ≠ [] → leaves n w w')
  | Waiting w' => (∀ k, 2 * n ≤ k → ¬ armed k (w_script w)) ∧
      (armed (length (w_script w)) (w_script w) → length (w_script w) < n)
  end.
Proof.
  intros He Hs Hst Hn. revert a w. induction fuel as [|fuel IH]; intros a w Hf; [lia|].
  cbn [loop]. unfold bind. specialize (He a w). specialize (Hs a w). specialize (Hst a w).
  destruct (body a w) as [[a'|b] w1|w1|e w1].
  - specialize (IH a' w1 ltac:(lia)). pose proof (leaves_cross n) as Hx.
    assert (w_script w ≠ []) as Hne by (intros E; rewrite E in Hs; simpl in Hs; lia).
    destruct (loop fuel body a' w1) as [b w2|w2|e w2]; destruct IH as [IH1 IH2].
    1, 3: split; [|intros Ha _; by destruct Hst]; split; [etrans; [apply IH1|apply He]|]; intros k Hk Ha;
      destruct (Hx k w w1 He Hn Hk Ha) as [[Hlt Ha1]|(Ha1 & Hne1 & Hlen)];
        [by apply IH1|destruct (IH2 Ha1 Hne1) as [_ IH3]; specialize (IH3 (length (w_script w1)) ltac:(lia) Ha1); lia].
    split; [|intros Ha; by destruct Hst]. intros k Hk Ha.
    destruct (Hx k w w1 He Hn Hk Ha) as [[Hlt Ha1]|(Ha1 & Hne1 & Hlen)]; [by apply (IH1 k)|specialize (IH2 Ha1); lia].
  - split; [by eapply leaves_weaken; [|exact He]; lia|by intros].
  - split; [intros k Hk; apply He; lia|]. intros Ha. destruct (decide (length (w_script w) < n)); [done|].
    exfalso. apply (He (length (w_script w))); [lia|done].
  - split; [by eapply leaves_weaken; [|exact He]; lia|by intros].
Qed.

Lemma ends_while {A B} n (body : A → Cmd (A + B)) a :
  (∀ a, ends n (body a)) → (∀ a, strict (body a)) → (∀ a, stops (body a)) → 0 < n → ends (2 * n) (while_ body a).
Proof.
  intros He Hs Hst Hn w. unfold while_.
  pose proof (ends_loop n body (Datatypes.S (length (w_script w))) a w He Hs Hst Hn ltac:(lia)) as H.
  destruct (loop _ body a w); apply H.
Qed.

(** ** Partial correctness *)

Definition post {A} (c : Cmd A) (Q : A → World → Prop) (w : World) : Prop :=
  match c w with Ret a w' => Q a w' | _ => True end.

Lemma post_bind {A B} (c : Cmd A) (f : A → Cmd B) Q w : post c (λ a, post (f a) Q) w → post (bind c f) Q w.
Proof. unfold post, bind. by destruct (c w). Qed.

Lemma post_mono {A} (c : Cmd A) (P Q : A → World → Prop) w : post c P w → (∀ a w', P a w' → Q a w') → post c Q w.
Proof. unfold post. destruct (c w); auto. Qed.

Lemma post_ret {A} (a : A) (Q : A → World → Prop) w : Q a w → post (ret a) Q w.
Proof. done. Qed.

Lemma post_modify (f : World → World) (Q : () → World → Prop) w : Q () (f w) → post (modify f) Q w.
Proof. done. Qed.

Lemma post_call (c : Call) (Q : () → World → Prop) w : Q () (with_calls (w_calls w ++ [c]) w) → post (call c) Q w.
Proof. done. Qed.

(** An invariant of the turns is one of the loop. *)
Lemma post_while {A B} (I : A → World → Prop) (body : A → Cmd (A + B)) Q a w :
  I a w → (∀ a w, I a w → post (body a) (λ r w', match r with inl a' => I a' w' | inr b => Q b w' end) w) →
  post (while_ body a) Q w.
Proof.
  intros Hi Hb. unfold while_, post. generalize (Datatypes.S (length (w_script w))) as fuel. intros fuel.
  revert a w Hi. induction fuel as [|fuel IH]; intros a w Hi; [done|]. cbn [loop]. unfold bind.
  specialize (Hb a w Hi). unfold post in Hb. destruct (body a w) as [[a'|b] w'|w'|e w']; [by apply IH|done..].
Qed.
End ends.
