(* ===== verification/Commands.v ===== *)
(** * The commands of the command-line client

    Models [cli/commands.cpp] and [cli/main.cpp]: every command from its options to its exit
    status, over the world of [CliWorld].  A session lives as long as the C++ object does:
    [scoped_session] is its constructor and its destructor, on every way out.

    Floating-point speeds, the printer of decoded messages, the [%.1f] of a rate and the
    time zone are arguments. *)

From Stdlib Require Import ZArith Lia.
From S2P Require Import Prelude.
From S2P Require Import MessageKeys.
From S2P Require Import Config.
From S2P Require Import Logger.
From S2P Require Import SafeQueue.
From S2P Require Import Wire.
From S2P Require Import AnyFrame.
From S2P Require Import Worker.
From S2P Require Import Broker.
From S2P Require Import Recording.
From S2P Require Import PayloadFormat.
From S2P Require Import Options.
From S2P Require Import BrokerSession.
From S2P Require Import CliWorld.

Local Open Scope cmd_scope.

(** ** The process around a command *)

(** Its id, the uuids it draws for the client id and for a reply topic, standard input, and
    the environment variables [WISP_LOG_LEVEL] and [WISP_INSPECTOR_SOCK]. *)
Record Process := mkProcess {
  p_pid : Z;
  p_clientUuid : string;
  p_replyUuid : string;
  p_stdin : string;
  p_logLevel : option string;
  p_tapSock : option string
}.

(** 250 ms. *)
Definition RECEIVE_SLICE : Z := 250000000.

Definition ms (n : Z) : Z := n * 1000000.

Definition defaultClientId (p : Process) : string :=
  "wisp-cli-" +:+ to_string (p_pid p) +:+ "-" +:+ str_take 8 (p_clientUuid p).

(** [%lldh %02lldm %02llds]; C++ division truncates. *)
Definition formatUptime (seconds : Z) : string :=
  put_int (Z.quot seconds 3600) +:+ "h " +:+ setw zero_char 2 (put_int (Z.quot (Z.rem seconds 3600) 60)) +:+ "m " +:+
  setw zero_char 2 (put_int (Z.rem seconds 60)) +:+ "s".

(** [" → "] in UTF-8. *)
Definition arrow : string := " " +:+ String (chr 0xe2) (String (chr 0x86) (String (chr 0x92) " ")).

Definition routingLabel (header : MessageHeader) : string :=
  if decide (topic header = EmptyString ∨ topic header = handler_key header) then handler_key header
  else handler_key header +:+ arrow +:+ topic header.

(** A report as it is unpacked: the stats and their two rates, the second as printed. *)
Record StatsReport := mkReport { sr_stats : SystemStats; sr_msgs_per_sec : Z; sr_kb_per_sec : string }.

Definition stats_lines (r : StatsReport) : list string :=
  let s := sr_stats r in
  ["broker " +:+ c_str (st_broker_id s) +:+ "   cluster " +:+
     (if decide (st_cluster s = EmptyString) then "(discovery off)" else c_str (st_cluster s)) +:+
     "   uptime " +:+ formatUptime (st_uptime_sec s) +:+ newline;
   "clients " +:+ put_int (st_clients_count s) +:+ "   peers " +:+ put_int (st_peers_count s) +:+ "   " +:+
     put_int (sr_msgs_per_sec r) +:+ " msg/s   " +:+ sr_kb_per_sec r +:+ " KB/s   total " +:+ put_int (st_total_msgs s) +:+
     "   dropped " +:+ to_string (st_total_dropped s) +:+ "   rejected subs " +:+ to_string (st_total_rejected_subs s) +:+
     newline] ++
  (match st_connected_clients s with
   | [] => []
   | clients =>
       ("  " +:+ pad_right 32 "client" +:+ " " +:+ setw space 6 "subs" +:+ " " +:+ setw space 8 "dropped" +:+ newline) ::
       ((λ c, "  " +:+ pad_right 32 (c_str (ci_id c)) +:+ " " +:+ setw space 6 (to_string (ci_subscription_count c)) +:+
           " " +:+ setw space 8 (to_string (ci_dropped_messages c)) +:+ newline) <$> clients)
   end) ++ [newline].

(** The texts of the recorder and the reader, [errno] being [strerror]'s. *)
Definition write_error_text (errno : string) (e : RecordError) : string :=
  match e with
  | NotOpen => "capture file is not open"
  | _ => "could not write to the capture file: " +:+ errno
  end.

Definition read_error_text (e : RecordError) : string :=
  match e with
  | NotOpen => "capture file is not open"
  | EndsMidRecord => "capture ends mid-record (truncated while being written?)"
  | ImplausibleSize => "capture holds an implausible record size (corrupt file?)"
  | EndsInHeader => "capture ends inside a message header"
  | EndsInPayload => "capture ends inside a message payload"
  | UnknownHeader => "capture holds a message header this build cannot decode"
  | WriteFailed | NotACapture => EmptyString
  end.

Definition errno_text (t : Tick) : string := match t_error t with Some (_, what) => what | None => EmptyString end.

Section commands.
Context {W : Type} `{!WorkerInterface W} {S : Type} `{!ZmqReceiver S} {PB : ProtobufRuntime} `{!ProtobufMessage StatsReport}.
Context {D : Type} (speed_positive : D → bool) (scale : Z → D → Z).
Context (print_message : string → string → option string) (localtime_r : Z → tm).
Context (proc : Process).

Notation Cmd := (Cmd W S).
Notation Options := (Options D).
Implicit Types (opts : Options).

(** [opts.args[n]]; the parser has checked that it is there. *)
Definition arg (n : nat) opts : string := default EmptyString (o_args D opts !! n).

Definition applyLogLevel opts : Cmd () :=
  if o_verbose D opts then modify (with_minLevel Debug)
  else match p_logLevel proc with
       | None => modify (with_minLevel Error)
       | Some _ => ret ()
       end.

(** [BrokerSession::open]; [inl] is [false] and its reason. *)
Definition open (address clientId : string) : Cmd (string + ()) :=
  let* t := look in
  match t_error t with
  | Some (_, what) =>
      modify (λ w, with_session (mkSession (mkConfig address clientId (cfg_keepAliveTime (bs_config (w_session w)))
          (cfg_keepAliveTimeout (bs_config (w_session w)))) (bs_inbound (w_session w)) None
          (bs_subscriptions (w_session w)) (bs_open (w_session w))) w) ;;;
      ret (inl ("could not start a session on " +:+ address +:+ ": " +:+ what))
  | None =>
      modify (λ w, with_session (session_open address clientId (w_session w)) w) ;;;
      call (COpen address clientId) ;;;
      ret (inr ())
  end.

(** [opts.clientId.empty() ? defaultClientId() : opts.clientId]. *)
Definition session_id opts : string :=
  if decide (o_clientId D opts = EmptyString) then defaultClientId proc else o_clientId D opts.

Definition openSession opts : Cmd bool :=
  applyLogLevel opts ;;;
  let* opened := open (o_address D opts) (session_id opts) in
  match opened with
  | inl error => eprint ("error: " +:+ c_str error +:+ newline) ;;; ret false
  | inr _ =>
      let* synced := sync (ms (o_timeoutMs D opts)) in
      if (synced : bool) then ret true
      else
        eprint ("error: no broker answered at " +:+ c_str (o_address D opts) +:+ " within " +:+
          put_int (o_timeoutMs D opts) +:+ " ms" +:+ newline) ;;;
        ret false
  end.

(** The session of a command: fresh, and closed on every way out. *)
Definition scoped_session (body : Cmd Z) : Cmd Z := λ w,
  match body (with_session new_session w) with
  | Ret code w => (close ;;; ret code) w
  | Waiting w => Waiting w
  | Thrown what w => (close ;;; throw what) w
  end.

(** The messages of a [sync] that was not answered. *)
Definition unconfirmed (what : string) opts : string :=
  "error: the broker did not confirm the " +:+ what +:+ " within " +:+ put_int (o_timeoutMs D opts) +:+ " ms" +:+ newline.

Definition payloadArgument opts : string :=
  if decide (length (o_args D opts) < 2) then p_stdin proc
  else if decide (arg 1 opts = "-"%string) then p_stdin proc
  else arg 1 opts.

Definition writeRaw (payload : string) : Cmd () := print payload.

(** [TimeFormat::hhmmssMillisNow()]. *)
Definition stamp : Cmd string := let* t := look in ret (hhmmssMillis localtime_r (t_wall t)).

Definition message_line (when : string) (header : MessageHeader) (payload : string) opts : string :=
  when +:+ "  " +:+ pad_right 24 (c_str (topic header)) +:+ " " +:+ pad_right 24 (c_str (sender_id header)) +:+ " " +:+
  renderPayload print_message payload (o_format D opts) (o_maxBytes D opts) +:+ newline.

Definition printMessageLine (header : MessageHeader) (payload : string) opts : Cmd () :=
  if decide (o_format D opts = Raw) then writeRaw payload
  else let* when := stamp in print (message_line when header payload opts).

Fixpoint print_all (lines : list string) : Cmd () :=
  match lines with
  | [] => ret ()
  | line :: lines => print line ;;; print_all lines
  end.

Definition printStats (r : StatsReport) : Cmd () := print_all (stats_lines r).

Definition tapEndpoint opts : string :=
  match o_args D opts with
  | endpoint :: _ => endpoint
  | [] => default DEFAULT_TAP_ENDPOINT (p_tapSock proc)
  end.

(** ** pub *)

Definition runPublish opts : Cmd Z :=
  let topic := arg 0 opts in
  let payload := payloadArgument opts in
  scoped_session (
    let* opened := openSession opts in
    if negb opened then ret 1%Z
    else
      let* sent := publish_message topic payload EmptyString in
      if negb sent then
        eprint ("error: the send pipe would not take the message for '" +:+ c_str topic +:+ "'" +:+ newline) ;;; ret 1%Z
      else
        let* synced := sync (ms (o_timeoutMs D opts)) in
        if negb synced then eprint (unconfirmed "message" opts) ;;; ret 1%Z
        else close ;;; ret 0%Z).

(** ** sub *)

Fixpoint subscribe_all (topics : list string) (scope : Origin) : Cmd () :=
  match topics with
  | [] => ret ()
  | topic :: topics => subscribe topic scope ;;; subscribe_all topics scope
  end.

(** [count == 0 || delivered < count]. *)
Definition wanted (count delivered : Z) : bool := bool_decide (count = 0%Z) || bool_decide (delivered < count)%Z.

Definition subscribe_turn opts (delivered : Z) : Cmd (Z + Z) :=
  let* stop := interrupted in
  if stop || negb (wanted (o_count D opts) delivered) then ret (inr delivered)
  else
    let* received := receive RECEIVE_SLICE in
    match received with
    | None => ret (inl delivered)
    | Some env => printMessageLine (env_header env) (env_payload env) opts ;;; ret (inl (delivered + 1)%Z)
    end.

Definition runSubscribe opts : Cmd Z :=
  scoped_session (
    let* opened := openSession opts in
    if negb opened then ret 1%Z
    else
      subscribe_all (o_args D opts) (o_origin D opts) ;;;
      let* synced := sync (ms (o_timeoutMs D opts)) in
      if negb synced then eprint (unconfirmed "subscriptions" opts) ;;; ret 1%Z
      else
        while_ (subscribe_turn opts) 0%Z ;;;
        close ;;; ret 0%Z).

(** ** req *)

Definition print_reply (payload : string) opts : Cmd () :=
  if decide (o_format D opts = Raw) then writeRaw payload
  else print (renderPayload print_message payload (o_format D opts) (o_maxBytes D opts) +:+ newline).

(** Whether the reply came. *)
Definition request_turn opts (replyTopic : string) (deadline : Z) (_ : ()) : Cmd (() + bool) :=
  let* stop := interrupted in
  if (stop : bool) then ret (inr false)
  else
    let* t := now in
    if decide (deadline ≤ t)%Z then ret (inr false)
    else
      let* received := receive RECEIVE_SLICE in
      match received with
      | None => ret (inl ())
      | Some env =>
          if decide (topic (env_header env) ≠ replyTopic) then ret (inl ())
          else print_reply (env_payload env) opts ;;; close ;;; ret (inr true)
      end.

Definition request_reply_topic (topic : string) : string := topic +:+ "." +:+ p_replyUuid proc.

Definition runRequest opts : Cmd Z :=
  let topic := arg 0 opts in
  let payload := payloadArgument opts in
  scoped_session (
    let* opened := openSession opts in
    if negb opened then ret 1%Z
    else
      let replyTopic := request_reply_topic topic in
      subscribe replyTopic Origins.Any ;;;
      let* synced := sync (ms (o_timeoutMs D opts)) in
      if negb synced then eprint (unconfirmed "reply subscription" opts) ;;; ret 1%Z
      else
        let* sent := publish_message topic payload replyTopic in
        if negb sent then
          eprint ("error: the send pipe would not take the request for '" +:+ c_str topic +:+ "'" +:+ newline) ;;; ret 1%Z
        else
          let* start := now in
          let* replied := while_ (request_turn opts replyTopic (start + ms (o_timeoutMs D opts))) () in
          if (replied : bool) then ret 0%Z
          else
            eprint ("error: no reply on '" +:+ c_str topic +:+ "' within " +:+ put_int (o_timeoutMs D opts) +:+ " ms" +:+
              newline) ;;;
            ret 1%Z).

(** ** stats *)

Definition stats_turn (limit delivered : Z) : Cmd (Z + Z) :=
  let* stop := interrupted in
  if stop || negb (wanted limit delivered) then ret (inr delivered)
  else
    let* received := receive RECEIVE_SLICE in
    match received with
    | None => ret (inl delivered)
    | Some env =>
        if decide (topic (env_header env) ≠ Keys.SYS_STATS) then ret (inl delivered)
        else
          match tryUnpack StatsReport (env_payload env) with
          | None => eprint ("warning: could not decode a statistics message" +:+ newline) ;;; ret (inl delivered)
          | Some stats => printStats stats ;;; ret (inl (delivered + 1)%Z)
          end
    end.

Definition runStats opts : Cmd Z :=
  scoped_session (
    let* opened := openSession opts in
    if negb opened then ret 1%Z
    else
      subscribe Keys.SYS_STATS Origins.Any ;;;
      let* synced := sync (ms (o_timeoutMs D opts)) in
      if negb synced then eprint (unconfirmed "statistics subscription" opts) ;;; ret 1%Z
      else
        let limit := if o_countGiven D opts then o_count D opts else 1%Z in
        let* delivered := while_ (stats_turn limit) 0%Z in
        close ;;;
        ret (if bool_decide (0 < delivered)%Z || bool_decide (limit = 0%Z) then 0%Z else 1%Z)).

(** ** tap *)

(** A call of the socket: an interruption is [false], any other failure is thrown. *)
Definition waitReadable : Cmd bool :=
  let* t := look in
  match t_error t with
  | Some (true, _) => ret false
  | Some (false, what) => throw what
  | None => ret (t_readable t)
  end.

Definition receiveEnvelope : Cmd (option (Envelope * nat)) :=
  let* t := look in
  match t_error t with
  | Some (true, _) => ret None
  | Some (false, what) => throw what
  | None => λ w, let '(o, tap) := recv (w_tap w) in Ret o (with_tap tap w)
  end.

Definition monitor_line (e : bool * string) : string :=
  if e.1 then "# attached to " +:+ c_str e.2 +:+ newline else "# detached from " +:+ c_str e.2 +:+ " (waiting)" +:+ newline.

Fixpoint eprint_all (lines : list string) : Cmd () :=
  match lines with
  | [] => ret ()
  | line :: lines => eprint line ;;; eprint_all lines
  end.

(** [while (monitor.check_event(0)) {}]. *)
Definition drain_monitor : Cmd () :=
  let* t := look in
  match t_error t with
  | Some (_, what) => throw what
  | None => eprint_all (monitor_line <$> t_monitor t)
  end.

Definition tap_turn opts (consume : Envelope → nat → Cmd bool) (delivered : Z) : Cmd (Z + Z) :=
  let* stop := interrupted in
  if stop || negb (wanted (o_count D opts) delivered) then ret (inr 0%Z)
  else
    drain_monitor ;;;
    let* readable := waitReadable in
    if negb readable then ret (inl delivered)
    else
      let* received := receiveEnvelope in
      match received with
      | None => ret (inl delivered)
      | Some (env, wireBytes) =>
          let* ok := consume env wireBytes in
          if negb ok then ret (inr 1%Z) else ret (inl (delivered + 1)%Z)
      end.

Definition readTap opts (consume : Envelope → nat → Cmd bool) : Cmd Z :=
  applyLogLevel opts ;;;
  let endpoint := tapEndpoint opts in
  let* t := look in
  match t_error t with
  | Some (_, what) =>
      eprint ("error: could not attach to the tap at " +:+ c_str endpoint +:+ ": " +:+ c_str what +:+ newline) ;;; ret 1%Z
  | None => while_ (tap_turn opts consume) 0%Z
  end.

Definition tap_line (when : string) (env : Envelope) (wireBytes : nat) opts : string :=
  when +:+ "  " +:+ pad_right 28 (c_str (routingLabel (env_header env))) +:+ " " +:+
  pad_right 24 (c_str (sender_id (env_header env))) +:+ " " +:+ setw space 6 (to_string (Z.of_nat wireBytes)) +:+ "B  " +:+
  renderPayload print_message (env_payload env) (o_format D opts) (o_maxBytes D opts) +:+ newline.

Definition print_tapped opts (env : Envelope) (wireBytes : nat) : Cmd bool :=
  (if decide (o_format D opts = Raw) then writeRaw (env_payload env)
   else let* when := stamp in print (tap_line when env wireBytes opts)) ;;;
  ret true.

Definition runTap opts : Cmd Z := readTap opts (print_tapped opts).

(** ** record *)

(** [RecordWriter::open]; [inl] is [false] and its reason. *)
Definition open_capture (path : string) : Cmd (string + ()) :=
  let* t := look in
  match t_error t with
  | Some (_, errno) => ret (inl ("could not open " +:+ path +:+ " for writing: " +:+ errno))
  | None =>
      let* t := look in
      λ w, let '(e, writer) := writer_open (t_taken t) (w_writer w) in
           Ret (match e with
                | None => inr ()
                | Some _ => inl ("could not write the capture header to " +:+ path +:+ ": " +:+ errno_text t)
                end) (with_writer writer w)
  end.

(** [nowMicros()] is the wall clock in microseconds. *)
Definition write_capture (env : Envelope) (_ : nat) : Cmd bool :=
  let* t := look in
  let* e := (λ w, let '(e, writer) := write (Z.quot (t_wall t) 1000) (t_taken t) env (w_writer w) in Ret e (with_writer writer w)) in
  match e with
  | None => ret true
  | Some e => eprint ("error: " +:+ c_str (write_error_text (errno_text t) e) +:+ newline) ;;; ret false
  end.

(** [RecordWriter::close]: the file as [fclose] leaves it, [inl] when it fails. *)
Definition close_capture (path : string) : Cmd (string + ()) := λ w,
  match w_file (w_writer w) with
  | None => Ret (inr ()) w
  | Some file =>
      (let* t := look in
       let saved := match t_error t with Some _ => str_take (t_taken t) file | None => file end in
       modify (λ w, with_disk (<[path := saved]> (w_disk w)) (with_writer (writer_close (w_writer w)) w)) ;;;
       match t_error t with
       | Some (_, errno) => ret (inl ("could not close the capture file: " +:+ errno))
       | None => ret (inr ())
       end) w
  end.

(** The recorder's writer: its destructor closes what is still open. *)
Definition scoped_writer (path : string) (body : Cmd Z) : Cmd Z := λ w,
  match body (with_writer new_writer w) with
  | Ret code w => (close_capture path ;;; ret code) w
  | Waiting w => Waiting w
  | Thrown what w => (close_capture path ;;; throw what) w
  end.

(** What follows the tap: the count, and a file that is closed or not. *)
Definition finish_record (path : string) (status : Z) : Cmd Z :=
  let* captured := gets (λ w, w_count (w_writer w)) in
  let* closed := close_capture path in
  match closed with
  | inl error => eprint ("error: " +:+ c_str error +:+ newline) ;;; ret 1%Z
  | inr _ => eprint ("# captured " +:+ to_string captured +:+ " message(s)" +:+ newline) ;;; ret status
  end.

Definition runRecord opts : Cmd Z :=
  let path := arg 0 opts in
  let tapOpts := with_args D (tail (o_args D opts)) opts in
  scoped_writer path (
    let* opened := open_capture path in
    match opened with
    | inl error => eprint ("error: " +:+ c_str error +:+ newline) ;;; ret 1%Z
    | inr _ =>
        eprint ("# recording to " +:+ c_str path +:+ newline) ;;;
        let* status := readTap tapOpts write_capture in
        finish_record path status
    end).

(** ** replay *)

(** [RecordReader::open]; [inr] is what is left to read. *)
Definition open_recording (path : string) : Cmd (string + string) :=
  let* t := look in
  match t_error t with
  | Some (_, errno) => ret (inl ("could not open " +:+ path +:+ ": " +:+ errno))
  | None =>
      let* disk := gets w_disk in
      match disk !! path with
      | None => ret (inl ("could not open " +:+ path +:+ ": No such file or directory"))
      | Some file =>
          match reader_open file with
          | None => ret (inl (path +:+ " is not a Wisp capture file"))
          | Some body => ret (inr body)
          end
      end
  end.

(** The wait for a message's turn, a slice at a time. *)
Definition pace_turn (due : Z) (_ : ()) : Cmd (() + ()) :=
  let* stop := interrupted in
  if (stop : bool) then ret (inr ())
  else
    let* t := now in
    if decide (t < due)%Z then now ;;; ret (inl ()) else ret (inr ()).

Definition pace opts (started offsetMicros : Z) : Cmd () :=
  if speed_positive (o_speed D opts)
  then while_ (pace_turn (started + scale offsetMicros (o_speed D opts) * 1000)) ()
  else ret ().

(** What is published of a captured message. *)
Definition replayed (preserveUuids : bool) (env : Envelope) : Envelope :=
  if preserveUuids then env
  else
    let h := env_header env in
    mkEnvelope (mkHeader (handler_key h) (sender_id h) (topic h) EmptyString EmptyString (reply_topic h)) (env_payload env).

(** What is left of the capture, and the messages sent and skipped. *)
Record Replay := mkReplay { rp_file : string; rp_sent : Z; rp_skipped : Z }.

(** [None] when the replay has failed and said why. *)
Definition replay_turn opts (started : Z) (r : Replay) : Cmd (Replay + option Replay) :=
  let* stop := interrupted in
  if (stop : bool) then ret (inr (Some r))
  else
    match readRecord (rp_file r) with
    | (CleanEnd, _) => ret (inr (Some r))
    | (ReadError e, _) =>
        eprint ("error: " +:+ c_str (read_error_text e) +:+ " (after " +:+ to_string (rp_sent r) +:+ " message(s))" +:+
          newline) ;;;
        ret (inr None)
    | (RecordRead env offsetMicros, file) =>
        if negb (o_includeControl D opts) && Keys.isReservedKey (handler_key (env_header env)) then
          ret (inl (mkReplay file (rp_sent r) (wrap 64 (rp_skipped r + 1))))
        else
          pace opts started offsetMicros ;;;
          let* ok := publish_envelope (replayed (o_preserveUuids D opts) env) in
          if negb ok then
            eprint ("error: the send pipe would not take message " +:+ to_string (wrap 64 (rp_sent r + 1)) +:+ newline) ;;;
            ret (inr None)
          else ret (inl (mkReplay file (wrap 64 (rp_sent r + 1)) (rp_skipped r)))
    end.

Definition preserve_warning : string :=
  "# --preserve-uuids: a broker discards messages whose ids it still remembers, so some or all of this replay may not be delivered"
  +:+ newline.

Definition replayed_line (r : Replay) : string :=
  "# replayed " +:+ to_string (rp_sent r) +:+ " message(s)" +:+
  (if decide (0 < rp_skipped r)%Z then ", skipped " +:+ to_string (rp_skipped r) +:+ " control message(s)" else EmptyString) +:+
  newline.

Definition runReplay opts : Cmd Z :=
  let path := arg 0 opts in
  let* opened := open_recording path in
  match opened with
  | inl error => eprint ("error: " +:+ c_str error +:+ newline) ;;; ret 1%Z
  | inr body =>
      scoped_session (
        let* opened := openSession opts in
        if negb opened then ret 1%Z
        else
          (if o_preserveUuids D opts then eprint preserve_warning else ret ()) ;;;
          let* started := now in
          let* finished := while_ (replay_turn opts started) (mkReplay body 0 0) in
          match finished with
          | None => ret 1%Z
          | Some r =>
              let* synced := sync (ms (o_timeoutMs D opts)) in
              if negb synced then eprint (unconfirmed "replay" opts) ;;; ret 1%Z
              else close ;;; eprint (replayed_line r) ;;; ret 0%Z
          end)
  end.

(** ** main *)

(** The text of a refusal. *)
Definition commandName (command : Command) : string :=
  match find (λ spec, bool_decide (cs_command spec = command)) COMMANDS with
  | Some spec => cs_name spec
  | None => EmptyString
  end.

Definition spec_of (command : Command) : option CommandSpec := find (λ spec, bool_decide (cs_command spec = command)) COMMANDS.

Definition option_error_text (e : OptionError) : string :=
  match e with
  | NeedsValue option => option +:+ " needs a value"
  | AtLeast option minValue => option +:+ " must be at least " +:+ put_int minValue
  | NotANumber option text => option +:+ " expects a number, got '" +:+ text +:+ "'"
  | NegativeSpeed => "--speed cannot be negative"
  | BadFormat text => "--format expects auto, text, hex, or raw; got '" +:+ text +:+ "'"
  | BadOrigin text => "--origin expects any, local, or mesh; got '" +:+ text +:+ "'"
  | UnknownOption arg => "unknown option '" +:+ arg +:+ "'"
  | UnknownCommand arg => "unknown command '" +:+ arg +:+ "'"
  | MissingCommand => "no command given"
  | TooFewArgs command =>
      commandName command +:+ " needs at least " +:+
      to_string (Z.of_nat (default 0 (cs_minArgs <$> spec_of command))) +:+ " argument(s)"
  | TooManyArgs command =>
      commandName command +:+ " takes at most " +:+
      to_string (Z.of_nat (default 0 (spec_of command ≫= cs_maxArgs))) +:+ " argument(s)"
  end.

(** The switch over the commands; [Command::None] leaves it. *)
Definition run_command opts : option (Cmd Z) :=
  match o_command D opts with
  | Publish => Some (runPublish opts)
  | Subscribe => Some (runSubscribe opts)
  | Request => Some (runRequest opts)
  | Stats => Some (runStats opts)
  | Tap => Some (runTap opts)
  | Record_ => Some (runRecord opts)
  | Options.Replay => Some (runReplay opts)
  | NoCommand => None
  end.

(** [try { ... } catch (const std::exception& e)]. *)
Definition catching (c : Cmd Z) : Cmd Z := λ w,
  match c w with
  | Thrown what w => (eprint ("error: " +:+ c_str what +:+ newline) ;;; ret 1%Z) w
  | r => r
  end.

Context (default_speed : D) (stod : string → option D) (is_negative : D → bool).

(** [wisp_address] is the environment variable. *)
Definition main (wisp_address : option string) (args : list string) : Cmd Z :=
  match parseArguments D stod is_negative wisp_address args (default_options D default_speed) with
  | inl error => eprint ("error: " +:+ c_str (option_error_text error) +:+ newline +:+ newline +:+ usageText) ;;; ret 2%Z
  | inr opts =>
      if o_help D opts then print usageText ;;; ret 0%Z
      else
        match run_command opts with
        | Some command => catching command
        | None => eprint usageText ;;; ret 2%Z
        end
  end.
End commands.
