(* ===== verification/CommandsSpec.v ===== *)
(** * What the commands promise

    Over the commands of [Commands]: every command comes to an end when the user interrupts
    it, an exit status of zero means what [cli/commands.h] says it means, and what is printed,
    published and recorded is what arrived. *)

From Stdlib Require Import ZArith Lia.
From S2P Require Import Prelude.
From S2P Require Import MessageKeys.
From S2P Require Import Config.
From S2P Require Import Logger.
From S2P Require Import SafeQueue.
From S2P Require Import Wire.
From S2P Require Import AnyFrame.
From S2P Require Import Worker.
From S2P Require Import Broker.
From S2P Require Import Recording.
From S2P Require Import PayloadFormat.
From S2P Require Import Options.
From S2P Require Import BrokerSession.
From S2P Require Import CliWorld.
From S2P Require Import Commands.

(** ** Interruption *)

Create HintDb ends.
#[local] Hint Resolve ends_look strict_look : ends.

(** Splits the branches of a command and pays for its calls one by one. *)
Ltac ends_step :=
  match goal with
  | |- ends _ (ret _) => apply ends_ret
  | |- ends _ (throw _) => apply ends_throw
  | |- ends _ (modify _) => apply ends_modify; intros; reflexivity
  | |- ends _ (gets _) => apply ends_gets
  | |- ends _ (on_session _) => apply ends_on_session
  | |- ends _ (bind _ _) => eapply ends_bind; [solve [eauto with ends]|lia|intros; cbn [Nat.sub]]
  | |- ends _ (match ?x with _ => _ end) => destruct x
  | |- ends _ _ => eapply ends_weaken; [|solve [eauto with ends]]; lia
  end.

Ltac ends := repeat ends_step.

Section interruption.
Context {W : Type} `{!WorkerInterface W} {S : Type} `{!ZmqReceiver S} {PB : ProtobufRuntime} `{!ProtobufMessage StatsReport}.
Context {D : Type} (speed_positive : D → bool) (scale : Z → D → Z).
Context (print_message : string → string → option string) (localtime_r : Z → tm) (proc : Process).
Notation Cmd := (Cmd W S).

Lemma ends_interrupted : ends 1 (interrupted : Cmd _).
Proof. unfold interrupted. ends. Qed.

Lemma strict_interrupted : strict (interrupted : Cmd _).
Proof. eapply strict_bind; [apply strict_look|]. intros. apply (ends_ret 0). Qed.

Lemma ends_now : ends 1 (now : Cmd _).
Proof. unfold now. ends. Qed.

Lemma ends_print line : ends 0 (print line : Cmd _).
Proof. unfold print. ends. Qed.

Lemma ends_eprint line : ends 0 (eprint line : Cmd _).
Proof. unfold eprint. ends. Qed.

Lemma ends_call c : ends 0 (call c : Cmd _).
Proof. unfold call. ends. Qed.

Lemma ends_session_op {A} (f : @BrokerSession W → A * @BrokerSession W) : ends 0 (on_session f : Cmd _).
Proof. apply ends_on_session. Qed.

Lemma ends_query {A} (f : World W S → A) : ends 0 (gets f).
Proof. apply ends_gets. Qed.

Lemma ends_update (f : World W S → World W S) : (∀ w, w_script (f w) = w_script w) → ends 0 (modify f).
Proof. apply ends_modify. Qed.

#[local] Hint Resolve ends_interrupted strict_interrupted ends_now ends_print ends_eprint ends_call ends_session_op
  ends_query : ends.
#[local] Hint Extern 0 (ends _ (modify _)) => apply ends_update; intros; reflexivity : ends.

Lemma ends_sync t : ends 1 (sync t : Cmd _).
Proof. unfold sync. ends. Qed.

Lemma ends_subscribe topic scope : ends 0 (subscribe topic scope : Cmd _).
Proof. unfold subscribe. ends. Qed.

Lemma ends_publish_envelope env : ends 0 (publish_envelope env : Cmd _).
Proof. unfold publish_envelope. ends. Qed.

Lemma ends_publish_message topic payload reply : ends 0 (publish_message topic payload reply : Cmd _).
Proof. unfold publish_message. ends. Qed.

Lemma ends_close : ends 0 (close : Cmd _).
Proof. intros w. unfold close. destruct (bs_open _); by apply leaves_refl. Qed.

#[local] Hint Resolve ends_sync ends_subscribe ends_publish_envelope ends_publish_message ends_close : ends.

(** A turn that looks first, and leaves when interrupted. *)
Lemma stops_look {A B} (f : Tick → Cmd (A + B)) :
  (∀ t w, t_interrupted t = true → match f t w with Ret (inl _) _ => False | _ => True end) → stops (bind look f).
Proof.
  intros Hf w [_ Ha] Hne. unfold bind, look. destruct (w_script w) as [|t ts]; [done|].
  rewrite Nat.sub_diag in Ha. apply Forall_cons in Ha as [Ht _]. by apply Hf.
Qed.

Lemma stops_interrupted {A B} (f : bool → Cmd (A + B)) :
  (∀ w, match f true w with Ret (inl _) _ => False | _ => True end) → stops (bind interrupted f).
Proof.
  intros Hf w [_ Ha] Hne. unfold bind, interrupted, bind, look. destruct (w_script w) as [|t ts]; [done|].
  rewrite Nat.sub_diag in Ha. apply Forall_cons in Ha as [Ht _]. simpl. rewrite Ht. apply Hf.
Qed.

Lemma ends_receive timeout : ends 3 (receive timeout : Cmd _).
Proof.
  unfold receive. eapply ends_bind; [eauto with ends|lia|]. intros [|]; [|apply ends_ret]. cbn [Nat.sub].
  eapply ends_bind; [eauto with ends|lia|]. intros start. apply (ends_while 1); [|..|lia]; intros [].
  - unfold receive_turn, session_pop. ends.
  - eapply (strict_bind 1); [eauto with ends|]. intros. unfold session_pop. ends.
  - apply stops_look. intros t w Ht. by rewrite Ht.
Qed.

#[local] Hint Resolve ends_receive : ends.

Lemma ends_applyLogLevel (opts : Options D) : ends 0 (applyLogLevel proc opts : Cmd _).
Proof. unfold applyLogLevel. ends. Qed.

Lemma ends_open address clientId : ends 1 (open address clientId : Cmd _).
Proof. unfold open. ends. Qed.

#[local] Hint Resolve ends_applyLogLevel ends_open : ends.

Lemma ends_openSession (opts : Options D) : ends 2 (openSession proc opts : Cmd _).
Proof. unfold openSession. ends. Qed.

Lemma ends_scoped_session n (body : Cmd Z) : ends n body → ends n (scoped_session body).
Proof.
  intros Hb w. unfold scoped_session. specialize (Hb (with_session new_session w)).
  destruct (body _) as [code w'|w'|what w']; [|exact Hb|]; unfold bind, close; destruct (bs_open _); exact Hb.
Qed.

Lemma ends_stamp : ends 1 (stamp localtime_r : Cmd _).
Proof. unfold stamp. ends. Qed.

#[local] Hint Resolve ends_openSession ends_stamp : ends.

Lemma ends_printMessageLine header payload (opts : Options D) :
  ends 1 (printMessageLine print_message localtime_r header payload opts : Cmd _).
Proof. unfold printMessageLine, writeRaw. ends. Qed.

Lemma ends_print_all lines : ends 0 (print_all lines : Cmd _).
Proof. induction lines as [|l lines IH]; cbn [print_all]; ends. Qed.

Lemma ends_eprint_all lines : ends 0 (eprint_all lines : Cmd _).
Proof. induction lines as [|l lines IH]; cbn [eprint_all]; ends. Qed.

Lemma ends_subscribe_all topics scope : ends 0 (subscribe_all topics scope : Cmd _).
Proof. induction topics as [|t topics IH]; cbn [subscribe_all]; ends. Qed.

#[local] Hint Resolve ends_printMessageLine ends_print_all ends_eprint_all ends_subscribe_all : ends.

Lemma ends_runPublish (opts : Options D) : ends 3 (runPublish proc opts : Cmd _).
Proof. apply ends_scoped_session. ends. Qed.

(** The loops: a turn looks at the flag first. *)
Ltac ends_loop n turn :=
  apply (ends_while n); [intros; unfold turn; ends
                        |intros; eapply (strict_bind (n - 1)); [eauto with ends|intros; cbn [Nat.sub]; ends]
                        |intros; apply stops_interrupted; done
                        |lia].

Lemma ends_subscribe_loop (opts : Options D) n :
  ends 10 (while_ (subscribe_turn print_message localtime_r opts) n : Cmd _).
Proof. ends_loop 5 @subscribe_turn. Qed.

Lemma ends_print_reply payload (opts : Options D) : ends 0 (print_reply print_message payload opts : Cmd _).
Proof. unfold print_reply, writeRaw. ends. Qed.

#[local] Hint Resolve ends_subscribe_loop ends_print_reply : ends.

Lemma ends_request_loop (opts : Options D) topic deadline u :
  ends 10 (while_ (request_turn print_message opts topic deadline) u : Cmd _).
Proof. ends_loop 5 @request_turn. Qed.

Lemma ends_stats_loop limit n : ends 8 (while_ (stats_turn limit) n : Cmd _).
Proof. unfold stats_turn, printStats. ends_loop 4 @stats_turn. Qed.

#[local] Hint Resolve ends_request_loop ends_stats_loop : ends.

Lemma ends_runSubscribe (opts : Options D) : ends 13 (runSubscribe print_message localtime_r proc opts : Cmd _).
Proof. apply ends_scoped_session. ends. Qed.

Lemma ends_runRequest (opts : Options D) : ends 14 (runRequest print_message proc opts : Cmd _).
Proof. apply ends_scoped_session. ends. Qed.

Lemma ends_runStats (opts : Options D) : ends 11 (runStats proc opts : Cmd _).
Proof. apply ends_scoped_session. ends. Qed.

(** *** The tap *)

Lemma ends_waitReadable : ends 1 (waitReadable : Cmd _).
Proof. unfold waitReadable. ends. Qed.

Lemma ends_receiveEnvelope : ends 1 (receiveEnvelope : Cmd _).
Proof.
  unfold receiveEnvelope. eapply ends_bind; [eauto with ends|lia|]. intros t.
  destruct (t_error t) as [[[] what]|]; [apply ends_ret|apply ends_throw|].
  intros w. destruct (recv (w_tap w)). by apply leaves_refl.
Qed.

Lemma ends_drain_monitor : ends 1 (drain_monitor : Cmd _).
Proof. unfold drain_monitor. ends. Qed.

#[local] Hint Resolve ends_waitReadable ends_receiveEnvelope ends_drain_monitor : ends.

Lemma ends_tap_loop (opts : Options D) consume n :
  (∀ env bytes, ends 1 (consume env bytes)) → ends 10 (while_ (tap_turn opts consume) n : Cmd _).
Proof. intros Hc. ends_loop 5 @tap_turn. Qed.

Lemma ends_readTap (opts : Options D) consume :
  (∀ env bytes, ends 1 (consume env bytes)) → ends 11 (readTap proc opts consume : Cmd _).
Proof. intros Hc. pose proof (ends_tap_loop opts consume) as Hl. unfold readTap. ends. Qed.

Lemma ends_print_tapped (opts : Options D) env bytes :
  ends 1 (print_tapped print_message localtime_r opts env bytes : Cmd _).
Proof.
  unfold print_tapped, writeRaw. eapply (ends_bind 1); [destruct (decide _); ends|lia|]. intros. apply ends_ret.
Qed.

Lemma ends_runTap (opts : Options D) : ends 11 (runTap print_message localtime_r proc opts : Cmd _).
Proof. apply ends_readTap. intros. apply ends_print_tapped. Qed.

Lemma ends_write_capture env bytes : ends 1 (write_capture env bytes : Cmd _).
Proof.
  unfold write_capture. eapply ends_bind; [eauto with ends|lia|]. intros t.
  eapply (ends_bind 0); [|lia|intros; ends].
  intros w. destruct (write _ _ _ _). by apply leaves_refl.
Qed.

Lemma ends_open_capture path : ends 2 (open_capture path : Cmd _).
Proof.
  unfold open_capture. eapply ends_bind; [eauto with ends|lia|]. intros t.
  destruct (t_error t) as [[]|]; [apply ends_ret|]. eapply ends_bind; [eauto with ends|simpl; lia|]. intros t'.
  intros w. destruct (writer_open _ _). by apply leaves_refl.
Qed.

Lemma ends_close_capture path : ends 1 (close_capture path : Cmd _).
Proof.
  intros w. unfold close_capture. destruct (w_file (w_writer w)) as [file|]; [|by apply leaves_refl].
  match goal with |- match ?c w with _ => _ end => assert (ends 1 c) as H; [|apply (H w)] end. ends.
Qed.

#[local] Hint Resolve ends_open_capture ends_close_capture : ends.

Lemma ends_scoped_writer n path (body : Cmd Z) : ends n body → ends (n + 1) (scoped_writer path body).
Proof.
  intros Hb w. unfold scoped_writer. specialize (Hb (with_writer new_writer w)).
  destruct (body _) as [code w'|w'|what w'].
  - assert (ends 1 (bind (close_capture path) (λ _, ret code) : Cmd _)) as Hc by ends. specialize (Hc w').
    destruct (bind _ _ w') as [a w2|w2|e w2]; [by eapply leaves_trans| |by eapply leaves_trans].
    intros k Hk Ha. destruct Hb as [Hs Hl]. specialize (Hl k ltac:(lia) Ha).
    apply (armed_suffix k _ _ Hs) in Ha. revert Ha. apply Hc. lia.
  - intros k Hk. apply Hb. lia.
  - assert (ends 1 (bind (close_capture path) (λ _, throw what) : Cmd Z)) as Hc by ends. specialize (Hc w').
    destruct (bind _ _ w') as [a w2|w2|e w2]; [by eapply leaves_trans| |by eapply leaves_trans].
    intros k Hk Ha. destruct Hb as [Hs Hl]. specialize (Hl k ltac:(lia) Ha).
    apply (armed_suffix k _ _ Hs) in Ha. revert Ha. apply Hc. lia.
Qed.

Lemma ends_runRecord (opts : Options D) : ends 15 (runRecord proc opts : Cmd _).
Proof.
  unfold runRecord. apply (ends_scoped_writer 14).
  assert (∀ o : Options D, ends 11 (readTap proc o write_capture : Cmd _)) as Ht.
  { intros. apply ends_readTap. intros. apply ends_write_capture. }
  assert (∀ path st, ends 1 (finish_record path st : Cmd _)) as Hf by (intros; unfold finish_record; ends).
  ends.
Qed.

(** *** The replay *)

Lemma ends_open_recording path : ends 1 (open_recording path : Cmd _).
Proof. unfold open_recording. ends. Qed.

Lemma ends_pace (opts : Options D) started offset : ends 6 (pace speed_positive scale opts started offset : Cmd _).
Proof. unfold pace. destruct (speed_positive _); [|apply ends_ret]. ends_loop 3 @pace_turn. Qed.

#[local] Hint Resolve ends_open_recording ends_pace : ends.

Lemma ends_replay_loop (opts : Options D) started r :
  ends 14 (while_ (replay_turn speed_positive scale opts started) r : Cmd _).
Proof. ends_loop 7 @replay_turn. Qed.

#[local] Hint Resolve ends_replay_loop : ends.

Lemma ends_warning (b : bool) line : ends 0 ((if b then eprint line else ret ()) : Cmd _).
Proof. destruct b; ends. Qed.

#[local] Hint Resolve ends_warning : ends.

Lemma ends_runReplay (opts : Options D) : ends 19 (runReplay speed_positive scale proc opts : Cmd _).
Proof.
  unfold runReplay. eapply ends_bind; [eauto with ends|lia|]. intros [e|body]; [ends|].
  apply ends_scoped_session. ends.
Qed.

Lemma ends_run_command (opts : Options D) c :
  run_command speed_positive scale print_message localtime_r proc opts = Some c → ends 19 (c : Cmd _).
Proof.
  unfold run_command. destruct (o_command D opts); intros [= <-]; (eapply ends_weaken; [|solve [
    apply ends_runPublish | apply ends_runSubscribe | apply ends_runRequest | apply ends_runStats | apply ends_runTap |
    apply ends_runRecord | apply ends_runReplay]]); lia.
Qed.
End interruption.

(** ** Exit codes *)

Definition zero_or_one {W S} (code : Z) (_ : World W S) : Prop := code = 0%Z ∨ code = 1%Z.

Section codes.
Context {W : Type} `{!WorkerInterface W} {S : Type} `{!ZmqReceiver S} {PB : ProtobufRuntime} `{!ProtobufMessage StatsReport}.
Context {D : Type} (speed_positive : D → bool) (scale : Z → D → Z).
Context (print_message : string → string → option string) (localtime_r : Z → tm) (proc : Process).
Notation Cmd := (Cmd W S).

(** The result is of the kind [Q] whatever came before. *)
Definition always {A} (Q : A → World W S → Prop) (c : Cmd A) : Prop := ∀ w, post c Q w.

Lemma always_bind {A B} Q (c : Cmd A) (f : A → Cmd B) : (∀ a, always Q (f a)) → always Q (bind c f).
Proof. intros H w. apply post_bind. unfold post at 1. destruct (c w) as [a w'| |]; [apply H|done..]. Qed.

Lemma always_while {A B} Q (body : A → Cmd (A + B)) a :
  (∀ a, always (λ r w, match r with inl _ => True | inr b => Q b w end) (body a)) → always Q (while_ body a).
Proof. intros H w. apply (post_while (λ _ _, True)); [done|]. intros a' w' _. apply H. Qed.

Ltac codes := cbv zeta; repeat match goal with
  | |- always _ (bind _ _) => apply always_bind; intros; cbv zeta
  | |- always _ (match ?x with _ => _ end) => destruct x; cbv zeta
  | |- always _ (ret _) => intros ?; unfold post, zero_or_one; cbn; repeat case_match; auto
  | |- always _ (throw _) => intros ?; exact I
  end.

Lemma scoped_session_codes (body : Cmd Z) : always zero_or_one body → always zero_or_one (scoped_session body).
Proof.
  intros H w. specialize (H (with_session new_session w)). unfold post, scoped_session in *.
  destruct (body _) as [code w'| |what w']; [|done|]; unfold bind, close; by destruct (bs_open _).
Qed.

Lemma scoped_writer_codes path (body : Cmd Z) : always zero_or_one body → always zero_or_one (scoped_writer path body).
Proof.
  intros H w. specialize (H (with_writer new_writer w)). unfold post, scoped_writer in *.
  destruct (body _) as [code w'| |what w']; [|done|]; unfold bind; by destruct (close_capture path w').
Qed.

Lemma readTap_codes (opts : Options D) consume : always zero_or_one (readTap proc opts consume : Cmd _).
Proof. unfold readTap. codes. apply always_while. intros n. unfold tap_turn. codes. Qed.

Lemma run_command_codes (opts : Options D) c :
  run_command speed_positive scale print_message localtime_r proc opts = Some c → always zero_or_one (c : Cmd _).
Proof.
  unfold run_command. destruct (o_command D opts); intros [= <-].
  - apply scoped_session_codes. codes.
  - apply scoped_session_codes. codes.
  - apply scoped_session_codes. codes.
  - apply scoped_session_codes. codes.
  - apply readTap_codes.
  - apply scoped_writer_codes. apply always_bind; intros [e|u]; [codes|]. apply always_bind; intros _.
    intros w. apply post_bind. eapply post_mono; [apply readTap_codes|]. intros status w' Hs. unfold zero_or_one in Hs. revert w'.
    change (always zero_or_one (finish_record (arg 0 opts) status : Cmd Z)). unfold finish_record. codes.
  - unfold runReplay. apply always_bind; intros [e|body]; [codes|]. apply scoped_session_codes. codes.
Qed.
End codes.

(** ** What a command did

    [did w w' calls outs errs popped]: between the two the command made these calls of its
    session, wrote these lines, and took these messages out of what the broker sends. *)

(** What is in the session's queue and what is still to arrive. *)
Definition backlog {W S} (w : World W S) : list Envelope :=
  m_queue (bs_inbound (w_session w)) ++ concat (t_arrived <$> w_script w).

Record did {W S} (w w' : World W S) (calls : list Call) (outs errs : list string) (popped : list Envelope) : Prop := mkDid {
  did_calls : w_calls w' = w_calls w ++ calls;
  did_out : w_out w' = w_out w ++ outs;
  did_err : w_err w' = w_err w ++ errs;
  did_popped : backlog w = popped ++ backlog w';
  did_script : w_script w' `suffix_of` w_script w
}.

Section did.
Context {W : Type} `{!WorkerInterface W} {S : Type} `{!ZmqReceiver S} {PB : ProtobufRuntime} `{!ProtobufMessage StatsReport}.
Context {D : Type} (speed_positive : D → bool) (scale : Z → D → Z).
Context (print_message : string → string → option string) (localtime_r : Z → tm) (proc : Process).
Notation Cmd := (Cmd W S).
Notation World := (World W S).
Implicit Types (w : World) (opts : Options D).

Lemma did_refl w : did w w [] [] [] [].
Proof. split; rewrite ?app_nil_r; done. Qed.

Lemma did_trans w1 w2 w3 c1 o1 e1 p1 c2 o2 e2 p2 :
  did w1 w2 c1 o1 e1 p1 → did w2 w3 c2 o2 e2 p2 → did w1 w3 (c1 ++ c2) (o1 ++ o2) (e1 ++ e2) (p1 ++ p2).
Proof.
  intros [C1 O1 E1 P1 S1] [C2 O2 E2 P2 S2]. split.
  - by rewrite C2, C1, app_assoc.
  - by rewrite O2, O1, app_assoc.
  - by rewrite E2, E1, app_assoc.
  - by rewrite P1, P2, app_assoc.
  - by etrans.
Qed.

(** The session but for its queue. *)
Definition same_session w w' : Prop :=
  bs_open (w_session w') = bs_open (w_session w) ∧ bs_config (w_session w') = bs_config (w_session w).

Lemma post_look w :
  post look (λ t w', did w w' [] [] [] [] ∧ same_session w w' ∧ t ∈ w_script w ∧
    w_tap w' = w_tap w ∧ w_writer w' = w_writer w ∧ w_disk w' = w_disk w) w.
Proof.
  unfold post, look. destruct (w_script w) as [|t ts] eqn:E; [done|]. split_and!; try done; [|by left].
  split; cbn; rewrite ?app_nil_r; try done.
  - unfold backlog. rewrite E. cbn. by rewrite <-app_assoc.
  - rewrite E. by apply suffix_cons_r.
Qed.

Lemma post_eprint line w : post (eprint line) (λ _ w', did w w' [] [] [line] [] ∧ same_session w w') w.
Proof. split; [|done]. by split; cbn; rewrite ?app_nil_r. Qed.

Lemma post_print line w : post (print line) (λ _ w', did w w' [] [line] [] [] ∧ same_session w w') w.
Proof. split; [|done]. by split; cbn; rewrite ?app_nil_r. Qed.

Lemma post_interrupted w :
  post interrupted (λ b w', did w w' [] [] [] [] ∧ same_session w w' ∧
    (b = true → ∃ t, t ∈ w_script w ∧ t_interrupted t = true)) w.
Proof.
  apply post_bind. eapply post_mono; [apply post_look|]. intros t w' (Hd & Hs & Ht & _). split_and!; [done|done|eauto].
Qed.

Lemma post_now w : post now (λ _ w', did w w' [] [] [] [] ∧ same_session w w') w.
Proof. apply post_bind. eapply post_mono; [apply post_look|]. intros t w' (Hd & Hs & _). by split. Qed.

Lemma post_sync timeout w :
  post (sync timeout) (λ b w', did w w' [CSync b] [] [] [] ∧ same_session w w' ∧ (b = true → bs_open (w_session w) = true)) w.
Proof.
  unfold sync. apply post_bind. unfold post at 1, gets. destruct (bs_open (w_session w)) eqn:Eo.
  - apply post_bind. eapply post_mono; [apply post_look|]. intros t w1 (Hd & Hs & _). unfold post. cbn.
    split_and!; [|done|done]. destruct Hd as [C O E P SS]. split; cbn; try done. by rewrite C, app_nil_r.
  - unfold post. cbn. split_and!; try done. by split; cbn; rewrite ?app_nil_r.
Qed.

Lemma on_worker_keeps (f : W → bool * W) (s : @BrokerSession W) :
  bs_open (on_worker f s).2 = bs_open s ∧ bs_config (on_worker f s).2 = bs_config s ∧
  bs_inbound (on_worker f s).2 = bs_inbound s ∧ bs_subscriptions (on_worker f s).2 = bs_subscriptions s.
Proof. unfold on_worker. destruct (bs_open s) eqn:E, (bs_worker s) as [w|]; try done. by destruct (f w). Qed.

Lemma session_subscribe_keeps topic scope (s : @BrokerSession W) :
  bs_open (session_subscribe topic scope s).2 = bs_open s ∧ bs_config (session_subscribe topic scope s).2 = bs_config s ∧
  bs_inbound (session_subscribe topic scope s).2 = bs_inbound s.
Proof.
  unfold session_subscribe. pose proof (on_worker_keeps (writeControlMessage (subscribe_message topic scope s)) s) as H.
  destruct (on_worker _ s) as [[] s']; destruct H as (? & ? & ? & ?); by split_and!.
Qed.

Lemma recover_keeps (s : @BrokerSession W) :
  bs_open (recover s) = bs_open s ∧ bs_config (recover s) = bs_config s ∧ bs_inbound (recover s) = bs_inbound s.
Proof.
  unfold recover, sendControl. match goal with |- context [foldl ?f ?a ?l] => set (g := f); set (s0 := a) end.
  assert (bs_open s0 = bs_open s ∧ bs_config s0 = bs_config s ∧ bs_inbound s0 = bs_inbound s) as H by
    (unfold s0; split_and!; apply on_worker_keeps).
  generalize (bs_subscriptions s0). intros l. revert H. clearbody s0. revert s0.
  induction l as [|e l IH]; intros s0 H; [done|]. cbn [foldl]. apply IH. unfold g.
  pose proof (on_worker_keeps (writeControlMessage (subscribe_message e.1 e.2 s0)) s0) as (-> & -> & -> & _). done.
Qed.

(** An operation of the session that leaves its queue alone. *)
Lemma post_session_call {A} (f : @BrokerSession W → A * @BrokerSession W) (c : A → Call) w :
  bs_open (f (w_session w)).2 = bs_open (w_session w) → bs_config (f (w_session w)).2 = bs_config (w_session w) →
  bs_inbound (f (w_session w)).2 = bs_inbound (w_session w) →
  post (bind (on_session f) (λ a, bind (call (c a)) (λ _, ret a)))
    (λ a w', did w w' [c a] [] [] [] ∧ same_session w w') w.
Proof.
  intros Ho Hc Hi. unfold post, bind, on_session. destruct (f (w_session w)) as [a s] eqn:E. cbn in *.
  split; [|done]. split; cbn; rewrite ?app_nil_r; try done. unfold backlog. cbn. by rewrite Hi.
Qed.

Lemma post_subscribe topic scope w :
  post (subscribe topic scope) (λ b w', did w w' [CSubscribe topic scope b] [] [] [] ∧ same_session w w') w.
Proof. apply post_session_call; apply session_subscribe_keeps. Qed.

Lemma post_publish_envelope env w :
  post (publish_envelope env) (λ b w', did w w' [CPublish env b] [] [] [] ∧ same_session w w') w.
Proof. apply post_session_call; apply on_worker_keeps. Qed.

Lemma post_publish_message topic payload reply w :
  post (publish_message topic payload reply) (λ b w',
    did w w' [CPublish (published_envelope (cfg_clientId (bs_config (w_session w))) topic payload reply) b] [] [] [] ∧
    same_session w w') w.
Proof. apply post_bind. unfold post at 1, gets. apply post_session_call; apply on_worker_keeps. Qed.

(** Closing, and a session that is closed. *)
Lemma post_close w :
  post close (λ _ w', did w w' (if bs_open (w_session w) then [CClose] else []) [] [] [] ∧
    bs_open (w_session w') = false) w.
Proof.
  unfold post, close. destruct (bs_open (w_session w)) eqn:Eo; [|by split; [apply did_refl|]].
  unfold session_close. rewrite Eo. split; [|done]. split; cbn; rewrite ?app_nil_r; try done.
  unfold backlog. cbn. do 2 f_equal. symmetry. apply on_worker_keeps.
Qed.

Lemma same_refl w : same_session w w.
Proof. done. Qed.

Lemma same_trans w1 w2 w3 : same_session w1 w2 → same_session w2 w3 → same_session w1 w3.
Proof. intros [H1 H2] [H3 H4]. split; congruence. Qed.

Definition is_reset (env : Envelope) : Prop := handler_key (env_header env) = Keys.RESET.

#[global] Instance is_reset_dec env : Decision (is_reset env).
Proof. unfold is_reset. apply _. Defined.

Lemma post_session_pop w :
  post session_pop (λ o w', did w w' [] [] [] (option_list o) ∧ same_session w w') w.
Proof.
  unfold post, session_pop, on_session, try_pop. destruct (m_queue (bs_inbound (w_session w))) as [|env q] eqn:E; cbn.
  - split; [|done]. by split; cbn; rewrite ?app_nil_r.
  - split; [|done]. split; cbn; rewrite ?app_nil_r; try done. unfold backlog. by rewrite E.
Qed.

(** Some messages [__RESET__], each answered, and then the one received. *)
Definition received w (o : option Envelope) w' : Prop :=
  (∃ resets, did w w' (replicate (length resets) CRecover) [] [] (resets ++ option_list o) ∧
    Forall is_reset resets ∧ Forall (λ env, ¬ is_reset env) (option_list o)) ∧ same_session w w'.

Lemma post_receive_turn deadline u w :
  post (receive_turn deadline u) (λ r w',
    match r with
    | inl _ => ∃ resets, did w w' (replicate (length resets) CRecover) [] [] resets ∧ Forall is_reset resets ∧ same_session w w'
    | inr o => received w o w'
    end) w.
Proof.
  unfold receive_turn. apply post_bind. eapply post_mono; [apply post_look|]. intros t w1 (H1 & Hs1 & _).
  assert (∀ w2, did w1 w2 [] [] [] [] → same_session w1 w2 → received w None w2) as Hnone.
  { intros w2 H2 Hs2. split; [|by eapply same_trans]. exists []. split; [by eapply (did_trans _ _ _ [] [] [] [])|].
    by split; apply Forall_nil_2. }
  destruct (t_interrupted t); [apply Hnone; [apply did_refl|apply same_refl]|].
  apply post_bind. eapply post_mono; [apply post_session_pop|]. intros o w2 [H2 Hs2].
  destruct o as [env|].
  - destruct (decide (handler_key (env_header env) = Keys.RESET)) as [Hr|Hr]; unfold post; cbn.
    + exists [env]. destruct (recover_keeps (w_session w2)) as (Ho & Hc & Hi).
      pose proof (did_trans _ _ _ _ _ _ _ _ _ _ _ H1 H2) as [C O E P SS]. split_and!.
      * split; cbn in *; try done. by rewrite C, app_nil_r.
        rewrite P. unfold backlog. cbn. by rewrite Hi.
      * by apply Forall_singleton.
      * split; cbn; rewrite ?Ho, ?Hc; [transitivity (bs_open (w_session w1))|transitivity (bs_config (w_session w1))];
          first [apply Hs2|apply Hs1].
    + split; [|by eapply same_trans]. exists []. split; [|split; [apply Forall_nil_2|by apply Forall_singleton]].
      exact (did_trans _ _ _ _ _ _ _ _ _ _ _ H1 H2).
  - case_decide; [by apply Hnone|]. exists []. split; [by eapply (did_trans _ _ _ [] [] [] [])|].
    split; [apply Forall_nil_2|by eapply same_trans].
Qed.

Lemma post_receive timeout w : post (receive timeout) (received w) w.
Proof.
  unfold receive. apply post_bind. unfold post at 1, gets. destruct (bs_open (w_session w)) eqn:Eo.
  - apply post_bind. eapply post_mono; [apply post_now|]. intros start w1 [H1 Hs1].
    eapply (post_while (λ _ w2, ∃ resets, did w w2 (replicate (length resets) CRecover) [] [] resets ∧
      Forall is_reset resets ∧ same_session w w2)); [exists []; by split_and!; [|apply Forall_nil_2|]|].
    intros u w2 (rs & H2 & Hr & Hs2). eapply post_mono; [apply post_receive_turn|]. intros [u'|o] w3.
    + intros (rs' & H3 & Hr' & Hs3). exists (rs ++ rs'). split_and!; [|by apply Forall_app|by eapply same_trans].
      rewrite length_app, replicate_add. exact (did_trans _ _ _ _ _ _ _ _ _ _ _ H2 H3).
    + intros ((rs' & H3 & Hr' & Ho) & Hs3). split; [|by eapply same_trans]. exists (rs ++ rs').
      split_and!; [|by apply Forall_app|done]. rewrite length_app, replicate_add, <-app_assoc.
      exact (did_trans _ _ _ _ _ _ _ _ _ _ _ H2 H3).
  - split; [|apply same_refl]. exists []. split; [apply did_refl|]. by split; apply Forall_nil_2.
Qed.

(** *** Sessions *)

(** What the log level change leaves alone. *)
Lemma post_applyLogLevel opts w : post (applyLogLevel proc opts) (λ _ w', did w w' [] [] [] [] ∧ same_session w w' ∧
  w_tap w' = w_tap w ∧ w_writer w' = w_writer w ∧ w_disk w' = w_disk w) w.
Proof.
  unfold applyLogLevel. assert (∀ l, did w (with_minLevel l w) [] [] [] []) as H by (intros; split; cbn; rewrite ?app_nil_r; done).
  destruct (o_verbose D opts); [by split_and!|]. destruct (p_logLevel proc); split_and!; try done. apply did_refl.
Qed.

Lemma post_openSession opts w :
  bs_open (w_session w) = false →
  post (openSession proc opts) (λ b w',
    if (b : bool) then did w w' [COpen (o_address D opts) (session_id proc opts); CSync true] [] [] [] ∧
      bs_open (w_session w') = true ∧ cfg_clientId (bs_config (w_session w')) = session_id proc opts
    else ∃ err, (did w w' [] [] [err] [] ∧ bs_open (w_session w') = false) ∨
      (did w w' [COpen (o_address D opts) (session_id proc opts); CSync false] [] [err] [] ∧ bs_open (w_session w') = true)) w.
Proof.
  intros Hclosed. unfold openSession. apply post_bind. eapply post_mono; [apply post_applyLogLevel|].
  intros _ w1 (H1 & Hs1 & _). apply post_bind. unfold open. apply post_bind. eapply post_mono; [apply post_look|].
  intros t w2 (H2 & Hs2 & _). pose proof (did_trans _ _ _ _ _ _ _ _ _ _ _ H1 H2) as H. clear H1 H2. cbn [app] in H.
  destruct (t_error t) as [[b what]|].
  - unfold post, bind, modify, ret, eprint. cbn. eexists. left. split.
    + destruct H as [C O E P SS]. split; cbn; try done. by rewrite E, app_nil_r.
    + destruct Hs1 as [E1 _], Hs2 as [E2 _]. congruence.
  - apply post_bind, post_modify, post_bind, post_call, post_ret.
    match goal with |- context [with_calls ?v ?x] => set (w3 := with_calls v x) end.
    assert (did w w3 [COpen (o_address D opts) (session_id proc opts)] [] [] [] ∧ bs_open (w_session w3) = true ∧
      cfg_clientId (bs_config (w_session w3)) = session_id proc opts) as (H3 & Ho & Hid).
    { split; [|done]. destruct H as [C O E P SS]. split; unfold w3; cbn; try done. by rewrite C, app_nil_r. }
    clearbody w3. apply post_bind. eapply post_mono; [apply post_sync|]. intros [|] w4 (H4 & [Hs4 Hc4] & _).
    + cbn. split; [exact (did_trans _ _ _ _ _ _ _ _ _ _ _ H3 H4)|]. split; congruence.
    + unfold post. cbn. eexists. right. split; [|cbn; congruence].
      pose proof (did_trans _ _ _ _ _ _ _ _ _ _ _ H3 H4) as [C O E P SS]. split; cbn; try done. by rewrite E, app_nil_r.
Qed.

Lemma post_scoped_session (body : Cmd Z) Q w :
  post body (λ code w1, ∀ w2, did w1 w2 (if bs_open (w_session w1) then [CClose] else []) [] [] [] →
    bs_open (w_session w2) = false → Q code w2) (with_session new_session w) →
  post (scoped_session body) Q w.
Proof.
  unfold post, scoped_session. destruct (body _) as [code w1|w1|what w1]; [|done|].
  - intros H. pose proof (post_close w1) as Hc. unfold post, bind in *. destruct (close w1) as [u w2| |]; [|done..].
    destruct Hc. by apply H.
  - intros _. unfold bind. pose proof (post_close w1) as Hc. unfold post in Hc. destruct (close w1) as [u w2| |]; exact I.
Qed.

Lemma post_subscribe_all topics scope w :
  post (subscribe_all topics scope) (λ _ w', ∃ taken, length taken = length topics ∧
    did w w' (zip_with (λ t b, CSubscribe t scope b) topics taken) [] [] [] ∧ same_session w w') w.
Proof.
  revert w. induction topics as [|t topics IH]; intros w; cbn [subscribe_all].
  - exists []. split; [done|]. split; [apply did_refl|apply same_refl].
  - apply post_bind. eapply post_mono; [apply post_subscribe|]. intros b w1 [H1 Hs1].
    eapply post_mono; [apply IH|]. intros u w2 (taken & Hl & H2 & Hs2). exists (b :: taken). cbn. split; [by rewrite Hl|].
    split; [exact (did_trans _ _ _ _ _ _ _ _ _ _ _ H1 H2)|by eapply same_trans].
Qed.

(** *** Messages printed *)

(** A line printed for a message. *)
Definition printed opts (env : Envelope) (line : string) : Prop :=
  if decide (o_format D opts = Raw) then line = env_payload env
  else ∃ when, line = message_line print_message when (env_header env) (env_payload env) opts.

Lemma post_printMessageLine env opts w :
  post (printMessageLine print_message localtime_r (env_header env) (env_payload env) opts)
    (λ _ w', ∃ line, did w w' [] [line] [] [] ∧ same_session w w' ∧ printed opts env line) w.
Proof.
  unfold printMessageLine, printed. destruct (decide (o_format D opts = Raw)).
  - eexists. split_and!; [by split; cbn; rewrite ?app_nil_r|done|done].
  - apply post_bind. unfold stamp. apply post_bind. eapply post_mono; [apply post_look|]. intros t w1 (H1 & Hs1 & _).
    unfold post. cbn. eexists. split_and!; [|exact Hs1|by eexists].
    destruct H1 as [C O E P SS]. split; cbn; try done. by rewrite O, app_nil_r.
Qed.

(** A loop has stopped as it should: enough, or interrupted. *)
Definition stopped (limit : Z) (n : nat) w : Prop :=
  (limit ≠ 0%Z ∧ (limit ≤ Z.of_nat n)%Z) ∨ ∃ t, t ∈ w_script w ∧ t_interrupted t = true.

Definition sub_inv opts w0 (delivered : Z) w : Prop :=
  ∃ popped outs k, did w0 w (replicate k CRecover) outs [] popped ∧ same_session w0 w ∧
    Forall2 (printed opts) (filter (λ env, ¬ is_reset env) popped) outs ∧ delivered = Z.of_nat (length outs) ∧
    (o_count D opts = 0%Z ∨ (delivered ≤ o_count D opts)%Z).

Lemma filter_resets resets (o : option Envelope) :
  Forall is_reset resets → Forall (λ env, ¬ is_reset env) (option_list o) →
  filter (λ env, ¬ is_reset env) (resets ++ option_list o) = option_list o.
Proof.
  intros Hr Ho. rewrite filter_app.
  assert (filter (λ env, ¬ is_reset env) resets = []) as ->.
  { induction Hr; [done|]. rewrite filter_cons_False; auto. }
  destruct o as [env|]; [|done]. apply Forall_cons in Ho as [Ho _].
  change (filter (λ env, ¬ is_reset env) [env] = [env]). rewrite filter_cons_True by exact Ho. reflexivity.
Qed.

Lemma post_subscribe_turn opts w0 delivered w :
  (0 ≤ o_count D opts)%Z → sub_inv opts w0 delivered w →
  post (subscribe_turn print_message localtime_r opts delivered) (λ r w',
    match r with
    | inl d => sub_inv opts w0 d w'
    | inr d => sub_inv opts w0 d w' ∧ stopped (o_count D opts) (Z.to_nat d) w0
    end) w.
Proof.
  intros Hc (popped & outs & k & H & Hs & Hp & Hd & Hle). unfold subscribe_turn. apply post_bind.
  eapply post_mono; [apply post_interrupted|]. intros stop w1 (H1 & Hs1 & Ht).
  pose proof (did_trans _ _ _ _ _ _ _ _ _ _ _ H H1) as H'. rewrite !app_nil_r in H'.
  assert (same_session w0 w1) as Hs' by (by eapply same_trans).
  destruct (stop || negb (wanted (o_count D opts) delivered)) eqn:Estop.
  - split; [by exists popped, outs, k|]. unfold stopped. apply orb_true_iff in Estop as [->|Hw].
    + right. destruct (Ht eq_refl) as (t & Hin & Hi). exists t. split; [|done].
      destruct (did_script _ _ _ _ _ _ H) as [u ->]. apply elem_of_app. by right.
    + left. apply negb_true_iff, orb_false_iff in Hw as [H1'%bool_decide_eq_false H2'%bool_decide_eq_false]. lia.
  - apply orb_false_iff in Estop as [_ Hw%negb_false_iff]. apply post_bind. eapply post_mono; [apply post_receive|].
    intros o w2 ((resets & H2 & Hr & Ho) & Hs2).
    pose proof (did_trans _ _ _ _ _ _ _ _ _ _ _ H' H2) as H''. rewrite <-replicate_add, !app_nil_r in H''.
    destruct o as [env|].
    + apply post_bind. eapply post_mono; [apply post_printMessageLine|]. intros _ w3 (line & H3 & Hs3 & Hl).
      pose proof (did_trans _ _ _ _ _ _ _ _ _ _ _ H'' H3) as H3'. rewrite !app_nil_r in H3'.
      exists (popped ++ resets ++ option_list (Some env)), (outs ++ [line]), (k + length resets). split_and!; [done|by do 2 eapply same_trans| | |].
      * rewrite filter_app. apply Forall2_app; [done|]. rewrite (filter_resets resets (Some env)) by done. by apply Forall2_cons_2.
      * rewrite length_app. cbn. lia.
      * apply orb_true_iff in Hw as [Hw%bool_decide_eq_true|Hw%bool_decide_eq_true]; [by left|right; lia].
    + exists (popped ++ resets ++ option_list None), outs, (k + length resets). split_and!; [done|by eapply same_trans| |done|done].
      rewrite filter_app. rewrite (filter_resets resets None) by done. by rewrite app_nil_r.
Qed.

(** *** Whole commands *)

(** A fresh session has taken nothing yet. *)
Lemma backlog_fresh w : backlog (with_session new_session w) = concat (t_arrived <$> w_script w).
Proof. done. Qed.

Lemma did_fresh w w' calls outs errs popped :
  did (with_session new_session w) w' calls outs errs popped →
  w_calls w' = w_calls w ++ calls ∧ w_out w' = w_out w ++ outs ∧ w_err w' = w_err w ++ errs ∧
  concat (t_arrived <$> w_script w) = popped ++ backlog w' ∧ w_script w' `suffix_of` w_script w.
Proof. by intros [C O E P SS]. Qed.

(** After an opened session: [post_after] adds what follows to what was done. *)
Lemma post_after {A B} (c : Cmd A) (f : A → Cmd B) (R : A → World → Prop) Q w :
  post c R w → (∀ a w', R a w' → post (f a) Q w') → post (bind c f) Q w.
Proof. intros Hc Hf. apply post_bind. eapply post_mono; [exact Hc|]. exact Hf. Qed.

Definition publish_calls opts : list Call :=
  [COpen (o_address D opts) (session_id proc opts); CSync true;
   CPublish (published_envelope (session_id proc opts) (arg 0 opts) (payloadArgument proc opts) EmptyString) true;
   CSync true; CClose].

(** The calls of a publish that failed. *)
Definition publish_failures opts : list (list Call) :=
  let open := COpen (o_address D opts) (session_id proc opts) in
  let msg := published_envelope (session_id proc opts) (arg 0 opts) (payloadArgument proc opts) EmptyString in
  [[]; [open; CSync false; CClose]; [open; CSync true; CPublish msg false; CClose];
   [open; CSync true; CPublish msg true; CSync false; CClose]].

Lemma runPublish_post opts w :
  post (runPublish proc opts) (λ code w',
    bs_open (w_session w') = false ∧ w_out w' = w_out w ∧
    ((code = 0%Z ∧ w_err w' = w_err w ∧ w_calls w' = w_calls w ++ publish_calls opts) ∨
     (code = 1%Z ∧ (∃ err, w_err w' = w_err w ++ [err]) ∧
      ∃ calls, w_calls w' = w_calls w ++ calls ∧ calls ∈ publish_failures opts))) w.
Proof.
  apply post_scoped_session. set (w0 := with_session new_session w).
  assert (∀ w1 calls err, did w0 w1 calls [] [err] [] →
    (calls ++ if bs_open (w_session w1) then [CClose] else []) ∈ publish_failures opts →
    ∀ w2, did w1 w2 (if bs_open (w_session w1) then [CClose] else []) [] [] [] → bs_open (w_session w2) = false →
    bs_open (w_session w2) = false ∧ w_out w2 = w_out w ∧
    ((1%Z = 0%Z ∧ w_err w2 = w_err w ∧ w_calls w2 = w_calls w ++ publish_calls opts) ∨
     (1%Z = 1%Z ∧ (∃ err, w_err w2 = w_err w ++ [err]) ∧
      ∃ calls, w_calls w2 = w_calls w ++ calls ∧ calls ∈ publish_failures opts))) as Hfail.
  { intros w1 calls err H1 Hin w2 H2 Hc. destruct (did_fresh _ _ _ _ _ _ (did_trans _ _ _ _ _ _ _ _ _ _ _ H1 H2)) as (C & O & E & _).
    rewrite !app_nil_r in *. split_and!; [done|done|]. right. split_and!; [done|by exists err|]. by eexists. }
  eapply post_after; [by apply post_openSession|]. intros [|] w1; cbn [negb].
  2: { intros [err [[H Ho]|[H Ho]]]; apply post_ret; (eapply Hfail; [exact H|]); rewrite Ho; set_solver. }
  intros (H1 & Ho1 & Hid). eapply post_after; [apply post_publish_message|]. intros [|] w2 [H2 [Ho2 _]]; rewrite Hid in H2;
    pose proof (did_trans _ _ _ _ _ _ _ _ _ _ _ H1 H2) as H; cbn [negb app] in *.
  2: { eapply post_after; [apply post_eprint|]. intros _ w3 [H3 [Ho3 _]]. apply post_ret.
       eapply Hfail; [exact (did_trans _ _ _ _ _ _ _ _ _ _ _ H H3)|]. rewrite Ho3, Ho2, Ho1. set_solver. }
  eapply post_after; [apply post_sync|]. intros [|] w3 (H3 & [Ho3 _] & _); cbn [negb].
  2: { eapply post_after; [apply post_eprint|]. intros _ w4 [H4 [Ho4 _]]. apply post_ret.
       eapply Hfail; [exact (did_trans _ _ _ _ _ _ _ _ _ _ _ (did_trans _ _ _ _ _ _ _ _ _ _ _ H H3) H4)|].
       rewrite Ho4, Ho3, Ho2, Ho1. set_solver. }
  eapply post_after; [apply post_close|]. intros _ w4 [H4 Hc4]. apply post_ret. rewrite Hc4. intros w5 H5 Hc5.
  rewrite Ho3, Ho2, Ho1 in H4.
  destruct (did_fresh _ _ _ _ _ _ (did_trans _ _ _ _ _ _ _ _ _ _ _ (did_trans _ _ _ _ _ _ _ _ _ _ _
    (did_trans _ _ _ _ _ _ _ _ _ _ _ H H3) H4) H5)) as (C & O & E & _).
  rewrite !app_nil_r in *. split_and!; [done|done|]. by left.
Qed.

(** Nothing printed yet, and the subscriptions confirmed. *)
Definition subscribe_calls opts (taken : list bool) : list Call :=
  [COpen (o_address D opts) (session_id proc opts); CSync true] ++
  zip_with (λ t b, CSubscribe t (o_origin D opts) b) (o_args D opts) taken ++ [CSync true].

Lemma runSubscribe_post opts w :
  (0 ≤ o_count D opts)%Z →
  post (runSubscribe print_message localtime_r proc opts) (λ code w',
    bs_open (w_session w') = false ∧
    (code = 0%Z → ∃ popped outs taken k,
       concat (t_arrived <$> w_script w) = popped ++ backlog w' ∧
       w_out w' = w_out w ++ outs ∧ w_err w' = w_err w ∧ length taken = length (o_args D opts) ∧
       w_calls w' = w_calls w ++ subscribe_calls opts taken ++ replicate k CRecover ++ [CClose] ∧
       Forall2 (printed opts) (filter (λ env, ¬ is_reset env) popped) outs ∧
       (o_count D opts = 0%Z ∨ (Z.of_nat (length outs) ≤ o_count D opts)%Z) ∧
       stopped (o_count D opts) (length outs) w)) w.
Proof.
  intros Hcount. apply post_scoped_session. set (w0 := with_session new_session w).
  eapply post_after; [by apply post_openSession|]. intros [|] w1; cbn [negb]; [|intros _; apply post_ret; by intros].
  intros (H1 & Ho1 & _). eapply post_after; [apply post_subscribe_all|]. intros _ w2 (taken & Hlen & H2 & [Ho2 _]).
  eapply post_after; [apply post_sync|]. intros [|] w3 (H3 & [Ho3 _] & _); cbn [negb].
  2: { eapply post_after; [apply post_eprint|]. intros _ w4 _. apply post_ret. by intros. }
  pose proof (did_trans _ _ _ _ _ _ _ _ _ _ _ H1 (did_trans _ _ _ _ _ _ _ _ _ _ _ H2 H3)) as H. cbn [app] in H.
  eapply post_after.
  { eapply (post_while (sub_inv opts w3)); [|intros; by apply post_subscribe_turn].
    exists [], [], 0. split_and!; [apply did_refl|apply same_refl|by apply Forall2_nil_2|done|lia]. }
  intros d w4 [(popped & outs & k & H4 & [Ho4 _] & Hp & -> & Hle) Hst]. rewrite Nat2Z.id in Hst.
  eapply post_after; [apply post_close|]. intros _ w5 [H5 Hc5]. apply post_ret. rewrite Hc5. intros w6 H6 Hc6. split; [done|].
  intros _. exists popped, outs, taken, k. rewrite Ho4, Ho3, Ho2, Ho1 in H5.
  destruct (did_fresh _ _ _ _ _ _ (did_trans _ _ _ _ _ _ _ _ _ _ _ H (did_trans _ _ _ _ _ _ _ _ _ _ _ H4
    (did_trans _ _ _ _ _ _ _ _ _ _ _ H5 H6)))) as (C & O & E & P & _).
  rewrite ?app_nil_r in *. split_and!; try done. destruct Hst as [?|(t & Ht & Hi)]; [by left|right]. exists t. split; [|done].
  destruct (did_script _ _ _ _ _ _ H) as [u Hu]. change (w_script w) with (w_script w0). rewrite Hu. apply elem_of_app. by right.
Qed.

(** What [req] prints of the reply. *)
Definition reply_text (payload : string) opts : string :=
  if decide (o_format D opts = Raw) then payload
  else renderPayload print_message payload (o_format D opts) (o_maxBytes D opts) +:+ newline.

Lemma post_print_reply payload opts w :
  post (print_reply print_message payload opts) (λ _ w', did w w' [] [reply_text payload opts] [] [] ∧ same_session w w') w.
Proof. unfold print_reply, writeRaw, reply_text. case_decide; apply post_print. Qed.

Definition no_reply (replyTopic : string) (env : Envelope) : Prop := is_reset env ∨ topic (env_header env) ≠ replyTopic.

Lemma no_reply_resets replyTopic resets : Forall is_reset resets → Forall (no_reply replyTopic) resets.
Proof. intros H. eapply Forall_impl; [exact H|]. by left. Qed.

Definition waiting_for (replyTopic : string) w0 (_ : ()) w : Prop :=
  ∃ popped k, did w0 w (replicate k CRecover) [] [] popped ∧ Forall (no_reply replyTopic) popped ∧ same_session w0 w.

Definition replied opts (replyTopic : string) w0 w : Prop :=
  ∃ popped env k, did w0 w (replicate k CRecover ++ if bs_open (w_session w0) then [CClose] else [])
      [reply_text (env_payload env) opts] [] (popped ++ [env]) ∧
    Forall (no_reply replyTopic) popped ∧ ¬ is_reset env ∧ topic (env_header env) = replyTopic ∧
    bs_open (w_session w) = false.

Lemma post_request_turn opts replyTopic deadline w0 u w :
  waiting_for replyTopic w0 u w →
  post (request_turn print_message opts replyTopic deadline u) (λ r w',
    match r with
    | inl u => waiting_for replyTopic w0 u w'
    | inr false => waiting_for replyTopic w0 () w'
    | inr true => replied opts replyTopic w0 w'
    end) w.
Proof.
  intros (popped & k & H & Hf & Hs). unfold request_turn.
  eapply post_after; [apply post_interrupted|]. intros stop w1 (H1 & Hs1 & _).
  pose proof (did_trans _ _ _ _ _ _ _ _ _ _ _ H H1) as H'. rewrite !app_nil_r in H'.
  destruct stop; [apply post_ret; exists popped, k; split_and!; [done|done|by eapply same_trans]|].
  eapply post_after; [apply post_now|]. intros t w2 [H2 Hs2].
  pose proof (did_trans _ _ _ _ _ _ _ _ _ _ _ H' H2) as H''. rewrite !app_nil_r in H''.
  assert (same_session w0 w2) as Hs' by (by do 2 (eapply same_trans; [done|])).
  destruct (decide (deadline ≤ t)%Z); [apply post_ret; by exists popped, k|].
  eapply post_after; [apply post_receive|]. intros o w3 ((resets & H3 & Hr & Ho) & Hs3).
  pose proof (did_trans _ _ _ _ _ _ _ _ _ _ _ H'' H3) as H3'. rewrite <-replicate_add in H3'.
  assert (same_session w0 w3) as Hs3' by (by eapply same_trans). destruct o as [env|].
  - case_decide as Htopic.
    + apply post_ret. eexists _, _. split_and!; [exact H3'| |done]. apply Forall_app. split; [done|]. apply Forall_app.
      split; [by apply no_reply_resets|]. apply Forall_cons_2; [by right|apply Forall_nil_2].
    + eapply post_after; [apply post_print_reply|]. intros _ w4 [H4 Hs4]. eapply post_after; [apply post_close|].
      intros _ w5 [H5 Hc]. apply post_ret. exists (popped ++ resets), env, (k + length resets).
      assert (bs_open (w_session w4) = bs_open (w_session w0)) as Eo by (destruct Hs3', Hs4; congruence). rewrite Eo in H5.
      apply Forall_cons in Ho as [Ho _].
      split_and!; [|by apply Forall_app; split; [|apply no_reply_resets]|done|done|done].
      pose proof (did_trans _ _ _ _ _ _ _ _ _ _ _ H3' (did_trans _ _ _ _ _ _ _ _ _ _ _ H4 H5)) as H6.
      rewrite !app_nil_r in H6. by rewrite <-app_assoc.
  - apply post_ret. rewrite !app_nil_r in H3'. eexists _, _. split_and!; [exact H3'| |done].
    apply Forall_app. split; [done|]. by apply no_reply_resets.
Qed.

(** A request that was answered: the calls before the answer, in their order. *)
Definition request_calls opts (taken : bool) : list Call :=
  let reply := request_reply_topic proc (arg 0 opts) in
  [COpen (o_address D opts) (session_id proc opts); CSync true; CSubscribe reply Origins.Any taken; CSync true;
   CPublish (published_envelope (session_id proc opts) (arg 0 opts) (payloadArgument proc opts) reply) true].

(** A command that gave up with one complaint has printed nothing else. *)
Lemma did_failed w w1 w2 calls c err popped :
  did (with_session new_session w) w1 calls [] [err] popped → did w1 w2 c [] [] [] →
  w_out w2 = w_out w ∧ ∃ err, w_err w2 = w_err w ++ [err].
Proof.
  intros H1 H2. destruct (did_fresh _ _ _ _ _ _ (did_trans _ _ _ _ _ _ _ _ _ _ _ H1 H2)) as (_ & O & E & _).
  rewrite !app_nil_r in *. split; [done|]. by exists err.
Qed.

Lemma runRequest_post opts w :
  post (runRequest print_message proc opts) (λ code w',
    bs_open (w_session w') = false ∧
    (code = 0%Z → ∃ popped env taken k,
       concat (t_arrived <$> w_script w) = popped ++ env :: backlog w' ∧
       Forall (no_reply (request_reply_topic proc (arg 0 opts))) popped ∧ ¬ is_reset env ∧
       topic (env_header env) = request_reply_topic proc (arg 0 opts) ∧
       w_out w' = w_out w ++ [reply_text (env_payload env) opts] ∧ w_err w' = w_err w ∧
       w_calls w' = w_calls w ++ request_calls opts taken ++ replicate k CRecover ++ [CClose]) ∧
    (code ≠ 0%Z → w_out w' = w_out w ∧ ∃ err, w_err w' = w_err w ++ [err])) w.
Proof.
  apply post_scoped_session. set (w0 := with_session new_session w).
  eapply post_after; [by apply post_openSession|]. intros [|] w1; cbn [negb].
  2: { intros [err [[H Ho]|[H Ho]]]; apply post_ret; intros w2 H2 Hc; (split_and!; [done|done|intros _; by eapply did_failed]). }
  intros (H1 & Ho1 & Hid). cbv zeta. eapply post_after; [apply post_subscribe|]. intros taken w2 [H2 [Ho2 Hc2]].
  eapply post_after; [apply post_sync|]. intros [|] w3 (H3 & [Ho3 Hc3] & _); cbn [negb];
    pose proof (did_trans _ _ _ _ _ _ _ _ _ _ _ H1 (did_trans _ _ _ _ _ _ _ _ _ _ _ H2 H3)) as H; cbn [app] in H.
  2: { eapply post_after; [apply post_eprint|]. intros _ w4 [H4 _]. apply post_ret. intros w5 H5 Hc. split_and!; [done|done|].
       intros _. eapply did_failed; [exact (did_trans _ _ _ _ _ _ _ _ _ _ _ H H4)|done]. }
  eapply post_after; [apply post_publish_message|]. intros [|] w4 [H4 [Ho4 Hc4]]; cbn [negb];
    pose proof (did_trans _ _ _ _ _ _ _ _ _ _ _ H H4) as H'; cbn [app] in H'.
  2: { eapply post_after; [apply post_eprint|]. intros _ w5 [H5 _]. apply post_ret. intros w6 H6 Hc. split_and!; [done|done|].
       intros _. eapply did_failed; [exact (did_trans _ _ _ _ _ _ _ _ _ _ _ H' H5)|done]. }
  eapply post_after; [apply post_now|]. intros start w5 [H5 [Ho5 Hc5]].
  pose proof (did_trans _ _ _ _ _ _ _ _ _ _ _ H' H5) as H''. cbn [app] in H''.
  eapply post_after.
  { eapply (post_while (waiting_for (request_reply_topic proc (arg 0 opts)) w5)); [|intros; by apply post_request_turn].
    exists [], 0. split_and!; [apply did_refl|apply Forall_nil_2|apply same_refl]. }
  intros [|] w6.
  - intros (popped & env & k & H6 & Hn & Hr & Ht & Hc6). apply post_ret. rewrite Hc6. intros w7 H7 Hc7. split_and!; [done| |done].
    intros _. exists popped, env, taken, k. rewrite Ho5, Ho4, Ho3, Ho2, Ho1 in H6.
    destruct (did_fresh _ _ _ _ _ _ (did_trans _ _ _ _ _ _ _ _ _ _ _ H'' (did_trans _ _ _ _ _ _ _ _ _ _ _ H6 H7))) as (C & O & E & P & _).
    rewrite !app_nil_r in *. cbn [app] in P. rewrite <-app_assoc in P. split_and!; try done.
    rewrite C, Hc3, Hc2, Hid. done.
  - intros (popped & k & H6 & _). eapply post_after; [apply post_eprint|]. intros _ w7 [H7 _]. apply post_ret.
    intros w8 H8 Hc. split_and!; [done|done|]. intros _.
    pose proof (did_trans _ _ _ _ _ _ _ _ _ _ _ H'' (did_trans _ _ _ _ _ _ _ _ _ _ _ H6 H7)) as H9. by eapply did_failed.
Qed.
End did.

(** ** Properties *)


(** C18: An exit status of zero from [pub] means the broker has the message.  A run of it
    that returns has left the session closed and printed nothing to standard output, and
    either returned zero, having published the one message asked for and had a [sync] behind
    it answered, or returned one with one line on standard error, and then the message was
    not taken or not confirmed. *)
Theorem publish_confirmed {W} `{!WorkerInterface W} {S} {D} proc (opts : Options D) (w w' : World W S) code :
  runPublish proc opts w = Ret code w' →
  bs_open (w_session w') = false ∧ w_out w' = w_out w ∧
  ((code = 0%Z ∧ w_err w' = w_err w ∧ w_calls w' = w_calls w ++ publish_calls proc opts) ∨
   (code = 1%Z ∧ (∃ err, w_err w' = w_err w ++ [err]) ∧
    ∃ calls, w_calls w' = w_calls w ++ calls ∧ calls ∈ publish_failures proc opts)).
Proof. intros E. pose proof (runPublish_post (λ _ _, None) proc opts w) as H. unfold post in H. by rewrite E in H. Qed.

(** C19: [sub] prints what arrives, all of it and in order.  When it returns zero, its
    subscriptions were confirmed before anything was printed, and the lines it printed are,
    one for one and in order, the messages taken from the session's queue, the [__RESET__]s
    apart, each of which was answered by subscribing again; what it did not print is still
    in the queue or has not arrived.  It stopped at the count asked for or because the user
    interrupted. *)
Theorem subscribe_prints {W} `{!WorkerInterface W} {S} {D} print_message localtime_r proc (opts : Options D) (w w' : World W S) :
  (0 ≤ o_count D opts)%Z → runSubscribe print_message localtime_r proc opts w = Ret 0%Z w' →
  bs_open (w_session w') = false ∧ ∃ popped outs taken k,
    concat (t_arrived <$> w_script w) = popped ++ backlog w' ∧
    w_out w' = w_out w ++ outs ∧ w_err w' = w_err w ∧ length taken = length (o_args D opts) ∧
    w_calls w' = w_calls w ++ subscribe_calls proc opts taken ++ replicate k CRecover ++ [CClose] ∧
    Forall2 (printed print_message opts) (filter (λ env, ¬ is_reset env) popped) outs ∧
    (o_count D opts = 0%Z ∨ (Z.of_nat (length outs) ≤ o_count D opts)%Z) ∧
    stopped (o_count D opts) (length outs) w.
Proof.
  intros Hc E. pose proof (runSubscribe_post print_message localtime_r proc opts w Hc) as H. unfold post in H.
  rewrite E in H. destruct H as [H1 H2]. split; [done|by apply H2].
Qed.

(** [req] prints the first reply and nothing else.  When it returns zero, it subscribed
    to the reply topic, had that confirmed, and only then sent the request; what it printed
    is the payload of the first message on the reply topic, and everything taken from the
    queue before it was on another topic or a [__RESET__].  Otherwise nothing was printed but
    one line on standard error.  The session is closed either way. *)
Theorem request_answered {W} `{!WorkerInterface W} {S} {D} print_message proc (opts : Options D) (w w' : World W S) code :
  runRequest print_message proc opts w = Ret code w' →
  bs_open (w_session w') = false ∧
  (code = 0%Z → ∃ popped env taken k,
     concat (t_arrived <$> w_script w) = popped ++ env :: backlog w' ∧
     Forall (no_reply (request_reply_topic proc (arg 0 opts))) popped ∧ ¬ is_reset env ∧
     topic (env_header env) = request_reply_topic proc (arg 0 opts) ∧
     w_out w' = w_out w ++ [reply_text print_message (env_payload env) opts] ∧ w_err w' = w_err w ∧
     w_calls w' = w_calls w ++ request_calls proc opts taken ++ replicate k CRecover ++ [CClose]) ∧
  (code ≠ 0%Z → w_out w' = w_out w ∧ ∃ err, w_err w' = w_err w ++ [err]).
Proof. intros E. pose proof (runRequest_post print_message proc opts w) as H. unfold post in H. by rewrite E in H. Qed.

(** ** Witnesses *)

(** The world at the end of a run. *)
Definition final {W S A} (r : Result W S A) : World W S :=
  match r with Ret _ w | Waiting w | Thrown _ w => w end.

Definition demo_tick : Tick := mkTick 0 5000000 false [] true None true [] 1000.

Definition demo_process : Process := mkProcess 7 "01234567-89ab" "u1" "stdin"%string None None.

Definition demo_command (c : Command) (args : list string) (count : Z) : Options Z :=
  mkOptions Z c args "tcp://h:1" "cli" Text count true 1000 Origins.Any 64 false false 0%Z false false.

(** Reports whose packed form is the printed rate. *)
Definition demo_stats : ProtobufMessage StatsReport :=
  {| GetTypeName := "broker.SystemStats"; SerializeAsString := sr_kb_per_sec;
     ParseFromArray := λ s, Some (mkReport (mkStats "B" 1 0 0 0 [] "c" 0 0) 0 s) |}.

Definition demo_midnight (_ : Z) : tm := mkTm 0 0 0.

Definition demo_world (script : list Tick) : World DemoWorker DemoReceiver :=
  mkWorld script new_session [] [] [] Debug (mkDemoReceiver [] []) new_writer ∅.

Definition demo_stop : Tick := mkTick 0 0 true [] true None false [] 0.

Definition demo_arrival (env : Envelope) : Tick := mkTick 0 0 false [env] true None false [] 0.


Lemma publish_confirmed_witness :
  ∃ w', runPublish demo_process (demo_command Publish ["a"%string; "x"%string] 0) (demo_world (replicate 3 demo_tick)) = Ret 0%Z w' ∧
    bs_open (w_session w') = false.
Proof.
  set (r := runPublish demo_process (demo_command Publish ["a"%string; "x"%string] 0) (demo_world (replicate 3 demo_tick))).
  assert (r = Ret 0%Z (final r)) as E by (vm_compute; reflexivity). exists (final r). split; [exact E|].
  apply (publish_confirmed demo_process _ _ _ _ E).
Defined.

Definition demo_message_a : Envelope := mkEnvelope (mkHeader "a" "c" "a" EmptyString EmptyString EmptyString) "hello".

Lemma subscribe_prints_witness :
  ∃ w', runSubscribe (λ _ _, None) demo_midnight demo_process (demo_command Subscribe ["a"%string] 1)
      (demo_world (replicate 4 demo_tick ++ [demo_arrival (makeControl Keys.RESET "B" EmptyString); demo_arrival demo_message_a] ++
        replicate 6 demo_tick)) = Ret 0%Z w' ∧
    bs_open (w_session w') = false ∧ ∃ popped outs, Forall2 (printed (λ _ _, None) (demo_command Subscribe ["a"%string] 1))
      (filter (λ env, ¬ is_reset env) popped) outs ∧ w_out w' = outs.
Proof.
  set (o := demo_command Subscribe ["a"%string] 1). set (w := demo_world _).
  set (r := runSubscribe (λ _ _, None) demo_midnight demo_process o w).
  assert (r = Ret 0%Z (final r)) as E by (vm_compute; reflexivity). exists (final r). split; [exact E|].
  destruct (subscribe_prints (λ _ _, None) demo_midnight demo_process o w (final r)) as (Hc & popped & outs & taken & k & _ & Ho & _ & _ & _ & Hp & _);
    [vm_compute; congruence|exact E|]. split; [exact Hc|]. exists popped, outs. split; [exact Hp|exact Ho].
Defined.

Definition demo_reply : Envelope := mkEnvelope (mkHeader "a.u1" "s" "a.u1" EmptyString EmptyString EmptyString) "answer".

Lemma request_answered_witness :
  ∃ w', runRequest (λ _ _, None) demo_process (demo_command Request ["a"%string; "q"%string] 0)
      (demo_world (replicate 6 demo_tick ++ [demo_arrival demo_message_a; demo_arrival demo_reply] ++ replicate 9 demo_tick)) = Ret 0%Z w' ∧
    bs_open (w_session w') = false.
Proof.
  set (o := demo_command Request ["a"%string; "q"%string] 0). set (w := demo_world _).
  set (r := runRequest (λ _ _, None) demo_process o w).
  assert (r = Ret 0%Z (final r)) as E by (vm_compute; reflexivity). exists (final r). split; [exact E|].
  apply (request_answered (λ _ _, None) demo_process o w (final r) 0%Z E).
Defined.
