(* ===== verification/CommandsCapture.v ===== *)
(** * Recording and replaying

    The commands [record] and [replay] of [Commands] over the captures of [Recording]: what
    the tap delivered is in the file, and what is in the file is published. *)

From Stdlib Require Import ZArith Lia.
From S2P Require Import Prelude.
From S2P Require Import MessageKeys.
From S2P Require Import Config.
From S2P Require Import Logger.
From S2P Require Import SafeQueue.
From S2P Require Import Wire.
From S2P Require Import AnyFrame.
From S2P Require Import Worker.
From S2P Require Import Broker.
From S2P Require Import Recording.
From S2P Require Import PayloadFormat.
From S2P Require Import Options.
From S2P Require Import BrokerSession.
From S2P Require Import CliWorld.
From S2P Require Import Commands.
From S2P Require Import CommandsSpec.

(** What a replay publishes of some messages. *)
Definition published (includeControl preserveUuids : bool) (envs : list Envelope) : list Envelope :=
  replayed preserveUuids <$>
    filter (λ env, includeControl || negb (Keys.isReservedKey (handler_key (env_header env)))) envs.

(** The calls that publish them, all taken. *)
Definition publish_all (envs : list Envelope) : list Call := (λ env, CPublish env true) <$> envs.

Lemma published_snoc ic pu envs env :
  published ic pu (envs ++ [env]) =
    published ic pu envs ++ if negb ic && Keys.isReservedKey (handler_key (env_header env)) then [] else [replayed pu env].
Proof.
  unfold published. rewrite filter_app, fmap_app. f_equal. rewrite filter_cons.
  by destruct ic, (Keys.isReservedKey (handler_key (env_header env))).
Qed.

Lemma publish_all_app envs envs' : publish_all (envs ++ envs') = publish_all envs ++ publish_all envs'.
Proof. apply fmap_app. Qed.

Section capture.
Context {W : Type} `{!WorkerInterface W} {S : Type} `{!ZmqReceiver S} `{!ZmqReceiverLaws S}.
Context {PB : ProtobufRuntime} {PBL : ProtobufLaws} `{!ProtobufMessage StatsReport}.
Context {D : Type} (speed_positive : D → bool) (scale : Z → D → Z).
Context (print_message : string → string → option string) (localtime_r : Z → tm) (proc : Process).
Notation Cmd := (Cmd W S).
Notation World := (World W S).
Implicit Types (w : World) (opts : Options D).

(** ** Replay *)

Lemma post_pace_turn due u w :
  post (pace_turn due u) (λ _ w', did w w' [] [] [] [] ∧ same_session w w') w.
Proof.
  unfold pace_turn. eapply post_after; [apply post_interrupted|]. intros stop w1 (H1 & Hs1 & _).
  destruct stop; [by apply post_ret|]. eapply post_after; [apply post_now|]. intros t w2 [H2 Hs2].
  pose proof (did_trans _ _ _ _ _ _ _ _ _ _ _ H1 H2) as H. pose proof (same_trans _ _ _ Hs1 Hs2) as Hs.
  case_decide; [|by apply post_ret]. eapply post_after; [apply post_now|]. intros t' w3 [H3 Hs3]. apply post_ret.
  split; [exact (did_trans _ _ _ _ _ _ _ _ _ _ _ H H3)|by eapply same_trans].
Qed.

Lemma post_pace opts started offset w :
  post (pace speed_positive scale opts started offset) (λ _ w', did w w' [] [] [] [] ∧ same_session w w') w.
Proof.
  unfold pace. destruct (speed_positive _); [|apply post_ret; split; [apply did_refl|apply same_refl]].
  apply (post_while (λ _ w', did w w' [] [] [] [] ∧ same_session w w')); [split; [apply did_refl|apply same_refl]|].
  intros u w1 [H1 Hs1]. eapply post_mono; [apply post_pace_turn|]. intros r w2 [H2 Hs2].
  pose proof (did_trans _ _ _ _ _ _ _ _ _ _ _ H1 H2). pose proof (same_trans _ _ _ Hs1 Hs2). by destruct r.
Qed.

(** The first [n] records of a capture [rs] replayed, [tail] behind them. *)
Definition replay_inv opts (rs : list (Envelope * Z)) (tail : string) w0 (r : Replay) w : Prop :=
  ∃ n, n ≤ length rs ∧ rp_file r = records_bytes (drop n rs) +:+ tail ∧
    did w0 w (publish_all (published (o_includeControl D opts) (o_preserveUuids D opts) (take n rs).*1)) [] [] [] ∧
    same_session w0 w.

(** What is behind the last whole record: nothing, or damage. *)
Definition capture_tail (clean : bool) (tail : string) : Prop :=
  match (readRecord tail).1 with
  | RecordRead _ _ => False
  | CleanEnd => clean = true
  | ReadError _ => clean = false
  end.

(** Replayed to the end of a clean capture, or interrupted. *)
Definition replay_ended (rs : list (Envelope * Z)) (n : nat) (clean : bool) w : Prop :=
  (n = length rs ∧ clean = true) ∨ ∃ t, t ∈ w_script w ∧ t_interrupted t = true.

Lemma take_S_records n (rs : list (Envelope * Z)) x rest :
  drop n rs = x :: rest → take (Datatypes.S n) rs = take n rs ++ [x] ∧ drop (Datatypes.S n) rs = rest ∧ n < length rs.
Proof.
  intros E. assert (rs !! n = Some x) as Hx by (rewrite <-(Nat.add_0_r n), <-lookup_drop, E; done).
  split_and!; [by apply take_S_r|by rewrite (drop_S _ x) in E by done; simplify_eq|by eapply lookup_lt_Some].
Qed.

Lemma post_replay_turn opts started rs tail clean w0 r w :
  Forall recordable rs → capture_tail clean tail →
  replay_inv opts rs tail w0 r w →
  post (replay_turn speed_positive scale opts started r) (λ res w',
    match res with
    | inl r' => replay_inv opts rs tail w0 r' w'
    | inr None => True
    | inr (Some r') => replay_inv opts rs tail w0 r' w' ∧
        ∃ n, n ≤ length rs ∧ replay_ended rs n clean w0 ∧
          w_calls w' = w_calls w0 ++ publish_all (published (o_includeControl D opts) (o_preserveUuids D opts) (take n rs).*1)
    end) w.
Proof.
  intros Hrs Htail (n & Hn & Hf & H & Hs). unfold replay_turn.
  eapply post_after; [apply post_interrupted|]. intros stop w1 (H1 & Hs1 & Ht).
  pose proof (did_trans _ _ _ _ _ _ _ _ _ _ _ H H1) as H'. rewrite !app_nil_r in H'.
  pose proof (same_trans _ _ _ Hs Hs1) as Hs'.
  assert (replay_inv opts rs tail w0 r w1) as Hinv by (by exists n).
  destruct stop.
  { apply post_ret. split; [done|]. exists n. split_and!; [done| |apply H']. right. destruct (Ht eq_refl) as (t & Hin & Hi).
    exists t. split; [|done]. destruct (did_script _ _ _ _ _ _ H) as [u ->]. apply elem_of_app. by right. }
  rewrite Hf. destruct (drop n rs) as [|x rest] eqn:Ed.
  - cbn [records_bytes foldr]. rewrite str_app_empty. unfold capture_tail in Htail.
    destruct (readRecord tail) as [[env offset| |e] file]; cbn in Htail; [done| |].
    + apply post_ret. split; [done|]. exists n. split_and!; [done| |apply H']. left. split; [|done].
      apply (f_equal length) in Ed. rewrite length_drop in Ed. cbn in Ed. lia.
    + eapply post_after; [apply post_eprint|]. intros. by apply post_ret.
  - destruct (take_S_records n rs x rest Ed) as (Et & Ed' & Hlt).
    assert (recordable x) as Hx.
    { eapply Forall_forall; [exact Hrs|]. rewrite <-(take_drop n rs), Ed. apply elem_of_app. right. by left. }
    cbn [records_bytes foldr]. fold (records_bytes rest). rewrite str_app_assoc, readRecord_whole by done.
    assert ((take (Datatypes.S n) rs).*1 = (take n rs).*1 ++ [x.1]) as Ef by (by rewrite Et, fmap_app).
    destruct (negb (o_includeControl D opts) && _) eqn:Eskip.
    + apply post_ret. exists (Datatypes.S n). rewrite Ef, published_snoc, Eskip, app_nil_r, Ed'. by split_and!.
    + eapply post_after; [apply post_pace|]. intros _ w2 [H2 Hs2].
      eapply post_after; [apply post_publish_envelope|]. intros [|] w3 [H3 Hs3]; cbn [negb].
      2: { eapply post_after; [apply post_eprint|]. intros. by apply post_ret. }
      apply post_ret. exists (Datatypes.S n). rewrite Ef, published_snoc, Eskip, Ed'. split_and!; [lia|done| |by do 2 eapply same_trans].
      pose proof (did_trans _ _ _ _ _ _ _ _ _ _ _ H' (did_trans _ _ _ _ _ _ _ _ _ _ _ H2 H3)) as H4.
      rewrite publish_all_app. exact H4.
Qed.

(** The file at [path] on the disk, as a reader sees it. *)
Lemma post_open_recording path w :
  post (open_recording path) (λ r w', did w w' [] [] [] [] ∧
    match r with
    | inl _ => True
    | inr body => ∃ file, w_disk w !! path = Some file ∧ reader_open file = Some body
    end) w.
Proof.
  unfold open_recording. eapply post_after; [apply post_look|]. intros t w1 (H1 & _ & _ & _ & _ & Hd).
  destruct (t_error t) as [[]|]; [by apply post_ret|]. apply post_bind. unfold post at 1, gets. rewrite Hd.
  destruct (w_disk w !! path) as [file|]; [|by apply post_ret].
  destruct (reader_open file) as [body|] eqn:E; apply post_ret; [|done]. split; [done|]. by exists file.
Qed.

Lemma runReplay_post opts w file rs tail clean :
  w_disk w !! arg 0 opts = Some file → reader_open file = Some (records_bytes rs +:+ tail) →
  Forall recordable rs → capture_tail clean tail →
  post (runReplay speed_positive scale proc opts) (λ code w',
    code = 0%Z → bs_open (w_session w') = false ∧ w_out w' = w_out w ∧
    ∃ n, n ≤ length rs ∧ replay_ended rs n clean w ∧
      w_calls w' = w_calls w ++ [COpen (o_address D opts) (session_id proc opts); CSync true] ++
        publish_all (published (o_includeControl D opts) (o_preserveUuids D opts) (take n rs.*1)) ++ [CSync true; CClose]) w.
Proof.
  intros Hdisk Hopen Hrs Htail. unfold runReplay. eapply post_after; [apply post_open_recording|].
  intros [e|body] w1 [H1 Hb]; [eapply post_after; [apply post_eprint|]; intros; by apply post_ret|].
  destruct Hb as (file' & Hd' & Ho'). assert (body = records_bytes rs +:+ tail) as -> by congruence.
  apply post_scoped_session. set (w2 := with_session new_session w1).
  eapply post_after; [by apply post_openSession|]. intros [|] w3; cbn [negb]; [|intros _; by apply post_ret].
  intros (H3 & Ho3 & _).
  eapply (post_after _ _ (λ _ w4, ∃ errs, did w3 w4 [] [] errs [] ∧ same_session w3 w4)).
  { destruct (o_preserveUuids D opts); [eapply post_mono; [apply post_eprint|]; intros ? ? []; by eexists|].
    apply post_ret. exists []. split; [apply did_refl|apply same_refl]. }
  intros _ w4 (errs & H4 & [Ho4 _]). eapply post_after; [apply post_now|]. intros started w5 [H5 [Ho5 _]].
  pose proof (did_trans _ _ _ _ _ _ _ _ _ _ _ H3 (did_trans _ _ _ _ _ _ _ _ _ _ _ H4 H5)) as H. cbn [app] in H.
  eapply post_after.
  { eapply (post_while (replay_inv opts rs tail w5)); [|intros; by apply post_replay_turn].
    exists 0. rewrite take_0, drop_0. split_and!; [lia|done|apply did_refl|apply same_refl]. }
  intros [r|] w6; [|intros _; by apply post_ret]. intros [(n' & _ & _ & H6 & [Ho6 _]) (n & Hn & Hend & Hcalls)].
  eapply post_after; [apply post_sync|]. intros [|] w7 (H7 & [Ho7 _] & _); cbn [negb].
  2: { eapply post_after; [apply post_eprint|]. intros. by apply post_ret. }
  eapply post_after; [apply post_close|]. intros _ w8 [H8 Hc8]. eapply post_after; [apply post_eprint|].
  intros _ w9 [H9 [Ho9 _]]. apply post_ret. rewrite Ho9, Hc8. intros w10 H10 Hc10 _. split; [done|].
  rewrite Ho7, Ho6, Ho5, Ho4, Ho3 in H8.
  pose proof (did_trans _ _ _ _ _ _ _ _ _ _ _ H7 (did_trans _ _ _ _ _ _ _ _ _ _ _ H8
    (did_trans _ _ _ _ _ _ _ _ _ _ _ H9 H10))) as Hrest.
  destruct (did_fresh _ _ _ _ _ _ (did_trans _ _ _ _ _ _ _ _ _ _ _ H H6)) as (_ & O6 & _).
  destruct (did_fresh _ _ _ _ _ _ H) as (C5 & _ & _ & _ & Hsuf).
  split. { rewrite (did_out _ _ _ _ _ _ Hrest), O6, (did_out _ _ _ _ _ _ H1). by rewrite !app_nil_r. }
  exists n. split_and!; [done| |].
  - destruct Hend as [?|(t & Hin & Hi)]; [by left|right]. exists t. split; [|done].
    destruct Hsuf as [u1 E1], (did_script _ _ _ _ _ _ H1) as [u2 E2]. rewrite E2, E1. apply elem_of_app. right. apply elem_of_app. by right.
  - rewrite (did_calls _ _ _ _ _ _ Hrest), Hcalls, C5, (did_calls _ _ _ _ _ _ H1), app_nil_r, fmap_take, <-!app_assoc. done.
Qed.
(** ** Record *)

(** The envelope of a group of frames on the tap, if its header decodes. *)
Definition decode_group (group : list string) : option Envelope :=
  match group with
  | [] => None
  | header :: rest => (λ h, mkEnvelope h (default EmptyString (head rest))) <$> decodeHeaderFrame header
  end.

(** A tap between two messages. *)
Definition aligned (tap : S) : Prop := sock_rest tap = [] ∧ Forall (λ g, g ≠ []) (sock_queue tap).

Lemma recv_group tap :
  aligned tap →
  ∃ j, sock_queue (recv tap).2 = drop j (sock_queue tap) ∧ aligned (recv tap).2 ∧
    option_list (fst <$> (recv tap).1) = omap decode_group (take j (sock_queue tap)).
Proof.
  intros [Hr Hq]. destruct (sock_queue tap) as [|[|header rest] q] eqn:E.
  - destruct (zmq_recv_none tap Hr E) as (tap' & Erecv & Hr' & Hq'). exists 0. unfold recv. rewrite Erecv. cbn.
    split_and!; [done| |done]. split; [done|]. by rewrite Hq'.
  - by apply Forall_cons in Hq as [? _].
  - destruct (recv_spec tap header rest q Hr E) as (tap' & -> & Hr' & Hq'). exists 1. cbn. rewrite Hq'.
    split_and!; [by rewrite drop_0| |].
    + split; [done|]. rewrite Hq'. by apply Forall_cons in Hq as [_ ?].
    + rewrite take_0. cbn. by destruct (decodeHeaderFrame header).
Qed.

(** What a command leaves alone when it only prints. *)
Definition same_files w w' : Prop := w_tap w' = w_tap w ∧ w_writer w' = w_writer w ∧ w_disk w' = w_disk w.

(** Only errors are written, nothing else is touched but the tap and the file. *)
Definition quietly w w' : Prop := ∃ errs popped, did w w' [] [] errs popped.

Lemma quietly_refl w : quietly w w.
Proof. exists [], []. apply did_refl. Qed.

Lemma quietly_trans w1 w2 w3 : quietly w1 w2 → quietly w2 w3 → quietly w1 w3.
Proof. intros (e1 & p1 & H1) (e2 & p2 & H2). eexists _, _. exact (did_trans _ _ _ _ _ _ _ _ _ _ _ H1 H2). Qed.

Lemma same_files_trans w1 w2 w3 : same_files w1 w2 → same_files w2 w3 → same_files w1 w3.
Proof. intros (A1 & A2 & A3) (B1 & B2 & B3). split_and!; congruence. Qed.

Lemma post_look_files w :
  post look (λ t w', quietly w w' ∧ same_files w w' ∧ t ∈ w_script w) w.
Proof.
  eapply post_mono; [apply post_look|]. intros t w' (H & _ & Ht & F1 & F2 & F3). split_and!; [by eexists _, _|by split_and!|done].
Qed.

Lemma post_eprint_files line w : post (eprint line) (λ _ w', quietly w w' ∧ same_files w w') w.
Proof. split; [|done]. eexists [line], []. by split; cbn; rewrite ?app_nil_r. Qed.

Lemma post_eprint_all_files lines w : post (eprint_all lines) (λ _ w', quietly w w' ∧ same_files w w') w.
Proof.
  revert w. induction lines as [|l lines IH]; intros w; cbn [eprint_all]; [apply post_ret; split; [apply quietly_refl|done]|].
  eapply post_after; [apply post_eprint_files|]. intros _ w1 [Q1 F1]. eapply post_mono; [apply IH|].
  intros _ w2 [Q2 F2]. split; [by eapply quietly_trans|by eapply same_files_trans].
Qed.

Lemma post_drain_monitor w : post drain_monitor (λ _ w', quietly w w' ∧ same_files w w') w.
Proof.
  unfold drain_monitor. eapply post_after; [apply post_look_files|]. intros t w1 (Q1 & F1 & _).
  destruct (t_error t) as [[]|]; [done|]. eapply post_mono; [apply post_eprint_all_files|]. intros _ w2 [Q2 F2].
  split; [by eapply quietly_trans|by eapply same_files_trans].
Qed.

Lemma post_waitReadable w : post waitReadable (λ _ w', quietly w w' ∧ same_files w w') w.
Proof.
  unfold waitReadable. eapply post_after; [apply post_look_files|]. intros t w1 (Q1 & F1 & _).
  by destruct (t_error t) as [[[]]|].
Qed.

Lemma post_receiveEnvelope w :
  aligned (w_tap w) →
  post receiveEnvelope (λ o w', quietly w w' ∧ w_writer w' = w_writer w ∧ w_disk w' = w_disk w ∧ aligned (w_tap w') ∧
    ∃ j, sock_queue (w_tap w') = drop j (sock_queue (w_tap w)) ∧
      option_list (fst <$> o) = omap decode_group (take j (sock_queue (w_tap w)))) w.
Proof.
  intros Ha. unfold receiveEnvelope. eapply post_after; [apply post_look_files|]. intros t w1 (Q1 & (F1 & F2 & F3) & _).
  destruct (t_error t) as [[[] what]|]; [|done|].
  - apply post_ret. split_and!; try done; [by rewrite F1|]. exists 0. by rewrite F1, drop_0.
  - unfold post. destruct (recv_group (w_tap w1)) as (j & Hq & Ha' & Ho); [by rewrite F1|].
    destruct (recv (w_tap w1)) as [o tap]. cbn in *. rewrite F1 in *. split_and!; try done; [|by exists j].
    eapply quietly_trans; [exact Q1|]. exists [], []. by split; cbn; rewrite ?app_nil_r.
Qed.

(** The messages [done] are in the file, with their times, and they are what the tap gave. *)
Record recorded w0 (done : list (Z * nat * Envelope)) w : Prop := mkRecorded {
  rec_written : written_so_far (start_of done) done (w_writer w);
  rec_tap : ∃ j, sock_queue (w_tap w) = drop j (sock_queue (w_tap w0)) ∧ done.*2 = omap decode_group (take j (sock_queue (w_tap w0)));
  rec_aligned : aligned (w_tap w);
  rec_times : Forall (λ d, ∃ t, t ∈ w_script w0 ∧ d.1.1 = Z.quot (t_wall t) 1000) done;
  rec_quiet : quietly w0 w
}.

Lemma quietly_script w w' t : quietly w w' → t ∈ w_script w' → t ∈ w_script w.
Proof. intros (e & p & H) Ht. destruct (did_script _ _ _ _ _ _ H) as [u ->]. apply elem_of_app. by right. Qed.

(** Nothing but the script and standard error moved. *)
Lemma recorded_quietly w0 done w w' : recorded w0 done w → quietly w w' → same_files w w' → recorded w0 done w'.
Proof.
  intros [H1 H2 H3 H4 H5] Hq (F1 & F2 & F3). split; rewrite ?F1, ?F2; try done. by eapply quietly_trans.
Qed.

Lemma start_of_snoc done d : done ≠ [] → start_of (done ++ [d]) = start_of done.
Proof. by destruct done. Qed.

Lemma post_write_capture w0 done w env bytes j :
  recorded w0 done w → (Z.of_nat (length done) < 2 ^ 64 - 1)%Z →
  ∀ w1, quietly w w1 → w_writer w1 = w_writer w → aligned (w_tap w1) →
  sock_queue (w_tap w1) = drop j (sock_queue (w_tap w)) → [env] = omap decode_group (take j (sock_queue (w_tap w))) →
  post (write_capture env bytes) (λ ok w', if (ok : bool) then ∃ d, recorded w0 (done ++ [d]) w' else True) w1.
Proof.
  intros [Hw (i & Hq & Hd) Ha Htm Hqt] Hlen w1 Q1 F1 Ha1 Hq1 Henv. unfold write_capture.
  eapply post_after; [apply post_look_files|]. intros t w2 (Q2 & (G1 & G2 & G3) & Ht).
  set (now := Z.quot (t_wall t) 1000).
  pose proof (write_step (start_of (done ++ [(now, t_taken t, env)])) done now (t_taken t) env (w_writer w2)) as Hstep.
  assert (written_so_far (start_of (done ++ [(now, t_taken t, env)])) done (w_writer w2)) as Hw2.
  { rewrite G2, F1. destruct done as [|x done']; [|by rewrite start_of_snoc by done].
    destruct Hw as (E1 & E2 & _). by split_and!. }
  specialize (Hstep Hw2 ltac:(lia) ltac:(by intros ->)). unfold post, bind. fold now.
  destruct (write now (t_taken t) env (w_writer w2)) as [[e|] writer]; [done|]. cbn.
  exists (now, t_taken t, env). split; cbn.
  - exact Hstep.
  - exists (i + j). rewrite G1, Hq1, Hq, drop_drop. split; [done|]. rewrite fmap_app, Hd. cbn [fmap list_fmap].
    rewrite Hq in Henv. cbn. rewrite Henv, <-omap_app. f_equal. by rewrite take_take_drop.
  - by rewrite G1.
  - apply Forall_app. split; [done|]. apply Forall_cons_2; [|apply Forall_nil_2]. exists t. split; [|done].
    do 2 (eapply quietly_script; [eassumption|]). done.
  - do 3 (eapply quietly_trans; [eassumption|]). exists [], []. by split; cbn; rewrite ?app_nil_r.
Qed.

(** The loop of the tap with the recorder behind it. *)
Definition record_inv opts w0 (delivered : Z) w : Prop :=
  ∃ done, recorded w0 done w ∧ delivered = Z.of_nat (length done) ∧
    (o_count D opts = 0%Z ∨ (delivered ≤ o_count D opts)%Z).

Lemma post_record_turn opts w0 delivered w :
  (0 ≤ o_count D opts)%Z → (Z.of_nat (length (sock_queue (w_tap w0))) < 2 ^ 64 - 1)%Z →
  record_inv opts w0 delivered w →
  post (tap_turn opts write_capture delivered) (λ r w',
    match r with
    | inl d => record_inv opts w0 d w'
    | inr code => code = 0%Z → ∃ done, recorded w0 done w' ∧ stopped (o_count D opts) (length done) w0
    end) w.
Proof.
  intros Hc Hlen (done & Hr & Hd & Hle). unfold tap_turn. eapply (post_after _ _ (λ b w1, quietly w w1 ∧ same_files w w1 ∧
    (b = true → ∃ t, t ∈ w_script w ∧ t_interrupted t = true))).
  { apply post_bind. eapply post_mono; [apply post_look_files|]. intros t w1 (Q & F & Ht). split_and!; [done..|eauto]. }
  intros stop w1 (Q1 & F1 & Ht). pose proof (recorded_quietly _ _ _ _ Hr Q1 F1) as Hr1.
  destruct (stop || negb (wanted (o_count D opts) delivered)) eqn:Estop.
  { apply post_ret. intros _. exists done. split; [done|]. apply orb_true_iff in Estop as [->|Hw].
    - right. destruct (Ht eq_refl) as (t & Hin & Hi). exists t. split; [|done]. eapply quietly_script; [apply Hr|done].
    - left. apply negb_true_iff, orb_false_iff in Hw as [H1'%bool_decide_eq_false H2'%bool_decide_eq_false]. lia. }
  apply orb_false_iff in Estop as [_ Hw%negb_false_iff].
  eapply post_after; [apply post_drain_monitor|]. intros _ w2 [Q2 F2]. pose proof (recorded_quietly _ _ _ _ Hr1 Q2 F2) as Hr2.
  eapply post_after; [apply post_waitReadable|]. intros readable w3 [Q3 F3].
  pose proof (recorded_quietly _ _ _ _ Hr2 Q3 F3) as Hr3.
  destruct readable; cbn [negb]; [|apply post_ret; by exists done].
  eapply post_after; [apply post_receiveEnvelope; apply Hr3|]. intros o w4 (Q4 & G2 & G3 & Ha4 & j & Hq4 & Ho4).
  destruct o as [[env bytes]|].
  - assert (Z.of_nat (length done) < 2 ^ 64 - 1)%Z as Hlt.
    { destruct (rec_tap _ _ _ Hr) as (i & _ & E). apply (f_equal length) in E. rewrite length_fmap in E. rewrite E.
      pose proof (length_omap_le decode_group (take i (sock_queue (w_tap w0)))) as Hle'. rewrite length_take in Hle'. lia. }
    eapply post_after; [eapply (post_write_capture w0 done w3 env bytes j Hr3 Hlt w4); try done|].
    intros [|] w5 H5; cbn [negb]; apply post_ret; [|done]. destruct H5 as [d H5]. exists (done ++ [d]). split; [done|].
    rewrite length_app. cbn. split; [lia|].
    apply orb_true_iff in Hw as [Hw%bool_decide_eq_true|Hw%bool_decide_eq_true]; [by left|right; lia].
  - apply post_ret. exists done. split; [|done]. destruct Hr3 as [A1 (i & A2 & A2') A3 A4 A5]. split; [by rewrite G2| |done|done|by eapply quietly_trans].
    exists (i + j). rewrite Hq4, A2, drop_drop. split; [done|]. rewrite A2', <-take_take_drop, omap_app. rewrite A2 in Ho4. rewrite <-Ho4.
    by rewrite app_nil_r.
Qed.

Lemma post_open_capture path w :
  w_writer w = new_writer →
  post (open_capture path) (λ r w', quietly w w' ∧ w_tap w' = w_tap w ∧
    match r with inl _ => True | inr _ => written_so_far 0 [] (w_writer w') end) w.
Proof.
  intros Hw. unfold open_capture. eapply post_after; [apply post_look_files|]. intros t w1 (Q1 & (F1 & F2 & _) & _).
  destruct (t_error t) as [[]|]; [by apply post_ret|].
  eapply post_after; [apply post_look_files|]. intros t2 w2 (Q2 & (G1 & G2 & _) & _). unfold post, writer_open.
  destruct (fwrite (t_taken t2) MAGIC EmptyString) as [n file] eqn:Ef. unfold fwrite in Ef. injection Ef as <- <-.
  assert (∀ x : RecordWriter, quietly w (with_writer x w2)) as Hq.
  { intros x. do 2 (eapply quietly_trans; [eassumption|]). exists [], []. by split; cbn; rewrite ?app_nil_r. }
  case_decide as E; cbn; (split_and!; [apply Hq|congruence|done || idtac]).
  split_and!; [|done..]. cbn [w_file]. f_equal. change (MAGIC +:+ records_bytes (records_of 0 [])) with MAGIC. rewrite str_app_empty. apply str_take_all. change (String.length MAGIC) with 8 in *. unfold MAGIC_SIZE in E. lia.
Qed.

(** The file on the disk after a close that succeeded. *)
Lemma post_close_capture path w file :
  w_file (w_writer w) = Some file →
  post (close_capture path) (λ r w', quietly w w' ∧ w_file (w_writer w') = None ∧
    match r with inl _ => True | inr _ => w_disk w' !! path = Some file end) w.
Proof.
  intros Hf. unfold close_capture, post. rewrite Hf. pose proof (post_look_files w) as Hl. unfold post in Hl. unfold bind at 1.
  destruct (look w) as [t w1| |]; [|done..]. destruct Hl as (Q1 & _ & _). unfold bind, modify. cbn.
  assert (∀ x y, quietly w (with_disk x (with_writer y w1))) as Hq.
  { intros x y. eapply quietly_trans; [eassumption|]. exists [], []. by split; cbn; rewrite ?app_nil_r. }
  destruct (t_error t) as [[b errno]|]; cbn; (split_and!; [apply Hq|done|done || by rewrite lookup_insert_eq]).
Qed.

Lemma post_finish_record path status w file :
  w_file (w_writer w) = Some file →
  post (finish_record path status) (λ code w', code = 0%Z → status = 0%Z ∧ quietly w w' ∧ w_file (w_writer w') = None ∧
    w_disk w' !! path = Some file) w.
Proof.
  intros Hf. unfold finish_record. apply post_bind. unfold post at 1, gets.
  eapply post_after; [by apply post_close_capture|]. intros [e|u] w1 (Q1 & F1 & Hd).
  - eapply post_after; [apply post_eprint|]. intros. by apply post_ret.
  - eapply post_after; [apply post_eprint_files|]. intros _ w2 [Q2 (_ & G2 & G3)]. apply post_ret. intros ->.
    split_and!; [done|by eapply quietly_trans|by rewrite G2|by rewrite G3].
Qed.

(** A recorder that has closed its file and reports success. *)
Lemma post_scoped_writer path (body : Cmd Z) (P : World → Prop) w :
  post body (λ code w1, code = 0%Z → w_file (w_writer w1) = None ∧ P w1) (with_writer new_writer w) →
  post (scoped_writer path body) (λ code w', code = 0%Z → P w') w.
Proof.
  unfold post, scoped_writer. destruct (body _) as [code w1|w1|what w1]; [|done|].
  - intros H. unfold bind, close_capture. destruct (w_file (w_writer w1)) eqn:Ef.
    + destruct (bind look _ w1); [|done..]. cbn. intros E. destruct (H E) as [? _]. congruence.
    + cbn. intros E. by destruct (H E).
  - intros _. unfold bind. by destruct (close_capture path w1).
Qed.

Lemma runRecord_post opts w :
  (0 ≤ o_count D opts)%Z → (Z.of_nat (length (sock_queue (w_tap w))) < 2 ^ 64 - 1)%Z → aligned (w_tap w) →
  post (runRecord proc opts) (λ code w', code = 0%Z →
    w_out w' = w_out w ∧ ∃ done j, done.*2 = omap decode_group (take j (sock_queue (w_tap w))) ∧
      w_disk w' !! arg 0 opts = Some (MAGIC +:+ records_bytes (records_of (start_of done) done)) ∧
      Forall (λ d, ∃ t, t ∈ w_script w ∧ d.1.1 = Z.quot (t_wall t) 1000) done ∧
      stopped (o_count D opts) (length done) w) w.
Proof.
  intros Hc Hlen Ha. unfold runRecord. apply post_scoped_writer. set (w0 := with_writer new_writer w).
  eapply post_after; [by apply post_open_capture|]. intros [e|u] w1 (Q1 & F1 & Hw1).
  { eapply post_after; [apply post_eprint|]. intros. by apply post_ret. }
  eapply post_after; [apply post_eprint_files|]. intros _ w2 [Q2 (G1 & G2 & _)].
  set (topts := with_args D (tail (o_args D opts)) opts).
  assert (recorded w0 [] w2) as Hr2.
  { split; rewrite ?G2; [done| |by rewrite G1, F1|apply Forall_nil_2|by eapply quietly_trans].
    exists 0. rewrite G1, F1. split; [done|]. by rewrite take_0. }
  eapply (post_after _ _ (λ code w3, code = 0%Z → ∃ done, recorded w0 done w3 ∧ stopped (o_count D opts) (length done) w0)).
  { unfold readTap. eapply post_after; [apply post_applyLogLevel|]. intros _ w3 (H3 & _ & F3).
    eapply post_after; [apply post_look_files|]. intros t w4 (Q4 & F4 & _).
    destruct (t_error t) as [[]|]; [eapply post_after; [apply post_eprint|]; intros; by apply post_ret|].
    apply (post_while (record_inv topts w0)); [|intros d w5 H5; exact (post_record_turn topts w0 d w5 Hc Hlen H5)].
    exists []. split_and!; [|done|simpl; lia]. do 2 (eapply recorded_quietly; [|eassumption || by eexists _, _|eassumption]). done. }
  intros status w3 Hs. destruct (decide (status = 0%Z)) as [->|Hne].
  - destruct (Hs eq_refl) as (done & [Hwr (j & Hq & Hdone) _ Htm Hqt] & Hst).
    eapply post_mono; [apply post_finish_record; apply Hwr|]. intros code w4 H4 Hcode.
    destruct (H4 Hcode) as (_ & Q4 & Hnone & Hdisk). split; [done|].
    destruct (quietly_trans _ _ _ Hqt Q4) as (errs & popped & Hd). split; [rewrite (did_out _ _ _ _ _ _ Hd); apply app_nil_r|by exists done, j].
  - assert (always (λ code (_ : World), code ≠ 0%Z) (finish_record (arg 0 opts) status : Cmd Z)) as Hf.
    { unfold finish_record. apply always_bind; intros n. apply always_bind; intros [|]; apply always_bind; intros _ ?; done. }
    eapply post_mono; [apply Hf|]. by intros.
Qed.
End capture.

(** ** Properties *)

(** A message the transport carries. *)
Definition fits {PB : ProtobufRuntime} (env : Envelope) : Prop :=
  (Z.of_nat (String.length (encodeHeader (env_header env))) ≤ MAX_MESSAGE_SIZE_BYTES ∧
   Z.of_nat (String.length (env_payload env)) ≤ MAX_MESSAGE_SIZE_BYTES)%Z.

(** The wall clock of a tick in 64 bits. *)
Definition timed (t : Tick) : Prop := (0 ≤ t_wall t < 2 ^ 63)%Z.

(** What a tap delivers has been parsed. *)
Lemma tapped_utf8 {PB : ProtobufRuntime} {PBL : ProtobufLaws} (gs : list (list string)) :
  Forall (λ env, header_utf8 (env_header env) = true) (omap decode_group gs).
Proof.
  apply Forall_forall. intros env (g & Hg & Hd)%list_elem_of_omap. unfold decode_group in Hd.
  destruct g as [|header rest]; [done|]. destruct (decodeHeaderFrame header) as [h|] eqn:E; [|done]. cbn in Hd. simplify_eq.
  by eapply decodeHeaderFrame_utf8.
Qed.

Lemma captured_recordable {PB : ProtobufRuntime} (script : list Tick) (done : list (Z * nat * Envelope)) :
  Forall (λ env, header_utf8 (env_header env) = true) done.*2 → Forall timed script → Forall (λ d, ∃ t, t ∈ script ∧ d.1.1 = Z.quot (t_wall t) 1000) done →
  Forall fits done.*2 → Forall recordable (records_of (start_of done) done).
Proof.
  intros Hu Ht Hd Hf.
  assert (Forall (λ d, 0 ≤ d.1.1 < 2 ^ 63)%Z done) as Hr.
  { eapply Forall_impl; [exact Hd|]. intros d (t & Hin & ->). eapply Forall_forall in Hin; [|exact Ht]. cbn in Hin.
    unfold timed in Hin. rewrite Z.quot_div_nonneg by lia. split; [apply Z.div_pos; lia|].
    apply Z.div_lt_upper_bound; lia. }
  assert (0 ≤ start_of done < 2 ^ 63)%Z as Hs by (destruct Hr; [done|done]).
  unfold records_of. apply Forall_fmap. rewrite Forall_fmap in Hf, Hu. clear Ht Hd. revert Hf Hu.
  generalize (start_of done) Hs. intros s0 Hs0 Hf Hu. clear Hs. induction Hr as [|d done Hdr _ IH]; [apply Forall_nil_2|].
  apply Forall_cons in Hf as [[Hf1 Hf2] Hf]. apply Forall_cons in Hu as [Hu1 Hu]. apply Forall_cons_2; [|by apply IH].
  split_and!; cbn; [exact Hu1|done|done|lia..].
Qed.

(** C20: A recording is replayed as it was tapped.  When [record] and later [replay] of the
    file both report success, what the replay published is the messages the tap delivered,
    from the first on, each once and in order, without their broker's ids unless these are
    to be kept and without control messages unless these are asked for; the broker confirmed
    them.  Everything recorded is replayed unless the user interrupts, and as much as was
    asked for is recorded unless the user interrupts. *)
Theorem record_replay {W} `{!WorkerInterface W} {S} `{!ZmqReceiver S} `{!ZmqReceiverLaws S} {PB : ProtobufRuntime} {PBL : ProtobufLaws}
    {D} (speed_positive : D → bool) (scale : Z → D → Z) (proc : Process) (rec rep : Options D) (w w' w2 w2' : World W S) :
  (0 ≤ o_count D rec)%Z → (Z.of_nat (length (sock_queue (w_tap w))) < 2 ^ 64 - 1)%Z → aligned (w_tap w) →
  Forall fits (omap decode_group (sock_queue (w_tap w))) → Forall timed (w_script w) →
  runRecord proc rec w = Ret 0%Z w' →
  w_disk w2 = w_disk w' → arg 0 rep = arg 0 rec → runReplay speed_positive scale proc rep w2 = Ret 0%Z w2' →
  ∃ n j, let tapped := omap decode_group (take j (sock_queue (w_tap w))) in
    n ≤ length tapped ∧
    w_calls w2' = w_calls w2 ++ [COpen (o_address D rep) (session_id proc rep); CSync true] ++
      publish_all (published (o_includeControl D rep) (o_preserveUuids D rep) (take n tapped)) ++ [CSync true; CClose] ∧
    (n = length tapped ∨ ∃ t, t ∈ w_script w2 ∧ t_interrupted t = true) ∧
    stopped (o_count D rec) (length tapped) w.
Proof.
  intros Hc Hlen Ha Hfit Htime Hrec Hdisk Harg Hrep.
  pose proof (runRecord_post proc rec w Hc Hlen Ha) as H. unfold post in H. rewrite Hrec in H.
  destruct (H eq_refl) as (_ & done & j & Hdone & Hfile & Htm & Hst). clear H.
  set (rs := records_of (start_of done) done) in *.
  assert (rs.*1 = done.*2) as Ers by (unfold rs, records_of; rewrite <-list_fmap_compose; by apply list_fmap_ext).
  assert (length rs = length (omap decode_group (take j (sock_queue (w_tap w))))) as El.
  { rewrite <-Hdone, <-Ers. by rewrite length_fmap. }
  assert (Forall recordable rs) as Hrs.
  { apply (captured_recordable (w_script w)); [rewrite Hdone; apply tapped_utf8|done|done|]. rewrite Hdone. revert Hfit.
    rewrite <-(take_drop j (sock_queue (w_tap w))) at 1. rewrite omap_app. by intros [? _]%Forall_app. }
  pose proof (runReplay_post speed_positive scale proc rep w2 (MAGIC +:+ records_bytes rs) rs EmptyString true) as H.
  unfold post in H. rewrite Hrep in H. destruct H as (_ & _ & n & Hn & Hend & Hcalls); [| |done|done|done|].
  - by rewrite Hdisk, Harg.
  - unfold reader_open. rewrite fread_app by done. rewrite decide_False by (by intros []). by rewrite str_app_nil_r.
  - exists n, j. rewrite Ers, Hdone in Hcalls. cbv zeta. rewrite <-El. split_and!; [done|done| |].
    + destruct Hend as [[-> _]|?]; [by left|by right].
    + rewrite El, <-Hdone, length_fmap. exact Hst.
Qed.

(** An interruption releases the message a replay is holding back: found while waiting for
    the time of a message, it ends the wait and not the turn, and the message is published
    there and then, however far off its time is. *)
Theorem interrupt_releases_held {W} `{!WorkerInterface W} {S} {PB : ProtobufRuntime} {D} (speed_positive : D → bool)
    (scale : Z → D → Z) (opts : Options D) started r env offset file t1 t2 ts (w : World W S) :
  readRecord (rp_file r) = (RecordRead env offset, file) →
  negb (o_includeControl D opts) && Keys.isReservedKey (handler_key (env_header env)) = false →
  speed_positive (o_speed D opts) = true →
  w_script w = t1 :: t2 :: ts → t_interrupted t1 = false → t_interrupted t2 = true →
  post (replay_turn speed_positive scale opts started r) (λ _ w',
    w_script w' = ts ∧ ∃ taken, w_calls w' = w_calls w ++ [CPublish (replayed (o_preserveUuids D opts) env) taken]) w.
Proof.
  intros Hread Hskip Hspeed Hscript H1 H2. unfold post, replay_turn, bind at 1, interrupted, bind at 1, look.
  rewrite Hscript. cbn [ret]. rewrite H1, Hread, Hskip. unfold pace. rewrite Hspeed. unfold bind at 1, while_.
  cbn [loop w_script with_session with_script]. unfold bind at 1, pace_turn, bind at 1, interrupted, bind at 1, look.
  cbn [w_script with_session with_script ret]. rewrite H2. cbn [ret]. unfold publish_envelope, bind, on_session.
  destruct (publishEnvelope _ _) as [ok s]. cbn. destruct ok; cbn; (split; [done|by eexists]).
Qed.

(** ** Witnesses *)

Definition demo_groups : list (list string) :=
  let group env := frames None (@encodeHeader demo_runtime (env_header env)) (env_payload env) in
  [group (mkEnvelope (mkHeader "a" "c" "a" "B" "id" EmptyString) "one"); ["?"%string];
   group (makeControl Keys.SUBSCRIBE "c" "b"); group (mkEnvelope (mkHeader "b" "c" "b" "B" "id2" EmptyString) "two")].

Definition demo_tap_world (script : list Tick) (disk : gmap string string) : World DemoWorker DemoReceiver :=
  mkWorld script new_session [] [] [] Debug (mkDemoReceiver [] demo_groups) new_writer disk.

Lemma demo_tap_world_disk script disk : w_disk (demo_tap_world script disk) = disk.
Proof. reflexivity. Qed.

Definition demo_recording : World DemoWorker DemoReceiver :=
  final (@runRecord DemoWorker DemoReceiver demo_receiver demo_runtime Z demo_process (demo_command Record_ ["f"%string] 2)
    (demo_tap_world (replicate 30 demo_tick) ∅)).

Lemma record_replay_witness :
  ∃ w', @runReplay DemoWorker demo_worker DemoReceiver demo_runtime Z (λ _, false) (λ o _, o) demo_process
    (demo_command Options.Replay ["f"%string] 0) (demo_tap_world (replicate 20 demo_tick) (w_disk demo_recording)) = Ret 0%Z w' ∧
  ∃ n j, w_calls w' = [COpen "tcp://h:1" "cli"; CSync true] ++
    publish_all (published false false (take n (omap (@decode_group demo_runtime) (take j demo_groups)))) ++ [CSync true; CClose].
Proof.
  set (rep := demo_command Options.Replay ["f"%string] 0).
  set (r := @runReplay DemoWorker demo_worker DemoReceiver demo_runtime Z (λ _, false) (λ o _, o) demo_process rep
    (demo_tap_world (replicate 20 demo_tick) (w_disk demo_recording))).
  assert (r = Ret 0%Z (final r)) as Er by (vm_compute; reflexivity).
  exists (final r). split; [exact Er|].
  destruct (@record_replay DemoWorker demo_worker DemoReceiver demo_receiver demo_receiver_laws demo_runtime demo_runtime_laws
    Z (λ _, false) (λ o _, o) demo_process (demo_command Record_ ["f"%string] 2) rep
    (demo_tap_world (replicate 30 demo_tick) ∅) demo_recording (demo_tap_world (replicate 20 demo_tick) (w_disk demo_recording)) (final r))
    as (n & j & _ & Hcalls & _).
  - vm_compute. congruence.
  - vm_compute. reflexivity.
  - split; [reflexivity|]. repeat constructor; discriminate.
  - assert (omap (@decode_group demo_runtime) demo_groups =
      [mkEnvelope (mkHeader "a" "c" "a" "B" "id" EmptyString) "one"; makeControl Keys.SUBSCRIBE "c" "b";
       mkEnvelope (mkHeader "b" "c" "b" "B" "id2" EmptyString) "two"]) as E by (vm_compute; reflexivity).
    cbn [w_tap demo_tap_world sock_queue demo_receiver dr_queue]. rewrite E. repeat constructor; vm_compute; congruence.
  - apply Forall_replicate. split; vm_compute; congruence.
  - vm_compute. reflexivity.
  - apply demo_tap_world_disk.
  - reflexivity.
  - exact Er.
  - exists n, j. exact Hcalls.
Defined.
