(* ===== verification/QtCore.v ===== *)
(** * Qt

    What the inspector and the Qt binding rely on of Qt's own types.  A [QString] is its
    UTF-8 text, so that [toStdString] is the identity and a [QString] is contained in
    another exactly when its text is; the conversion from bytes, case folding, number
    formatting and the order of strings are parameters.  A [QMap] is an association list in
    the order of its keys. *)

From S2P Require Import Prelude.

Class Qt := {
  (* [QString::fromStdString]: invalid UTF-8 becomes replacement characters *)
  fromStdString : string → string;
  toLower : string → string;
  (* [QString::left] *)
  qleft : nat → string → string;
  (* [QString::number(bytes / 1024.0, 'f', 2)] *)
  kilobytes : nat → string;
  (* the order of a [QMap]'s keys *)
  qless : string → string → bool
}.

Class QtLaws `{!Qt} : Prop := toLower_empty : toLower EmptyString = EmptyString.

(** *** QMap *)

Section qmap.
Context `{!Qt} {B : Type}.

Definition qmap_find (k : string) (m : list (string * B)) : option B := (list_find (λ e, e.1 = k) m) ≫= λ e, Some e.2.2.

Fixpoint qmap_add (k : string) (v : B) (m : list (string * B)) : list (string * B) :=
  match m with
  | [] => [(k, v)]
  | e :: m => if qless k e.1 then (k, v) :: e :: m else e :: qmap_add k v m
  end.

(** [insert]: a key that is there keeps its place. *)
Definition qmap_insert (k : string) (v : B) (m : list (string * B)) : list (string * B) :=
  if decide (k ∈ m.*1) then (λ e, if decide (e.1 = k) then (k, v) else e) <$> m else qmap_add k v m.
End qmap.
