(* ===== verification/QtBinding.v ===== *)
(** * The Qt binding

    Models [bindings/qt/qtconnectionadapter.h]: the serializers of Qt's types and the
    adapter over the client library that ties a registration to a [QObject].

    A context object is its address, a number other than 0.  The closure that is registered
    posts a call to the context's thread when its guard finds the object alive; the library's
    dispatch thread may run it at any time, also after the registration is gone when a
    dispatch was in flight, so [Invoked] needs no registration.  Destroying an object makes
    Qt drop what was posted to it and emit [destroyed], which runs the slots connected to
    it. *)

From Stdlib Require Import ZArith Lia.
From S2P Require Import Prelude.
From S2P Require Import MessageKeys.
From S2P Require Import Config.
From S2P Require Import Wire.
From S2P Require Import Worker.
From S2P Require Import ConnectionManager.
From S2P Require Import ConnectionManagerSpec.
From S2P Require Import TypedApi.
From S2P Require Import QtCore.

(** ** Serializers *)

Section serializers.
Context `{!Qt}.

Definition QString_traits : Traits string :=
  mkTraits (Some (mkSerializer (λ value, value) (λ bytes, Some (fromStdString bytes)))) None None None.

(** A byte array is its bytes. *)
Definition QByteArray_traits : Traits string :=
  mkTraits (Some (mkSerializer (λ value, value) (λ bytes, Some bytes))) None None None.

(** [toJson] and [fromJson] are Qt's; a document that is no object is an empty one. *)
Definition QJsonObject_traits {J : Type} (toJson : J → string) (fromJson : string → option J) (empty : J) : Traits J :=
  mkTraits (Some (mkSerializer toJson (λ bytes, Some (default empty (fromJson bytes))))) None None None.
End serializers.

(** ** The adapter *)

Section adapter.
Context {W : Type} `{!WorkerInterface W}.
Implicit Types (m : @Manager W) (c : @Client W).

(** The library's singleton, the objects that exist, the slots connected to [destroyed], the
    calls posted to the objects and the calls made. *)
Record QtAdapter := mkAdapter {
  qa_client : @Client W;
  qa_alive : gset Z;
  qa_slots : list (string * Z);
  qa_posted : list (Z * string);
  qa_made : list (Z * string)
}.

Definition qt_init (uuid : string) (config : ConnectionConfig) (a : QtAdapter) : QtAdapter :=
  mkAdapter (init uuid config (qa_client a)) (qa_alive a) (qa_slots a) (qa_posted a) (qa_made a).

Definition qt_shutdown (onProcessingThread : bool) (a : QtAdapter) : QtAdapter :=
  mkAdapter (shutdown onProcessingThread (qa_client a)) (qa_alive a) (qa_slots a) (qa_posted a) (qa_made a).

Definition with_client (c : Client) (a : QtAdapter) : QtAdapter := mkAdapter c (qa_alive a) (qa_slots a) (qa_posted a) (qa_made a).

(** The topic and text are given as their UTF-8. *)
Definition qt_sendMessage {T} (tr : Traits T) (key : string) (payload : T) (a : QtAdapter) : option (bool * QtAdapter) :=
  (λ r, (r.1, with_client r.2 a)) <$> sendMessage_typed tr key payload (qa_client a).

Definition qt_setCluster (name : string) (a : QtAdapter) : bool * QtAdapter :=
  let '(ok, c) := setCluster name (qa_client a) in (ok, with_client c a).

Definition qt_replyToSender {T} (tr : Traits T) (payload : T) (a : QtAdapter) : option (bool * QtAdapter) :=
  (λ r, (r.1, with_client r.2 a)) <$> replyToSender_typed tr payload (qa_client a).

(** The answer as text. *)
Definition qt_sendRequest `{!Qt} (onProcessingThread : bool) (p : Z) (uuid topic payload : string)
    (meanwhile : @Manager W → @Manager W) (m : @Manager W) : option string * @Manager W :=
  let '(response, m) := sendRequest onProcessingThread p uuid topic payload meanwhile m in (fromStdString <$> response, m).

Definition qt_unregisterCallback (key : string) (context : Z) (a : QtAdapter) : QtAdapter :=
  with_client (unregisterCallback key context (qa_client a)) a.

(** What the library runs for a message: nothing through the library itself. *)
Definition posting_callback : Callback := mkCallback (λ _, []).

Definition unregisterWhenDestroyed (key : string) (context : Z) (a : QtAdapter) : QtAdapter :=
  mkAdapter (qa_client a) (qa_alive a) (qa_slots a ++ [(key, context)]) (qa_posted a) (qa_made a).

Definition qt_registerCallback (key : string) (context : Z) (scope : Origin) (a : QtAdapter) : QtAdapter :=
  unregisterWhenDestroyed key context (with_client (registerInternal key (Some posting_callback) context scope (qa_client a)) a).

(** The closure: [guard.data()], then [invokeMethod] over a queued connection. *)
Definition closure_runs (context : Z) (payload : string) (a : QtAdapter) : QtAdapter :=
  if decide (context ∈ qa_alive a)
  then mkAdapter (qa_client a) (qa_alive a) (qa_slots a) (qa_posted a ++ [(context, payload)]) (qa_made a) else a.

(** The event loop makes the next posted call. *)
Definition run_posted (a : QtAdapter) : QtAdapter :=
  match qa_posted a with
  | [] => a
  | call :: posted => mkAdapter (qa_client a) (qa_alive a) (qa_slots a) posted (qa_made a ++ [call])
  end.

Definition object_created (context : Z) (a : QtAdapter) : QtAdapter :=
  mkAdapter (qa_client a) ({[context]} ∪ qa_alive a) (qa_slots a) (qa_posted a) (qa_made a).

(** [destroyed] runs the object's slots, in the order they were connected. *)
Definition object_destroyed (context : Z) (a : QtAdapter) : QtAdapter :=
  let mine := filter (λ s : string * Z, s.2 = context) (qa_slots a) in
  mkAdapter (foldl (λ c s, unregisterCallback s.1 s.2 c) (qa_client a) mine) (qa_alive a ∖ {[context]})
    (filter (λ s : string * Z, s.2 ≠ context) (qa_slots a)) (filter (λ call : Z * string, call.1 ≠ context) (qa_posted a)) (qa_made a).

(** ** Runs *)

Inductive QtEvent :=
  | Init (uuid : string) (config : ConnectionConfig)
  | Shutdown (onProcessingThread : bool)
  | Created (context : Z)
  | Registers (key : string) (context : Z) (scope : Origin)
  | Unregisters (key : string) (context : Z)
  | Invoked (context : Z) (payload : string)
  | RunPosted
  | Destroyed (context : Z).

(** A registration needs its context. *)
Definition qt_step (a : QtAdapter) (e : QtEvent) : QtAdapter :=
  match e with
  | Init uuid config => qt_init uuid config a
  | Shutdown t => qt_shutdown t a
  | Created context => object_created context a
  | Registers key context scope => if decide (context ∈ qa_alive a) then qt_registerCallback key context scope a else a
  | Unregisters key context => qt_unregisterCallback key context a
  | Invoked context payload => closure_runs context payload a
  | RunPosted => run_posted a
  | Destroyed context => object_destroyed context a
  end.

Definition new_adapter : QtAdapter := mkAdapter no_client ∅ [] [] [].

(** ** Registrations *)

(** A registration of the library: on the instance or waiting for one. *)
Definition registered (key : string) (context : Z) (c : @Client W) : Prop :=
  match s_instance c with
  | Some m => ∃ l e, m_msgHandlers m !! key = Some l ∧ e ∈ l ∧ ce_instance e = context
  | None => ∃ cb scope, (key, cb, context, scope) ∈ s_pendingMsgCallbacks c
  end.

(** Nothing waits while there is an instance. *)
Definition no_pending (c : @Client W) : Prop := is_Some (s_instance c) → s_pendingMsgCallbacks c = [].

Lemma performRegistration_registered key i cb scope m key' i' l e :
  m_msgHandlers (performRegistration key cb i scope m) !! key' = Some l → e ∈ l → ce_instance e = i' →
  (key' = key ∧ i' = i) ∨ ∃ l e, m_msgHandlers m !! key' = Some l ∧ e ∈ l ∧ ce_instance e = i'.
Proof.
  destruct (performRegistration_shape key cb i scope m) as (w & n & ->). cbn. rewrite lookup_insert. case_decide as Hk.
  - intros [= <-]. subst key'. rewrite elem_of_app, list_elem_of_singleton. intros [He| ->] <-; [right|by left].
    destruct (m_msgHandlers m !! key) as [l0|]; [by eexists _, _|by apply not_elem_of_nil in He].
  - intros. right. by eexists _, _.
Qed.

Lemma registerInternal_registered key i cb scope c key' i' :
  no_pending c → registered key' i' (registerInternal key cb i scope c) → (key' = key ∧ i' = i) ∨ registered key' i' c.
Proof.
  intros _. unfold registerInternal, registered. destruct (s_instance c) as [m|]; cbn.
  - intros (l & e & Hl & He & Hi). by eapply performRegistration_registered.
  - intros (cb' & scope' & [H|H%list_elem_of_singleton]%elem_of_app); [right; by eexists _, _|left; by simplify_eq].
Qed.

Lemma unregisterCallback_registered key i c key' i' :
  registered key' i' (unregisterCallback key i c) → registered key' i' c ∧ ¬ (key' = key ∧ i' = i).
Proof.
  unfold unregisterCallback, registered. destruct (s_instance c) as [m|]; cbn.
  - intros (l & e & Hl & He & Hi). destruct (performUnregistration_shape key i m) as (w & n & E). rewrite E in Hl. cbn in Hl.
    destruct (elem_of_without _ _ _ _ _ _ Hl He) as (l' & Hl' & He' & Hne). split; [by eexists _, _|].
    intros [-> ->]. by apply Hne.
  - intros (cb & scope & [Hne Hin]%list_elem_of_filter). split; [by eexists _, _|]. exact Hne.
Qed.

Lemma unregister_slots_registered slots c key i :
  registered key i (foldl (λ c s, unregisterCallback s.1 s.2 c) c slots) → registered key i c ∧ (key, i) ∉ slots.
Proof.
  revert c. induction slots as [|s slots IH]; intros c; cbn [foldl]; [intros H; split; [done|apply not_elem_of_nil]|].
  intros [H Hn]%IH. apply unregisterCallback_registered in H as [H Hne]. split; [done|].
  intros [E|Hin]%elem_of_cons; [subst s; by apply Hne|done].
Qed.

(** [init] registers what was waiting. *)
Lemma register_pending_registered ps m key i l e :
  m_msgHandlers (foldl register_pending m ps) !! key = Some l → e ∈ l → ce_instance e = i →
  (∃ cb scope, (key, cb, i, scope) ∈ ps) ∨ ∃ l e, m_msgHandlers m !! key = Some l ∧ e ∈ l ∧ ce_instance e = i.
Proof.
  revert m l e. induction ps as [|[[[k cb] j] scope] ps IH]; intros m l e; cbn [foldl]; [intros; right; by eexists _, _|].
  intros Hl He Hi. destruct (IH _ _ _ Hl He Hi) as [(cb' & sc' & Hin)|(l' & e' & Hl' & He' & Hi')].
  - left. exists cb', sc'. by right.
  - destruct (performRegistration_registered _ _ _ _ _ _ _ _ _ Hl' He' Hi') as [[-> ->]|H]; [left; exists cb, scope; by left|by right].
Qed.

Lemma init_registered uuid config c key i : registered key i (init uuid config c) → registered key i c.
Proof.
  unfold init. destruct (s_instance c) as [m|] eqn:E; [done|]. unfold registered at 1. cbn. intros (l & e & Hl & He & Hi).
  unfold registered. rewrite E. destruct (register_pending_registered _ _ _ _ _ _ Hl He Hi) as [H|(l' & e' & Hl' & _)]; [done|].
  assert ((∅ : gmap string (list CallbackEntry)) !! key = Some l') as H0 by exact Hl'. by rewrite lookup_empty in H0.
Qed.

Lemma shutdown_registered t c key i : no_pending c → registered key i (shutdown t c) → registered key i c.
Proof.
  intros Hn. unfold shutdown. destruct (s_instance c) as [m|] eqn:E; [|done]. destruct t; [done|]. unfold registered at 1. cbn.
  intros (cb & scope & Hin). rewrite Hn in Hin by (by eexists). by apply not_elem_of_nil in Hin.
Qed.

(** ** The invariant *)

Record adapter_ok (a : QtAdapter) : Prop := {
  ok_slots : ∀ key i, registered key i (qa_client a) → (key, i) ∈ qa_slots a;
  ok_alive : ∀ key i, (key, i) ∈ qa_slots a → i ∈ qa_alive a;
  ok_posted : ∀ i payload, (i, payload) ∈ qa_posted a → i ∈ qa_alive a;
  ok_pending : no_pending (qa_client a)
}.

Lemma unregisterCallback_no_pending key i c : no_pending c → no_pending (unregisterCallback key i c).
Proof. unfold no_pending, unregisterCallback. destruct (s_instance c); cbn; [auto|]. by intros _ []. Qed.

Lemma unregister_slots_no_pending slots c :
  no_pending c → no_pending (foldl (λ c s, unregisterCallback s.1 s.2 c) c slots).
Proof. revert c. induction slots as [|s slots IH]; intros c H; [done|]. apply IH. by apply unregisterCallback_no_pending. Qed.

Lemma qt_step_ok a e : adapter_ok a → adapter_ok (qt_step a e).
Proof.
  intros [Hs Ha Hp Hn]. destruct e as [uuid config|t|i|key i scope|key i|i payload| |i]; cbn [qt_step].
  - split; cbn; [intros key i H; apply Hs; by eapply init_registered|done|done|].
    unfold no_pending, init in *. destruct (s_instance _) eqn:E; cbn; [by rewrite E|done].
  - split; cbn; [intros key i H; apply Hs; by eapply shutdown_registered|done|done|].
    unfold no_pending, shutdown in *. destruct (s_instance _) eqn:E; [destruct t|]; cbn; rewrite ?E; auto.
  - split; cbn; [done|set_solver..|done].
  - case_decide as Hi; [|by split]. split; cbn; [|intros key' i' [H|H%list_elem_of_singleton]%elem_of_app; [by eapply Ha|by simplify_eq]|done|].
    + intros key' i' H. apply elem_of_app. destruct (registerInternal_registered _ _ _ _ _ _ _ Hn H) as [[-> ->]|H']; [right; by left|left; auto].
    + unfold no_pending, registerInternal in *. destruct (s_instance _); cbn; [auto|]. by intros [].
  - split; cbn; [|done|done|by apply unregisterCallback_no_pending]. intros key' i' [H _]%unregisterCallback_registered. auto.
  - unfold closure_runs. case_decide; [|by split]. split; cbn; [done|done| |done].
    intros i' p' [H'|H'%list_elem_of_singleton]%elem_of_app; [by eapply Hp|by simplify_eq].
  - unfold run_posted. destruct (qa_posted a) as [|call posted] eqn:E; [by split; rewrite ?E|]. split; cbn; [done|done| |done].
    intros i' p' H'. eapply Hp. right. exact H'.
  - split; cbn.
    + intros key' i' [H Hnin]%unregister_slots_registered. apply list_elem_of_filter. split; [|auto]. cbn. intros ->.
      apply Hnin, list_elem_of_filter. auto.
    + intros key' i' [Hne H]%list_elem_of_filter. cbn in Hne. apply Ha in H. set_solver.
    + intros i' p' [Hne H]%list_elem_of_filter. cbn in Hne. apply Hp in H. set_solver.
    + by apply unregister_slots_no_pending.
Qed.
End adapter.

(** ** Properties *)

