(* ===== verification/Inspector.v ===== *)
(** * The inspector

    Models [inspector/]: the table model and its filter ([packettablemodel.cpp]), the
    reader of the tap ([inspectorworker.cpp]), the tree view of a message
    ([protoutils.h]) and the window that ties them together ([mainwindow.cpp]).

    Of Qt, what the code relies on: a [QString] is its UTF-8 text, the conversions and the
    case folding are parameters ([Qt]); a [QMap] is an association list in key order; the
    queue of events posted to the window's thread is a list, and everything the window
    does it does in one event.  Layout, scrolling and painting are not modelled.  The
    filter proxy decides about a row when the row is inserted and about all rows when the
    filter changes, and remembers the answers: [c_rows].

    The protobuf runtime's reflection is a parameter too ([Reflection]): a message it
    reflects is a tree of named fields ([PMessage]). *)

From Stdlib Require Import ZArith Lia.
From S2P Require Import Prelude.
From S2P Require Import MessageKeys.
From S2P Require Import Config.
From S2P Require Import Wire.
From S2P Require Import Beacon.
From S2P Require Import Uuid.
From S2P Require Import AnyFrame.
From S2P Require Import Worker.
From S2P Require Import Broker.
From S2P Require Import HexDump.
From S2P Require Import Commands.
From S2P Require Import QtCore.

(** ** Data *)

Record InspectorPacket := mkPacket {
  ip_timestamp : string;
  ip_senderId : string;
  ip_key : string;
  ip_topic : string;
  ip_sizeBytes : nat;
  ip_header : MessageHeader;
  ip_payload : string
}.

(** ** Messages as trees *)

(** A reflected message: its fields in the order of the descriptor.  A singular field has
    no value when [HasField] says so.  The value of a bytes field is its bytes, of any other
    scalar the text [PrintFieldValueToString] makes. *)
Inductive PMessage :=
  | PMsg (typeName : string) (fields : list PField)
with PField :=
  | PScalar (name : string) (isBytes : bool) (value : option string)
  | PRepeated (name : string) (isBytes : bool) (values : list string)
  | PSub (name : string) (value : option PMessage)
  | PRepeatedSub (name : string) (values : list PMessage).

Class Reflection := {
  (* [Any::ParseFromString]: the type url and the value *)
  parse_any : string → option (string * string);
  (* the generated pool, the factory and [Any::UnpackTo] of a new message *)
  find_message_type : string → bool;
  unpack_dynamic : string → string * string → option PMessage;
  (* [Any::UnpackTo] of a [broker::SystemStats] *)
  unpack_stats : string * string → option StatsReport;
  (* [TextFormat] of a string field *)
  print_string : string → string
}.

(** A [QTreeWidgetItem]: its two columns and its children. *)
Inductive Tree := Node (column0 column1 : string) (children : list Tree).

Definition node_text (t : Tree) : string * string := match t with Node a b _ => (a, b) end.

Section tree.
Context `{!Qt} `{!Reflection}.

(** [QString("[%1 items]")]. *)
Definition items_text (count : nat) : string := "[" +:+ to_string (Z.of_nat count) +:+ " items]".

Definition index_text (j : nat) : string := "[" +:+ to_string (Z.of_nat j) +:+ "]".

(** [valueStr.pop_back()] of a trailing line break. *)
Definition chomp (value : string) : string :=
  if decide (char_at value (String.length value - 1) = Some (chr 10)) then str_take (String.length value - 1) value else value.

Definition scalar_text (isBytes : bool) (value : string) : string :=
  if isBytes then formatBytesValue value else fromStdString (chomp value).

Fixpoint populateProtobufTree (msg : PMessage) : list Tree :=
  match msg with PMsg _ fields => concat (map field_nodes fields) end
with field_nodes (field : PField) : list Tree :=
  match field with
  | PScalar name isBytes (Some value) => [Node (fromStdString name) (scalar_text isBytes value) []]
  | PSub name (Some msg) => [Node (fromStdString name) "{...}" (populateProtobufTree msg)]
  | PScalar _ _ None | PSub _ None => []
  | PRepeated name isBytes values =>
      [Node (fromStdString name) (items_text (length values))
         (imap (λ j value, Node (index_text j) (scalar_text isBytes value) []) values)]
  | PRepeatedSub name values =>
      [Node (fromStdString name) (items_text (length values))
         ((fix items (j : nat) (values : list PMessage) : list Tree :=
             match values with
             | [] => []
             | msg :: values => Node (index_text j) EmptyString (populateProtobufTree msg) :: items (S j) values
             end) 0 values)]
  end.

(** What reflection shows of a header: a proto3 field without presence is there when it is
    not empty. *)
Definition header_field (name value : string) : PField :=
  PScalar name false (if decide (value = EmptyString) then None else Some (print_string value)).

Definition header_message (header : MessageHeader) : PMessage :=
  PMsg "broker.MessageHeader"
    [header_field "handler_key" (handler_key header); header_field "sender_id" (sender_id header);
     header_field "topic" (topic header); header_field "origin_broker_id" (origin_broker_id header);
     PScalar "message_uuid" true
       (if decide (message_uuid header = EmptyString) then None else Some (message_uuid header));
     header_field "reply_topic" (reply_topic header)].

Definition slash : Ascii.ascii := chr 47.

Definition dynamicallyUnpack (any : string * string) : option PMessage :=
  let typeUrl := any.1 in
  let typeName := match rfind_char slash typeUrl with Some pos => str_drop (pos + 1) typeUrl | None => typeUrl end in
  if find_message_type typeName then unpack_dynamic typeName any else None.

Definition drawEnvelopeAndPayload (header : MessageHeader) (payload : string) : list Tree :=
  Node "Message Header" EmptyString (populateProtobufTree (header_message header)) ::
  if decide (payload = EmptyString) then []
  else
    let raw := [Node "Raw Payload" ("[" +:+ to_string (Z.of_nat (String.length payload)) +:+ " bytes]") []] in
    match parse_any payload with
    | Some any =>
        if starts_with TYPE_URL_PREFIX any.1 then
          match dynamicallyUnpack any with
          | Some (PMsg typeName fields) => [Node (fromStdString typeName) EmptyString (populateProtobufTree (PMsg typeName fields))]
          | None => [Node "[Unknown Protobuf Schema]" "Link .pb.cc file to view" []]
          end
        else raw
    | None => raw
    end.
End tree.

(** ** The table model *)

Inductive Variant :=
  | Invalid
  | VText (text : string)
  | VAlignRight
  | VColor (r g b a : Z).

Inductive Role := DisplayRole | TextAlignmentRole | BackgroundRole | OtherRole.

Section table.
Context `{!Qt}.

Definition formatByteSize (bytes : nat) : string :=
  if decide (bytes < 1024) then to_string (Z.of_nat bytes) +:+ " B" else kilobytes bytes +:+ " KB".

Definition rowCount (history : list InspectorPacket) : nat := length history.

Definition columnCount : nat := 6.

(** Without a value the section is outside the array. *)
Definition headerData (section : nat) (horizontal : bool) (role : Role) : option Variant :=
  match role, horizontal with
  | DisplayRole, true =>
      VText <$> ["Time"%string; "Sender"%string; "Key"%string; "Topic"%string; "Msg size"%string; "Payload size"%string] !! section
  | _, _ => Some Invalid
  end.

(** [t.isEmpty() ? "[Empty]" : t]. *)
Definition topic_label (topic : string) : string :=
  if decide (fromStdString topic = EmptyString) then "[Empty]" else fromStdString topic.

Definition display (packet : InspectorPacket) (column : nat) : Variant :=
  match column with
  | 0 => VText (fromStdString (ip_timestamp packet))
  | 1 => VText (fromStdString (ip_senderId packet))
  | 2 => VText (fromStdString (ip_key packet))
  | 3 => VText (topic_label (ip_topic packet))
  | 4 => VText (formatByteSize (ip_sizeBytes packet))
  | 5 => VText (formatByteSize (String.length (ip_payload packet)))
  | _ => Invalid
  end.

Definition background (key : string) : Variant :=
  if decide (key = Keys.CONNECT) then VColor 0 128 0 100
  else if decide (key = Keys.DISCONNECT) then VColor 128 0 0 100
  else if decide (key = Keys.SUBSCRIBE) then VColor 0 0 128 100
  else if decide (key = Keys.UNSUBSCRIBE) then VColor 0 128 128 100
  else if decide (key = Keys.SYS_STATS) then VColor 128 128 0 100
  else if Keys.isSystemPacket key then VColor 50 50 50 100
  else Invalid.

Definition data (history : list InspectorPacket) (row column : nat) (role : Role) : Variant :=
  match history !! row with
  | None => Invalid
  | Some packet =>
      match role with
      | DisplayRole => display packet column
      | TextAlignmentRole => if decide (column = 4 ∨ column = 5) then VAlignRight else Invalid
      | BackgroundRole => background (ip_key packet)
      | OtherRole => Invalid
      end
  end.

(** [QVariant::toString]. *)
Definition toString (v : Variant) : string := match v with VText s => s | _ => EmptyString end.

(** *** The filter *)

Record Filter := mkFilter { m_allowedTopics : gset string; m_searchText : string }.

Definition filterAcceptsRow (history : list InspectorPacket) (f : Filter) (sourceRow : nat) : bool :=
  let topic := toString (data history sourceRow 3 DisplayRole) in
  if negb (bool_decide (topic ∈ m_allowedTopics f)) then false
  else if decide (m_searchText f = EmptyString) then true
  else
    let sender := toLower (toString (data history sourceRow 1 DisplayRole)) in
    let key := toLower (toString (data history sourceRow 2 DisplayRole)) in
    str_contains (m_searchText f) sender || str_contains (m_searchText f) key || str_contains (m_searchText f) (toLower topic).

(** [QSortFilterProxyModel::mapToSource] of a row of the view: the row of the table that
    holds the [r]-th accepted row, if there is one. *)
Fixpoint mapToSource (rows : list bool) (r : nat) : option nat :=
  match rows with
  | [] => None
  | true :: rows => match r with O => Some 0 | S r => S <$> mapToSource rows r end
  | false :: rows => S <$> mapToSource rows r
  end.
End table.

(** ** The window *)

Definition MaxPacketHistory : nat := Z.to_nat 100000.
Definition TrimChunk : nat := Z.to_nat 10000.

Record StatsLabels := mkLabels {
  lb_brokerId : string;
  lb_cluster : string;
  lb_uptime : string;
  lb_clients : string;
  lb_peers : string;
  lb_msgsSec : string;
  lb_kbSec : string;
  lb_totalMsgs : string;
  lb_dropped : string;
  lb_droppedStyle : string
}.

Definition blank_labels : StatsLabels :=
  mkLabels "Broker ID: --" "Cluster: --" "Uptime: -- s" "Clients: 0" "Peers: 0" "Msgs/sec: 0" "KB/sec: 0.00" "Total Msgs: 0"
    "Dropped: 0" EmptyString.

(** What is shown of the broker's traffic: the packets, the filter proxy and the rows it
    accepted, the topics met, the menu of their check marks, the labels and the two views of
    the selected packet. *)
Record Capture := mkCapture {
  c_history : list InspectorPacket;
  c_filter : Filter;
  c_rows : list bool;
  c_known : gset string;
  c_menu : list (string * bool);
  c_labels : StatsLabels;
  c_tree : list Tree;
  c_hex : string;
  c_filterBar : string
}.

Record DiscoveredBroker := mkDiscovered {
  db_cluster : string;
  db_uuid : string;
  db_endpoint : string;
  db_routerEndpoint : string;
  db_lastSeen : Z
}.

(** An entry of the selector: its text, its data and whether it is enabled. *)
Record SelectorItem := mkItem { si_text : string; si_data : string; si_enabled : bool }.

(** The thread that reads the tap: the endpoint it was given, its run flag, the socket of a
    running thread, and what that thread has read. *)
Record InspectorWorker (S : Type) := mkInspectorWorker {
  iw_endpoint : string;
  iw_running : bool;
  iw_socket : option S;
  iw_read : list InspectorPacket
}.
Arguments mkInspectorWorker {S} _ _ _ _.
Arguments iw_endpoint {S} _.
Arguments iw_running {S} _.
Arguments iw_socket {S} _.
Arguments iw_read {S} _.

(** What other threads post to the window's. *)
Inductive Posted :=
  | PacketReceived (packet : InspectorPacket)
  | BeaconHeard (senderIp : string) (heard : Beacon).

Record MainWindow (W S : Type) := mkWindow {
  mw_worker : InspectorWorker S;
  mw_posted : list Posted;
  mw_injector : option W;
  mw_injectorAddress : string;
  mw_capture : Capture;
  mw_brokers : list (string * DiscoveredBroker);
  mw_selector : list SelectorItem;
  mw_index : option nat;
  mw_currentEndpoint : string
}.
Arguments mkWindow {W S} _ _ _ _ _ _ _ _ _.
Arguments mw_worker {W S} _.
Arguments mw_posted {W S} _.
Arguments mw_injector {W S} _.
Arguments mw_injectorAddress {W S} _.
Arguments mw_capture {W S} _.
Arguments mw_brokers {W S} _.
Arguments mw_selector {W S} _.
Arguments mw_index {W S} _.
Arguments mw_currentEndpoint {W S} _.

(** [InspectorWorker::localTap]; [env] is [WISP_INSPECTOR_SOCK]. *)
Definition localTap `{!Qt} (env : option string) : string :=
  match env with
  | Some (String _ _ as value) => fromStdString value
  | _ => "ipc:///tmp/broker_inspector.sock"
  end.

Definition DEFAULT_ROUTER : string := "tcp://localhost:5555".

(** *** The capture *)

Section capture.
Context `{!Qt} `{!Reflection}.
Implicit Types (c : Capture).

Definition all_rows (history : list InspectorPacket) (f : Filter) : list bool :=
  filterAcceptsRow history f <$> seq 0 (rowCount history).

(** The filter changes and the proxy looks at every row again. *)
Definition updateFilters (text : string) (topics : gset string) c : Capture :=
  let f := mkFilter topics (toLower text) in
  mkCapture (c_history c) f (all_rows (c_history c) f) (c_known c) (c_menu c) (c_labels c) (c_tree c) (c_hex c) (c_filterBar c).

Definition applyFilters c : Capture :=
  let allowedTopics := list_to_set ((filter (λ action : string * bool, action.2 = true) (c_menu c)).*1) in
  updateFilters (c_filterBar c) allowedTopics c.

(** [push_back] and [packetAdded]: the proxy looks at the new row. *)
Definition packet_added (packet : InspectorPacket) c : Capture :=
  let history := c_history c ++ [packet] in
  mkCapture history (c_filter c) (c_rows c ++ [filterAcceptsRow history (c_filter c) (rowCount history - 1)])
    (c_known c) (c_menu c) (c_labels c) (c_tree c) (c_hex c) (c_filterBar c).

(** [packetsAboutToBeTrimmed], [erase], [packetsTrimmed]. *)
Definition trim_history c : Capture :=
  if decide (MaxPacketHistory < length (c_history c)) then
    mkCapture (drop TrimChunk (c_history c)) (c_filter c) (drop TrimChunk (c_rows c)) (c_known c) (c_menu c) (c_labels c)
      (c_tree c) (c_hex c) (c_filterBar c)
  else c.

(** A topic met for the first time gets a checked entry in the menu. *)
Definition learn_topic (topic : string) c : Capture :=
  let qTopic := topic_label topic in
  if decide (qTopic ∈ c_known c) then c
  else applyFilters (mkCapture (c_history c) (c_filter c) (c_rows c) ({[qTopic]} ∪ c_known c) (c_menu c ++ [(qTopic, true)])
    (c_labels c) (c_tree c) (c_hex c) (c_filterBar c)).

Definition stats_labels (r : StatsReport) : StatsLabels :=
  let s := sr_stats r in
  let cluster := fromStdString (st_cluster s) in
  mkLabels ("Broker ID: " +:+ fromStdString (st_broker_id s))
    ("Cluster: " +:+ (if decide (cluster = EmptyString) then "--" else cluster))
    ("Uptime: " +:+ put_int (st_uptime_sec s) +:+ " s") ("Clients: " +:+ put_int (st_clients_count s))
    ("Peers: " +:+ put_int (st_peers_count s)) ("Msgs/sec: " +:+ put_int (sr_msgs_per_sec r))
    ("KB/sec: " +:+ sr_kb_per_sec r) ("Total Msgs: " +:+ put_int (st_total_msgs s))
    ("Dropped: " +:+ to_string (st_total_dropped s))
    (if decide (0 < st_total_dropped s)%Z then "color: #e74c3c; font-weight: bold;" else EmptyString).

Definition with_labels (labels : StatsLabels) c : Capture :=
  mkCapture (c_history c) (c_filter c) (c_rows c) (c_known c) (c_menu c) labels (c_tree c) (c_hex c) (c_filterBar c).

Definition show_stats (packet : InspectorPacket) c : Capture :=
  if decide (ip_topic packet = Keys.SYS_STATS) then
    match parse_any (ip_payload packet) ≫= unpack_stats with
    | Some r => with_labels (stats_labels r) c
    | None => c
    end
  else c.

Definition onNewPacket (packet : InspectorPacket) c : Capture :=
  show_stats packet (learn_topic (ip_topic packet) (trim_history (packet_added packet c))).

(** The filter and the filter bar stay as they are. *)
Definition clearCapture c : Capture :=
  mkCapture [] (c_filter c) [] ∅ [] blank_labels [] EmptyString (c_filterBar c).

(** [selected] is the row of the view that is selected. *)
Definition selected_packet (selected : option nat) c : option InspectorPacket :=
  r ← selected; row ← mapToSource (c_rows c) r; c_history c !! row.

Definition onSelectionChanged (selected : option nat) c : Capture :=
  match selected_packet selected c with
  | None => c
  | Some packet =>
      mkCapture (c_history c) (c_filter c) (c_rows c) (c_known c) (c_menu c) (c_labels c)
        (drawEnvelopeAndPayload (ip_header packet) (ip_payload packet)) (fromStdString (generateHexDump (ip_payload packet)))
        (c_filterBar c)
  end.

(** [QLineEdit::textChanged]. *)
Definition filter_text_changed (text : string) c : Capture :=
  applyFilters (mkCapture (c_history c) (c_filter c) (c_rows c) (c_known c) (c_menu c) (c_labels c) (c_tree c) (c_hex c) text).

(** [QAction::toggled] of the [i]-th entry of the menu. *)
Definition topic_toggled (i : nat) c : Capture :=
  applyFilters (mkCapture (c_history c) (c_filter c) (c_rows c) (c_known c)
    (alter (λ action, (action.1, negb action.2)) i (c_menu c)) (c_labels c) (c_tree c) (c_hex c) (c_filterBar c)).

Definition new_capture : Capture :=
  mkCapture [] (mkFilter ∅ EmptyString) [] ∅ [] blank_labels [] EmptyString EmptyString.
End capture.

(** *** The window's operations *)

Section window.
Context `{!Qt} `{!Reflection} {W : Type} `{!WorkerInterface W} {S : Type} `{!ZmqReceiver S} `{!ProtobufRuntime}.
Context (local_tap : string).
Implicit Types (w : MainWindow W S).

Definition with_worker (worker : InspectorWorker S) w : MainWindow W S :=
  mkWindow worker (mw_posted w) (mw_injector w) (mw_injectorAddress w) (mw_capture w) (mw_brokers w) (mw_selector w)
    (mw_index w) (mw_currentEndpoint w).

Definition with_capture (c : Capture) w : MainWindow W S :=
  mkWindow (mw_worker w) (mw_posted w) (mw_injector w) (mw_injectorAddress w) c (mw_brokers w) (mw_selector w)
    (mw_index w) (mw_currentEndpoint w).

Definition with_posted (posted : list Posted) w : MainWindow W S :=
  mkWindow (mw_worker w) posted (mw_injector w) (mw_injectorAddress w) (mw_capture w) (mw_brokers w) (mw_selector w)
    (mw_index w) (mw_currentEndpoint w).

Definition with_injector (injector : option W) (address : string) w : MainWindow W S :=
  mkWindow (mw_worker w) (mw_posted w) injector address (mw_capture w) (mw_brokers w) (mw_selector w)
    (mw_index w) (mw_currentEndpoint w).

Definition with_brokers (brokers : list (string * DiscoveredBroker)) w : MainWindow W S :=
  mkWindow (mw_worker w) (mw_posted w) (mw_injector w) (mw_injectorAddress w) (mw_capture w) brokers (mw_selector w)
    (mw_index w) (mw_currentEndpoint w).

Definition with_selector (items : list SelectorItem) (index : option nat) w : MainWindow W S :=
  mkWindow (mw_worker w) (mw_posted w) (mw_injector w) (mw_injectorAddress w) (mw_capture w) (mw_brokers w) items
    index (mw_currentEndpoint w).

Definition with_endpoint (endpoint : string) w : MainWindow W S :=
  mkWindow (mw_worker w) (mw_posted w) (mw_injector w) (mw_injectorAddress w) (mw_capture w) (mw_brokers w) (mw_selector w)
    (mw_index w) endpoint.

(** **** The reader of the tap *)

Definition startWorker (worker : InspectorWorker S) : InspectorWorker S :=
  mkInspectorWorker (iw_endpoint worker) true None [].

Definition stopWorker (worker : InspectorWorker S) : InspectorWorker S :=
  mkInspectorWorker (iw_endpoint worker) false (iw_socket worker) (iw_read worker).

Definition setEndpoint (endpoint : string) (worker : InspectorWorker S) : InspectorWorker S :=
  mkInspectorWorker endpoint (iw_running worker) (iw_socket worker) (iw_read worker).

(** [inspector.connect]: without a socket it threw, and the thread is over. *)
Definition run_connect (socket : option S) (worker : InspectorWorker S) : InspectorWorker S :=
  mkInspectorWorker (iw_endpoint worker) (iw_running worker) socket (iw_read worker).

(** One receive: the clock, or the exception the socket threw and whether it was [EINTR]. *)
Inductive TapLook := TapReceive (stamp : string) | TapThrew (interrupted : bool).

Definition packet_of (stamp : string) (env : Envelope) (wireBytes : nat) : InspectorPacket :=
  let header := env_header env in
  mkPacket stamp (sender_id header) (handler_key header) (topic header) wireBytes header (env_payload env).

(** The body of the loop of [run], once [m_running] was found set: what is emitted. *)
Definition run_turn (look : TapLook) (worker : InspectorWorker S) : list InspectorPacket * InspectorWorker S :=
  match iw_socket worker with
  | None => ([], worker)
  | Some sock =>
      match look with
      | TapThrew true => ([], worker)
      | TapThrew false => ([], mkInspectorWorker (iw_endpoint worker) (iw_running worker) None (iw_read worker))
      | TapReceive stamp =>
          let '(received, sock) := recv sock in
          let emitted := match received with None => [] | Some (env, wireBytes) => [packet_of stamp env wireBytes] end in
          (emitted, mkInspectorWorker (iw_endpoint worker) (iw_running worker) (Some sock) (iw_read worker ++ emitted))
      end
  end.

(** [emit packetReceived] over a queued connection. *)
Definition worker_turn (look : TapLook) w : MainWindow W S :=
  let '(emitted, worker) := run_turn look (mw_worker w) in
  with_posted (mw_posted w ++ (PacketReceived <$> emitted)) (with_worker worker w).

(** [wait]: the thread finds its flag cleared, after the receive it may be in. *)
Definition wait_worker (inFlight : option TapLook) w : MainWindow W S :=
  let w := match inFlight with Some look => worker_turn look w | None => w end in
  with_worker (run_connect None (mw_worker w)) w.

(** **** Brokers *)

(** The injector before is stopped and destroyed. *)
Definition retargetInjector (address : string) w : MainWindow W S :=
  match mw_injector w with
  | Some injector => if decide (address = mw_injectorAddress w) then w
      else with_injector (Some (worker_start (new_worker (default_config address "Inspector-Replay")))) address w
  | None => with_injector (Some (worker_start (new_worker (default_config address "Inspector-Replay")))) address w
  end.

Definition routerEndpointForTap (tapEndpoint : string) w : string :=
  match list_find (λ e : string * DiscoveredBroker, db_endpoint e.2 = tapEndpoint) (mw_brokers w) with
  | Some (_, (_, broker)) => db_routerEndpoint broker
  | None => DEFAULT_ROUTER
  end.

Definition local_item : SelectorItem := mkItem "Local broker (ipc)" local_tap true.

(** The middle dot and the dash of the texts. *)
Definition dot : string := " · ".
Definition dash : string := " — ".

Definition broker_item (broker : DiscoveredBroker) : SelectorItem :=
  let shortUuid := qleft 8 (db_uuid broker) in
  if decide (db_endpoint broker = EmptyString)
  then mkItem (db_cluster broker +:+ dot +:+ shortUuid +:+ dash +:+ "no remote tap") EmptyString false
  else mkItem (db_cluster broker +:+ dot +:+ shortUuid +:+ dot +:+ db_endpoint broker) (db_endpoint broker) true.

Definition selector_items (brokers : list (string * DiscoveredBroker)) : list SelectorItem :=
  local_item :: (broker_item ∘ snd <$> brokers).

Definition refreshBrokerList w : MainWindow W S :=
  let items := selector_items (mw_brokers w) in
  with_selector items (fst <$> list_find (λ item, si_data item = mw_currentEndpoint w) items) w.

Definition endpoint_text (ip : string) (port : Z) : string := "tcp://" +:+ ip +:+ ":" +:+ put_int port.

Definition onBeaconHeard (now : Z) (senderIp : string) (heard : Beacon) w : MainWindow W S :=
  let uuid := fromStdString (bc_uuid heard) in
  let broker := mkDiscovered (fromStdString (bc_cluster heard)) uuid
    (if decide (bc_tapPort heard = 0%Z) then EmptyString else endpoint_text senderIp (bc_tapPort heard))
    (endpoint_text senderIp (bc_routerPort heard)) now in
  let changed :=
    match qmap_find uuid (mw_brokers w) with
    | None => true
    | Some existing => bool_decide (db_endpoint existing ≠ db_endpoint broker) ||
        bool_decide (db_cluster existing ≠ db_cluster broker) ||
        bool_decide (db_routerEndpoint existing ≠ db_routerEndpoint broker)
    end in
  let w := with_brokers (qmap_insert uuid broker (mw_brokers w)) w in
  if changed then refreshBrokerList w else w.

(** Ten seconds, in milliseconds. *)
Definition BROKER_EXPIRY : Z := 10000.

Definition expireDiscoveredBrokers (now : Z) w : MainWindow W S :=
  let cutoff := (now - BROKER_EXPIRY)%Z in
  let kept := filter (λ e : string * DiscoveredBroker, ¬ (db_lastSeen e.2 < cutoff)%Z) (mw_brokers w) in
  let removedAny := negb (bool_decide (length kept = length (mw_brokers w))) in
  let w := with_brokers kept w in
  if removedAny then refreshBrokerList w else w.

Definition attachTo (inFlight : option TapLook) (endpoint : string) w : MainWindow W S :=
  if decide (endpoint = mw_currentEndpoint w) then w
  else
    let w := with_worker (stopWorker (mw_worker w)) w in
    let w := wait_worker inFlight w in
    let w := with_capture (clearCapture (mw_capture w)) w in
    let w := with_worker (setEndpoint endpoint (mw_worker w)) w in
    let w := with_endpoint endpoint w in
    let w := with_worker (startWorker (mw_worker w)) w in
    retargetInjector (routerEndpointForTap endpoint w) w.

Definition onBrokerSelected (inFlight : option TapLook) (index : option nat) w : MainWindow W S :=
  match index with
  | None => w
  | Some index =>
      let endpoint := default EmptyString (si_data <$> mw_selector w !! index) in
      if decide (endpoint = EmptyString) then w else attachTo inFlight endpoint w
  end.

(** The user picks an entry: a disabled one cannot be. *)
Definition user_selects (inFlight : option TapLook) (index : nat) w : MainWindow W S :=
  match mw_selector w !! index with
  | Some item =>
      if si_enabled item && negb (bool_decide (mw_index w = Some index))
      then onBrokerSelected inFlight (Some index) (with_selector (mw_selector w) (Some index) w) else w
  | None => w
  end.

(** **** Replaying *)

Definition replayed_packet (word1 word2 : Z) (packet : InspectorPacket) : Envelope :=
  let header := ip_header packet in
  let originalSender := sender_id header in
  let sender := if str_contains "REPLAY_" originalSender then originalSender else "REPLAY_" +:+ originalSender in
  mkEnvelope (mkHeader (handler_key header) sender (topic header) (origin_broker_id header)
    (generateBinaryUUID word1 word2) (reply_topic header)) (ip_payload packet).

Definition replaySelectedMessage (word1 word2 : Z) (selected : option nat) w : MainWindow W S :=
  match selected_packet selected (mw_capture w), mw_injector w with
  | Some packet, Some injector =>
      let replayed := replayed_packet word1 word2 packet in
      let injector :=
        if Keys.isControlMessage (handler_key (env_header replayed)) then (writeControlMessage replayed injector).2
        else (writeMessage replayed injector).2 in
      with_injector (Some injector) (mw_injectorAddress w) w
  | _, _ => w
  end.

(** **** Construction and events *)

Definition new_window : MainWindow W S :=
  retargetInjector DEFAULT_ROUTER
    (mkWindow (startWorker (mkInspectorWorker local_tap false None [])) [] None EmptyString new_capture [] [local_item] (Some 0)
       local_tap).

Definition close_window (inFlight : option TapLook) w : MainWindow W S :=
  let w := wait_worker inFlight (with_worker (stopWorker (mw_worker w)) w) in
  with_injector (worker_stop <$> mw_injector w) (mw_injectorAddress w) w.

(** What can happen next: the thread connects or receives, a beacon arrives, the window's
    thread takes the next posted event, a timer fires, the user acts. *)
Inductive WindowEvent :=
  | ThreadConnects (socket : option S)
  | ThreadReceives (look : TapLook)
  | Beacons (senderIp : string) (heard : Beacon)
  | Deliver (now : Z)
  | ExpiryTimer (now : Z)
  | UserSelects (inFlight : option TapLook) (index : nat)
  | UserTypes (text : string)
  | UserToggles (i : nat)
  | UserLooks (selected : option nat)
  | UserReplays (word1 word2 : Z) (selected : option nat).

Definition deliver (now : Z) w : MainWindow W S :=
  match mw_posted w with
  | [] => w
  | PacketReceived packet :: posted => with_capture (onNewPacket packet (mw_capture w)) (with_posted posted w)
  | BeaconHeard senderIp heard :: posted => onBeaconHeard now senderIp heard (with_posted posted w)
  end.

Definition window_step w (e : WindowEvent) : MainWindow W S :=
  match e with
  | ThreadConnects socket =>
      if iw_running (mw_worker w) then with_worker (run_connect socket (mw_worker w)) w else w
  | ThreadReceives look => if iw_running (mw_worker w) then worker_turn look w else w
  | Beacons senderIp heard => with_posted (mw_posted w ++ [BeaconHeard senderIp heard]) w
  | Deliver now => deliver now w
  | ExpiryTimer now => expireDiscoveredBrokers now w
  | UserSelects inFlight index => user_selects inFlight index w
  | UserTypes text => with_capture (filter_text_changed text (mw_capture w)) w
  | UserToggles i => with_capture (topic_toggled i (mw_capture w)) w
  | UserLooks selected => with_capture (onSelectionChanged selected (mw_capture w)) w
  | UserReplays word1 word2 selected => replaySelectedMessage word1 word2 selected w
  end.

Definition window_run : list WindowEvent → MainWindow W S → MainWindow W S := flip (foldl window_step).
End window.
