(* ===== verification/InspectorSpec.v ===== *)
(** * What the inspector shows

    Over the window of [Inspector], for every order of events: the view shows exactly the
    packets of the capture that match the filter, the capture stays within its bound and
    keeps the newest packets, the broker selector agrees with the brokers known and with the
    one attached to, and a replayed message is the selected one under a new id. *)

From Stdlib Require Import ZArith Lia.
From S2P Require Import Prelude.
From S2P Require Import MessageKeys.
From S2P Require Import Config.
From S2P Require Import Wire.
From S2P Require Import Beacon.
From S2P Require Import Uuid.
From S2P Require Import AnyFrame.
From S2P Require Import Worker.
From S2P Require Import QtCore.
From S2P Require Import Inspector.

(** ** Lists *)

(** A key that is listed once has one value. *)
Lemma NoDup_fst_value {A B} (l : list (A * B)) k a b : NoDup l.*1 → (k, a) ∈ l → (k, b) ∈ l → a = b.
Proof.
  intros Hn [i Hi]%list_elem_of_lookup [j Hj]%list_elem_of_lookup.
  assert (i = j) as ->; [|congruence]. eapply (NoDup_lookup l.*1 i j k); [done|..]; by rewrite list_lookup_fmap, ?Hi, ?Hj.
Qed.

Lemma filter_ext_in {A} (P Q : A → Prop) `{!∀ x, Decision (P x)} `{!∀ x, Decision (Q x)} (l : list A) :
  (∀ x, x ∈ l → P x ↔ Q x) → filter P l = filter Q l.
Proof.
  induction l as [|x l IH]; intros Hiff; [done|]. rewrite !filter_cons, IH by (intros; apply Hiff; by right).
  assert (P x ↔ Q x) by (apply Hiff; by left). by do 2 case_decide; try tauto.
Qed.

Lemma filter_same_length {A} (P : A → Prop) `{!∀ x, Decision (P x)} (l : list A) :
  length (filter P l) = length l → filter P l = l.
Proof.
  induction l as [|x l IH]; [done|]. rewrite filter_cons. case_decide; cbn [length].
  - intros [= El]. by rewrite IH.
  - intros El. pose proof (length_filter P l). lia.
Qed.

(** ** The view *)

Section view.
Context `{!Qt} `{!QtLaws} `{!Reflection}.
Implicit Types (c : Capture).

(** What the filter says of a packet, by itself. *)
Definition accepts (f : Filter) (p : InspectorPacket) : bool :=
  bool_decide (topic_label (ip_topic p) ∈ m_allowedTopics f) &&
  (bool_decide (m_searchText f = EmptyString) ||
   str_contains (m_searchText f) (toLower (fromStdString (ip_senderId p))) ||
   str_contains (m_searchText f) (toLower (fromStdString (ip_key p))) ||
   str_contains (m_searchText f) (toLower (topic_label (ip_topic p)))).

Lemma filterAcceptsRow_accepts history f i p :
  history !! i = Some p → filterAcceptsRow history f i = accepts f p.
Proof.
  intros Hp. unfold filterAcceptsRow, data, accepts. rewrite Hp. cbn [display toString].
  destruct (bool_decide (topic_label _ ∈ _)); [|done]. cbn [negb andb].
  destruct (decide (m_searchText f = EmptyString)) as [E|E]; [by rewrite bool_decide_true|by rewrite bool_decide_false].
Qed.

Lemma all_rows_accepts history f : all_rows history f = accepts f <$> history.
Proof.
  apply list_eq. intros i. unfold all_rows, rowCount. rewrite !list_lookup_fmap.
  destruct (history !! i) as [p|] eqn:Ep.
  - rewrite lookup_seq_lt by (by eapply lookup_lt_Some). cbn. f_equal. by apply filterAcceptsRow_accepts.
  - rewrite lookup_seq_ge by (by apply lookup_ge_None). done.
Qed.

(** The rows of the view are the accepted packets, in order. *)
Lemma mapToSource_filter (g : InspectorPacket → bool) history r :
  (row ← mapToSource (g <$> history) r; history !! row) = filter (λ p, g p = true) history !! r.
Proof.
  revert r. induction history as [|p history IH]; intros r; [done|]. cbn [fmap list_fmap mapToSource].
  destruct (g p) eqn:Eg; [rewrite filter_cons_True by done; destruct r as [|r]; [done|]|rewrite filter_cons_False by congruence];
    cbn [lookup list_lookup]; rewrite <-IH; by destruct (mapToSource (g <$> history) r).
Qed.

(** *** What the user asked for *)

Definition checked c (label : string) : Prop := (label, true) ∈ c_menu c.

Definition matches c (p : InspectorPacket) : Prop :=
  let text := toLower (c_filterBar c) in
  checked c (topic_label (ip_topic p)) ∧
  (text = EmptyString ∨
   str_contains text (toLower (fromStdString (ip_senderId p))) = true ∨
   str_contains text (toLower (fromStdString (ip_key p))) = true ∨
   str_contains text (toLower (topic_label (ip_topic p))) = true).

#[export] Instance matches_dec c p : Decision (matches c p).
Proof. unfold matches, checked. apply _. Defined.

(** *** The invariant *)

(** The menu lists the topics met, once each, and the filter is what menu and filter bar
    ask for. *)
Record menu_ok c : Prop := {
  menu_once : NoDup (c_menu c).*1;
  menu_known : ∀ l, l ∈ c_known c ↔ l ∈ (c_menu c).*1;
  menu_allowed : ∀ l b, (l, b) ∈ c_menu c → (l ∈ m_allowedTopics (c_filter c) ↔ b = true);
  menu_search : m_searchText (c_filter c) = toLower (c_filterBar c)
}.

Definition rows_ok c : Prop := c_rows c = accepts (c_filter c) <$> c_history c.

Definition all_met c : Prop := Forall (λ p, topic_label (ip_topic p) ∈ c_known c) (c_history c).

Record capture_ok c : Prop := {
  capture_bound : length (c_history c) ≤ MaxPacketHistory;
  capture_rows : rows_ok c;
  capture_menu : menu_ok c;
  capture_met : all_met c
}.

Lemma applyFilters_ok c :
  length (c_history c) ≤ MaxPacketHistory → NoDup (c_menu c).*1 → (∀ l, l ∈ c_known c ↔ l ∈ (c_menu c).*1) → all_met c →
  capture_ok (applyFilters c).
Proof.
  intros Hb Hn Hk Hm. split; [done|apply all_rows_accepts| |done]. split; [done|done| |done].
  intros l b Hin. cbn [applyFilters updateFilters c_filter m_allowedTopics c_menu] in *.
  rewrite elem_of_list_to_set, list_elem_of_fmap. split.
  - intros ([l' b'] & -> & [Hb' Hin']%list_elem_of_filter). cbn in *. subst b'.
    destruct b; [done|]. exfalso. discriminate (NoDup_fst_value (c_menu c) l' true false Hn Hin' Hin).
  - intros ->. exists (l, true). split; [done|]. by apply list_elem_of_filter.
Qed.

Lemma new_capture_ok : capture_ok new_capture.
Proof.
  split; [apply Nat.le_0_l|done| |apply Forall_nil_2]. split; cbn; [apply NoDup_nil_2|set_solver|set_solver|by rewrite toLower_empty].
Qed.

Lemma clearCapture_ok c : capture_ok c → capture_ok (clearCapture c).
Proof.
  intros [_ _ [_ _ _ Hs] _]. split; [apply Nat.le_0_l|done| |apply Forall_nil_2]. split; cbn; [apply NoDup_nil_2|set_solver|set_solver|done].
Qed.

Lemma filter_text_changed_ok text c : capture_ok c → capture_ok (filter_text_changed text c).
Proof. intros [Hb _ [Hn Hk _ _] Hm]. by apply applyFilters_ok. Qed.

Lemma alter_labels (i : nat) (menu : list (string * bool)) :
  (alter (λ action, (action.1, negb action.2)) i menu).*1 = menu.*1.
Proof. revert i. induction menu as [|a menu IH]; intros [|i]; cbn; [done..|]. f_equal. apply IH. Qed.

Lemma topic_toggled_ok i c : capture_ok c → capture_ok (topic_toggled i c).
Proof. intros [Hb _ [Hn Hk _ _] Hm]. apply applyFilters_ok; cbn [c_menu c_known c_history]; rewrite ?alter_labels; done. Qed.

Lemma onSelectionChanged_ok sel c : capture_ok c → capture_ok (onSelectionChanged sel c).
Proof. intros [Hb Hr [Hn Hk Ha Hs] Hm]. unfold onSelectionChanged. destruct (selected_packet sel c); by split. Qed.

(** *** New packets *)

Lemma packet_added_rows p c : rows_ok c → rows_ok (packet_added p c).
Proof.
  unfold rows_ok. cbn. intros ->. rewrite fmap_app. f_equal. cbn. f_equal. apply filterAcceptsRow_accepts.
  unfold rowCount. rewrite length_app. cbn. replace (length (c_history c) + 1 - 1) with (length (c_history c)) by lia.
  by rewrite lookup_app_r, Nat.sub_diag by lia.
Qed.

Lemma trim_history_spec c :
  length (c_history c) ≤ S MaxPacketHistory → rows_ok c →
  ∃ k, k ≤ 1 ∧ c_history (trim_history c) = drop (k * TrimChunk) (c_history c) ∧ rows_ok (trim_history c) ∧
    length (c_history (trim_history c)) ≤ MaxPacketHistory ∧
    (k = 1 → length (c_history (trim_history c)) = S MaxPacketHistory - TrimChunk) ∧
    c_filter (trim_history c) = c_filter c ∧ c_known (trim_history c) = c_known c ∧ c_menu (trim_history c) = c_menu c ∧
    c_filterBar (trim_history c) = c_filterBar c.
Proof.
  intros Hl Hr. unfold trim_history. case_dec as Hd.
  - exists 1. cbn [c_history c_filter c_known c_menu c_filterBar]. rewrite Nat.mul_1_l. split_and!; try done; try lia.
    + unfold rows_ok. cbn [c_rows c_filter c_history]. by rewrite Hr, fmap_drop.
    + rewrite length_drop. unfold MaxPacketHistory, TrimChunk in *. lia.
    + intros _. rewrite length_drop. lia.
  - exists 0. split_and!; try done; lia.
Qed.

Lemma learn_topic_ok topic c :
  length (c_history c) ≤ MaxPacketHistory → rows_ok c → menu_ok c →
  Forall (λ p, topic_label (ip_topic p) ∈ c_known c ∨ ip_topic p = topic) (c_history c) →
  capture_ok (learn_topic topic c) ∧ c_history (learn_topic topic c) = c_history c.
Proof.
  intros Hb Hr Hm Hmet. unfold learn_topic. case_dec as Hk.
  - split; [|done]. split; [done|done|done|]. eapply Forall_impl; [exact Hmet|]. intros p [H'|H']; [done|by rewrite H'].
  - split; [|done]. destruct Hm as [Hn Hkn _ _]. apply applyFilters_ok; cbn [c_history c_menu c_known]; [done| | |].
    + rewrite fmap_app. cbn. apply NoDup_app. split_and!; [done| |apply NoDup_singleton].
      intros l Hl ->%list_elem_of_singleton. apply Hk, Hkn, Hl.
    + intros l. rewrite fmap_app, elem_of_app, elem_of_union, elem_of_singleton, Hkn. cbn. rewrite list_elem_of_singleton. tauto.
    + eapply Forall_impl; [exact Hmet|]. intros p [H'|H']; apply elem_of_union; [by right|left; rewrite H'; by apply elem_of_singleton].
Qed.

Lemma show_stats_ok p c : capture_ok c → capture_ok (show_stats p c) ∧ c_history (show_stats p c) = c_history c.
Proof.
  intros Hok. unfold show_stats. case_decide; [|done]. destruct (_ ≫= _); [|done]. split; [|done].
  destruct Hok as [Hb Hr [Hn Hk Ha Hs] Hm]. by split.
Qed.

(** A packet is appended; when the bound is passed, one chunk of the oldest goes. *)
Lemma onNewPacket_spec p c :
  capture_ok c →
  capture_ok (onNewPacket p c) ∧
  ∃ k, k ≤ 1 ∧ c_history (onNewPacket p c) = drop (k * TrimChunk) (c_history c ++ [p]) ∧
    (k = 1 → length (c_history (onNewPacket p c)) = S MaxPacketHistory - TrimChunk).
Proof.
  intros [Hb Hr Hm Hmet].
  assert (c_history (packet_added p c) = c_history c ++ [p]) as Eh by done.
  destruct (trim_history_spec (packet_added p c)) as (k & Hk & Eh' & Hr' & Hb' & Hk' & Ef & Ek & Em & Et).
  { rewrite Eh, length_app. cbn. lia. }
  { by apply packet_added_rows. }
  unfold onNewPacket. set (c1 := trim_history (packet_added p c)) in *.
  destruct (learn_topic_ok (ip_topic p) c1) as [Hok Eh2]; [done|done| | |].
  - destruct Hm as [Hn Hkn Ha Hs]. split; rewrite ?Ef, ?Ek, ?Em, ?Et; done.
  - rewrite Eh', Ek, Eh. apply Forall_drop, Forall_app. split; [|apply Forall_singleton; by right].
    eapply Forall_impl; [exact Hmet|]. by left.
  - destruct (show_stats_ok p _ Hok) as [Hok' Eh3]. split; [done|]. exists k. rewrite Eh3, Eh2. split_and!; [done| |done].
    by rewrite Eh', Eh.
Qed.

(** *** The view shows what was asked for *)

Lemma accepts_matches c p : capture_ok c → p ∈ c_history c → accepts (c_filter c) p = true ↔ matches c p.
Proof.
  intros [_ _ [Hn Hk Ha Hs] Hm] Hp. unfold accepts, matches, checked. rewrite Hs. cbv zeta.
  assert (topic_label (ip_topic p) ∈ c_known c) as Hin by (by eapply (proj1 (Forall_forall _ _) Hm)).
  apply Hk, list_elem_of_fmap in Hin as ([l b] & E & Hin). cbn in E. rewrite <-E in Hin. specialize (Ha _ _ Hin).
  rewrite andb_true_iff, !orb_true_iff, !bool_decide_eq_true, Ha.
  assert ((topic_label (ip_topic p), true) ∈ c_menu c ↔ b = true) as ->; [|tauto].
  split; [intros Ht; by eapply (NoDup_fst_value (c_menu c))|by intros <-].
Qed.

Lemma view_matches c r : capture_ok c → selected_packet (Some r) c = filter (matches c) (c_history c) !! r.
Proof.
  intros Hok. unfold selected_packet. cbn. rewrite (capture_rows _ Hok), mapToSource_filter. f_equal.
  apply filter_ext_in. intros p Hp. by apply accepts_matches.
Qed.
End view.

(** ** The window *)

Section qmap_lemmas.
Context `{!Qt} {B : Type}.
Implicit Types (m : list (string * B)).

Lemma qmap_find_Some k m v : qmap_find k m = Some v → (k, v) ∈ m.
Proof.
  unfold qmap_find. destruct (list_find _ m) as [[i [k' v']]|] eqn:E; [|done]. cbn. intros [= ->].
  apply list_find_Some in E as (Hi & Hk & _). cbn in Hk. subst k'. by eapply list_elem_of_lookup_2.
Qed.

Lemma qmap_find_None k m : qmap_find k m = None → k ∉ m.*1.
Proof.
  unfold qmap_find. destruct (list_find _ m) as [[i e]|] eqn:E; [done|]. intros _ ([k' v] & -> & Hin)%list_elem_of_fmap.
  apply list_find_None in E. rewrite Forall_forall in E. by eapply E.
Qed.

Lemma qmap_add_perm k v m : qmap_add k v m ≡ₚ (k, v) :: m.
Proof. induction m as [|e m IH]; [done|]. cbn [qmap_add]. destruct (qless k e.1); [done|]. rewrite IH. apply Permutation_swap. Qed.

Lemma qmap_insert_keys k v m : NoDup m.*1 → NoDup (qmap_insert k v m).*1.
Proof.
  intros Hn. unfold qmap_insert. case_dec as Hk.
  - rewrite <-list_fmap_compose. erewrite list_fmap_ext; [exact Hn|]. intros i [k' v'] _. cbn. by case_decide.
  - rewrite qmap_add_perm. cbn. by apply NoDup_cons.
Qed.

Lemma qmap_insert_Forall (P : string * B → Prop) k v m : P (k, v) → Forall P m → Forall P (qmap_insert k v m).
Proof.
  intros Hp Hm. unfold qmap_insert. case_dec.
  - apply Forall_fmap. eapply Forall_impl; [exact Hm|]. intros e He. cbn. by case_decide.
  - rewrite qmap_add_perm. by apply Forall_cons.
Qed.

(** Replacing a value by one that looks the same changes nothing that is seen. *)
Lemma qmap_insert_same {C} (f : B → C) k v old m :
  NoDup m.*1 → qmap_find k m = Some old → f v = f old → f ∘ snd <$> qmap_insert k v m = f ∘ snd <$> m.
Proof.
  intros Hn Hf%qmap_find_Some He. unfold qmap_insert. rewrite decide_True by (apply list_elem_of_fmap; by exists (k, old)).
  rewrite <-list_fmap_compose. apply list_fmap_ext. intros i [k' v'] Hi. cbn. case_decide as Hk; [|done]. cbn. subst k'.
  rewrite He. f_equal. eapply NoDup_fst_value; [exact Hn|exact Hf|]. by eapply list_elem_of_lookup_2.
Qed.
End qmap_lemmas.

Section window_lemmas.
Context `{!Qt} `{!QtLaws} `{!Reflection} {W : Type} `{!WorkerInterface W} {S : Type} `{!ZmqReceiver S} `{!ProtobufRuntime}.
Context (local_tap : string) (local_nonempty : local_tap ≠ EmptyString).
Implicit Types (w : MainWindow W S).

Record brokers_ok (bs : list (string * DiscoveredBroker)) : Prop := {
  brokers_once : NoDup bs.*1;
  brokers_uuid : Forall (λ e, db_uuid e.2 = e.1) bs
}.

(** The entry selected is the broker attached to; none is when that broker is not listed. *)
Definition index_ok w : Prop :=
  match mw_index w with
  | Some i => ∃ item, mw_selector w !! i = Some item ∧ si_data item = mw_currentEndpoint w
  | None => Forall (λ item, si_data item ≠ mw_currentEndpoint w) (mw_selector w)
  end.

Record window_ok w : Prop := {
  window_capture : capture_ok (mw_capture w);
  window_brokers : brokers_ok (mw_brokers w);
  window_items : mw_selector w = selector_items local_tap (mw_brokers w);
  window_index : index_ok w;
  window_attached : mw_currentEndpoint w ≠ EmptyString ∧ iw_endpoint (mw_worker w) = mw_currentEndpoint w;
  window_injector : is_Some (mw_injector w)
}.

Lemma with_capture_ok c w : capture_ok c → window_ok w → window_ok (with_capture c w).
Proof. intros Hc [_ Hb Hs Hi Ha Hj]. by split. Qed.

Lemma with_posted_ok posted w : window_ok w → window_ok (with_posted posted w).
Proof. intros [Hc Hb Hs Hi Ha Hj]. by split. Qed.

Lemma with_worker_ok worker w : iw_endpoint worker = mw_currentEndpoint w → window_ok w → window_ok (with_worker worker w).
Proof. intros He [Hc Hb Hs Hi [Ha _] Hj]. by split. Qed.

Lemma with_injector_ok injector address w : window_ok w → window_ok (with_injector (Some injector) address w).
Proof. intros [Hc Hb Hs Hi Ha Hj]. by split. Qed.

Lemma retargetInjector_ok address w :
  (is_Some (mw_injector w) → window_ok w) → (∀ injector, window_ok (with_injector (Some injector) address w)) →
  window_ok (retargetInjector address w).
Proof.
  intros Hw Hi. unfold retargetInjector. destruct (mw_injector w) eqn:E; [case_decide; [apply Hw; by eexists|]|]; apply Hi.
Qed.

(** *** The selector *)

Lemma refreshed_index items current :
  match fst <$> list_find (λ item, si_data item = current) items with
  | Some i => ∃ item, items !! i = Some item ∧ si_data item = current
  | None => Forall (λ item, si_data item ≠ current) items
  end.
Proof.
  destruct (list_find _ items) as [[i item]|] eqn:E; cbn.
  - apply list_find_Some in E as (Hi & Hd & _). by exists item.
  - by apply list_find_None in E.
Qed.

(** Rebuilding the list puts the selector right. *)
Lemma refreshBrokerList_ok bs w :
  capture_ok (mw_capture w) → brokers_ok bs → mw_currentEndpoint w ≠ EmptyString ∧ iw_endpoint (mw_worker w) = mw_currentEndpoint w →
  is_Some (mw_injector w) → window_ok (refreshBrokerList local_tap (with_brokers bs w)).
Proof. intros Hc Hb Ha Hj. split; try done. apply refreshed_index. Qed.

Lemma onBeaconHeard_ok now ip heard w : window_ok w → window_ok (onBeaconHeard local_tap now ip heard w).
Proof.
  intros [Hc [Hn Hu] Hs Hi Ha Hj]. unfold onBeaconHeard. set (uuid := fromStdString (bc_uuid heard)). set (broker := mkDiscovered _ _ _ _ _). cbv zeta.
  assert (brokers_ok (qmap_insert uuid broker (mw_brokers w))) as Hb'.
  { split; [by apply qmap_insert_keys|by apply qmap_insert_Forall]. }
  destruct (qmap_find uuid (mw_brokers w)) as [old|] eqn:Ef; [|by apply refreshBrokerList_ok].
  case_match eqn:Ech; [by apply refreshBrokerList_ok|].
  apply orb_false_iff in Ech as [[E1%bool_decide_eq_false E2%bool_decide_eq_false]%orb_false_iff _].
  apply dec_stable in E1, E2. assert (db_uuid old = uuid) as E3.
  { apply qmap_find_Some in Ef. rewrite Forall_forall in Hu. by apply (Hu (uuid, old)). }
  split; try done. cbn [with_brokers mw_selector mw_brokers]. rewrite Hs. unfold selector_items. f_equal. symmetry.
  eapply qmap_insert_same; [done|exact Ef|]. unfold broker_item. by rewrite E1, E2, E3.
Qed.

Lemma expireDiscoveredBrokers_ok now w : window_ok w → window_ok (expireDiscoveredBrokers local_tap now w).
Proof.
  intros [Hc [Hn Hu] Hs Hi Ha Hj]. unfold expireDiscoveredBrokers. set (kept := filter _ _).
  assert (brokers_ok kept) as Hb'.
  { split; [by apply NoDup_fmap_filter|]. rewrite Forall_forall in *. intros e [_ He]%list_elem_of_filter. by apply Hu. }
  case_bool_decide as El; cbn [negb]; [|by apply refreshBrokerList_ok].
  assert (kept = mw_brokers w) as Ek.
  { by apply filter_same_length. }
  rewrite Ek. by split.
Qed.

(** *** Attaching *)

Lemma worker_turn_ok look w : window_ok w → window_ok (worker_turn look w).
Proof.
  intros Hok. unfold worker_turn. destruct (run_turn look (mw_worker w)) as [emitted worker] eqn:E.
  apply with_posted_ok, with_worker_ok; [|done]. rewrite <-(proj2 (window_attached _ Hok)). unfold run_turn in E.
  destruct (iw_socket _); [|by simplify_eq]. destruct look as [stamp|[]]; [|by simplify_eq..].
  destruct (recv _). by simplify_eq.
Qed.

Lemma wait_worker_ok inFlight w : window_ok w → window_ok (wait_worker inFlight w).
Proof.
  intros Hok. unfold wait_worker. assert (window_ok (match inFlight with Some look => worker_turn look w | None => w end)) as Hok'
    by (destruct inFlight; [by apply worker_turn_ok|done]).
  apply with_worker_ok; [|done]. by apply window_attached.
Qed.

(** Attaching leaves everything but the selector's index right. *)
Lemma attachTo_ok inFlight endpoint index w :
  window_ok w → endpoint ≠ EmptyString → (∃ item, mw_selector w !! index = Some item ∧ si_data item = endpoint) →
  window_ok (attachTo inFlight endpoint (with_selector (mw_selector w) (Some index) w)).
Proof.
  intros Hok He Hitem. unfold attachTo. cbn [with_selector mw_currentEndpoint]. case_dec as Heq.
  { destruct Hok as [Hc Hb Hs Hi Ha Hj]. split; try done. unfold index_ok. cbn. by rewrite <-Heq. }
  set (w1 := with_worker (stopWorker (mw_worker (with_selector (mw_selector w) (Some index) w)))
    (with_selector (mw_selector w) (Some index) w)).
  assert (let w2 := wait_worker inFlight w1 in mw_capture w2 = mw_capture w ∧ mw_brokers w2 = mw_brokers w ∧
    mw_selector w2 = mw_selector w ∧ mw_index w2 = Some index ∧ mw_injector w2 = mw_injector w) as (E1 & E2 & E3 & E4 & E5).
  { unfold wait_worker. destruct inFlight as [look|]; [|done]. unfold worker_turn. by destruct (run_turn _ _). }
  set (w2 := wait_worker inFlight w1) in *. clearbody w2. destruct Hok as [Hc Hb Hs Hi Ha Hj].
  match goal with |- window_ok (retargetInjector ?a ?x) => set (w3 := x); set (address := a) end.
  assert (∀ injector addr, window_ok (with_injector (Some injector) addr w3)) as H3.
  { intros injector addr. split; cbn; rewrite ?E1, ?E2, ?E3; [by apply clearCapture_ok|done|done| |done|done].
    unfold index_ok. cbn. by rewrite E4, E3. }
  apply retargetInjector_ok; [|intros; apply H3]. intros [injector Hin].
  destruct (H3 injector EmptyString) as [? ? ? ? ? ?]. split; try done.
Qed.

Lemma user_selects_ok inFlight index w : window_ok w → window_ok (user_selects inFlight index w).
Proof.
  intros Hok. unfold user_selects. destruct (mw_selector w !! index) as [item|] eqn:Ei; [|done].
  case_match eqn:Een; [|done]. apply andb_true_iff in Een as [Een _].
  unfold onBrokerSelected. cbn [with_selector mw_selector]. rewrite Ei. cbn.
  assert (si_data item ≠ EmptyString) as Hd; [|rewrite decide_False by done; apply attachTo_ok; eauto].
  rewrite (window_items _ Hok) in Ei. apply list_elem_of_lookup_2 in Ei. unfold selector_items in Ei.
  apply elem_of_cons in Ei as [->|([k b] & -> & Hin)%list_elem_of_fmap]; [exact local_nonempty|].
  revert Een. cbn. unfold broker_item. by case_decide.
Qed.

Lemma replaySelectedMessage_ok word1 word2 sel w : window_ok w → window_ok (replaySelectedMessage word1 word2 sel w).
Proof.
  intros Hok. unfold replaySelectedMessage. destruct (selected_packet _ _); [|done]. destruct (mw_injector w); [|done].
  by apply with_injector_ok.
Qed.

Lemma deliver_ok now w : window_ok w → window_ok (deliver local_tap now w).
Proof.
  intros Hok. unfold deliver. destruct (mw_posted w) as [|[p|ip heard] posted]; [done|..].
  - apply with_capture_ok; [|by apply with_posted_ok]. apply onNewPacket_spec, Hok.
  - by apply onBeaconHeard_ok, with_posted_ok.
Qed.

Lemma window_step_ok w e : window_ok w → window_ok (window_step local_tap w e).
Proof.
  intros Hok. pose proof (window_capture _ Hok) as Hc. destruct e; cbn [window_step].
  - case_match; [|done]. by apply with_worker_ok; [apply window_attached|].
  - case_match; [by apply worker_turn_ok|done].
  - by apply with_posted_ok.
  - by apply deliver_ok.
  - by apply expireDiscoveredBrokers_ok.
  - by apply user_selects_ok.
  - by apply with_capture_ok; [apply filter_text_changed_ok|].
  - by apply with_capture_ok; [apply topic_toggled_ok|].
  - by apply with_capture_ok; [apply onSelectionChanged_ok|].
  - by apply replaySelectedMessage_ok.
Qed.

Lemma new_window_ok : window_ok (new_window local_tap).
Proof.
  split; [apply new_capture_ok|split; [apply NoDup_nil_2|apply Forall_nil_2]|done| |done|by eexists].
  exists (local_item local_tap). done.
Qed.

Lemma window_run_ok es w : window_ok w → window_ok (window_run local_tap es w).
Proof. revert w. induction es as [|e es IH]; intros w Hok; [done|]. apply IH. by apply window_step_ok. Qed.
End window_lemmas.

(** A number of packets delivered one after the other. *)
Lemma onNewPackets_spec `{!Qt} `{!QtLaws} `{!Reflection} ps c :
  capture_ok c →
  let c' := foldl (λ c p, onNewPacket p c) c ps in
  capture_ok c' ∧ ∃ k, k * TrimChunk ≤ length (c_history c ++ ps) ∧
    c_history c' = drop (k * TrimChunk) (c_history c ++ ps) ∧ (k = 0 ∨ S MaxPacketHistory - TrimChunk ≤ length (c_history c')).
Proof.
  intros Hok. induction ps as [|p ps IH] using rev_ind; cbn zeta in *.
  { split; [done|]. exists 0. rewrite app_nil_r. split_and!; [lia|done|by left]. }
  rewrite foldl_app. cbn [foldl]. set (c1 := foldl _ c ps) in *. destruct IH as (Hok1 & k & Hk & Eh & Hl).
  destruct (onNewPacket_spec p c1 Hok1) as (Hok2 & k' & Hk' & Eh' & Hl'). split; [done|]. exists (k + k').
  pose proof (f_equal length Eh) as El. rewrite length_drop in El. pose proof (f_equal length Eh') as El'.
  rewrite length_drop, length_app in El'. cbn in El'. rewrite app_assoc.
  assert (k' = 0 ∨ k' = 1) as [->| ->] by lia.
  - rewrite Nat.add_0_r, length_app. split_and!; [lia| |destruct Hl; [by left|right; lia]].
    rewrite Eh', Eh. change (0 * TrimChunk) with 0. cbn [drop]. symmetry. by apply drop_app_le.
  - specialize (Hl' eq_refl). split_and!; [|  |right; lia].
    + rewrite length_app. cbn [length]. rewrite Hl' in El'. unfold MaxPacketHistory, TrimChunk in *. lia.
    + rewrite Eh', Eh, <-(drop_app_le _ _ (k * TrimChunk)) by done. rewrite drop_drop. f_equal. lia.
Qed.

Lemma str_contains_prefix p s : str_contains p (p +:+ s) = true.
Proof. destruct (p +:+ s) eqn:E; cbn; rewrite <-E, starts_with_app; done. Qed.

Lemma replayed_sender word1 word2 p : str_contains "REPLAY_" (sender_id (env_header (replayed_packet word1 word2 p))) = true.
Proof. cbn [replayed_packet env_header sender_id]. destruct (str_contains "REPLAY_" (sender_id (ip_header p))) eqn:E; [done|]. apply (str_contains_prefix "REPLAY_"). Qed.

(** ** Properties *)

(** C31: The inspector shows what it was asked to show, whatever the order of packets,
    beacons, timers and clicks.  The rows of the view are exactly the captured packets whose
    topic is checked in the menu and whose sender, key or topic contains the text of the
    filter bar, in order; at most 100000 packets are held; the selector lists the local
    broker and every broker known, and the entry selected is the one attached to, none when
    it is not in the list; the reader's endpoint is that of the broker attached to. *)
Theorem inspector_shows_matching `{!Qt} `{!QtLaws} `{!Reflection} {W} `{!WorkerInterface W} {S} `{!ZmqReceiver S} `{!ProtobufRuntime}
    (local_tap : string) (es : list WindowEvent) :
  local_tap ≠ EmptyString →
  let w : MainWindow W S := window_run local_tap es (new_window local_tap) in
  let c := mw_capture w in
  (∀ r, selected_packet (Some r) c = filter (matches c) (c_history c) !! r) ∧
  length (c_history c) ≤ MaxPacketHistory ∧
  mw_selector w = selector_items local_tap (mw_brokers w) ∧ index_ok w ∧
  iw_endpoint (mw_worker w) = mw_currentEndpoint w.
Proof.
  intros Hl. cbv zeta. pose proof (window_run_ok local_tap Hl es _ (new_window_ok (W := W) (S := S) local_tap Hl)) as Hok.
  set (w := window_run _ _ _) in *. clearbody w. pose proof (window_capture _ _ Hok) as Hc. split_and!.
  - intros r. by apply view_matches.
  - apply Hc.
  - apply Hok.
  - apply Hok.
  - apply Hok.
Qed.

(** The capture keeps the newest packets.  After any number of packets it holds a
    suffix of all that were delivered, in order, from which whole chunks of the oldest ten
    thousand have been dropped; nothing is dropped before the bound is reached, and never
    are fewer than the ninety thousand newest held once something was. *)
Theorem capture_keeps_newest `{!Qt} `{!QtLaws} `{!Reflection} (c : Capture) (ps : list InspectorPacket) :
  capture_ok c →
  let c' := foldl (λ c p, onNewPacket p c) (clearCapture c) ps in
  length (c_history c') ≤ MaxPacketHistory ∧
  ∃ k, c_history c' = drop (k * TrimChunk) ps ∧ (k = 0 ∨ MaxPacketHistory - TrimChunk < length (c_history c')) ∧
    (length ps ≤ MaxPacketHistory → c_history c' = ps).
Proof.
  intros Hok. cbv zeta. destruct (onNewPackets_spec ps (clearCapture c)) as (Hok' & k & Hk & Eh & Hl); [by apply clearCapture_ok|].
  cbn [clearCapture c_history app] in *. split; [apply Hok'|]. exists k. split_and!; [done| |].
  - destruct Hl as [?|Hl]; [by left|right]. unfold MaxPacketHistory, TrimChunk in *. lia.
  - intros Hps. rewrite Eh. destruct Hl as [->|Hl]; [done|]. pose proof (f_equal length Eh) as El. rewrite length_drop in El.
    destruct k as [|k]; [done|]. unfold MaxPacketHistory, TrimChunk in *. lia.
Qed.

(** A packet of the broker left behind is shown as the new broker's.  The reader posts its
    packets to the window's thread; one that is still in the queue when the user attaches to
    another broker is delivered after the capture was cleared, so it is in the new capture
    although the reader of the new broker has read nothing yet. *)
Theorem attach_mixes_capture `{!Qt} `{!Reflection} {W} `{!WorkerInterface W} {S} `{!ZmqReceiver S} `{!ProtobufRuntime}
    (local_tap endpoint : string) (now : Z) (p : InspectorPacket) (posted : list Posted) (w : MainWindow W S) :
  mw_posted w = PacketReceived p :: posted → endpoint ≠ mw_currentEndpoint w →
  let w' := deliver local_tap now (attachTo None endpoint w) in
  mw_currentEndpoint w' = endpoint ∧ c_history (mw_capture w') = [p] ∧ iw_read (mw_worker w') = [] ∧
  iw_socket (mw_worker w') = None.
Proof.
  intros Hp He. cbv zeta. set (w1 := attachTo None endpoint w).
  assert (mw_posted w1 = mw_posted w ∧ mw_currentEndpoint w1 = endpoint ∧ c_history (mw_capture w1) = [] ∧
    iw_read (mw_worker w1) = [] ∧ iw_socket (mw_worker w1) = None) as (E1 & E2 & E3 & E4 & E5).
  { unfold w1, attachTo. rewrite decide_False by done. unfold retargetInjector. destruct (mw_injector _); [case_decide|]; done. }
  clearbody w1. unfold deliver. rewrite E1, Hp. cbn [with_capture with_posted mw_currentEndpoint mw_worker mw_capture].
  split_and!; try done. unfold onNewPacket. set (c := packet_added p (mw_capture w1)).
  assert (c_history (trim_history c) = [p]) as Et.
  { unfold trim_history. assert (c_history c = [p]) as -> by (unfold c, packet_added; cbn; by rewrite E3).
    rewrite decide_False by (cbn; unfold MaxPacketHistory; lia). unfold c, packet_added. cbn. by rewrite E3. }
  unfold show_stats, learn_topic. repeat case_match; exact Et.
Qed.

(** A replayed message is the selected one.  Replaying the selected row hands the injector
    one message with the payload, key, topic, reply topic and origin of the packet of that
    row and a new id, as a control message exactly when its key is one; its sender is marked,
    and replaying the replayed message does not mark it again. *)
Theorem replay_selected `{!Qt} `{!Reflection} {W} `{!WorkerInterface W} `{!WorkerLaws W} {S} word1 word2 sel (p : InspectorPacket)
    (injector : W) (w : MainWindow W S) :
  selected_packet sel (mw_capture w) = Some p → mw_injector w = Some injector →
  let env := replayed_packet word1 word2 p in
  (env_payload env = ip_payload p ∧ handler_key (env_header env) = handler_key (ip_header p) ∧
   topic (env_header env) = topic (ip_header p) ∧ reply_topic (env_header env) = reply_topic (ip_header p) ∧
   message_uuid (env_header env) = generateBinaryUUID word1 word2) ∧
  str_contains "REPLAY_" (sender_id (env_header env)) = true ∧
  (∀ word1' word2' stamp n, sender_id (env_header (replayed_packet word1' word2' (packet_of stamp env n))) = sender_id (env_header env)) ∧
  ∃ injector' ok, mw_injector (replaySelectedMessage word1 word2 sel w) = Some injector' ∧
    let taken := if (ok : bool) then [env] else [] in
    if Keys.isControlMessage (handler_key (ip_header p))
    then control_written injector' = control_written injector ++ taken ∧ data_written injector' = data_written injector
    else data_written injector' = data_written injector ++ taken ∧ control_written injector' = control_written injector.
Proof.
  intros Hs Hi. cbv zeta. split; [done|]. split; [apply replayed_sender|]. split.
  { intros word1' word2' stamp n. pose proof (replayed_sender word1 word2 p) as Hm. revert Hm.
    generalize (replayed_packet word1 word2 p). intros env Hm. unfold replayed_packet at 1, packet_of. cbn [ip_header env_header sender_id].
    by rewrite Hm. }
  unfold replaySelectedMessage. rewrite Hs, Hi. set (env := replayed_packet word1 word2 p).
  change (handler_key (env_header env)) with (handler_key (ip_header p)).
  destruct (Keys.isControlMessage (handler_key (ip_header p))).
  - destruct (writeControlMessage env injector) as [ok i] eqn:E. exists i, ok. split; [done|].
    pose proof (writeControlMessage_data env injector) as Hd. rewrite E in Hd. by apply writeControlMessage_law in E as [-> _].
  - destruct (writeMessage env injector) as [ok i] eqn:E. exists i, ok. split; [done|]. by apply writeMessage_law in E as (-> & -> & _).
Qed.

(** ** Witnesses *)

Definition demo_qt : Qt :=
  {| fromStdString := λ s, s; toLower := Logger.lower; qleft := str_take; kilobytes := λ n, to_string (Z.of_nat (n / 1024)); qless := str_lt |}.

Lemma demo_qt_laws : @QtLaws demo_qt.
Proof. done. Qed.

Definition demo_reflection : Reflection :=
  {| parse_any := λ _, None; find_message_type := λ _, false; unpack_dynamic := λ _ _, None; unpack_stats := λ _, None;
     print_string := λ s, s |}.

Definition demo_packet (topic : string) : InspectorPacket :=
  mkPacket "12:00:00.000" "sensor" topic topic 10 (mkHeader topic "sensor" topic EmptyString "id" EmptyString) "x".

Lemma inspector_shows_matching_witness :
  let w := @window_run demo_qt demo_reflection DemoWorker demo_worker DemoReceiver demo_receiver demo_runtime "ipc:///tap"
    [Beacons "10.0.0.2" (mkBeacon "lab" "0123456789" 5555 6000); Deliver 0; UserSelects None 1; ThreadConnects None; UserTypes "SEN";
     ExpiryTimer 20000] (new_window "ipc:///tap") in
  mw_currentEndpoint w = "tcp://10.0.0.2:6000"%string ∧ mw_index w = None ∧ index_ok w.
Proof.
  set (es := [_; _; _; _; _; _]).
  pose proof (@inspector_shows_matching demo_qt demo_qt_laws demo_reflection DemoWorker demo_worker DemoReceiver demo_receiver demo_runtime
    "ipc:///tap" es ltac:(discriminate)) as (_ & _ & _ & Hi & _).
  split; [vm_compute; reflexivity|]. split; [vm_compute; reflexivity|exact Hi].
Defined.

Lemma capture_keeps_newest_witness :
  c_history (foldl (λ c p, @onNewPacket demo_qt demo_reflection p c) (clearCapture (@new_capture)) [demo_packet "a"; demo_packet "b"]) =
    [demo_packet "a"; demo_packet "b"].
Proof.
  destruct (@capture_keeps_newest demo_qt demo_qt_laws demo_reflection new_capture [demo_packet "a"; demo_packet "b"]
    (@new_capture_ok demo_qt demo_qt_laws)) as (_ & k & _ & _ & H).
  apply H. cbn [length]. unfold MaxPacketHistory. lia.
Defined.

Definition demo_window : MainWindow DemoWorker DemoReceiver :=
  with_capture (@onNewPacket demo_qt demo_reflection (demo_packet "b") new_capture)
    (with_posted [PacketReceived (demo_packet "a")] (new_window "ipc:///tap")).

Lemma attach_mixes_capture_witness :
  c_history (mw_capture (@deliver demo_qt demo_reflection _ _ "ipc:///tap" 0
    (@attachTo _ demo_worker _ demo_receiver demo_runtime None "tcp://10.0.0.2:6000" demo_window))) = [demo_packet "a"].
Proof.
  apply (@attach_mixes_capture demo_qt demo_reflection DemoWorker demo_worker DemoReceiver demo_receiver demo_runtime "ipc:///tap"
    "tcp://10.0.0.2:6000" 0 (demo_packet "a") [] demo_window); [reflexivity|discriminate].
Defined.

Lemma replay_selected_witness :
  ∃ injector, mw_injector (replaySelectedMessage 1 2 (Some 0) demo_window) = Some injector ∧
    data_written injector = [replayed_packet 1 2 (demo_packet "b")].
Proof.
  destruct (@replay_selected demo_qt demo_reflection DemoWorker demo_worker demo_worker_laws DemoReceiver 1 2 (Some 0) (demo_packet "b")
    (new_worker (default_config DEFAULT_ROUTER "Inspector-Replay")) demo_window) as (_ & _ & _ & injector & ok & E & _ & _);
    [vm_compute; reflexivity|reflexivity|].
  exists injector. split; [exact E|]. vm_compute in E. injection E as <-. vm_compute. reflexivity.
Defined.
